(** * c-hashmap: a shallow embedding of [hashmap.h] and [_hashmap.h]

    The library is a set of GNU C statement-expression macros over three
    structs (table entry, entry-order list node, hashmap).  The macros are
    embedded as state-passing functions over an explicit heap: every
    [calloc] and [free] of the source is a heap operation here, pointers are
    addresses, and an access to memory that is not live is undefined
    behaviour ([None]).

    Data model: LP64 ([size_t] is an unsigned 64-bit integer, [long long] a
    signed one, [double] is IEEE binary64).  Keys and values are carried as
    integers: a [long long] key is its value, a pointer key its address.
    The [==] of two keys is the equality of these integers, as it is in the
    source for [long long] and pointer keys.  For [double] keys the source
    compares by the IEEE rules, under which a NaN differs from itself and the
    two zeros are equal: the hash of a [double] key is embedded here, its
    comparison is not, and every theorem about a map is stated for a map of
    [long long] keys ([HASHMAP_INIT IntegerKey]). *)

From Stdlib Require Import ZArith Lia SpecFloat.
From stdpp Require Import gmap list.

Open Scope Z_scope.

(** ** Machine integers, pointers and doubles *)

(** A pointer is an address; [NULL] is address 0. *)
Abbreviation ptr := Z (only parsing).
Definition NULL : ptr := 0.

Definition SIZE_MAX : Z := 2 ^ 64 - 1.

(** Conversion of an integer to [size_t] (reduction modulo 2^64). *)
Definition to_size_t (z : Z) : Z := z mod 2 ^ 64.

Definition double := spec_float.

(** [(double) n] for an unsigned integer [n]: round to nearest, ties to even. *)
Definition double_of_size_t (n : Z) : double := binary_normalize 53 1024 n 0 false.

Definition double_div : double → double → double := SFdiv 53 1024.

(** [x >= y] on doubles (false as soon as one side is a NaN). *)
Definition double_ge (x y : double) : bool := SFleb y x.

(** ** Constants of [_hashmap.h] *)

Definition _DEFAULT_TABLE_SIZE : Z := 15.

(** The literal [0.75], which is 3 * 2^51 * 2^-53. *)
Definition _LOAD_FACTOR_LIM : double := S754_finite false 6755399441055744 (-53).

(** ** The hash functions of [_hashmap.h]

    A remainder by zero is undefined behaviour. *)

(** [val % table_size]: [val] is a [long long] and [table_size] a [size_t]
    of the same rank, so [val] is converted to [size_t] first. *)
Definition _hash_long_long (table_size val : Z) : option Z :=
  if table_size =? 0 then None
  else Some (to_size_t val mod table_size).

(** [val_bits.s % table_size], where [val] is given by its 64 bits. *)
Definition _hash_double (table_size val_bits : Z) : option Z :=
  if table_size =? 0 then None
  else Some (to_size_t val_bits mod table_size).

(** [(((size_t) ptr * 6) % (table_size * 2)) % table_size] *)
Definition _hash_ptr (table_size p : Z) : option Z :=
  if to_size_t (table_size * 2) =? 0 then None
  else if table_size =? 0 then None
  else Some ((to_size_t (to_size_t p * 6) mod to_size_t (table_size * 2)) mod table_size).

(** A pointer to one of these functions, or a pointer that was never set.
    Calling through the latter is undefined. *)
Inductive hash_fn := Hash_unset | Hash_long_long | Hash_double | Hash_ptr.

Definition call_hash (f : hash_fn) (table_size k : Z) : option Z :=
  match f with
  | Hash_unset => None
  | Hash_long_long => _hash_long_long table_size k
  | Hash_double => _hash_double table_size k
  | Hash_ptr => _hash_ptr table_size k
  end.

(** ** The structs of [hashmap.h] *)

(** [struct entry_t_name], from [HASHMAP_ENTRY]. *)
Record entry_t := { key : Z; value : Z }.

(** [struct _t_##entry_t_name] *)
Record table_entry := {
  _entry : entry_t;
  _next_entry : ptr;
  _ll_node : ptr
}.

(** [struct _ll_node_##t_name] *)
Record ll_node := {
  _table_entry : ptr;
  _previous : ptr;
  _next : ptr
}.

(** [struct t_name]; the anonymous struct [_entry_ll] is flattened into
    [_head] and [_tail]. *)
Record hashmap := {
  _table_size : Z;
  _num_entries : Z;
  _head : ptr;
  _tail : ptr;
  _entry_table : ptr;
  hash_func : hash_fn
}.

(** ** The heap *)

Inductive kind := Entry | Node | Table.

(** What the allocator was asked to do: [Calloc k NULL] is a failed
    allocation. *)
Inductive event :=
  | Calloc (k : kind) (p : ptr)
  | Free (k : kind) (p : ptr).

#[global] Instance kind_eq_dec : EqDecision kind.
Proof. solve_decision. Defined.

#[global] Instance event_eq_dec : EqDecision event.
Proof. solve_decision. Defined.

(** The hashmap struct [*m], the live objects by type, the next fresh
    address, the outcomes of the coming allocations ([false]: [calloc]
    returns [NULL]; an empty list: every allocation succeeds) and the
    allocator calls made so far, oldest first. *)
Record world := {
  hm : hashmap;
  entries : gmap Z table_entry;
  nodes : gmap Z ll_node;
  tables : gmap Z (list ptr);
  brk : Z;
  oracle : list bool;
  trace : list event
}.

Definition set_hm (m : hashmap) (w : world) : world :=
  {| hm := m; entries := entries w; nodes := nodes w; tables := tables w;
     brk := brk w; oracle := oracle w; trace := trace w |}.

Definition set_entries (E : gmap Z table_entry) (w : world) : world :=
  {| hm := hm w; entries := E; nodes := nodes w; tables := tables w;
     brk := brk w; oracle := oracle w; trace := trace w |}.

Definition set_nodes (N : gmap Z ll_node) (w : world) : world :=
  {| hm := hm w; entries := entries w; nodes := N; tables := tables w;
     brk := brk w; oracle := oracle w; trace := trace w |}.

Definition set_tables (T : gmap Z (list ptr)) (w : world) : world :=
  {| hm := hm w; entries := entries w; nodes := nodes w; tables := T;
     brk := brk w; oracle := oracle w; trace := trace w |}.

Definition set_oracle (o : list bool) (w : world) : world :=
  {| hm := hm w; entries := entries w; nodes := nodes w; tables := tables w;
     brk := brk w; oracle := o; trace := trace w |}.

Definition log (ev : event) (w : world) : world :=
  {| hm := hm w; entries := entries w; nodes := nodes w; tables := tables w;
     brk := brk w; oracle := oracle w; trace := trace w ++ [ev] |}.

Definition bump (w : world) : world :=
  {| hm := hm w; entries := entries w; nodes := nodes w; tables := tables w;
     brk := brk w + 1; oracle := oracle w; trace := trace w |}.

(** ** Computations: state passing, [None] is undefined behaviour (or a loop
    that does not end) *)

Definition M (A : Type) : Type := world → option (A * world).

Definition ret {A} (a : A) : M A := λ w, Some (a, w).

Definition bind {A B} (c : M A) (k : A → M B) : M B :=
  λ w, match c w with
       | Some (a, w') => k a w'
       | None => None
       end.

Definition undefined {A} : M A := λ _, None.

Notation "x <- c ;; k" := (bind c (λ x, k))
  (at level 100, c at next level, right associativity).
Notation "c ;;; k" := (bind c (λ _, k))
  (at level 100, right associativity).

Definition get_hm : M hashmap := λ w, Some (hm w, w).
Definition put_hm (m : hashmap) : M unit := λ w, Some (tt, set_hm m w).

Definition lift {A} (o : option A) : M A :=
  λ w, match o with Some a => Some (a, w) | None => None end.

(** *** Field updates *)

Definition with_value (v : Z) (e : table_entry) : table_entry :=
  {| _entry := {| key := key (_entry e); value := v |};
     _next_entry := _next_entry e; _ll_node := _ll_node e |}.

Definition with_key (k : Z) (e : table_entry) : table_entry :=
  {| _entry := {| key := k; value := value (_entry e) |};
     _next_entry := _next_entry e; _ll_node := _ll_node e |}.

Definition with_next_entry (p : ptr) (e : table_entry) : table_entry :=
  {| _entry := _entry e; _next_entry := p; _ll_node := _ll_node e |}.

Definition with_ll_node (p : ptr) (e : table_entry) : table_entry :=
  {| _entry := _entry e; _next_entry := _next_entry e; _ll_node := p |}.

Definition with_table_entry (p : ptr) (n : ll_node) : ll_node :=
  {| _table_entry := p; _previous := _previous n; _next := _next n |}.

Definition with_previous (p : ptr) (n : ll_node) : ll_node :=
  {| _table_entry := _table_entry n; _previous := p; _next := _next n |}.

Definition with_next (p : ptr) (n : ll_node) : ll_node :=
  {| _table_entry := _table_entry n; _previous := _previous n; _next := p |}.

Definition with_table_size (n : Z) (m : hashmap) : hashmap :=
  {| _table_size := n; _num_entries := _num_entries m; _head := _head m;
     _tail := _tail m; _entry_table := _entry_table m; hash_func := hash_func m |}.

Definition with_num_entries (n : Z) (m : hashmap) : hashmap :=
  {| _table_size := _table_size m; _num_entries := n; _head := _head m;
     _tail := _tail m; _entry_table := _entry_table m; hash_func := hash_func m |}.

Definition with_head (p : ptr) (m : hashmap) : hashmap :=
  {| _table_size := _table_size m; _num_entries := _num_entries m; _head := p;
     _tail := _tail m; _entry_table := _entry_table m; hash_func := hash_func m |}.

Definition with_tail (p : ptr) (m : hashmap) : hashmap :=
  {| _table_size := _table_size m; _num_entries := _num_entries m; _head := _head m;
     _tail := p; _entry_table := _entry_table m; hash_func := hash_func m |}.

Definition with_entry_table (p : ptr) (m : hashmap) : hashmap :=
  {| _table_size := _table_size m; _num_entries := _num_entries m; _head := _head m;
     _tail := _tail m; _entry_table := p; hash_func := hash_func m |}.

Definition with_hash_func (f : hash_fn) (m : hashmap) : hashmap :=
  {| _table_size := _table_size m; _num_entries := _num_entries m; _head := _head m;
     _tail := _tail m; _entry_table := _entry_table m; hash_func := f |}.

(** *** Loads and stores: the object must be live *)

Definition load_entry (p : ptr) : M table_entry := λ w, e ← entries w !! p; Some (e, w).

Definition store_entry (p : ptr) (e : table_entry) : M unit :=
  λ w, _ ← entries w !! p; Some (tt, set_entries (<[p := e]> (entries w)) w).

Definition load_node (p : ptr) : M ll_node := λ w, n ← nodes w !! p; Some (n, w).

Definition store_node (p : ptr) (n : ll_node) : M unit :=
  λ w, _ ← nodes w !! p; Some (tt, set_nodes (<[p := n]> (nodes w)) w).

(** [t[i]] for a table [t]; an index outside the table is undefined. *)
Definition load_cell (t : ptr) (i : Z) : M ptr :=
  λ w, cells ← tables w !! t;
       if bool_decide (0 ≤ i) then c ← cells !! Z.to_nat i; Some (c, w) else None.

Definition store_cell (t : ptr) (i : Z) (p : ptr) : M unit :=
  λ w, cells ← tables w !! t;
       if bool_decide (0 ≤ i < Z.of_nat (length cells))
       then Some (tt, set_tables (<[t := <[Z.to_nat i := p]> cells]> (tables w)) w)
       else None.

(** A pointer to a pointer to an entry, as [_entry_cursor] in
    [_HASHMAP_FIND_ENTRY_RECORD]: the address of a table cell or of the
    [_next_entry] field of an entry. *)
Inductive slot :=
  | Cell (t : ptr) (i : Z)
  | NextOf (e : ptr).

Definition load_slot (s : slot) : M ptr :=
  match s with
  | Cell t i => load_cell t i
  | NextOf p => e <- load_entry p ;; ret (_next_entry e)
  end.

Definition store_slot (s : slot) (q : ptr) : M unit :=
  match s with
  | Cell t i => store_cell t i q
  | NextOf p => e <- load_entry p ;; store_entry p (with_next_entry q e)
  end.

(** *** [calloc] and [free] *)

Definition sizeof_entry : Z := 32.
Definition sizeof_node : Z := 24.
Definition sizeof_ptr : Z := 8.

(** Whether the coming allocation of [nmemb] objects of [size] bytes
    succeeds: never when the request does not fit in [size_t], otherwise as
    the oracle says. *)
Definition calloc_ok (nmemb size : Z) : M bool :=
  λ w, if bool_decide (SIZE_MAX < nmemb * size) then Some (false, w)
       else Some (hd true (oracle w), set_oracle (tl (oracle w)) w).

Definition zero_entry : table_entry :=
  {| _entry := {| key := 0; value := 0 |}; _next_entry := NULL; _ll_node := NULL |}.

Definition zero_node : ll_node :=
  {| _table_entry := NULL; _previous := NULL; _next := NULL |}.

Definition calloc_entry : M ptr :=
  ok <- calloc_ok 1 sizeof_entry ;;
  if ok : bool
  then λ w, let p := brk w in
            Some (p, log (Calloc Entry p) (bump (set_entries (<[p := zero_entry]> (entries w)) w)))
  else λ w, Some (NULL, log (Calloc Entry NULL) w).

Definition calloc_node : M ptr :=
  ok <- calloc_ok 1 sizeof_node ;;
  if ok : bool
  then λ w, let p := brk w in
            Some (p, log (Calloc Node p) (bump (set_nodes (<[p := zero_node]> (nodes w)) w)))
  else λ w, Some (NULL, log (Calloc Node NULL) w).

Definition calloc_table (nmemb : Z) : M ptr :=
  ok <- calloc_ok nmemb sizeof_ptr ;;
  if ok : bool
  then λ w, let p := brk w in
            Some (p, log (Calloc Table p)
                       (bump (set_tables (<[p := replicate (Z.to_nat nmemb) NULL]> (tables w)) w)))
  else λ w, Some (NULL, log (Calloc Table NULL) w).

(** [free(NULL)] does nothing; freeing what is not live is undefined. *)
Definition free_entry (p : ptr) : M unit :=
  λ w, if p =? NULL then Some (tt, w)
       else _ ← entries w !! p; Some (tt, log (Free Entry p) (set_entries (delete p (entries w)) w)).

Definition free_node (p : ptr) : M unit :=
  λ w, if p =? NULL then Some (tt, w)
       else _ ← nodes w !! p; Some (tt, log (Free Node p) (set_nodes (delete p (nodes w)) w)).

Definition free_table (p : ptr) : M unit :=
  λ w, if p =? NULL then Some (tt, w)
       else _ ← tables w !! p; Some (tt, log (Free Table p) (set_tables (delete p (tables w)) w)).

(** A [while] loop over a chain of entries cannot take more steps than there
    are live entries unless it runs forever; likewise for list nodes. *)
Definition entry_fuel : M nat := λ w, Some (S (size (entries w)), w).
Definition node_fuel : M nat := λ w, Some (S (size (nodes w)), w).

(** *** Single field assignments, [p->field = x] *)

Definition set_value (p : ptr) (v : Z) : M unit :=
  e <- load_entry p ;; store_entry p (with_value v e).
Definition set_key (p : ptr) (k : Z) : M unit :=
  e <- load_entry p ;; store_entry p (with_key k e).
Definition set_next_entry (p q : ptr) : M unit :=
  e <- load_entry p ;; store_entry p (with_next_entry q e).
Definition set_ll_node (p q : ptr) : M unit :=
  e <- load_entry p ;; store_entry p (with_ll_node q e).
Definition set_table_entry (p q : ptr) : M unit :=
  n <- load_node p ;; store_node p (with_table_entry q n).
Definition set_previous (p q : ptr) : M unit :=
  n <- load_node p ;; store_node p (with_previous q n).
Definition set_next (p q : ptr) : M unit :=
  n <- load_node p ;; store_node p (with_next q n).
Definition set_head (q : ptr) : M unit :=
  m <- get_hm ;; put_hm (with_head q m).
Definition set_tail (q : ptr) : M unit :=
  m <- get_hm ;; put_hm (with_tail q m).

(** [m->hash_func(m->_table_size, k)] *)
Definition call_hash_func (k : Z) : M Z :=
  m <- get_hm ;; lift (call_hash (hash_func m) (_table_size m) k).

(** ** The entry-order list macros of [_hashmap.h] *)

(** [_HASHMAP_LL_REMOVE(m, target_n_ptr)], for a [target_n_ptr] that is a
    pointer variable. *)
Definition _HASHMAP_LL_REMOVE (target_n_ptr : ptr) : M unit :=
  t <- load_node target_n_ptr ;;
  (if _previous t =? NULL then set_head (_next t)
   else set_next (_previous t) (_next t)) ;;;
  t <- load_node target_n_ptr ;;
  (if _next t =? NULL then set_tail (_previous t)
   else set_previous (_next t) (_previous t)) ;;;
  free_node target_n_ptr.

Definition _HASHMAP_LL_ADD_AFTER (node new_node : ptr) : M unit :=
  set_previous new_node node ;;;
  n <- load_node node ;;
  (if _next n =? NULL then
     set_next new_node NULL ;;;
     set_tail new_node
   else
     set_next new_node (_next n) ;;;
     set_previous (_next n) new_node) ;;;
  set_next node new_node.

Definition _HASHMAP_LL_ADD_BEFORE (node new_node : ptr) : M unit :=
  set_next new_node node ;;;
  n <- load_node node ;;
  (if _previous n =? NULL then
     set_previous new_node NULL ;;;
     set_head new_node
   else
     set_previous new_node (_previous n) ;;;
     set_next (_previous n) new_node) ;;;
  set_previous node new_node.

Definition _HASHMAP_LL_ADD_HEAD (n : ptr) : M unit :=
  m <- get_hm ;;
  if _head m =? NULL then
    set_head n ;;;
    set_tail n ;;;
    set_previous n NULL ;;;
    set_next n NULL
  else
    _HASHMAP_LL_ADD_BEFORE (_head m) n.

Definition _HASHMAP_LL_ADD_TAIL (n : ptr) : M unit :=
  m <- get_hm ;;
  if _tail m =? NULL then _HASHMAP_LL_ADD_HEAD n
  else _HASHMAP_LL_ADD_AFTER (_tail m) n.

Definition _HASHMAP_LL_PUT (entry_ptr : ptr) : M Z :=
  _new_entry_ll_node <- calloc_node ;;
  if _new_entry_ll_node =? NULL then ret (-1)
  else
    set_table_entry _new_entry_ll_node entry_ptr ;;;
    set_ll_node entry_ptr _new_entry_ll_node ;;;
    _HASHMAP_LL_ADD_TAIL _new_entry_ll_node ;;;
    ret 0.

(** ** The table macros of [_hashmap.h] *)

(** The search loop of [_HASHMAP_FIND_ENTRY_RECORD]. *)
Fixpoint find_entry_loop (fuel : nat) (k : Z) (_entry_cursor : slot) : M slot :=
  match fuel with
  | O => undefined
  | S fuel =>
      p <- load_slot _entry_cursor ;;
      if p =? NULL then ret _entry_cursor
      else
        e <- load_entry p ;;
        if key (_entry e) =? k then ret _entry_cursor
        else find_entry_loop fuel k (NextOf p)
  end.

Definition _HASHMAP_FIND_ENTRY_RECORD (k : Z) : M slot :=
  _hash_val <- call_hash_func k ;;
  m <- get_hm ;;
  fuel <- entry_fuel ;;
  find_entry_loop fuel k (Cell (_entry_table m) _hash_val).

(** The loop of [_HASHMAP_TABLE_PUT] that moves the cursor to the slot
    holding the last entry of a non-empty chain. *)
Fixpoint last_entry_loop (fuel : nat) (_table_entry_cursor : slot) : M slot :=
  match fuel with
  | O => undefined
  | S fuel =>
      p <- load_slot _table_entry_cursor ;;
      e <- load_entry p ;;
      if _next_entry e =? NULL then ret _table_entry_cursor
      else last_entry_loop fuel (NextOf p)
  end.

Definition _HASHMAP_TABLE_PUT (k v : Z) : M ptr :=
  _entry_record <- _HASHMAP_FIND_ENTRY_RECORD k ;;
  found <- load_slot _entry_record ;;
  if negb (found =? NULL) then
    set_value found v ;;;
    ret NULL
  else
    _new_entry <- calloc_entry ;;
    if negb (_new_entry =? NULL) then
      set_key _new_entry k ;;;
      set_value _new_entry v ;;;
      set_next_entry _new_entry NULL ;;;
      _hash_val <- call_hash_func k ;;
      m <- get_hm ;;
      let _table_entry_cell := Cell (_entry_table m) _hash_val in
      first <- load_slot _table_entry_cell ;;
      (if first =? NULL then
         store_slot _table_entry_cell _new_entry
       else
         fuel <- entry_fuel ;;
         _table_entry_cursor <- last_entry_loop fuel _table_entry_cell ;;
         last <- load_slot _table_entry_cursor ;;
         set_next_entry last _new_entry) ;;;
      ret _new_entry
    else ret NULL.

(** The loop of [_HASHMAP_REHASH_TABLE]; the result is [_return_val]. *)
Fixpoint rehash_loop (fuel : nat) (_ll_node_cursor : ptr) : M Z :=
  match fuel with
  | O => undefined
  | S fuel =>
      if _ll_node_cursor =? NULL then ret 0
      else
        n <- load_node _ll_node_cursor ;;
        let _table_entry' := _table_entry n in
        e <- load_entry _table_entry' ;;
        let _entry_key := key (_entry e) in
        let _entry_value := value (_entry e) in
        _rehashed_table_entry <- _HASHMAP_TABLE_PUT _entry_key _entry_value ;;
        if _rehashed_table_entry =? NULL then ret (-1)
        else
          set_table_entry _ll_node_cursor _rehashed_table_entry ;;;
          free_entry _table_entry' ;;;
          n <- load_node _ll_node_cursor ;;
          rehash_loop fuel (_next n)
  end.

Definition _HASHMAP_REHASH_TABLE : M Z :=
  m <- get_hm ;;
  fuel <- node_fuel ;;
  rehash_loop fuel (_head m).

Definition _HASHMAP_INCREASE_SIZE : M Z :=
  m <- get_hm ;;
  let _old_table_size := _table_size m in
  let _old_table := _entry_table m in
  let _new_table_size := to_size_t (_old_table_size * 2) in
  _new_table_ptr <- calloc_table _new_table_size ;;
  if negb (_new_table_ptr =? NULL) then
    put_hm (with_entry_table _new_table_ptr (with_table_size _new_table_size m)) ;;;
    _return_val <- _HASHMAP_REHASH_TABLE ;;
    free_table _old_table ;;;
    ret _return_val
  else ret (-1).

(** ** The public macros of [hashmap.h] *)

Inductive key_type := IntegerKey | FloatingPointKey | OtherKey.

Definition HASHMAP_INIT (kt : key_type) : M Z :=
  m <- get_hm ;;
  put_hm (with_hash_func
            match kt with
            | IntegerKey => Hash_long_long
            | FloatingPointKey => Hash_double
            | OtherKey => Hash_ptr
            end
            (with_tail NULL (with_head NULL
               (with_num_entries 0 (with_table_size _DEFAULT_TABLE_SIZE m))))) ;;;
  t <- calloc_table _DEFAULT_TABLE_SIZE ;;
  m <- get_hm ;;
  put_hm (with_entry_table t m) ;;;
  if t =? NULL then ret (-1) else ret 0.

(** [(double) m->_num_entries / m->_table_size] *)
Definition load_factor (m : hashmap) : double :=
  double_div (double_of_size_t (_num_entries m)) (double_of_size_t (_table_size m)).

(** The block that [HASHMAP_PUT] has in both of its branches: the table
    insertion, then the list insertion when a new entry was made. *)
Definition table_then_ll_put (k v : Z) : M Z :=
  _table_put_res <- _HASHMAP_TABLE_PUT k v ;;
  _ll_put_res <- (if negb (_table_put_res =? NULL)
                  then _HASHMAP_LL_PUT _table_put_res
                  else ret 0) ;;
  if _ll_put_res =? 0 then ret 0 else ret (-1).

Definition HASHMAP_PUT (k v : Z) : M Z :=
  m <- get_hm ;;
  let _load_factor := load_factor m in
  _return_val <-
    (if double_ge _load_factor _LOAD_FACTOR_LIM then
       _increase_size_res <- _HASHMAP_INCREASE_SIZE ;;
       if _increase_size_res =? 0 then table_then_ll_put k v
       else ret (-1)
     else table_then_ll_put k v) ;;
  m <- get_hm ;;
  put_hm (with_num_entries (to_size_t (_num_entries m + 1)) m) ;;;
  ret _return_val.

(** The search loop of [HASHMAP_GET]: the value found, if any. *)
Fixpoint get_loop (fuel : nat) (k : Z) (_table_cell : ptr) : M (option Z) :=
  match fuel with
  | O => undefined
  | S fuel =>
      if _table_cell =? NULL then ret None
      else
        e <- load_entry _table_cell ;;
        if key (_entry e) =? k then ret (Some (value (_entry e)))
        else get_loop fuel k (_next_entry e)
  end.

(** [HASHMAP_GET(result, m, k)]: [result] is what [*result] holds before the
    call; the outcome is the returned flag and what [*result] holds after. *)
Definition HASHMAP_GET (result : Z) (k : Z) : M (bool * Z) :=
  _hash_val <- call_hash_func k ;;
  m <- get_hm ;;
  _table_cell <- load_cell (_entry_table m) _hash_val ;;
  fuel <- entry_fuel ;;
  _val_search_res <- get_loop fuel k _table_cell ;;
  match _val_search_res with
  | Some v => ret (true, v)
  | None => ret (false, result)
  end.

(** [_HASHMAP_TABLE_FREE], [_HASHMAP_LL_FREE] and [HASHMAP_FREE]. *)
Fixpoint table_free_loop (fuel : nat) (_ll_node_cursor : ptr) : M unit :=
  match fuel with
  | O => undefined
  | S fuel =>
      if _ll_node_cursor =? NULL then ret tt
      else
        n <- load_node _ll_node_cursor ;;
        free_entry (_table_entry n) ;;;
        table_free_loop fuel (_next n)
  end.

Definition _HASHMAP_TABLE_FREE : M unit :=
  m <- get_hm ;;
  fuel <- node_fuel ;;
  table_free_loop fuel (_head m) ;;;
  free_table (_entry_table m).

Fixpoint ll_free_loop (fuel : nat) (_ll_node_cursor : ptr) : M unit :=
  match fuel with
  | O => undefined
  | S fuel =>
      if _ll_node_cursor =? NULL then ret tt
      else
        n <- load_node _ll_node_cursor ;;
        free_node _ll_node_cursor ;;;
        ll_free_loop fuel (_next n)
  end.

Definition _HASHMAP_LL_FREE : M unit :=
  m <- get_hm ;;
  fuel <- node_fuel ;;
  ll_free_loop fuel (_head m).

Definition HASHMAP_FREE : M unit :=
  _HASHMAP_TABLE_FREE ;;; _HASHMAP_LL_FREE.

(** ** Running the macros *)

(** A declared, not yet initialised hashmap and an empty heap; [o] tells
    which of the coming allocations fail. *)
Definition blank (o : list bool) : world :=
  {| hm := {| _table_size := 0; _num_entries := 0; _head := NULL; _tail := NULL;
              _entry_table := NULL; hash_func := Hash_unset |};
     entries := ∅; nodes := ∅; tables := ∅; brk := 1; oracle := o; trace := [] |}.

(** A sequence of [HASHMAP_PUT]s, with the returned statuses. *)
Fixpoint puts (kvs : list (Z * Z)) : M (list Z) :=
  match kvs with
  | [] => ret []
  | (k, v) :: kvs => r <- HASHMAP_PUT k v ;; rs <- puts kvs ;; ret (r :: rs)
  end.

(** Reading the map back, as the loops over the entry-order list and over
    the bucket chains do. *)

(** From a list node to the tail: the key and value of each node's entry. *)
Fixpoint ll_walk (fuel : nat) (w : world) (_ll_node_cursor : ptr) : option (list (Z * Z)) :=
  match fuel with
  | O => None
  | S fuel =>
      if _ll_node_cursor =? NULL then Some []
      else
        n ← nodes w !! _ll_node_cursor;
        e ← entries w !! _table_entry n;
        rest ← ll_walk fuel w (_next n);
        Some ((key (_entry e), value (_entry e)) :: rest)
  end.

Definition ll_traverse (w : world) : option (list (Z * Z)) :=
  ll_walk (S (size (nodes w))) w (_head (hm w)).

(** From an entry to the end of its chain. *)
Fixpoint chain_walk (fuel : nat) (w : world) (p : ptr) : option (list (Z * Z)) :=
  match fuel with
  | O => None
  | S fuel =>
      if p =? NULL then Some []
      else
        e ← entries w !! p;
        rest ← chain_walk fuel w (_next_entry e);
        Some ((key (_entry e), value (_entry e)) :: rest)
  end.

(** Every bucket chain of the current table, bucket by bucket. *)
Definition table_traverse (w : world) : option (list (list (Z * Z))) :=
  cells ← tables w !! _entry_table (hm w);
  mapM (chain_walk (S (size (entries w))) w) cells.

(** * Specification

    The predicates that tell what the heap holds, the map as a list of
    pairs, and what each macro leaves behind.  Nothing here is proved yet. *)

(** An entry as the proofs see it: its address with its key and value. *)
Abbreviation cell := (ptr * entry_t)%type (only parsing).

(** [chain E p l]: following [_next_entry] from [p] visits exactly the
    entries [l], in this order, and then reaches [NULL]. *)
Fixpoint chain (E : gmap Z table_entry) (p : ptr) (l : list cell) : Prop :=
  match l with
  | [] => p = NULL
  | (a, kv) :: l =>
      p = a ∧ a ≠ NULL ∧
      ∃ e, E !! a = Some e ∧ _entry e = kv ∧ chain E (_next_entry e) l
  end.

(** The entry at [c.1] is live and holds the key and value [c.2]. *)
Definition holds (E : gmap Z table_entry) (c : cell) : Prop :=
  ∃ e, E !! c.1 = Some e ∧ _entry e = c.2.

(** [nlist N p l]: following [_next] from [p] visits exactly the nodes
    [l.*1], whose [_table_entry] fields are [l.*2], and then reaches [NULL]. *)
Fixpoint nlist (N : gmap Z ll_node) (p : ptr) (l : list (ptr * ptr)) : Prop :=
  match l with
  | [] => p = NULL
  | (n, a) :: l =>
      p = n ∧ n ≠ NULL ∧
      ∃ nd, N !! n = Some nd ∧ _table_entry nd = a ∧ nlist N (_next nd) l
  end.

(** A hash function stays inside a table that can exist. *)
Definition hash_ok (f : Z → Z → option Z) : Prop :=
  ∀ ts k, 0 < ts → ts * sizeof_ptr ≤ SIZE_MAX → ∃ i, f ts k = Some i ∧ 0 ≤ i < ts.

(** Live objects have addresses below [brk], none at [NULL]. *)
Record heap_ok (w : world) : Prop := {
  h_brk : 0 < brk w;
  h_entries : ∀ a, is_Some (entries w !! a) → 0 < a < brk w;
  h_nodes : ∀ a, is_Some (nodes w !! a) → 0 < a < brk w;
  h_tables : ∀ a, is_Some (tables w !! a) → 0 < a < brk w
}.

(** The bucket table: [B] lists, bucket by bucket, the entries of each
    chain. *)
Record table_ok (w : world) (B : list (list cell)) : Prop := {
  t_size : 0 < _table_size (hm w) ∧ _table_size (hm w) * sizeof_ptr ≤ SIZE_MAX;
  t_hash : hash_ok (call_hash (hash_func (hm w)));
  t_cells : ∃ cells, tables w !! _entry_table (hm w) = Some cells ∧
                     Forall2 (chain (entries w)) cells B;
  t_len : Z.of_nat (length B) = _table_size (hm w);
  t_nodup : NoDup (concat B).*1;
  t_home : ∀ i b c, B !! i = Some b → c ∈ b →
           call_hash (hash_func (hm w)) (_table_size (hm w)) (key c.2) = Some (Z.of_nat i);
  t_keys : NoDup (key <$> (concat B).*2)
}.

(** The entry-order list: [L] lists each node with the entry it points to. *)
Record list_ok (w : world) (L : list (ptr * cell)) : Prop := {
  l_nodes : nlist (nodes w) (_head (hm w)) (prod_map id fst <$> L);
  l_tail : _tail (hm w) = default NULL (last L.*1);
  l_nodup : NoDup L.*1;
  l_holds : Forall (holds (entries w)) L.*2;
  l_inj : NoDup L.*2.*1
}.

(** The invariant of every reachable state. *)
Record Inv (w : world) (L : list (ptr * cell)) (B : list (list cell)) : Prop := {
  i_heap : heap_ok w;
  i_table : table_ok w B;
  i_list : list_ok w L;
  i_num : 0 ≤ _num_entries (hm w) ≤ SIZE_MAX
}.

(** The list and the table hold the same entries: what a state reached
    without a failed allocation has on top of [Inv]. *)
Definition Sync (L : list (ptr * cell)) (B : list (list cell)) : Prop :=
  L.*2 ≡ₚ concat B.

(** Two heaps give an entry the same key, value and successor. *)
Definition same_link (E E' : gmap Z table_entry) (a : ptr) : Prop :=
  (λ e, (_entry e, _next_entry e)) <$> E' !! a
  = (λ e, (_entry e, _next_entry e)) <$> E !! a.

(** Two heaps give an entry the same key and value. *)
Definition same_kv (E E' : gmap Z table_entry) (a : ptr) : Prop :=
  _entry <$> E' !! a = _entry <$> E !! a.

(** The slot a cursor has moved to after walking over the entries [l]. *)
Fixpoint end_slot (cursor : slot) (l : list cell) : slot :=
  match l with
  | [] => cursor
  | (a, _) :: l => end_slot (NextOf a) l
  end.

Definition head_addr (l : list cell) : ptr :=
  match l with
  | [] => NULL
  | (a, _) :: _ => a
  end.

(** The first value stored under key [k] in a list of key-value pairs. *)
Fixpoint lookup_key (k : Z) (l : list entry_t) : option Z :=
  match l with
  | [] => None
  | kv :: l => if key kv =? k then Some (value kv) else lookup_key k l
  end.

(** The entry at address [a] gets the value [v]. *)
Definition set_val (a : ptr) (v : Z) (c : cell) : cell :=
  if decide (c.1 = a) then (c.1, {| key := key c.2; value := v |}) else c.

(** The entry that [_HASHMAP_TABLE_PUT] makes for a new key. *)
Definition new_entry (k v : Z) : table_entry :=
  {| _entry := {| key := k; value := v |}; _next_entry := NULL; _ll_node := NULL |}.

(** The fields of the hashmap struct that the table macros read. *)
Definition same_table_fields (m m' : hashmap) : Prop :=
  _table_size m' = _table_size m ∧ _num_entries m' = _num_entries m ∧
  _entry_table m' = _entry_table m ∧ hash_func m' = hash_func m.

Definition event_kind (ev : event) : kind :=
  match ev with
  | Calloc k _ => k
  | Free k _ => k
  end.

(** An allocation that returned [NULL]. *)
Definition failed (ev : event) : bool :=
  match ev with
  | Calloc _ p => p =? NULL
  | Free _ _ => false
  end.

Definition no_failure (evs : list event) : bool := forallb (λ ev, negb (failed ev)) evs.

(** What a run of the rehash loop over the nodes [L] leaves: the nodes [L']
    are the same nodes, pointing to entries that are re-made in the table
    for the part that was done. *)
Record rehash_post (w w' : world) (B B' : list (list cell))
    (L L' : list (ptr * cell)) (r : Z) (evs : list event) : Prop := {
  rp_hm : hm w' = hm w;
  rp_tables : ∀ t, t ≠ _entry_table (hm w) → tables w' !! t = tables w !! t;
  rp_brk : brk w ≤ brk w';
  rp_oracle : ∃ n, oracle w' = drop n (oracle w);
  rp_trace : trace w' = trace w ++ evs;
  rp_events : Forall (λ ev, event_kind ev = Entry) evs;
  rp_heap : heap_ok w';
  rp_table : table_ok w' B';
  rp_nodes : L'.*1 = L.*1;
  rp_frame : ∀ n, n ∉ L.*1 → nodes w' !! n = nodes w !! n;
  rp_holds : Forall (holds (entries w')) L'.*2;
  rp_inj : NoDup L'.*2.*1;
  rp_addr : ∀ a, a ∈ L'.*2.*1 → a ∈ L.*2.*1 ∨ brk w ≤ a;
  rp_keep : ∀ a, a ∈ (concat B).*1 → a ∈ (concat B').*1;
  rp_new : ∀ a, a ∈ (concat B').*1 → a ∈ (concat B).*1 ∨ brk w ≤ a;
  rp_status : r = 0 ∨ r = -1;
  rp_done : r = 0 → L'.*2.*2 = L.*2.*2 ∧ concat B' ≡ₚ concat B ++ L'.*2;
  rp_clean : NoDup (key <$> L.*2.*2) →
             (∀ c, c ∈ L.*2 → key c.2 ∉ key <$> (concat B).*2) →
             no_failure evs = true → r = 0
}.

(** What [_HASHMAP_INCREASE_SIZE] leaves.  Either the new table could not
    be allocated and nothing changed, or the table was replaced by one of
    twice the size, the rehash loop ran, and the old table was freed. *)
Record grow_post (w w' : world) (L L' : list (ptr * cell))
    (B B' : list (list cell)) (r : Z) (evs : list event) : Prop := {
  gp_inv : Inv w' L' B';
  gp_trace : trace w' = trace w ++ evs;
  gp_num : _num_entries (hm w') = _num_entries (hm w);
  gp_nodes : L'.*1 = L.*1;
  gp_status : r = 0 ∨ r = -1;
  gp_shape :
    (evs = [Calloc Table NULL] ∧ r = -1 ∧ L' = L ∧ B' = B ∧
     hm w' = hm w ∧ entries w' = entries w ∧ nodes w' = nodes w ∧
     tables w' = tables w)
    ∨
    (∃ evs_r,
       evs = Calloc Table (brk w) :: evs_r ++ [Free Table (_entry_table (hm w))] ∧
       Forall (λ ev, event_kind ev = Entry) evs_r ∧
       _table_size (hm w') = 2 * _table_size (hm w) ∧
       _entry_table (hm w') = brk w ∧ brk w ≠ NULL);
  gp_done : r = 0 → L'.*2.*2 = L.*2.*2 ∧ Sync L' B';
  gp_clean : Sync L B → no_failure evs = true → r = 0
}.

(** The map as a list of key-value pairs in insertion order, and what a put
    does to it: the value of a key that is present is replaced where it
    stands, a new key goes to the end. *)
Definition set_key_value (k v : Z) (kv : entry_t) : entry_t :=
  if decide (key kv = k) then {| key := k; value := v |} else kv.

Definition abs_put (k v : Z) (al : list entry_t) : list entry_t :=
  if decide (k ∈ key <$> al) then set_key_value k v <$> al
  else al ++ [{| key := k; value := v |}].

(** What the insertion block leaves. *)
Record insert_post (w w' : world) (L L' : list (ptr * cell))
    (B B' : list (list cell)) (k v : Z) (r : Z) (evs : list event) : Prop := {
  ip_inv : Inv w' L' B';
  ip_trace : trace w' = trace w ++ evs;
  ip_fields : same_table_fields (hm w) (hm w');
  ip_status : r = 0 ∨ r = -1;
  ip_events : Forall (λ ev, event_kind ev ≠ Table) evs;
  ip_present :
    k ∈ key <$> (concat B).*2 →
    evs = [] ∧ r = 0 ∧ L'.*1 = L.*1 ∧ L'.*2.*1 = L.*2.*1 ∧
    (concat B').*1 = (concat B).*1 ∧
    key <$> (concat B').*2 = key <$> (concat B).*2 ∧
    {| key := k; value := v |} ∈ (concat B').*2;
  ip_sync :
    Sync L B → no_failure evs = true →
    r = 0 ∧ Sync L' B' ∧ L'.*2.*2 = abs_put k v L.*2.*2
}.

(** The put asked the allocator for a new bucket table. *)
Definition asks_table (ev : event) : bool :=
  match ev with
  | Calloc Table _ => true
  | _ => false
  end.

(** What [HASHMAP_PUT] leaves, on every path. *)
Record put_post (w w' : world) (L L' : list (ptr * cell))
    (B B' : list (list cell)) (k v : Z) (r : Z) (evs : list event) : Prop := {
  pp_inv : Inv w' L' B';
  pp_trace : trace w' = trace w ++ evs;
  pp_num : _num_entries (hm w') = to_size_t (_num_entries (hm w) + 1);
  pp_status : r = 0 ∨ r = -1;
  pp_grow :
    double_ge (load_factor (hm w)) _LOAD_FACTOR_LIM = true →
    ∃ p evs', evs = Calloc Table p :: evs' ∧
              existsb asks_table evs' = false ∧
              (p = NULL → r = -1 ∧ _table_size (hm w') = _table_size (hm w)) ∧
              (p ≠ NULL → _table_size (hm w') = 2 * _table_size (hm w));
  pp_stable :
    double_ge (load_factor (hm w)) _LOAD_FACTOR_LIM = false →
    existsb asks_table evs = false ∧
    _table_size (hm w') = _table_size (hm w) ∧
    _entry_table (hm w') = _entry_table (hm w);
  pp_present :
    Sync L B → k ∈ key <$> (concat B).*2 →
    L'.*1 = L.*1 ∧
    (r = 0 → key <$> (concat B').*2 ≡ₚ key <$> (concat B).*2 ∧
             {| key := k; value := v |} ∈ (concat B').*2) ∧
    (double_ge (load_factor (hm w)) _LOAD_FACTOR_LIM = false →
     evs = [] ∧ r = 0 ∧ L'.*2.*1 = L.*2.*1 ∧ (concat B').*1 = (concat B).*1);
  pp_sync :
    Sync L B → no_failure evs = true →
    r = 0 ∧ Sync L' B' ∧ L'.*2.*2 = abs_put k v L.*2.*2
}.

Definition get_result (result : Z) (found : option Z) : bool * Z :=
  match found with
  | Some v => (true, v)
  | None => (false, result)
  end.

(** The map, as an insertion-ordered list of pairs, after the puts [kvs]. *)
Definition abs_puts (kvs : list (Z * Z)) (al : list entry_t) : list entry_t :=
  fold_left (λ al kv, abs_put kv.1 kv.2 al) kvs al.

Definition pair_of (kv : entry_t) : Z * Z := (key kv, value kv).
Definition entry_of (p : Z * Z) : entry_t := {| key := p.1; value := p.2 |}.

(** The addresses of the list nodes, from head to tail. *)
Fixpoint node_walk (fuel : nat) (w : world) (_ll_node_cursor : ptr) : option (list ptr) :=
  match fuel with
  | O => None
  | S fuel =>
      if _ll_node_cursor =? NULL then Some []
      else
        n ← nodes w !! _ll_node_cursor;
        rest ← node_walk fuel w (_next n);
        Some (_ll_node_cursor :: rest)
  end.

Definition ll_nodes (w : world) : option (list ptr) :=
  node_walk (S (size (nodes w))) w (_head (hm w)).

(** The value of the most recent put of key [k] in the sequence [kvs]. *)
Fixpoint last_put (k : Z) (kvs : list (Z * Z)) : option Z :=
  match kvs with
  | [] => None
  | (k', v') :: kvs =>
      match last_put k kvs with
      | Some v => Some v
      | None => if k' =? k then Some v' else None
      end
  end.

(** The twelve puts of the keys 0 to 11. *)
Definition twelve : list (Z * Z) :=
  [(0, 0); (1, 1); (2, 2); (3, 3); (4, 4); (5, 5); (6, 6); (7, 7); (8, 8);
   (9, 9); (10, 10); (11, 11)].

(** The puts of the keys 0 to [n - 1], each with ten times its key. *)
Definition first_keys (n : nat) : list (Z * Z) :=
  (λ i : nat, (Z.of_nat i, Z.of_nat i * 10)) <$> seq 0 n.

(** ** The order of the first puts, and the table size after [n] puts *)

(** The keys of a sequence of puts, each once, in the order of their first
    put. *)
Definition first_put_order (ks : list Z) : list Z :=
  fold_left (λ acc k, if decide (k ∈ acc) then acc else acc ++ [k]) ks [].

(** [_table_size] and [_num_entries] after one more put that finds its
    allocations: the test of [HASHMAP_PUT] on the fields [(ts, n)]. *)
Definition count_and_grow (st : Z * Z) : Z * Z :=
  let m := {| _table_size := st.1; _num_entries := st.2; _head := NULL;
              _tail := NULL; _entry_table := NULL; hash_func := Hash_unset |} in
  (if double_ge (load_factor m) _LOAD_FACTOR_LIM then to_size_t (st.1 * 2) else st.1,
   to_size_t (st.2 + 1)).

(** The table size after [n] puts on a new map. *)
Definition capacity_after (n : nat) : Z :=
  (Nat.iter n count_and_grow (_DEFAULT_TABLE_SIZE, 0)).1.

(** ** Computations that keep a relation between the states *)

(** Every run of [c] that returns takes the world to a world in relation
    [R]. *)
Definition respects {A} (R : world → world → Prop) (c : M A) : Prop :=
  ∀ w r w', c w = Some (r, w') → R w w'.

(** ** What [HASHMAP_FREE] releases *)

(** The entries that the nodes of the entry-order list point to, from head
    to tail. *)
Fixpoint entry_walk (fuel : nat) (w : world) (_ll_node_cursor : ptr) : option (list ptr) :=
  match fuel with
  | O => None
  | S fuel =>
      if _ll_node_cursor =? NULL then Some []
      else
        n ← nodes w !! _ll_node_cursor;
        rest ← entry_walk fuel w (_next n);
        Some (_table_entry n :: rest)
  end.

Definition ll_entries (w : world) : option (list ptr) :=
  entry_walk (S (size (nodes w))) w (_head (hm w)).

(** The world after [free] was called on each entry of [es], in this
    order. *)
Definition release_entries (es : list ptr) (w : world) : world :=
  foldl (λ w a, log (Free Entry a) (set_entries (delete a (entries w)) w)) w es.

(** The world after [free] was called on each node of [ns], in this order. *)
Definition release_nodes (ns : list ptr) (w : world) : world :=
  foldl (λ w n, log (Free Node n) (set_nodes (delete n (nodes w)) w)) w ns.

(** The world after [HASHMAP_FREE] has freed the entries [es], the table and
    the nodes [ns]. *)
Definition released (es ns : list ptr) (w : world) : world :=
  release_nodes ns
    (log (Free Table (_entry_table (hm w)))
       (set_tables (delete (_entry_table (hm w)) (tables w))
          (release_entries es w))).

(** ** The allocated objects and the trace *)

(** What an allocator call adds to the number of live objects of kind [k]. *)
Definition gain (k : kind) (ev : event) : Z :=
  match ev with
  | Calloc k' p => if bool_decide (k' = k ∧ p ≠ NULL) then 1 else 0
  | Free k' _ => if bool_decide (k' = k) then -1 else 0
  end.

(** Allocations that succeeded minus frees, for the objects of kind [k]. *)
Definition net (k : kind) (evs : list event) : Z :=
  foldr (λ ev z, gain k ev + z) 0 evs.

(** The number of live objects of kind [k]. *)
Definition live (k : kind) (w : world) : Z :=
  match k with
  | Entry => Z.of_nat (size (entries w))
  | Node => Z.of_nat (size (nodes w))
  | Table => Z.of_nat (size (tables w))
  end.

(** From a consistent heap, the run has kept the heap consistent and the
    numbers of live objects have changed as the allocator calls tell. *)
Definition accounts (w w' : world) : Prop :=
  heap_ok w →
  heap_ok w' ∧
  ∃ evs, trace w' = trace w ++ evs ∧ ∀ k, live k w' = live k w + net k evs.

(** The run has made no allocator call. *)
Definition silent (w w' : world) : Prop := trace w' = trace w.

(** Nothing is allocated but what the map holds: the entries and the nodes
    of the list [L] and one table. *)
Definition tight (w : world) (L : list (ptr * cell)) : Prop :=
  live Entry w = Z.of_nat (length L) ∧
  live Node w = Z.of_nat (length L) ∧
  live Table w = 1.

(** ** Doubly linked lists *)

(** [dlseg N prev p l q]: following [_next] from [p] visits exactly the
    nodes [l] and then reaches [q]; the [_previous] field of each node is the
    node before it, that of the first one is [prev]. *)
Fixpoint dlseg (N : gmap Z ll_node) (prev p : ptr) (l : list ptr) (q : ptr) : Prop :=
  match l with
  | [] => p = q
  | n :: l =>
      p = n ∧ n ≠ NULL ∧
      ∃ nd, N !! n = Some nd ∧ _previous nd = prev ∧ dlseg N n (_next nd) l q
  end.

(** The entry-order list is the doubly linked list of the nodes [l]. *)
Definition dlist (w : world) (l : list ptr) : Prop :=
  dlseg (nodes w) NULL (_head (hm w)) l NULL ∧
  _tail (hm w) = default NULL (last l) ∧
  NoDup l.

(** What the list macros leave alone: the entries, the tables, the
    allocator, the table fields of the struct, and the entry that each node
    points to. *)
Definition list_frame (w w' : world) : Prop :=
  entries w' = entries w ∧ tables w' = tables w ∧
  brk w' = brk w ∧ oracle w' = oracle w ∧
  same_table_fields (hm w) (hm w') ∧
  ∀ n, _table_entry <$> nodes w' !! n = _table_entry <$> nodes w !! n.

(** From the tail to the head, along [_previous]. *)
Fixpoint node_walk_back (fuel : nat) (w : world) (_ll_node_cursor : ptr) : option (list ptr) :=
  match fuel with
  | O => None
  | S fuel =>
      if _ll_node_cursor =? NULL then Some []
      else
        n ← nodes w !! _ll_node_cursor;
        rest ← node_walk_back fuel w (_previous n);
        Some (_ll_node_cursor :: rest)
  end.

Definition ll_nodes_back (w : world) : option (list ptr) :=
  node_walk_back (S (size (nodes w))) w (_tail (hm w)).

(** ** The links that the table macros keep *)

(** The run has kept the head, the tail and the links of every node that
    was there. *)
Definition keeps_list (w w' : world) : Prop :=
  _head (hm w') = _head (hm w) ∧ _tail (hm w') = _tail (hm w) ∧
  ∀ n nd, nodes w !! n = Some nd →
          ∃ nd', nodes w' !! n = Some nd' ∧
                 _previous nd' = _previous nd ∧ _next nd' = _next nd.

(** ** The two walks of the list *)

(** The two walks agree on the nodes [l]: from the head along [_next], and
    from the tail along [_previous]. *)
Definition walks (w : world) (l : list ptr) : Prop :=
  ll_nodes w = Some l ∧ ll_nodes_back w = Some (reverse l).

(** Every coming answer of the allocator is a success. *)
Definition granted (w : world) : Prop := Forall (λ b, b = true) (oracle w).

(** What a run adds to the trace; and when every request is granted, it
    still is afterwards, and no allocation of the run has failed but that of
    a table too large for [size_t]. *)
Definition grants (w w' : world) : Prop :=
  ∃ evs, trace w' = trace w ++ evs ∧
         (0 < brk w → 0 < brk w') ∧
         (0 < brk w → granted w →
          granted w' ∧
          Forall (λ ev, failed ev = true → event_kind ev = Table) evs).

(** A pair of the map after a put of [(k, v)] to a key that the map holds. *)
Definition set_pair (k v : Z) (kv : Z * Z) : Z * Z :=
  if decide (kv.1 = k) then (k, v) else kv.

(** A struct with 45 entries counted in 60 buckets. *)
Definition three_quarters : hashmap :=
  {| _table_size := 60; _num_entries := 45; _head := NULL; _tail := NULL;
     _entry_table := 1; hash_func := Hash_long_long |}.

(** * Verification *)

(** ** Running computations step by step *)

Lemma run_bind {A B} (c : M A) (k : A → M B) w a w1 :
  c w = Some (a, w1) → bind c k w = k a w1.
Proof. intros H. unfold bind. by rewrite H. Qed.

Lemma bind_Some {A B} (c : M A) (k : A → M B) w r :
  bind c k w = Some r → ∃ a w1, c w = Some (a, w1) ∧ k a w1 = Some r.
Proof.
  unfold bind. destruct (c w) as [[a w1]|] eqn:Hc; [|done].
  intros Hk. by exists a, w1.
Qed.

Lemma bind_assoc {A B C} (c : M A) (k1 : A → M B) (k2 : B → M C) w :
  bind (bind c k1) k2 w = bind c (λ a, bind (k1 a) k2) w.
Proof. unfold bind. by destruct (c w) as [[a w1]|]. Qed.

Lemma run_ret {A} (a : A) w : ret a w = Some (a, w).
Proof. done. Qed.

Lemma run_entry_fuel w : entry_fuel w = Some (S (size (entries w)), w).
Proof. done. Qed.

Lemma run_node_fuel w : node_fuel w = Some (S (size (nodes w)), w).
Proof. done. Qed.

Lemma run_get_hm w : get_hm w = Some (hm w, w).
Proof. done. Qed.

Lemma run_put_hm m w : put_hm m w = Some (tt, set_hm m w).
Proof. done. Qed.

Lemma run_set_head w q : set_head q w = Some (tt, set_hm (with_head q (hm w)) w).
Proof. done. Qed.

Lemma run_set_tail w q : set_tail q w = Some (tt, set_hm (with_tail q (hm w)) w).
Proof. done. Qed.

(** One step of a computation: [H] (or the tactic) tells what the first
    command does in the current world. *)
Tactic Notation "mrun" open_constr(H) :=
  rewrite ?bind_assoc; rewrite (run_bind _ _ _ _ _ H).
Tactic Notation "mrun" "by" tactic3(t) :=
  rewrite ?bind_assoc; erewrite run_bind; [|t].

Ltac wsimpl :=
  cbn [hm entries nodes tables brk oracle trace
       log bump set_hm set_entries set_nodes set_tables set_oracle].

Ltac hsimpl :=
  cbn [_table_size _num_entries _head _tail _entry_table hash_func
       with_table_size with_num_entries with_head with_tail with_entry_table
       with_hash_func].

Lemma run_load_entry w p e :
  entries w !! p = Some e → load_entry p w = Some (e, w).
Proof. intros H. unfold load_entry. by rewrite H. Qed.

Lemma run_store_entry w p e e' :
  entries w !! p = Some e →
  store_entry p e' w = Some (tt, set_entries (<[p := e']> (entries w)) w).
Proof. intros H. unfold store_entry. by rewrite H. Qed.

Lemma run_load_node w p n :
  nodes w !! p = Some n → load_node p w = Some (n, w).
Proof. intros H. unfold load_node. by rewrite H. Qed.

Lemma run_store_node w p n n' :
  nodes w !! p = Some n →
  store_node p n' w = Some (tt, set_nodes (<[p := n']> (nodes w)) w).
Proof. intros H. unfold store_node. by rewrite H. Qed.

Lemma run_load_cell w t cells i c :
  tables w !! t = Some cells → cells !! i = Some c →
  load_cell t (Z.of_nat i) w = Some (c, w).
Proof.
  intros Ht Hc. unfold load_cell. rewrite Ht. simpl.
  rewrite bool_decide_eq_true_2 by lia. rewrite Nat2Z.id, Hc. done.
Qed.

Lemma run_store_cell w t cells i p :
  tables w !! t = Some cells → (i < length cells)%nat →
  store_cell t (Z.of_nat i) p w
  = Some (tt, set_tables (<[t := <[i := p]> cells]> (tables w)) w).
Proof.
  intros Ht Hi. unfold store_cell. rewrite Ht. simpl.
  rewrite bool_decide_eq_true_2 by lia. by rewrite Nat2Z.id.
Qed.

Lemma run_set_value w p e v :
  entries w !! p = Some e →
  set_value p v w = Some (tt, set_entries (<[p := with_value v e]> (entries w)) w).
Proof.
  intros H. unfold set_value. rewrite (run_bind _ _ _ _ _ (run_load_entry _ _ _ H)).
  by apply run_store_entry with e.
Qed.

Lemma run_set_key w p e k :
  entries w !! p = Some e →
  set_key p k w = Some (tt, set_entries (<[p := with_key k e]> (entries w)) w).
Proof.
  intros H. unfold set_key. rewrite (run_bind _ _ _ _ _ (run_load_entry _ _ _ H)).
  by apply run_store_entry with e.
Qed.

Lemma run_set_next_entry w p e q :
  entries w !! p = Some e →
  set_next_entry p q w
  = Some (tt, set_entries (<[p := with_next_entry q e]> (entries w)) w).
Proof.
  intros H. unfold set_next_entry.
  rewrite (run_bind _ _ _ _ _ (run_load_entry _ _ _ H)).
  by apply run_store_entry with e.
Qed.

Lemma run_set_ll_node w p e q :
  entries w !! p = Some e →
  set_ll_node p q w
  = Some (tt, set_entries (<[p := with_ll_node q e]> (entries w)) w).
Proof.
  intros H. unfold set_ll_node.
  rewrite (run_bind _ _ _ _ _ (run_load_entry _ _ _ H)).
  by apply run_store_entry with e.
Qed.

Lemma run_set_table_entry w p n q :
  nodes w !! p = Some n →
  set_table_entry p q w
  = Some (tt, set_nodes (<[p := with_table_entry q n]> (nodes w)) w).
Proof.
  intros H. unfold set_table_entry.
  rewrite (run_bind _ _ _ _ _ (run_load_node _ _ _ H)).
  by apply run_store_node with n.
Qed.

Lemma run_set_previous w p n q :
  nodes w !! p = Some n →
  set_previous p q w
  = Some (tt, set_nodes (<[p := with_previous q n]> (nodes w)) w).
Proof.
  intros H. unfold set_previous.
  rewrite (run_bind _ _ _ _ _ (run_load_node _ _ _ H)).
  by apply run_store_node with n.
Qed.

Lemma run_set_next w p n q :
  nodes w !! p = Some n →
  set_next p q w
  = Some (tt, set_nodes (<[p := with_next q n]> (nodes w)) w).
Proof.
  intros H. unfold set_next.
  rewrite (run_bind _ _ _ _ _ (run_load_node _ _ _ H)).
  by apply run_store_node with n.
Qed.

(** ** Chains *)

Lemma same_link_kv E E' a : same_link E E' a → same_kv E E' a.
Proof.
  unfold same_link, same_kv.
  destruct (E' !! a), (E !! a); simpl; congruence.
Qed.

Lemma same_link_refl E a : same_link E E a.
Proof. done. Qed.

Lemma same_kv_trans E1 E2 E3 a :
  same_kv E1 E2 a → same_kv E2 E3 a → same_kv E1 E3 a.
Proof. unfold same_kv. congruence. Qed.

Lemma holds_same_kv E E' c : same_kv E E' c.1 → holds E c → holds E' c.
Proof.
  unfold same_kv, holds. intros Hs (e & He & Hkv). rewrite He in Hs.
  destruct (E' !! c.1) as [e'|]; simpl in Hs; [|done].
  exists e'. split; [done|]. congruence.
Qed.

Lemma chain_frame E E' p l :
  (∀ a, a ∈ l.*1 → same_link E E' a) → chain E p l → chain E' p l.
Proof.
  revert p. induction l as [|[a kv] l IH]; intros p Hs; simpl; [done|].
  intros (-> & Hnz & e & He & Hkv & Hc).
  assert (same_link E E' a) as Ha by (apply Hs; simpl; left).
  unfold same_link in Ha. rewrite He in Ha.
  destruct (E' !! a) as [e'|] eqn:He'; simpl in Ha; [|done].
  injection Ha as Hkv' Hnx.
  split; [done|]. split; [done|]. exists e'. split; [done|]. split; [congruence|].
  rewrite Hnx. apply IH; [|done]. intros b Hb. apply Hs. simpl. by right.
Qed.

Lemma chain_holds E p l : chain E p l → Forall (holds E) l.
Proof.
  revert p. induction l as [|[a kv] l IH]; intros p; simpl; [constructor|].
  intros (-> & _ & e & He & Hkv & Hc). constructor; [|by eapply IH].
  by exists e.
Qed.

Lemma chain_live E p l a : chain E p l → a ∈ l.*1 → is_Some (E !! a).
Proof.
  intros Hc Ha. apply chain_holds in Hc.
  apply list_elem_of_fmap in Ha as ([a' kv] & -> & Hin).
  rewrite Forall_forall in Hc. destruct (Hc _ Hin) as (e & He & _). by exists e.
Qed.

Lemma chain_nonnull E p l a : chain E p l → a ∈ l.*1 → a ≠ NULL.
Proof.
  revert p. induction l as [|[b kv] l IH]; intros p; simpl.
  - intros _ Ha. by apply elem_of_nil in Ha.
  - intros (-> & Hnz & e & He & Hkv & Hc) Ha.
    apply elem_of_cons in Ha as [->|Ha]; [done|]. by eapply IH.
Qed.

(** A chain without a repeated entry is no longer than the heap is large. *)
Lemma live_length {V} (E : gmap Z V) (l : list Z) :
  NoDup l → (∀ a, a ∈ l → is_Some (E !! a)) → (length l ≤ size E)%nat.
Proof.
  intros Hnd Hl.
  rewrite <- (size_list_to_set (C := gset Z) l Hnd), <- size_dom.
  apply subseteq_size. intros a Ha. apply elem_of_dom, Hl.
  by apply elem_of_list_to_set in Ha.
Qed.

Lemma chain_length E p l :
  chain E p l → NoDup l.*1 → (length l ≤ size E)%nat.
Proof.
  intros Hc Hnd. rewrite <- (length_fmap fst l).
  apply live_length; [done|]. intros a Ha. by eapply chain_live.
Qed.

(** Appending an entry to a non-empty chain: its last entry is made to point
    to the new one. *)
Lemma chain_snoc E E' p l b kvb eb a e :
  chain E p l → NoDup l.*1 → last l = Some (b, kvb) → E !! b = Some eb →
  E' !! b = Some (with_next_entry a eb) →
  (∀ x, x ∈ l.*1 → x ≠ b → same_link E E' x) →
  a ≠ NULL → E' !! a = Some e → _next_entry e = NULL →
  chain E' p (l ++ [(a, _entry e)]).
Proof.
  intros Hc Hnd Hlast Hb Hb' Hsame Hnz Ha Hnx. revert p Hc Hnd Hlast Hsame.
  induction l as [|[c kv] l IH]; intros p Hc Hnd Hlast Hsame; [done|].
  simpl in Hc. destruct Hc as (-> & Hcz & e0 & He0 & Hkv & Hc).
  simpl in Hnd. apply NoDup_cons in Hnd as [Hc_notin Hnd].
  simpl. split; [done|]. split; [done|].
  destruct l as [|[c' kv'] l].
  - simpl in Hlast. injection Hlast as -> ->. simpl in Hc.
    assert (e0 = eb) as -> by congruence.
    exists (with_next_entry a eb). split; [done|]. split; [done|].
    simpl. split; [done|]. split; [done|]. exists e. by rewrite Hnx.
  - assert (c ≠ b) as Hne.
    { intros ->. apply Hc_notin.
      change (b ∈ ((c', kv') :: l).*1).
      apply list_elem_of_fmap. exists (b, kvb). split; [done|].
      by apply last_Some_elem_of. }
    assert (same_link E E' c) as Hs by (apply Hsame; [simpl; left|done]).
    unfold same_link in Hs. rewrite He0 in Hs.
    destruct (E' !! c) as [e0'|] eqn:He0'; simpl in Hs; [|done].
    injection Hs as Hkv' Hnx'.
    exists e0'. split; [done|]. split; [congruence|].
    rewrite Hnx'. apply IH; [done|done|done|].
    intros x Hx Hxb. apply Hsame; [|done]. simpl. right. exact Hx.
Qed.

(** ** The loops over a chain *)

Lemma run_load_next w a e :
  entries w !! a = Some e → load_slot (NextOf a) w = Some (_next_entry e, w).
Proof.
  intros He. simpl. by rewrite (run_bind _ _ _ _ _ (run_load_entry _ _ _ He)).
Qed.

(** The search stops at the first entry with key [k], or at the end of the
    chain, and leaves the slot that leads there. *)
Lemma find_entry_loop_spec k w l1 l2 : ∀ fuel cursor p,
  load_slot cursor w = Some (p, w) →
  chain (entries w) p (l1 ++ l2) →
  (length (l1 ++ l2) < fuel)%nat →
  (∀ c, c ∈ l1 → key c.2 ≠ k) →
  (∀ c l, l2 = c :: l → key c.2 = k) →
  find_entry_loop fuel k cursor w = Some (end_slot cursor l1, w) ∧
  load_slot (end_slot cursor l1) w = Some (head_addr l2, w).
Proof.
  induction l1 as [|[a kv] l1 IH]; intros fuel cursor p Hload Hc Hfuel Hl1 Hl2.
  - destruct fuel as [|fuel]; [simpl in Hfuel; lia|].
    simpl in *. rewrite (run_bind _ _ _ _ _ Hload).
    destruct l2 as [|[a kv] l2]; simpl in Hc.
    + subst p. simpl. done.
    + destruct Hc as (-> & Hnz & e & He & Hkv & Hc).
      apply Z.eqb_neq in Hnz. rewrite Hnz.
      rewrite (run_bind _ _ _ _ _ (run_load_entry _ _ _ He)).
      specialize (Hl2 _ _ eq_refl). simpl in Hl2.
      rewrite Hkv, Hl2, Z.eqb_refl. done.
  - destruct fuel as [|fuel]; [simpl in Hfuel; lia|].
    simpl in Hc. destruct Hc as (-> & Hnz & e & He & Hkv & Hc).
    simpl. rewrite (run_bind _ _ _ _ _ Hload).
    pose proof Hnz as Hnz'. apply Z.eqb_neq in Hnz'. rewrite Hnz'.
    rewrite (run_bind _ _ _ _ _ (run_load_entry _ _ _ He)).
    assert (key (_entry e) ≠ k) as Hk.
    { rewrite Hkv. apply (Hl1 (a, kv)). left. }
    apply Z.eqb_neq in Hk. rewrite Hk.
    apply (IH fuel (NextOf a) (_next_entry e)).
    + by apply run_load_next.
    + done.
    + simpl in Hfuel. lia.
    + intros c Hin. apply Hl1. by right.
    + done.
Qed.

(** The walk to the end of a non-empty chain leaves the slot that holds its
    last entry. *)
Lemma last_entry_loop_spec w l : ∀ fuel cursor p b kvb,
  load_slot cursor w = Some (p, w) →
  chain (entries w) p l →
  (length l ≤ fuel)%nat →
  last l = Some (b, kvb) →
  ∃ s, last_entry_loop fuel cursor w = Some (s, w) ∧
       load_slot s w = Some (b, w).
Proof.
  induction l as [|[a kv] l IH]; intros fuel cursor p b kvb Hload Hc Hfuel Hlast;
    [done|].
  destruct fuel as [|fuel]; [simpl in Hfuel; lia|].
  simpl in Hc. destruct Hc as (-> & Hnz & e & He & Hkv & Hc).
  simpl. rewrite (run_bind _ _ _ _ _ Hload).
  rewrite (run_bind _ _ _ _ _ (run_load_entry _ _ _ He)).
  destruct l as [|[a' kv'] l].
  - simpl in Hc. rewrite Hc. simpl. injection Hlast as -> ->.
    by exists cursor.
  - pose proof Hc as Hc'. simpl in Hc'. destruct Hc' as (Hnx & Hnz' & _).
    apply Z.eqb_neq in Hnz'. rewrite Hnx, Hnz'.
    apply (IH fuel (NextOf a) a' b kvb).
    + rewrite <- Hnx at 1. by apply run_load_next.
    + rewrite Hnx in Hc. exact Hc.
    + simpl in *. lia.
    + done.
Qed.

(** The lookup loop returns the value of the first entry with key [k]. *)
Lemma get_loop_spec k w l : ∀ fuel p,
  chain (entries w) p l →
  (length l < fuel)%nat →
  get_loop fuel k p w = Some (lookup_key k l.*2, w).
Proof.
  induction l as [|[a kv] l IH]; intros fuel p Hc Hfuel.
  - destruct fuel as [|fuel]; [simpl in Hfuel; lia|].
    simpl in *. by subst p.
  - destruct fuel as [|fuel]; [simpl in Hfuel; lia|].
    simpl in Hc. destruct Hc as (-> & Hnz & e & He & Hkv & Hc).
    simpl. apply Z.eqb_neq in Hnz. rewrite Hnz.
    rewrite (run_bind _ _ _ _ _ (run_load_entry _ _ _ He)). rewrite Hkv.
    destruct (key kv =? k); [done|].
    apply IH; [done|]. simpl in Hfuel. lia.
Qed.

(** ** Buckets *)

Lemma concat_lookup {A} (B : list (list A)) i b :
  B !! i = Some b →
  concat B = concat (take i B) ++ b ++ concat (drop (S i) B).
Proof.
  intros H. rewrite <- (take_drop_middle B i b H) at 1.
  by rewrite concat_app, concat_cons.
Qed.

Lemma concat_alter {A} (f : list A → list A) (B : list (list A)) i b :
  B !! i = Some b →
  concat (alter f i B) = concat (take i B) ++ f b ++ concat (drop (S i) B).
Proof.
  intros H. rewrite <- (take_drop_middle B i b H) at 1.
  assert (length (take i B) = i) as Hlen.
  { apply length_take_le. apply lookup_lt_Some in H. lia. }
  rewrite alter_app_r_alt by lia.
  replace (i - length (take i B))%nat with 0%nat by lia. simpl.
  by rewrite concat_app, concat_cons.
Qed.

Lemma concat_alter_snoc {A} (B : list (list A)) i b x :
  B !! i = Some b →
  concat (alter (λ b, b ++ [x]) i B) ≡ₚ concat B ++ [x].
Proof.
  intros H. rewrite (concat_alter _ _ _ _ H), (concat_lookup _ _ _ H).
  rewrite <- ?app_assoc. apply Permutation_app_head.
  rewrite <- ?app_assoc. apply Permutation_app_head.
  apply Permutation_app_comm.
Qed.

Lemma bucket_in_concat {A} (B : list (list A)) i b x :
  B !! i = Some b → x ∈ b → x ∈ concat B.
Proof.
  intros H Hx. rewrite (concat_lookup _ _ _ H).
  apply elem_of_app. right. apply elem_of_app. by left.
Qed.

Lemma in_concat_bucket {A} (B : list (list A)) x :
  x ∈ concat B → ∃ i b, B !! i = Some b ∧ x ∈ b.
Proof.
  induction B as [|b B IH]; simpl.
  - intros H. by apply elem_of_nil in H.
  - intros H. apply elem_of_app in H as [H|H].
    + by exists 0%nat, b.
    + destruct (IH H) as (i & b' & Hb' & Hx). by exists (S i), b'.
Qed.

Lemma bucket_NoDup {A} (B : list (list A)) i b :
  B !! i = Some b → NoDup (concat B) → NoDup b.
Proof.
  intros H. rewrite (concat_lookup _ _ _ H).
  intros Hnd. apply NoDup_app in Hnd as (_ & _ & Hnd).
  by apply NoDup_app in Hnd as (Hnd & _).
Qed.

Lemma bucket_NoDup_fmap {A C} (f : A → C) (B : list (list A)) i b :
  B !! i = Some b → NoDup (f <$> concat B) → NoDup (f <$> b).
Proof.
  intros H. rewrite (concat_lookup _ _ _ H), !fmap_app.
  intros Hnd. apply NoDup_app in Hnd as (_ & _ & Hnd).
  by apply NoDup_app in Hnd as (Hnd & _).
Qed.

Lemma bucket_keys_NoDup (B : list (list cell)) i b :
  B !! i = Some b → NoDup (key <$> (concat B).*2) → NoDup (key <$> b.*2).
Proof.
  intros H. rewrite (concat_lookup _ _ _ H), !fmap_app.
  intros Hnd. apply NoDup_app in Hnd as (_ & _ & Hnd).
  by apply NoDup_app in Hnd as (Hnd & _).
Qed.

(** Entries of two distinct buckets are distinct. *)
Lemma bucket_disjoint {A C} (f : A → C) (B : list (list A)) i j bi bj x y :
  NoDup (f <$> concat B) →
  B !! i = Some bi → B !! j = Some bj → i ≠ j →
  x ∈ bi → y ∈ bj → f x ≠ f y.
Proof.
  revert i j. induction B as [|b B IH]; intros i j Hnd Hi Hj Hij Hx Hy; [done|].
  simpl in Hnd. rewrite fmap_app in Hnd.
  apply NoDup_app in Hnd as (_ & Hdisj & Hnd).
  destruct i as [|i], j as [|j]; simpl in *; simplify_eq.
  - intros Heq. apply (Hdisj (f x)).
    + apply list_elem_of_fmap. by exists x.
    + rewrite Heq. apply list_elem_of_fmap. exists y. split; [done|].
      by eapply bucket_in_concat.
  - intros Heq. apply (Hdisj (f y)).
    + apply list_elem_of_fmap. by exists y.
    + rewrite <- Heq. apply list_elem_of_fmap. exists x. split; [done|].
      by eapply bucket_in_concat.
  - apply (IH i j); (done || congruence).
Qed.

(** What [table_ok] gives for the bucket of a key. *)
Lemma table_bucket w B k :
  table_ok w B →
  ∃ i cells c b,
    call_hash (hash_func (hm w)) (_table_size (hm w)) k = Some (Z.of_nat i) ∧
    tables w !! _entry_table (hm w) = Some cells ∧
    Forall2 (chain (entries w)) cells B ∧
    cells !! i = Some c ∧ B !! i = Some b ∧
    chain (entries w) c b ∧ NoDup b.*1 ∧ (length b ≤ size (entries w))%nat.
Proof.
  intros [Hsz Hh (cells & Hcells & Hch) Hlen Hnd Hhome Hkeys].
  destruct (Hh (_table_size (hm w)) k) as (z & Hz & Hrange); [lia|lia|].
  assert (Z.to_nat z < length B)%nat as Hi by lia.
  destruct (lookup_lt_is_Some_2 B _ Hi) as [b Hb].
  destruct (Forall2_lookup_r _ _ _ _ _ Hch Hb) as (c & Hc & Hcb).
  assert (NoDup b.*1) as Hndb.
  { apply (bucket_NoDup_fmap fst B _ b Hb Hnd). }
  exists (Z.to_nat z), cells, c, b.
  rewrite Z2Nat.id by lia. repeat split; try done.
  by apply chain_length with c.
Qed.

Lemma run_call_hash_func w k i :
  call_hash (hash_func (hm w)) (_table_size (hm w)) k = Some i →
  call_hash_func k w = Some (i, w).
Proof. intros H. unfold call_hash_func, bind, get_hm, lift. by rewrite H. Qed.

(** The search of [_HASHMAP_FIND_ENTRY_RECORD] in the bucket [l1 ++ l2] of
    key [k], where [l2] is empty or starts with the entry of key [k]. *)
Lemma FIND_ENTRY_RECORD_spec w k i cells c l1 l2 :
  call_hash (hash_func (hm w)) (_table_size (hm w)) k = Some (Z.of_nat i) →
  tables w !! _entry_table (hm w) = Some cells →
  cells !! i = Some c →
  chain (entries w) c (l1 ++ l2) →
  (length (l1 ++ l2) ≤ size (entries w))%nat →
  (∀ x, x ∈ l1 → key x.2 ≠ k) →
  (∀ x l, l2 = x :: l → key x.2 = k) →
  let s := end_slot (Cell (_entry_table (hm w)) (Z.of_nat i)) l1 in
  _HASHMAP_FIND_ENTRY_RECORD k w = Some (s, w) ∧
  load_slot s w = Some (head_addr l2, w).
Proof.
  intros Hh Hcells Hc Hch Hlen Hl1 Hl2 s.
  unfold _HASHMAP_FIND_ENTRY_RECORD.
  rewrite (run_bind _ _ _ _ _ (run_call_hash_func _ _ _ Hh)).
  unfold get_hm, entry_fuel. unfold bind at 1 2.
  apply find_entry_loop_spec with c; try done.
  - simpl. by eapply run_load_cell.
  - lia.
Qed.

(** ** [_HASHMAP_TABLE_PUT] *)

Lemma set_val_fst a v (l : list cell) : (set_val a v <$> l).*1 = l.*1.
Proof.
  induction l as [|c l IH]; [done|]. rewrite !fmap_cons, IH. f_equal.
  unfold set_val. by destruct (decide _).
Qed.

Lemma set_val_keys a v (l : list cell) :
  key <$> (set_val a v <$> l).*2 = key <$> l.*2.
Proof.
  induction l as [|c l IH]; [done|]. rewrite !fmap_cons, IH. f_equal.
  unfold set_val. by destruct (decide _).
Qed.

Lemma concat_fmap {A C} (f : A → C) (B : list (list A)) :
  concat ((λ b : list A, f <$> b) <$> B) = f <$> concat B.
Proof.
  induction B as [|b B IH]; [done|].
  rewrite fmap_cons. simpl concat. by rewrite fmap_app, IH.
Qed.

Lemma chain_set_value E p l a e v :
  chain E p l → E !! a = Some e →
  chain (<[a := with_value v e]> E) p (set_val a v <$> l).
Proof.
  intros Hc Ha. revert p Hc.
  induction l as [|[b kv] l IH]; intros p Hc; [done|].
  simpl in Hc. destruct Hc as (-> & Hnz & e0 & He0 & Hkv & Hc).
  simpl. unfold set_val at 1. simpl. destruct (decide (b = a)) as [->|Hne].
  - assert (e0 = e) as -> by congruence.
    split; [done|]. split; [done|].
    exists (with_value v e). rewrite lookup_insert_eq.
    split; [done|]. simpl. split; [by rewrite Hkv|]. by apply IH.
  - split; [done|]. split; [done|].
    exists e0. rewrite lookup_insert_ne by done. split; [done|]. split; [done|].
    by apply IH.
Qed.

(** Replacing the heap of entries by one that keeps every link of the table,
    and the rest of the world by one that keeps the table's fields. *)
Lemma table_ok_transfer w w' B :
  table_ok w B →
  _table_size (hm w') = _table_size (hm w) →
  _entry_table (hm w') = _entry_table (hm w) →
  hash_func (hm w') = hash_func (hm w) →
  tables w' !! _entry_table (hm w) = tables w !! _entry_table (hm w) →
  (∀ a, a ∈ (concat B).*1 → same_link (entries w) (entries w') a) →
  table_ok w' B.
Proof.
  intros [Hsz Hh (cells & Hcells & Hch) Hlen Hnd Hhome Hkeys] Hts Htbl Hhf Ht Hs.
  split; rewrite ?Hts, ?Htbl, ?Hhf; try done.
  exists cells. split; [by rewrite Ht|].
  apply Forall2_same_length_lookup. split; [by eapply Forall2_length|].
  intros i c b Hc Hb. apply chain_frame with (entries w).
  - intros a Ha. apply Hs.
    apply list_elem_of_fmap in Ha as (x & -> & Hx).
    apply list_elem_of_fmap. exists x. split; [done|].
    by eapply bucket_in_concat.
  - by eapply Forall2_lookup_lr.
Qed.

Lemma heap_ok_entries_insert w a e :
  heap_ok w → is_Some (entries w !! a) →
  heap_ok (set_entries (<[a := e]> (entries w)) w).
Proof.
  intros [Hb HE HN HT] Ha. split; simpl; try done.
  intros b Hb'. apply HE. destruct (decide (a = b)) as [->|Hne]; [done|].
  by rewrite lookup_insert_ne in Hb'.
Qed.

(** Case 1: the key is in the table.  The value of its entry is replaced in
    place, nothing is allocated and [NULL] is returned. *)
Lemma TABLE_PUT_update w B k v a kv e :
  heap_ok w → table_ok w B →
  (a, kv) ∈ concat B → key kv = k → entries w !! a = Some e →
  let w' := set_entries (<[a := with_value v e]> (entries w)) w in
  _HASHMAP_TABLE_PUT k v w = Some (NULL, w') ∧
  heap_ok w' ∧ table_ok w' ((λ b : list cell, set_val a v <$> b) <$> B).
Proof.
  intros Hheap Htab Hin Hk He w'.
  destruct (table_bucket w B k Htab)
    as (i & cells & c & b & Hh & Hcells & Hch & Hc & Hb & Hcb & Hndb & Hlen).
  pose proof Htab as [Hsz Hhok _ HlenB Hnd Hhome Hkeys].
  (* the entry is in the bucket of its key *)
  assert ((a, kv) ∈ b) as Hinb.
  { destruct (in_concat_bucket _ _ Hin) as (j & bj & Hbj & Hx).
    pose proof (Hhome _ _ _ Hbj Hx) as Hj. simpl in Hj. rewrite Hk, Hh in Hj.
    assert (i = j) as -> by (injection Hj; lia). congruence. }
  apply list_elem_of_split in Hinb as (l1 & l2 & ->).
  assert (∀ x, x ∈ l1 → key x.2 ≠ k) as Hl1.
  { intros x Hx Hkx.
    pose proof (bucket_keys_NoDup B _ _ Hb Hkeys) as Hndk.
    rewrite !fmap_app in Hndk. apply NoDup_app in Hndk as (_ & Hdis & _).
    apply (Hdis k).
    - apply list_elem_of_fmap. exists x.2. split; [done|].
      apply list_elem_of_fmap. by exists x.
    - simpl. rewrite Hk. left. }
  destruct (FIND_ENTRY_RECORD_spec w k i cells c l1 ((a, kv) :: l2))
    as [Hfind Hload]; try done.
  { intros x l [= <- <-]. done. }
  assert (a ≠ NULL) as Hnz.
  { apply (chain_nonnull _ _ _ a Hcb). rewrite fmap_app. apply elem_of_app.
    right. left. }
  split; [|split].
  - unfold _HASHMAP_TABLE_PUT. rewrite (run_bind _ _ _ _ _ Hfind).
    unfold head_addr in Hload. rewrite (run_bind _ _ _ _ _ Hload).
    apply Z.eqb_neq in Hnz. rewrite Hnz. cbn [negb].
    by rewrite (run_bind _ _ _ _ _ (run_set_value _ _ _ v He)).
  - by apply heap_ok_entries_insert.
  - split; simpl; try done.
    + destruct Htab as [_ _ (cells' & Hcells' & Hch') _ _ _ _].
      exists cells'. split; [done|].
      apply Forall2_fmap_r. eapply Forall2_impl; [exact Hch'|].
      intros p l Hpl. by apply chain_set_value.
    + by rewrite length_fmap.
    + by rewrite concat_fmap, set_val_fst.
    + intros j bj x Hbj Hx. rewrite list_lookup_fmap in Hbj.
      destruct (B !! j) as [bj0|] eqn:Hbj0; simpl in Hbj; [|done].
      injection Hbj as <-. apply list_elem_of_fmap in Hx as (y & -> & Hy).
      replace (key (set_val a v y).2) with (key y.2)
        by (unfold set_val; by destruct (decide _)).
      by eapply Hhome.
    + by rewrite concat_fmap, set_val_keys.
Qed.

Lemma run_calloc_entry_fail w :
  hd true (oracle w) = false →
  calloc_entry w
  = Some (NULL, log (Calloc Entry NULL) (set_oracle (tl (oracle w)) w)).
Proof.
  intros H. unfold calloc_entry, calloc_ok, bind.
  rewrite bool_decide_eq_false_2 by (vm_compute; congruence). by rewrite H.
Qed.

Lemma run_calloc_entry_ok w :
  hd true (oracle w) = true →
  calloc_entry w
  = Some (brk w, log (Calloc Entry (brk w))
                   (bump (set_entries (<[brk w := zero_entry]> (entries w))
                            (set_oracle (tl (oracle w)) w)))).
Proof.
  intros H. unfold calloc_entry, calloc_ok, bind.
  rewrite bool_decide_eq_false_2 by (vm_compute; congruence). by rewrite H.
Qed.

(** The search for a key that the table does not hold ends on the slot that
    closes the key's chain. *)
Lemma FIND_ENTRY_RECORD_absent w B k :
  table_ok w B → k ∉ key <$> (concat B).*2 →
  ∃ s, _HASHMAP_FIND_ENTRY_RECORD k w = Some (s, w) ∧
       load_slot s w = Some (NULL, w).
Proof.
  intros Htab Hk.
  destruct (table_bucket w B k Htab)
    as (i & cells & c & b & Hh & Hcells & Hch & Hc & Hb & Hcb & Hndb & Hlen).
  destruct (FIND_ENTRY_RECORD_spec w k i cells c b [])
    as [Hfind Hload]; try done.
  - by rewrite app_nil_r.
  - by rewrite app_nil_r.
  - intros x Hx Hkx. apply Hk.
    apply list_elem_of_fmap. exists x.2. split; [done|].
    apply list_elem_of_fmap. exists x. split; [done|].
    by eapply bucket_in_concat.
  - eauto.
Qed.

(** Case 2: the key is not in the table and the allocation of its entry
    fails.  [NULL] is returned and nothing changes but the allocator. *)
Lemma TABLE_PUT_fail w B k v :
  table_ok w B → k ∉ key <$> (concat B).*2 →
  hd true (oracle w) = false →
  _HASHMAP_TABLE_PUT k v w
  = Some (NULL, log (Calloc Entry NULL) (set_oracle (tl (oracle w)) w)).
Proof.
  intros Htab Hk Ho.
  destruct (FIND_ENTRY_RECORD_absent w B k Htab Hk) as (s & Hfind & Hload).
  unfold _HASHMAP_TABLE_PUT. rewrite (run_bind _ _ _ _ _ Hfind).
  rewrite (run_bind _ _ _ _ _ Hload). cbn [negb NULL Z.eqb].
  by rewrite (run_bind _ _ _ _ _ (run_calloc_entry_fail _ Ho)).
Qed.

(** The table after an entry was linked at the end of bucket [i]. *)
Lemma table_ok_append w w' B i b cells c' p kv :
  table_ok w B → B !! i = Some b →
  tables w !! _entry_table (hm w) = Some cells →
  call_hash (hash_func (hm w)) (_table_size (hm w)) (key kv) = Some (Z.of_nat i) →
  key kv ∉ key <$> (concat B).*2 →
  p ∉ (concat B).*1 →
  hm w' = hm w →
  tables w' !! _entry_table (hm w) = Some (<[i := c']> cells) →
  chain (entries w') c' (b ++ [(p, kv)]) →
  (∀ a, a ∈ (concat B).*1 → a ∉ b.*1 → same_link (entries w) (entries w') a) →
  table_ok w' (alter (λ b, b ++ [(p, kv)]) i B).
Proof.
  intros [Hsz Hh (cells0 & Hcells0 & Hch) Hlen Hnd Hhome Hkeys]
    Hb Hcells Hhk Hk Hp Hhm Ht' Hc' Hsame.
  assert (cells0 = cells) as -> by congruence.
  split; rewrite ?Hhm; try done.
  - exists (<[i := c']> cells). split; [done|].
    apply Forall2_same_length_lookup. split.
    { rewrite length_insert, length_alter. by eapply Forall2_length. }
    intros j cj bj Hcj Hbj. destruct (decide (i = j)) as [<-|Hne].
    + rewrite list_lookup_alter_eq, Hb in Hbj. injection Hbj as <-.
      rewrite list_lookup_insert_eq in Hcj.
      * by injection Hcj as <-.
      * apply lookup_lt_Some in Hb. apply Forall2_length in Hch. lia.
    + rewrite list_lookup_alter_ne in Hbj by done.
      rewrite list_lookup_insert_ne in Hcj by done.
      apply chain_frame with (entries w).
      * intros a Ha. apply list_elem_of_fmap in Ha as (x & -> & Hx).
        apply Hsame.
        -- apply list_elem_of_fmap. exists x. split; [done|].
           by eapply bucket_in_concat.
        -- intros Hin. apply list_elem_of_fmap in Hin as (y & Hxy & Hy).
           by apply (bucket_disjoint fst B j i bj b x y).
      * by eapply Forall2_lookup_lr.
  - by rewrite length_alter.
  - rewrite (concat_alter_snoc _ _ _ _ Hb), fmap_app.
    apply NoDup_app. split; [done|]. split; [|apply NoDup_singleton].
    intros x Hx Hx'. apply list_elem_of_singleton in Hx'. simpl in Hx'.
    by subst x.
  - intros j bj x Hbj Hx. destruct (decide (i = j)) as [<-|Hne].
    + rewrite list_lookup_alter_eq, Hb in Hbj. injection Hbj as <-.
      apply elem_of_app in Hx as [Hx|Hx].
      * by eapply Hhome.
      * apply list_elem_of_singleton in Hx. by subst x.
    + rewrite list_lookup_alter_ne in Hbj by done. by eapply Hhome.
  - rewrite (concat_alter_snoc _ _ _ _ Hb), !fmap_app.
    apply NoDup_app. split; [done|]. split; [|apply NoDup_singleton].
    intros x Hx Hx'. apply list_elem_of_singleton in Hx'. simpl in Hx'.
    by subst x.
Qed.

(** Case 3: the key is not in the table and the allocation succeeds.  The
    new entry is at the end of the key's chain; no other entry changes its
    key or value. *)
Lemma TABLE_PUT_new w B k v i :
  heap_ok w → table_ok w B →
  call_hash (hash_func (hm w)) (_table_size (hm w)) k = Some (Z.of_nat i) →
  k ∉ key <$> (concat B).*2 →
  hd true (oracle w) = true →
  ∃ w', _HASHMAP_TABLE_PUT k v w = Some (brk w, w') ∧
        hm w' = hm w ∧ nodes w' = nodes w ∧ brk w' = brk w + 1 ∧
        oracle w' = tl (oracle w) ∧
        trace w' = trace w ++ [Calloc Entry (brk w)] ∧
        (∀ t, t ≠ _entry_table (hm w) → tables w' !! t = tables w !! t) ∧
        (∀ a, a ≠ brk w → same_kv (entries w) (entries w') a) ∧
        entries w' !! brk w = Some (new_entry k v) ∧
        heap_ok w' ∧
        table_ok w' (alter (λ b, b ++ [(brk w, {| key := k; value := v |})]) i B).
Proof.
  intros Hheap Htab Hh Hk Ho.
  destruct (FIND_ENTRY_RECORD_absent w B k Htab Hk) as (s & Hfind & Hload).
  destruct (table_bucket w B k Htab)
    as (i' & cells & c & b & Hh' & Hcells & Hch & Hc & Hb & Hcb & Hndb & Hlen).
  assert (i' = i) as -> by (rewrite Hh in Hh'; injection Hh'; lia).
  clear Hh'.
  pose proof Htab as [Hsz Hhok _ HlenB Hnd Hhome Hkeys].
  pose proof Hheap as [Hbrk HE HN HT].
  set (p := brk w).
  assert (entries w !! p = None) as Hfresh.
  { destruct (entries w !! p) eqn:Hp; [|done].
    assert (0 < p < brk w) by (apply HE; by rewrite Hp). unfold p in *. lia. }
  assert (p ≠ NULL) as Hpnz by (unfold p, NULL; lia).
  unfold _HASHMAP_TABLE_PUT. rewrite (run_bind _ _ _ _ _ Hfind).
  rewrite (run_bind _ _ _ _ _ Hload). cbn [negb NULL Z.eqb].
  rewrite (run_bind _ _ _ _ _ (run_calloc_entry_ok _ Ho)). fold p.
  pose proof Hpnz as Hpnz'. apply Z.eqb_neq in Hpnz'.
  rewrite Hpnz'. cbn [negb].
  erewrite run_bind; [|apply run_set_key; simpl; apply lookup_insert_eq].
  erewrite run_bind; [|apply run_set_value; simpl; apply lookup_insert_eq].
  erewrite run_bind; [|apply run_set_next_entry; simpl; apply lookup_insert_eq].
  simpl entries. rewrite !insert_insert_eq.
  change (with_next_entry NULL (with_value v (with_key k zero_entry)))
    with (new_entry k v).
  erewrite run_bind; [|apply run_call_hash_func; simpl; exact Hh].
  unfold get_hm at 1. unfold bind at 1. simpl hm.
  erewrite run_bind; [|eapply run_load_cell; simpl; [exact Hcells|exact Hc]].
  set (w4 := log (Calloc Entry p)
               (bump (set_entries (<[p := new_entry k v]> (entries w))
                        (set_oracle (tl (oracle w)) w)))).
  match goal with
  | |- ∃ w', _ ?big = _ ∧ _ => change big with w4
  end.
  assert (∀ a, a ∈ (concat B).*1 → a ≠ p) as Hold.
  { intros a Ha ->. apply list_elem_of_fmap in Ha as (x & Hx1 & Hx).
    destruct (in_concat_bucket _ _ Hx) as (j & bj & Hbj & Hxj).
    destruct (Forall2_lookup_r _ _ _ _ _ Hch Hbj) as (cj & _ & Hcj).
    assert (is_Some (entries w !! p)) as [? Hsome].
    { apply (chain_live _ _ _ p Hcj). apply list_elem_of_fmap. by exists x. }
    congruence. }
  assert (p ∉ (concat B).*1) as Hp_notin by (intros Hin; by apply (Hold p)).
  assert (heap_ok w4) as Hheap4.
  { split; simpl; try lia.
    - intros a [x Ha]. destruct (decide (a = p)) as [->|Hne]; [unfold p; lia|].
      rewrite lookup_insert_ne in Ha by done.
      assert (0 < a < brk w) by (apply HE; by rewrite Ha). lia.
    - intros a Ha. apply HN in Ha. lia.
    - intros a Ha. apply HT in Ha. lia. }
  destruct (decide (c = NULL)) as [->|Hcnz].
  - (* the bucket is empty: the cell takes the entry *)
    assert (b = []) as ->.
    { destruct b as [|[a kv] b]; [done|]. simpl in Hcb. by destruct Hcb as (<- & ? & _). }
    cbn [NULL Z.eqb].
    erewrite run_bind;
      [|simpl; eapply run_store_cell; [exact Hcells|by eapply lookup_lt_Some]].
    eexists. split; [reflexivity|].
    split_and!; try done; simpl.
    + intros t Ht. by rewrite lookup_insert_ne.
    + intros a Ha. unfold same_kv. simpl. by rewrite lookup_insert_ne.
    + apply lookup_insert_eq.
    + destruct Hheap4 as [? ? ? HT4]. split; try done. simpl.
      intros a [x Ha]. apply HT4. simpl.
      destruct (decide (_entry_table (hm w) = a)) as [<-|Hne].
      * by rewrite Hcells.
      * rewrite lookup_insert_ne in Ha by done. by rewrite Ha.
    + eapply (table_ok_append w _ B i [] cells p p {| key := k; value := v |});
        try done; simpl.
      * apply lookup_insert_eq.
      * split; [done|]. split; [done|]. exists (new_entry k v).
        rewrite lookup_insert_eq. done.
      * intros a Ha _. unfold same_link. rewrite lookup_insert_ne; [done|].
        intros <-. by apply (Hold p).
  - (* the bucket is not empty: its last entry is linked to the new one *)
    pose proof Hcnz as Hcnz'. apply Z.eqb_neq in Hcnz'. rewrite Hcnz'.
    destruct (last b) as [[lb kvb]|] eqn:Hlast.
    2:{ apply last_None in Hlast. subst b. simpl in Hcb. done. }
    assert (lb ∈ b.*1) as Hlb.
    { apply list_elem_of_fmap. exists (lb, kvb). split; [done|].
      by apply last_Some_elem_of. }
    assert (lb ≠ p) as Hlbp.
    { apply Hold. apply list_elem_of_fmap in Hlb as (x & -> & Hx).
      apply list_elem_of_fmap. exists x. split; [done|]. by eapply bucket_in_concat. }
    destruct (chain_live _ _ _ lb Hcb Hlb) as [elb Helb].
    assert (chain (entries w4) c b) as Hcb4.
    { apply chain_frame with (entries w); [|done].
      intros a Ha. unfold same_link. simpl. rewrite lookup_insert_ne; [done|].
      intros <-. apply (Hold p); [|done].
      apply list_elem_of_fmap in Ha as (x & -> & Hx).
      apply list_elem_of_fmap. exists x. split; [done|]. by eapply bucket_in_concat. }
    unfold entry_fuel at 1. unfold bind at 1 2.
    destruct (last_entry_loop_spec w4 b (S (size (entries w4)))
                (Cell (_entry_table (hm w)) (Z.of_nat i)) c lb kvb)
      as (s' & Hloop & Hload'); try done.
    { simpl. eapply run_load_cell; [exact Hcells|exact Hc]. }
    { simpl. rewrite map_size_insert_None by done. lia. }
    rewrite (run_bind _ _ _ _ _ Hloop), (run_bind _ _ _ _ _ Hload').
    assert (entries w4 !! lb = Some elb) as Helb4.
    { simpl. by rewrite lookup_insert_ne. }
    rewrite (run_set_next_entry _ _ _ p Helb4).
    eexists. split; [reflexivity|].
    split_and!; try done; simpl.
    + intros a Ha. unfold same_kv. simpl.
      destruct (decide (lb = a)) as [<-|Hne].
      * rewrite lookup_insert_eq, Helb. done.
      * rewrite !lookup_insert_ne by done. done.
    + rewrite lookup_insert_ne by done. apply lookup_insert_eq.
    + destruct Hheap4 as [? HE4 ? ?]. split; try done. simpl.
      intros a [x Ha]. apply HE4.
      destruct (decide (lb = a)) as [<-|Hne]; [by rewrite Helb4|].
      rewrite lookup_insert_ne in Ha by done. exists x. exact Ha.
    + eapply (table_ok_append w _ B i b cells c p {| key := k; value := v |});
        try done; simpl.
      * by rewrite list_insert_id.
      * apply (chain_snoc (entries w) _ c b lb kvb elb p (new_entry k v));
          try done.
        -- apply lookup_insert_eq.
        -- intros x Hx Hxlb. unfold same_link.
           rewrite !lookup_insert_ne; [done| |done].
           intros <-. apply (Hold p); [|done].
           apply list_elem_of_fmap in Hx as (y & -> & Hy).
           apply list_elem_of_fmap. exists y. split; [done|].
           by eapply bucket_in_concat.
        -- rewrite lookup_insert_ne by done. apply lookup_insert_eq.
      * intros a Ha Hab. unfold same_link.
        rewrite !lookup_insert_ne; [done| |].
        -- intros <-. by apply (Hold p).
        -- intros <-. done.
Qed.

(** ** The entry-order list *)

Lemma nlist_frame N N' p l :
  (∀ n, n ∈ l.*1 → N' !! n = N !! n) → nlist N p l → nlist N' p l.
Proof.
  revert p. induction l as [|[n a] l IH]; intros p Hs; simpl; [done|].
  intros (-> & Hnz & nd & Hnd & Ha & Hl).
  split; [done|]. split; [done|]. exists nd.
  split; [rewrite Hs; [done|simpl; left]|]. split; [done|].
  apply IH; [|done]. intros m Hm. apply Hs. simpl. by right.
Qed.

Lemma nlist_live N p l n : nlist N p l → n ∈ l.*1 → is_Some (N !! n).
Proof.
  revert p. induction l as [|[m a] l IH]; intros p; simpl.
  - intros _ Hn. by apply elem_of_nil in Hn.
  - intros (-> & Hnz & nd & Hnd & Ha & Hl) Hn.
    apply elem_of_cons in Hn as [->|Hn]; [by exists nd|]. by eapply IH.
Qed.

Lemma nlist_last N p l t a :
  nlist N p l → last l = Some (t, a) →
  t ≠ NULL ∧ ∃ nd, N !! t = Some nd ∧ _next nd = NULL ∧ _table_entry nd = a.
Proof.
  revert p. induction l as [|[m b] l IH]; intros p; simpl; [done|].
  intros (-> & Hnz & nd & Hnd & Ha & Hl) Hlast.
  destruct l as [|[m' b'] l].
  - simpl in Hlast, Hl. injection Hlast as -> ->. split; [done|]. by exists nd.
  - by eapply IH.
Qed.

(** Appending a node to a non-empty list: the last node is made to point to
    it. *)
Lemma nlist_snoc N N' p l t at' ndt n nd :
  nlist N p l → NoDup l.*1 → last l = Some (t, at') → N !! t = Some ndt →
  N' !! t = Some (with_next n ndt) →
  (∀ x, x ∈ l.*1 → x ≠ t → N' !! x = N !! x) →
  n ≠ NULL → N' !! n = Some nd → _next nd = NULL →
  nlist N' p (l ++ [(n, _table_entry nd)]).
Proof.
  intros Hl Hnd Hlast Ht Ht' Hsame Hnz Hn Hnx. revert p Hl Hnd Hlast Hsame.
  induction l as [|[c a] l IH]; intros p Hl Hnd Hlast Hsame; [done|].
  simpl in Hl. destruct Hl as (-> & Hcz & nd0 & Hnd0 & Ha & Hl).
  simpl in Hnd. apply NoDup_cons in Hnd as [Hc_notin Hnd].
  simpl. split; [done|]. split; [done|].
  destruct l as [|[c' a'] l].
  - simpl in Hlast. injection Hlast as -> ->. simpl in Hl.
    assert (nd0 = ndt) as -> by congruence.
    exists (with_next n ndt). split; [done|]. split; [done|].
    simpl. split; [done|]. split; [done|]. exists nd. by rewrite Hnx.
  - assert (c ≠ t) as Hne.
    { intros ->. apply Hc_notin.
      change (t ∈ ((c', a') :: l).*1).
      apply list_elem_of_fmap. exists (t, at'). split; [done|].
      by apply last_Some_elem_of. }
    exists nd0. split; [rewrite Hsame; [done|simpl; left|done]|].
    split; [done|].
    apply IH; [done|done|done|].
    intros x Hx Hxt. apply Hsame; [|done]. simpl. right. exact Hx.
Qed.

Lemma run_calloc_node_fail w :
  hd true (oracle w) = false →
  calloc_node w
  = Some (NULL, log (Calloc Node NULL) (set_oracle (tl (oracle w)) w)).
Proof.
  intros H. unfold calloc_node, calloc_ok, bind.
  rewrite bool_decide_eq_false_2 by (vm_compute; congruence). by rewrite H.
Qed.

Lemma run_calloc_node_ok w :
  hd true (oracle w) = true →
  calloc_node w
  = Some (brk w, log (Calloc Node (brk w))
                   (bump (set_nodes (<[brk w := zero_node]> (nodes w))
                            (set_oracle (tl (oracle w)) w)))).
Proof.
  intros H. unfold calloc_node, calloc_ok, bind.
  rewrite bool_decide_eq_false_2 by (vm_compute; congruence). by rewrite H.
Qed.

(** When the allocation of the node fails, [_HASHMAP_LL_PUT] returns -1 and
    changes nothing but the allocator. *)
Lemma LL_PUT_fail w a :
  hd true (oracle w) = false →
  _HASHMAP_LL_PUT a w
  = Some (-1, log (Calloc Node NULL) (set_oracle (tl (oracle w)) w)).
Proof.
  intros Ho. unfold _HASHMAP_LL_PUT.
  by rewrite (run_bind _ _ _ _ _ (run_calloc_node_fail _ Ho)).
Qed.

Lemma list_ok_head_tail w L :
  list_ok w L →
  match last L with
  | None => _head (hm w) = NULL ∧ _tail (hm w) = NULL
  | Some (t, c) =>
      _tail (hm w) = t ∧ t ≠ NULL ∧
      ∃ nd, nodes w !! t = Some nd ∧ _next nd = NULL
  end.
Proof.
  intros [Hn Ht Hnd Hh Hi].
  destruct (last L) as [[t c]|] eqn:Hlast.
  - assert (last (prod_map id fst <$> L) = Some (t, c.1)) as Hlast'.
    { rewrite fmap_last, Hlast. done. }
    destruct (nlist_last _ _ _ _ _ Hn Hlast') as (Hnz & nd & Hnd' & Hnx & _).
    rewrite fmap_last, Hlast in Ht. simpl in Ht.
    split; [done|]. split; [done|]. by exists nd.
  - apply last_None in Hlast. subst L. simpl in *. done.
Qed.

(** What is left to check once [_HASHMAP_LL_PUT] has run: the new state
    [w'] has the node [n] of entry [a] at the end of the list. *)
Lemma LL_PUT_post w w' L B a kv e n :
  heap_ok w → list_ok w L → table_ok w B →
  entries w !! a = Some e → _entry e = kv → a ∉ L.*2.*1 →
  n = brk w →
  same_table_fields (hm w) (hm w') →
  tables w' = tables w → brk w' = brk w + 1 →
  entries w' = <[a := with_ll_node n e]> (entries w) →
  _tail (hm w') = n →
  nlist (nodes w') (_head (hm w')) ((prod_map id fst <$> L) ++ [(n, a)]) →
  (∀ x, is_Some (nodes w' !! x) → x = n ∨ is_Some (nodes w !! x)) →
  (∀ b, same_link (entries w) (entries w') b) ∧
  heap_ok w' ∧ table_ok w' B ∧ list_ok w' (L ++ [(n, (a, kv))]).
Proof.
  intros [Hbrk HE HN HT] [Hn Ht Hnd Hh Hi] Htab He Hkv Ha -> Hf Htabs Hbrk' HE'
    Htail Hnl Hnodes.
  assert (∀ b, same_link (entries w) (entries w') b) as Hlink.
  { intros b. unfold same_link. rewrite HE'.
    destruct (decide (a = b)) as [<-|Hne].
    - by rewrite lookup_insert_eq, He.
    - by rewrite lookup_insert_ne. }
  destruct Hf as (Hts & Hnum & Htbl & Hhf).
  split; [done|]. split; [|split].
  - split; rewrite ?Hbrk', ?Htabs, ?HE'; try lia.
    + intros b [x Hb]. destruct (decide (a = b)) as [<-|Hne].
      * assert (0 < a < brk w) by (apply HE; by rewrite He). lia.
      * rewrite lookup_insert_ne in Hb by done.
        assert (0 < b < brk w) by (apply HE; by rewrite Hb). lia.
    + intros b Hb. destruct (Hnodes b Hb) as [->|Hb']; [lia|].
      apply HN in Hb'. lia.
    + intros b Hb. apply HT in Hb. lia.
  - apply (table_ok_transfer w); try done. by rewrite Htabs.
  - assert (brk w ∉ L.*1) as Hn_notin.
    { intros Hin.
      assert (is_Some (nodes w !! brk w)) as Hsome.
      { apply (nlist_live _ _ _ _ Hn). rewrite <- list_fmap_compose.
        apply list_elem_of_fmap in Hin as (x & -> & Hx).
        apply list_elem_of_fmap. by exists x. }
      apply HN in Hsome. lia. }
    split.
    + by rewrite fmap_app.
    + by rewrite fmap_app, fmap_cons, fmap_nil, last_snoc.
    + rewrite fmap_app. apply NoDup_app. split; [done|].
      split; [|apply NoDup_singleton].
      intros x Hx Hx'. apply list_elem_of_singleton in Hx'. simpl in Hx'.
      by subst x.
    + rewrite fmap_app. apply Forall_app. split.
      * eapply Forall_impl; [exact Hh|]. intros c Hc.
        apply (holds_same_kv (entries w)); [|done].
        by apply same_link_kv.
      * apply Forall_singleton. unfold holds. simpl. rewrite HE'.
        exists (with_ll_node (brk w) e). by rewrite lookup_insert_eq.
    + rewrite !fmap_app. apply NoDup_app. split; [done|].
      split; [|apply NoDup_singleton].
      intros x Hx Hx'. apply list_elem_of_singleton in Hx'. simpl in Hx'.
      by subst x.
Qed.

(** When the allocation succeeds, the node of the new entry is the new
    tail of the list. *)
Lemma LL_PUT_ok w L B a kv :
  heap_ok w → list_ok w L → table_ok w B →
  holds (entries w) (a, kv) → a ∉ L.*2.*1 →
  hd true (oracle w) = true →
  ∃ w', _HASHMAP_LL_PUT a w = Some (0, w') ∧
        same_table_fields (hm w) (hm w') ∧
        tables w' = tables w ∧ brk w' = brk w + 1 ∧
        oracle w' = tl (oracle w) ∧
        trace w' = trace w ++ [Calloc Node (brk w)] ∧
        (∀ b, same_link (entries w) (entries w') b) ∧
        heap_ok w' ∧ table_ok w' B ∧
        list_ok w' (L ++ [(brk w, (a, kv))]).
Proof.
  intros Hheap Hlist Htab (e & He & Hkv) Ha Ho. simpl in He, Hkv.
  pose proof Hheap as [Hbrk HE HN HT].
  pose proof (list_ok_head_tail _ _ Hlist) as Hht.
  pose proof Hlist as [Hn Ht Hnd Hh Hi].
  set (n := brk w).
  assert (nodes w !! n = None) as Hfresh.
  { destruct (nodes w !! n) eqn:Hp; [|done].
    assert (0 < n < brk w) by (apply HN; by rewrite Hp). unfold n in *. lia. }
  assert (n ≠ NULL) as Hnz by (unfold n, NULL; lia).
  assert (n ∉ L.*1) as Hn_notin.
  { intros Hin.
    assert (is_Some (nodes w !! n)) as [? Hsome].
    { apply (nlist_live _ _ _ n Hn). rewrite <- list_fmap_compose.
      apply list_elem_of_fmap in Hin as (x & -> & Hx).
      apply list_elem_of_fmap. by exists x. }
    congruence. }
  unfold _HASHMAP_LL_PUT.
  rewrite (run_bind _ _ _ _ _ (run_calloc_node_ok _ Ho)). fold n.
  pose proof Hnz as Hnz'. apply Z.eqb_neq in Hnz'. rewrite Hnz'.
  erewrite run_bind; [|apply run_set_table_entry; simpl; apply lookup_insert_eq].
  erewrite run_bind; [|apply run_set_ll_node; simpl; exact He].
  simpl nodes. rewrite insert_insert_eq.
  match goal with
  | |- ∃ w', _ ?big = _ ∧ _ =>
      change big with
        (log (Calloc Node n)
           (bump (set_entries (<[a := with_ll_node n e]> (entries w))
                    (set_nodes (<[n := with_table_entry a zero_node]> (nodes w))
                       (set_oracle (tl (oracle w)) w)))))
  end.
  unfold _HASHMAP_LL_ADD_TAIL.
  rewrite !bind_assoc. rewrite (run_bind _ _ _ _ _ (run_get_hm _)).
  cbn [hm log bump set_entries set_nodes set_oracle].
  destruct (last L) as [[t c]|] eqn:Hlast.
  - destruct Hht as (Htail & Htnz & nd & Hndt & Hnx).
    assert (t ≠ n) as Htn.
    { intros ->. congruence. }
    rewrite Htail. pose proof Htnz as Htnz'. apply Z.eqb_neq in Htnz'.
    rewrite Htnz'. unfold _HASHMAP_LL_ADD_AFTER.
    mrun by (apply run_set_previous; simpl; apply lookup_insert_eq).
    mrun by (apply run_load_node; simpl; rewrite !lookup_insert_ne by done;
             exact Hndt).
    rewrite Hnx. cbn [NULL Z.eqb].
    mrun by (apply run_set_next; simpl; apply lookup_insert_eq).
    mrun (run_set_tail _ _).
    mrun by (apply run_set_next; simpl; rewrite !lookup_insert_ne by done;
             exact Hndt).
    wsimpl. rewrite !insert_insert_eq.
    eexists. split; [reflexivity|].
    split; [by repeat split|]. split; [done|]. split; [done|].
    split; [done|]. split; [done|].
    eapply (LL_PUT_post w _ L B a kv e n); try done.
    + wsimpl.
      eapply (nlist_snoc (nodes w) _ _ _ t c.1 nd n
                (with_next NULL (with_previous t (with_table_entry a zero_node))));
        try done.
      * by rewrite <- list_fmap_compose.
      * by rewrite fmap_last, Hlast.
      * apply lookup_insert_eq.
      * intros x Hx Hxt. rewrite !lookup_insert_ne; [done| |done].
        intros <-. apply Hn_notin. by rewrite <- list_fmap_compose in Hx.
      * rewrite lookup_insert_ne by done. apply lookup_insert_eq.
    + wsimpl. intros x [y Hx].
      destruct (decide (n = x)) as [->|Hne]; [by left|]. right.
      destruct (decide (t = x)) as [<-|Hne']; [by exists nd|].
      rewrite !lookup_insert_ne in Hx by done. by exists y.
  - destruct Hht as [Hhead Htail]. apply last_None in Hlast. subst L.
    rewrite Htail. cbn [NULL Z.eqb]. unfold _HASHMAP_LL_ADD_HEAD.
    rewrite !bind_assoc. rewrite (run_bind _ _ _ _ _ (run_get_hm _)).
    cbn [hm log bump set_entries set_nodes set_oracle].
    rewrite Hhead. cbn [NULL Z.eqb].
    mrun (run_set_head _ _). mrun (run_set_tail _ _).
    mrun by (apply run_set_previous; simpl; apply lookup_insert_eq).
    mrun by (apply run_set_next; simpl; apply lookup_insert_eq).
    wsimpl. rewrite !insert_insert_eq.
    eexists. split; [reflexivity|].
    split; [by repeat split|]. split; [done|]. split; [done|].
    split; [done|]. split; [done|].
    eapply (LL_PUT_post w _ [] B a kv e n); try done.
    + wsimpl. split; [done|]. split; [done|].
      eexists. rewrite lookup_insert_eq. done.
    + wsimpl. intros x [y Hx]. destruct (decide (n = x)) as [->|Hne]; [by left|].
      rewrite lookup_insert_ne in Hx by done. right. by exists y.
Qed.

(** ** Rehashing *)

Lemma no_failure_app evs1 evs2 :
  no_failure (evs1 ++ evs2) = no_failure evs1 && no_failure evs2.
Proof. apply forallb_app. Qed.

Lemma table_holds w B c : table_ok w B → c ∈ concat B → holds (entries w) c.
Proof.
  intros [_ _ (cells & _ & Hch) _ _ _ _] Hc.
  destruct (in_concat_bucket _ _ Hc) as (i & b & Hb & Hcb).
  destruct (Forall2_lookup_r _ _ _ _ _ Hch Hb) as (p & _ & Hp).
  apply chain_holds in Hp. rewrite Forall_forall in Hp. by apply Hp.
Qed.

Lemma holds_live E c : holds E c → is_Some (E !! c.1).
Proof. intros (e & He & _). by exists e. Qed.

Lemma holds_inj E a kv kv' : holds E (a, kv) → holds E (a, kv') → kv = kv'.
Proof.
  unfold holds. simpl. intros (e & He & H1) (e' & He' & H2). congruence.
Qed.

Lemma run_free_entry w a e :
  entries w !! a = Some e → a ≠ NULL →
  free_entry a w
  = Some (tt, log (Free Entry a) (set_entries (delete a (entries w)) w)).
Proof.
  intros He Hnz. unfold free_entry. apply Z.eqb_neq in Hnz. by rewrite Hnz, He.
Qed.

Lemma in_concat_alter_snoc {A} (B : list (list A)) i b c x :
  B !! i = Some b →
  x ∈ concat (alter (λ b, b ++ [c]) i B) ↔ x ∈ concat B ∨ x = c.
Proof.
  intros Hb. rewrite (concat_alter_snoc _ _ _ _ Hb), elem_of_app.
  by rewrite list_elem_of_singleton.
Qed.

Lemma rehash_loop_spec : ∀ (L : list (ptr * cell)) fuel w B cursor,
  heap_ok w → table_ok w B →
  nlist (nodes w) cursor (prod_map id fst <$> L) →
  (length L < fuel)%nat →
  NoDup L.*1 →
  Forall (holds (entries w)) L.*2 →
  NoDup L.*2.*1 →
  (∀ a, a ∈ L.*2.*1 → a ∉ (concat B).*1) →
  ∃ r w' B' L' evs,
    rehash_loop fuel cursor w = Some (r, w') ∧
    nlist (nodes w') cursor (prod_map id fst <$> L') ∧
    rehash_post w w' B B' L L' r evs.
Proof.
  induction L as [|[n [a kv]] L IH];
    intros fuel w B cursor Hheap Htab Hnl Hfuel Hnd Hholds Hinj Hdisj.
  - destruct fuel as [|fuel]; [simpl in Hfuel; lia|].
    simpl in Hnl. subst cursor. exists 0, w, B, [], [].
    split; [done|]. split; [done|].
    split; try done.
    + by exists 0%nat.
    + by rewrite app_nil_r.
    + auto.
    + auto.
    + by left.
    + intros _. split; [done|]. by rewrite app_nil_r.
  - destruct fuel as [|fuel]; [simpl in Hfuel; lia|].
    simpl in Hnl. destruct Hnl as (-> & Hnz & nd & Hn & Hna & Hnl).
    rewrite !fmap_cons in Hnd. rewrite !fmap_cons in Hholds.
    rewrite !fmap_cons in Hinj. simpl in Hnd, Hholds, Hinj.
    apply NoDup_cons in Hnd as [Hn_notin Hnd].
    apply NoDup_cons in Hinj as [Ha_notin Hinj].
    apply Forall_cons in Hholds as [Ha Hholds].
    pose proof Ha as (e & He & Hkv). simpl in He, Hkv.
    assert (a ∉ (concat B).*1) as Ha_tab.
    { apply Hdisj. rewrite !fmap_cons. left. }
    assert (∀ x, x ∈ L.*2.*1 → x ∉ (concat B).*1) as Hdisj'.
    { intros x Hx. apply Hdisj. rewrite !fmap_cons. by right. }
    pose proof Hheap as [Hbrk HE HN HT].
    assert (0 < a < brk w) as Ha_range by (apply HE; by rewrite He).
    cbn [rehash_loop]. pose proof Hnz as Hnz'. apply Z.eqb_neq in Hnz'.
    rewrite Hnz'. mrun (run_load_node _ _ _ Hn). rewrite Hna.
    mrun (run_load_entry _ _ _ He). rewrite Hkv.
    destruct (decide (key kv ∈ key <$> (concat B).*2)) as [Hin|Hnotin].
    { (* the key is already in the new table: the loop stops *)
      apply list_elem_of_fmap in Hin as (kv' & Hkk & Hin).
      apply list_elem_of_fmap in Hin as ([a' kv''] & Hkv' & Hin).
      simpl in Hkv'. subst kv''.
      destruct (table_holds _ _ _ Htab Hin) as (e' & He' & Hkv'). simpl in *.
      destruct (TABLE_PUT_update w B (key kv) (value kv) a' kv' e')
        as (Hrun & Hheap' & Htab'); try done.
      mrun Hrun. cbn [NULL Z.eqb].
      assert (a' ∈ (concat B).*1) as Ha'.
      { apply list_elem_of_fmap. by exists (a', kv'). }
      eexists (-1), _, _, ((n, (a, kv)) :: L), []. split; [reflexivity|].
      split.
      { simpl. split; [done|]. split; [done|]. by exists nd. }
      split; try done; wsimpl.
      - by exists 0%nat.
      - by rewrite app_nil_r.
      - rewrite !fmap_cons. simpl. constructor.
        + exists e. simpl. rewrite lookup_insert_ne; [done|]. by intros ->.
        + rewrite Forall_forall in Hholds. apply Forall_forall.
          intros c Hc. apply (holds_same_kv (entries w)); [|by apply Hholds].
          unfold same_kv. rewrite lookup_insert_ne; [done|].
          intros ->. apply (Hdisj' c.1); [|done].
          apply list_elem_of_fmap. by exists c.
      - rewrite !fmap_cons. simpl. by constructor.
      - auto.
      - intros x. by rewrite concat_fmap, set_val_fst.
      - intros x. rewrite concat_fmap, set_val_fst. auto.
      - by right.
      - intros Hnd' Hk. exfalso. apply (Hk (a, kv)).
        + rewrite !fmap_cons. simpl. left.
        + simpl. apply list_elem_of_fmap. exists kv'. split; [done|].
          apply list_elem_of_fmap. by exists (a', kv'). }
    destruct (hd true (oracle w)) eqn:Ho.
    2:{ (* the allocation of the new entry fails: the loop stops *)
      mrun (TABLE_PUT_fail w B _ (value kv) Htab Hnotin Ho). cbn [NULL Z.eqb].
      eexists (-1), _, B, ((n, (a, kv)) :: L), [Calloc Entry NULL].
      split; [reflexivity|]. split.
      { simpl. split; [done|]. split; [done|]. by exists nd. }
      split; try done; wsimpl.
      - by exists 1%nat.
      - by repeat constructor.
      - by apply (table_ok_transfer w).
      - rewrite !fmap_cons. simpl. by constructor.
      - rewrite !fmap_cons. simpl. by constructor.
      - auto.
      - auto.
      - by right. }
    (* a new entry is made in the new table, the node is moved to it and
       the old entry is freed *)
    destruct (table_bucket w B (key kv) Htab)
      as (i & cells & c0 & b & Hh & Hcells & Hch & Hc0 & Hb & Hcb & Hndb & Hlen).
    destruct (TABLE_PUT_new w B (key kv) (value kv) i)
      as (w1 & Hrun & Hhm1 & Hnodes1 & Hbrk1 & Horacle1 & Htrace1 & Htables1
          & Hkv1 & Hp1 & Hheap1 & Htab1); try done.
    replace {| key := key kv; value := value kv |} with kv in Htab1
      by (by destruct kv).
    set (p := brk w) in *.
    set (B1 := alter (λ b, b ++ [(p, kv)]) i B) in *.
    assert (p ≠ NULL) as Hpnz by (unfold p, NULL; lia).
    assert (a ≠ p) as Hap by (unfold p; lia).
    assert (n ≠ p) as Hnp.
    { assert (0 < n < brk w) by (apply HN; by rewrite Hn). unfold p. lia. }
    assert (∀ x, x ∈ concat B1 ↔ x ∈ concat B ∨ x = (p, kv)) as HB1.
    { intros x. by apply in_concat_alter_snoc with b. }
    assert (∀ x, x ∈ (concat B1).*1 ↔ x ∈ (concat B).*1 ∨ x = p) as HB1a.
    { intros x. rewrite !list_elem_of_fmap. split.
      - intros (y & -> & Hy). apply HB1 in Hy as [Hy| ->]; [|by right].
        left. by exists y.
      - intros [(y & -> & Hy)| ->].
        + exists y. split; [done|]. apply HB1. by left.
        + exists (p, kv). split; [done|]. apply HB1. by right. }
    mrun Hrun. pose proof Hpnz as Hpnz'. apply Z.eqb_neq in Hpnz'. rewrite Hpnz'.
    mrun by (apply run_set_table_entry; rewrite Hnodes1; exact Hn).
    assert (∃ e1, entries w1 !! a = Some e1) as [e1 He1].
    { specialize (Hkv1 a Hap). unfold same_kv in Hkv1. rewrite He in Hkv1.
      destruct (entries w1 !! a) as [e1|]; [by exists e1|done]. }
    mrun by (eapply run_free_entry; [exact He1|unfold NULL; lia]).
    mrun by (apply run_load_node; wsimpl; apply lookup_insert_eq).
    cbn [_next with_table_entry].
    set (w3 := log (Free Entry a)
                 (set_entries (delete a (entries w1))
                    (set_nodes (<[n := with_table_entry p nd]> (nodes w1)) w1))).
    assert (∀ x, x ≠ a → x ≠ p → same_kv (entries w) (entries w3) x) as Hkv3.
    { intros x Hxa Hxp. unfold same_kv. unfold w3. wsimpl.
      rewrite lookup_delete_ne by done. by apply Hkv1. }
    assert (∀ x, x ∈ L.*2.*1 → x ≠ p) as HLp.
    { intros x Hx ->. apply list_elem_of_fmap in Hx as (y & Hy1 & Hy).
      rewrite Forall_forall in Hholds. apply Hholds, holds_live in Hy.
      rewrite <- Hy1 in Hy. apply HE in Hy. unfold p in Hy. lia. }
    destruct (IH fuel w3 B1 (_next nd))
      as (r & w' & B' & L' & evs & Hloop & Hnl' & Hpost).
    { destruct Hheap1 as [? HE1 HN1 ?]. split; unfold w3; wsimpl; try done.
      - intros x [y Hx]. apply HE1. destruct (decide (a = x)) as [<-|Hne].
        + by rewrite lookup_delete_eq in Hx.
        + rewrite lookup_delete_ne in Hx by done. by rewrite Hx.
      - intros x [y Hx]. apply HN1. destruct (decide (n = x)) as [<-|Hne].
        + by rewrite Hnodes1, Hn.
        + rewrite lookup_insert_ne in Hx by done. by rewrite Hx. }
    { apply (table_ok_transfer w1); try done.
      intros x Hx. unfold same_link, w3. wsimpl.
      rewrite lookup_delete_ne; [done|]. intros <-.
      apply HB1a in Hx as [Hx|Hx]; done. }
    { apply nlist_frame with (nodes w); [|done].
      intros m Hm. unfold w3. wsimpl. rewrite Hnodes1.
      rewrite lookup_insert_ne; [done|]. intros <-. apply Hn_notin.
      by rewrite <- list_fmap_compose in Hm. }
    { simpl in Hfuel. lia. }
    { done. }
    { rewrite Forall_forall in Hholds. apply Forall_forall. intros x Hx.
      apply (holds_same_kv (entries w)); [|by apply Hholds].
      assert (x.1 ∈ L.*2.*1) as Hx1 by (apply list_elem_of_fmap; by exists x).
      apply Hkv3; [|by apply HLp]. intros Heq. apply Ha_notin. by rewrite <- Heq. }
    { done. }
    { intros x Hx Hx'. apply HB1a in Hx' as [Hx'| ->].
      - by apply (Hdisj' x).
      - by apply (HLp p). }
    destruct Hpost as [Ohm Otables Obrk [no Ooracle] Otrace Oevents Oheap Otable
                       Onodes Oframe Oholds Oinj Oaddr Okeep Onew Ostatus Odone
                       Oclean].
    assert (brk w3 = p + 1) as Hbrk3 by done.
    (* the key and value that the new entry has at the end *)
    assert (∃ kvp, holds (entries w') (p, kvp) ∧ (r = 0 → kvp = kv))
      as (kvp & Hkvp & Hkvp0).
    { assert (p ∈ (concat B').*1) as Hp'.
      { apply Okeep, HB1a. by right. }
      apply list_elem_of_fmap in Hp' as ([p' kvp] & Hpp & Hin). simpl in Hpp.
      subst p'. exists kvp. split; [by eapply table_holds|].
      intros Hr. destruct (Odone Hr) as [_ Hperm].
      assert ((p, kv) ∈ concat B') as Hin'.
      { rewrite Hperm. apply elem_of_app. left. apply HB1. by right. }
      eapply holds_inj; by eapply table_holds. }
    exists r, w', B', ((n, (p, kvp)) :: L'),
      ([Calloc Entry p; Free Entry a] ++ evs).
    split; [exact Hloop|]. split.
    { simpl. split; [done|]. split; [done|].
      exists (with_table_entry p nd). split; [|done].
      rewrite Oframe; [unfold w3; wsimpl; apply lookup_insert_eq|done]. }
    split.
    + rewrite Ohm. unfold w3. wsimpl. exact Hhm1.
    + intros t Ht. rewrite Otables; [|unfold w3; wsimpl; by rewrite Hhm1].
      unfold w3. wsimpl. by apply Htables1.
    + rewrite Hbrk3 in Obrk. unfold p in Obrk. lia.
    + exists (S no). rewrite Ooracle. unfold w3. wsimpl. rewrite Horacle1.
      destruct (oracle w); simpl; by rewrite ?drop_nil.
    + rewrite Otrace. unfold w3. wsimpl. rewrite Htrace1.
      by rewrite <- !app_assoc.
    + by repeat constructor.
    + done.
    + done.
    + rewrite !fmap_cons. by rewrite Onodes.
    + intros m Hm. rewrite fmap_cons in Hm. apply not_elem_of_cons in Hm as [Hmn Hm].
      rewrite Oframe by done. unfold w3. wsimpl. rewrite Hnodes1.
      by rewrite lookup_insert_ne.
    + rewrite !fmap_cons. by constructor.
    + rewrite !fmap_cons. simpl. constructor; [|done].
      intros Hin. apply Oaddr in Hin as [Hin|Hin].
      * by apply (HLp p).
      * lia.
    + intros x Hx. rewrite !fmap_cons in Hx. simpl in Hx.
      apply elem_of_cons in Hx as [->|Hx]; [right; unfold p; lia|].
      apply Oaddr in Hx as [Hx|Hx].
      * left. rewrite !fmap_cons. by right.
      * right. unfold p in *. lia.
    + intros x Hx. apply Okeep, HB1a. by left.
    + intros x Hx. apply Onew in Hx as [Hx|Hx].
      * apply HB1a in Hx as [Hx| ->]; [by left|right; unfold p; lia].
      * right. unfold p in *. lia.
    + done.
    + intros Hr. destruct (Odone Hr) as [Hkvs Hperm]. rewrite (Hkvp0 Hr).
      split.
      * rewrite !fmap_cons. simpl. by rewrite Hkvs.
      * rewrite Hperm. unfold B1. rewrite (concat_alter_snoc _ _ _ _ Hb).
        rewrite !fmap_cons. simpl. by rewrite <- app_assoc.
    + intros Hndk Hk Hclean. rewrite !fmap_cons in Hndk. simpl in Hndk.
      apply NoDup_cons in Hndk as [Hk_notin Hndk].
      apply Oclean; [done| |].
      * intros c Hc Hin. apply list_elem_of_fmap in Hin as (kv0 & Hkk & Hin).
        apply list_elem_of_fmap in Hin as (y & -> & Hy).
        apply HB1 in Hy as [Hy| ->].
        -- apply (Hk c); [rewrite !fmap_cons; by right|].
          rewrite Hkk. apply list_elem_of_fmap. exists y.2. split; [done|].
          apply list_elem_of_fmap. by exists y.
        -- simpl in Hkk. apply Hk_notin. rewrite <- Hkk.
          apply list_elem_of_fmap. exists c.2. split; [done|].
          apply list_elem_of_fmap. by exists c.
      * rewrite no_failure_app in Hclean.
        by apply andb_true_iff in Hclean as [_ Hclean].
Qed.

(** ** [_HASHMAP_INCREASE_SIZE] *)

Lemma run_calloc_table_big w n :
  SIZE_MAX < n * sizeof_ptr →
  calloc_table n w = Some (NULL, log (Calloc Table NULL) w).
Proof.
  intros H. unfold calloc_table, calloc_ok, bind.
  by rewrite bool_decide_eq_true_2.
Qed.

Lemma run_calloc_table_fail w n :
  n * sizeof_ptr ≤ SIZE_MAX → hd true (oracle w) = false →
  calloc_table n w
  = Some (NULL, log (Calloc Table NULL) (set_oracle (tl (oracle w)) w)).
Proof.
  intros Hn H. unfold calloc_table, calloc_ok, bind.
  rewrite bool_decide_eq_false_2 by lia. by rewrite H.
Qed.

Lemma run_calloc_table_ok w n :
  n * sizeof_ptr ≤ SIZE_MAX → hd true (oracle w) = true →
  calloc_table n w
  = Some (brk w,
          log (Calloc Table (brk w))
            (bump (set_tables (<[brk w := replicate (Z.to_nat n) NULL]> (tables w))
                     (set_oracle (tl (oracle w)) w)))).
Proof.
  intros Hn H. unfold calloc_table, calloc_ok, bind.
  rewrite bool_decide_eq_false_2 by lia. by rewrite H.
Qed.

Lemma run_free_table w t cells :
  tables w !! t = Some cells → t ≠ NULL →
  free_table t w
  = Some (tt, log (Free Table t) (set_tables (delete t (tables w)) w)).
Proof.
  intros Ht Hnz. unfold free_table. apply Z.eqb_neq in Hnz. by rewrite Hnz, Ht.
Qed.

Lemma concat_replicate_nil {A} n : concat (replicate n (@nil A)) = [].
Proof. induction n as [|n IH]; [done|]. simpl. done. Qed.

(** A freshly allocated table of [n] cells is a table of [n] empty buckets. *)
Lemma table_ok_fresh w n :
  0 < n → n * sizeof_ptr ≤ SIZE_MAX →
  _table_size (hm w) = n →
  hash_ok (call_hash (hash_func (hm w))) →
  tables w !! _entry_table (hm w) = Some (replicate (Z.to_nat n) NULL) →
  table_ok w (replicate (Z.to_nat n) []).
Proof.
  intros Hn Hsz Hts Hh Ht. split.
  - by rewrite Hts.
  - done.
  - exists (replicate (Z.to_nat n) NULL). split; [done|].
    apply Forall2_same_length_lookup. split; [by rewrite !length_replicate|].
    intros i c b Hc Hb. apply lookup_replicate in Hc as [-> _].
    by apply lookup_replicate in Hb as [-> _].
  - rewrite length_replicate, Hts. lia.
  - rewrite concat_replicate_nil. constructor.
  - intros i b c Hb Hc. apply lookup_replicate in Hb as [-> _].
    by apply elem_of_nil in Hc.
  - rewrite concat_replicate_nil. constructor.
Qed.

Lemma list_ok_transfer w w' L :
  list_ok w L →
  _head (hm w') = _head (hm w) → _tail (hm w') = _tail (hm w) →
  nodes w' = nodes w →
  (∀ a, a ∈ L.*2.*1 → same_kv (entries w) (entries w') a) →
  list_ok w' L.
Proof.
  intros [Hn Ht Hnd Hh Hi] Hhead Htail Hnodes Hkv.
  split; rewrite ?Hhead, ?Htail, ?Hnodes; try done.
  rewrite Forall_forall in Hh. apply Forall_forall. intros c Hc.
  apply (holds_same_kv (entries w)); [|by apply Hh].
  apply Hkv. apply list_elem_of_fmap. by exists c.
Qed.

(** A world that differs only by the allocator's oracle and trace. *)
Lemma Inv_same_heap w w' L B :
  Inv w L B →
  hm w' = hm w → entries w' = entries w → nodes w' = nodes w →
  tables w' = tables w → brk w' = brk w →
  Inv w' L B.
Proof.
  intros [[Hb HE HN HT] Htab Hlist Hnum] Hhm He Hn Ht Hbrk. split.
  - split; by rewrite ?Hbrk, ?He, ?Hn, ?Ht.
  - apply (table_ok_transfer w); rewrite ?Hhm, ?Ht, ?He; done.
  - apply (list_ok_transfer w); rewrite ?Hhm, ?He; done.
  - by rewrite Hhm.
Qed.

Lemma Sync_keys_NoDup w L B :
  table_ok w B → Sync L B → NoDup (key <$> L.*2.*2).
Proof.
  intros [_ _ _ _ _ _ Hkeys] Hs. unfold Sync in Hs. by rewrite Hs.
Qed.

Lemma list_ok_length w L : list_ok w L → (length L ≤ size (nodes w))%nat.
Proof.
  intros [Hn _ Hnd _ _]. rewrite <- (length_fmap fst L).
  apply live_length; [done|]. intros n Hin.
  apply (nlist_live _ _ _ _ Hn). rewrite <- list_fmap_compose.
  apply list_elem_of_fmap in Hin as (x & -> & Hx).
  apply list_elem_of_fmap. by exists x.
Qed.

Lemma INCREASE_SIZE_spec w L B :
  Inv w L B →
  ∃ r w' L' B' evs,
    _HASHMAP_INCREASE_SIZE w = Some (r, w') ∧ grow_post w w' L L' B B' r evs.
Proof.
  intros HInv. pose proof HInv as [Hheap Htab Hlist Hnum].
  pose proof Htab as [[Hts Hsz] Hhash (cells & Hcells & Hch) HlenB _ _ _].
  pose proof Hheap as [Hbrk HE HN HT].
  unfold _HASHMAP_INCREASE_SIZE. mrun (run_get_hm _).
  assert (to_size_t (_table_size (hm w) * 2) = 2 * _table_size (hm w)) as ->.
  { unfold to_size_t. rewrite Z.mod_small; [lia|].
    unfold sizeof_ptr, SIZE_MAX in *. lia. }
  set (nts := 2 * _table_size (hm w)).
  destruct (decide (SIZE_MAX < nts * sizeof_ptr)) as [Hbig|Hfit].
  { mrun (run_calloc_table_big _ _ Hbig). cbn [NULL Z.eqb negb].
    eexists (-1), _, L, B, [Calloc Table NULL]. split; [reflexivity|].
    split; try done.
    - by apply (Inv_same_heap w).
    - by right.
    - left. by split_and!. }
  destruct (hd true (oracle w)) eqn:Ho.
  2:{ mrun by (apply run_calloc_table_fail; [lia|done]). cbn [NULL Z.eqb negb].
      eexists (-1), _, L, B, [Calloc Table NULL]. split; [reflexivity|].
      split; try done.
      - by apply (Inv_same_heap w).
      - by right.
      - left. by split_and!. }
  mrun by (apply run_calloc_table_ok; [lia|done]).
  set (nt := brk w).
  assert (nt ≠ NULL) as Hntz by (unfold nt, NULL; lia).
  pose proof Hntz as Hntz'. apply Z.eqb_neq in Hntz'. rewrite Hntz'. cbn [negb].
  mrun (run_put_hm _ _).
  set (w1 := set_hm (with_entry_table nt (with_table_size nts (hm w)))
               (log (Calloc Table nt)
                  (bump (set_tables
                           (<[nt := replicate (Z.to_nat nts) NULL]> (tables w))
                           (set_oracle (tl (oracle w)) w))))).
  assert (tables w !! nt = None) as Hfresh.
  { destruct (tables w !! nt) eqn:Hp; [|done].
    assert (0 < nt < brk w) by (apply HT; by rewrite Hp). unfold nt in *. lia. }
  assert (_entry_table (hm w) ≠ nt) as Hold_nt by (intros Heq; congruence).
  assert (heap_ok w1) as Hheap1.
  { split; unfold w1; wsimpl; try lia.
    - intros a Ha. apply HE in Ha. lia.
    - intros a Ha. apply HN in Ha. lia.
    - intros a [x Ha]. destruct (decide (nt = a)) as [<-|Hne]; [unfold nt; lia|].
      rewrite lookup_insert_ne in Ha by done.
      assert (0 < a < brk w) by (apply HT; by rewrite Ha). lia. }
  assert (table_ok w1 (replicate (Z.to_nat nts) [])) as Htab1.
  { apply table_ok_fresh; unfold w1; wsimpl; try done.
    - unfold nts. lia.
    - lia.
    - simpl. apply lookup_insert_eq. }
  pose proof Hlist as [Hn Htl Hnd Hh Hi].
  unfold _HASHMAP_REHASH_TABLE. mrun (run_get_hm _).
  unfold node_fuel at 1. rewrite bind_assoc. unfold bind at 1.
  destruct (rehash_loop_spec L (S (size (nodes w1))) w1
              (replicate (Z.to_nat nts) []) (_head (hm w)))
    as (r & w' & B' & L' & evs & Hloop & Hnl' & Hpost); try done.
  { pose proof (list_ok_length _ _ Hlist). unfold w1. wsimpl. lia. }
  { intros a _. rewrite concat_replicate_nil. apply not_elem_of_nil. }
  destruct Hpost as [Ohm Otables Obrk [no Ooracle] Otrace Oevents Oheap Otable
                     Onodes Oframe Oholds Oinj Oaddr Okeep Onew Ostatus Odone
                     Oclean].
  change (_head (hm w1)) with (_head (hm w)). mrun Hloop.
  assert (_entry_table (hm w) ≠ NULL) as Holdz.
  { assert (0 < _entry_table (hm w) < brk w) by (apply HT; by rewrite Hcells).
    unfold NULL. lia. }
  assert (tables w' !! _entry_table (hm w) = Some cells) as Hold'.
  { rewrite Otables by done. unfold w1. wsimpl. by rewrite lookup_insert_ne. }
  mrun (run_free_table _ _ _ Hold' Holdz).
  eexists r, _, L', B',
    (Calloc Table nt :: evs ++ [Free Table (_entry_table (hm w))]).
  split; [reflexivity|].
  split; try done; wsimpl.
  - destruct Oheap as [? ? ? OT]. split; [split|..]; wsimpl; try done.
    + intros a [x Ha]. apply OT. destruct (decide (_entry_table (hm w) = a)) as [<-|Hne].
      * by rewrite lookup_delete_eq in Ha.
      * rewrite lookup_delete_ne in Ha by done. by rewrite Ha.
    + apply (table_ok_transfer w'); try done. wsimpl.
      rewrite lookup_delete_ne; [done|]. by rewrite Ohm.
    + split; wsimpl; rewrite ?Ohm; try done.
      * by rewrite Onodes.
      * by rewrite Onodes.
    + rewrite Ohm. exact Hnum.
  - rewrite Otrace. unfold w1. wsimpl. by rewrite <- !app_assoc.
  - rewrite Ohm. reflexivity.
  - right. exists evs. split_and!; try done; rewrite Ohm; reflexivity.
  - intros Hr. destruct (Odone Hr) as [Hkvs Hperm]. split; [done|].
    unfold Sync. by rewrite Hperm, concat_replicate_nil.
  - intros Hsync Hclean. apply Oclean.
    + exact (Sync_keys_NoDup w L B Htab Hsync).
    + intros c _. rewrite concat_replicate_nil. apply not_elem_of_nil.
    + simpl in Hclean. rewrite andb_true_iff in Hclean. destruct Hclean as [_ Hclean].
      rewrite no_failure_app in Hclean.
      by apply andb_true_iff in Hclean as [Hclean _].
Qed.

(** ** The insertion block of [HASHMAP_PUT] *)

Lemma NoDup_fmap_eq {A C} (f : A → C) (l : list A) x y :
  NoDup (f <$> l) → x ∈ l → y ∈ l → f x = f y → x = y.
Proof.
  induction l as [|z l IH]; intros Hnd Hx Hy Hf.
  - by apply elem_of_nil in Hx.
  - rewrite fmap_cons in Hnd. apply NoDup_cons in Hnd as [Hz Hnd].
    apply elem_of_cons in Hx as [->|Hx]; apply elem_of_cons in Hy as [->|Hy].
    + done.
    + exfalso. apply Hz. rewrite Hf. apply list_elem_of_fmap. by exists y.
    + exfalso. apply Hz. rewrite <- Hf. apply list_elem_of_fmap. by exists x.
    + by apply IH.
Qed.

(** Under [Sync], replacing the value at the address of key [k] is replacing
    the value of key [k]. *)
Lemma set_val_abs (l : list cell) a kv k v :
  NoDup l.*1 → NoDup (key <$> l.*2) → (a, kv) ∈ l → key kv = k →
  (set_val a v <$> l).*2 = set_key_value k v <$> l.*2.
Proof.
  intros Hnda Hndk Hin Hk.
  rewrite <- !list_fmap_compose. apply list_fmap_ext.
  intros i c Hc. simpl. apply list_elem_of_lookup_2 in Hc.
  unfold set_val, set_key_value.
  destruct (decide (c.1 = a)) as [Ha|Ha]; destruct (decide (key c.2 = k)) as [Hck|Hck];
    simpl; try done.
  - by rewrite Hck.
  - exfalso. apply Hck.
    assert (c = (a, kv)) as -> by (by apply (NoDup_fmap_eq fst l)).
    done.
  - exfalso. apply Ha.
    assert (c = (a, kv)) as ->; [|done].
    apply (NoDup_fmap_eq (key ∘ snd) l); try done.
    + by rewrite list_fmap_compose.
    + simpl. congruence.
Qed.

Lemma Sync_keys (L : list (ptr * cell)) B :
  Sync L B → key <$> L.*2.*2 ≡ₚ key <$> (concat B).*2.
Proof. intros Hs. unfold Sync in Hs. by rewrite Hs. Qed.

Lemma insert_spec w L B k v :
  Inv w L B →
  ∃ r w' L' B' evs,
    table_then_ll_put k v w = Some (r, w') ∧
    insert_post w w' L L' B B' k v r evs.
Proof.
  intros HInv. pose proof HInv as [Hheap Htab Hlist Hnum].
  pose proof Hheap as [Hbrk HE HN HT].
  pose proof Hlist as [Hn Htl Hnd Hh Hi].
  unfold table_then_ll_put.
  destruct (decide (k ∈ key <$> (concat B).*2)) as [Hin|Hnotin].
  { (* the key is in the table *)
    pose proof Hin as Hin0.
    apply list_elem_of_fmap in Hin as (kv & Hkk & Hin).
    apply list_elem_of_fmap in Hin as ([a kv'] & Hkv' & Hin).
    simpl in Hkv'. subst kv'. symmetry in Hkk.
    destruct (table_holds _ _ _ Htab Hin) as (e & He & Hkv). simpl in *.
    destruct (TABLE_PUT_update w B k v a kv e)
      as (Hrun & Hheap' & Htab'); try done.
    mrun Hrun. cbn [NULL Z.eqb negb]. unfold ret at 1. unfold bind at 1.
    cbn [Z.eqb].
    eexists 0, _, (prod_map id (set_val a v) <$> L), _, [].
    split; [reflexivity|].
    assert ((prod_map id (set_val a v) <$> L).*1 = L.*1) as HL1.
    { rewrite <- !list_fmap_compose. by apply list_fmap_ext. }
    assert ((prod_map id (set_val a v) <$> L).*2 = set_val a v <$> L.*2) as HL2.
    { rewrite <- !list_fmap_compose. by apply list_fmap_ext. }
    split.
    - split; try done. split; wsimpl.
      + replace (prod_map id fst <$> (prod_map id (set_val a v) <$> L))
          with (prod_map id fst <$> L); [done|].
        rewrite <- !list_fmap_compose. apply list_fmap_ext.
        intros i [n c] _. simpl. unfold set_val. by destruct (decide _).
      + by rewrite HL1.
      + by rewrite HL1.
      + rewrite HL2. rewrite Forall_forall in Hh. apply Forall_forall.
        intros c Hc. apply list_elem_of_fmap in Hc as (c0 & -> & Hc0).
        destruct (Hh _ Hc0) as (e0 & He0 & Hkv0).
        unfold set_val. destruct (decide (c0.1 = a)) as [Heq|Hne].
        * exists (with_value v e). simpl. rewrite Heq, lookup_insert_eq.
          split; [done|]. simpl. rewrite Heq in He0.
          assert (e0 = e) as -> by congruence. by rewrite Hkv0.
        * exists e0. by rewrite lookup_insert_ne.
      + by rewrite HL2, set_val_fst.
    - by rewrite app_nil_r.
    - by repeat split.
    - by left.
    - constructor.
    - intros _. split_and!; try done.
      + by rewrite HL2, set_val_fst.
      + by rewrite concat_fmap, set_val_fst.
      + by rewrite concat_fmap, set_val_keys.
      + rewrite concat_fmap. apply list_elem_of_fmap.
        exists (set_val a v (a, kv)). split.
        * unfold set_val. simpl. rewrite decide_True by done. simpl.
          by rewrite Hkk.
        * apply list_elem_of_fmap. by exists (a, kv).
    - intros Hsync _. split; [done|].
      pose proof Htab as [_ _ _ _ Hnda _ Hndk].
      split.
      + unfold Sync. rewrite HL2, concat_fmap. unfold Sync in Hsync.
        by rewrite Hsync.
      + rewrite HL2. unfold abs_put. rewrite decide_True.
        * unfold Sync in Hsync.
          apply (set_val_abs _ a kv); try done; by rewrite Hsync.
        * by rewrite (Sync_keys _ _ Hsync). }
  destruct (hd true (oracle w)) eqn:Ho.
  2:{ (* the entry cannot be allocated: nothing changes, and 0 is returned *)
    mrun (TABLE_PUT_fail w B k v Htab Hnotin Ho).
    cbn [NULL Z.eqb negb]. unfold ret at 1. unfold bind at 1. cbn [Z.eqb].
    eexists 0, _, L, B, [Calloc Entry NULL]. split; [reflexivity|].
    split; try done.
    - by apply (Inv_same_heap w).
    - by left.
    - by repeat constructor. }
  destruct (table_bucket w B k Htab)
    as (i & cells & c0 & b & Hhk & Hcells & Hch & Hc0 & Hb & Hcb & Hndb & Hlen).
  destruct (TABLE_PUT_new w B k v i)
    as (w1 & Hrun & Hhm1 & Hnodes1 & Hbrk1 & Horacle1 & Htrace1 & Htables1
        & Hkv1 & Hp1 & Hheap1 & Htab1); try done.
  set (p := brk w) in *. set (kv := {| key := k; value := v |}) in *.
  set (B1 := alter (λ b, b ++ [(p, kv)]) i B) in *.
  assert (p ≠ NULL) as Hpnz by (unfold p, NULL; lia).
  assert (∀ x, x ∈ L.*2.*1 → x ≠ p) as HLp.
  { intros x Hx ->. apply list_elem_of_fmap in Hx as (y & Hy1 & Hy).
    rewrite Forall_forall in Hh. apply Hh, holds_live in Hy.
    rewrite <- Hy1 in Hy. apply HE in Hy. unfold p in Hy. lia. }
  assert (list_ok w1 L) as Hlist1.
  { apply (list_ok_transfer w); rewrite ?Hhm1; try done.
    intros a Ha. apply Hkv1. by apply HLp. }
  mrun Hrun. pose proof Hpnz as Hpnz'. apply Z.eqb_neq in Hpnz'.
  rewrite Hpnz'. cbn [negb].
  destruct (hd true (oracle w1)) eqn:Ho1.
  2:{ (* the node cannot be allocated: the entry stays in the table *)
    mrun (LL_PUT_fail w1 p Ho1). cbn [Z.eqb].
    eexists (-1), _, L, B1, [Calloc Entry p; Calloc Node NULL].
    split; [reflexivity|].
    split; try done; wsimpl.
    - split; wsimpl; try done.
      + by destruct Hheap1.
      + by apply (table_ok_transfer w1).
      + by apply (list_ok_transfer w1).
      + by rewrite Hhm1.
    - rewrite Htrace1. by rewrite <- app_assoc.
    - rewrite Hhm1. by repeat split.
    - by right.
    - by repeat constructor.
    - intros _ Hc. cbn in Hc. by rewrite Hpnz' in Hc. }
  (* the entry and its node are made *)
  destruct (LL_PUT_ok w1 L B1 p kv)
    as (w2 & Hrun2 & Hf2 & Htables2 & Hbrk2 & Horacle2 & Htrace2 & Hlink2
        & Hheap2 & Htab2 & Hlist2); try done.
  { by exists (new_entry k v). }
  { intros Hin. by apply (HLp p). }
  mrun Hrun2. cbn [Z.eqb].
  eexists 0, _, (L ++ [(brk w1, (p, kv))]), B1,
    [Calloc Entry p; Calloc Node (brk w1)].
  split; [reflexivity|].
  destruct Hf2 as (Hts2 & Hnum2 & Htbl2 & Hhf2).
  split; try done.
  - split; try done. by rewrite Hnum2, Hhm1.
  - rewrite Htrace2, Htrace1. by rewrite <- app_assoc.
  - rewrite <- Hhm1. by repeat split.
  - by left.
  - by repeat constructor.
  - intros Hsync _. split; [done|]. split.
    + unfold Sync, B1. rewrite (concat_alter_snoc _ _ _ _ Hb).
      rewrite fmap_app. unfold Sync in Hsync. by rewrite Hsync.
    + rewrite !fmap_app. unfold abs_put. rewrite decide_False; [done|].
      by rewrite (Sync_keys _ _ Hsync).
Qed.

(** ** [HASHMAP_PUT] *)

Lemma not_table_asks evs :
  Forall (λ ev, event_kind ev ≠ Table) evs → existsb asks_table evs = false.
Proof.
  induction 1 as [|ev evs Hev _ IH]; [done|]. simpl. rewrite IH.
  destruct ev as [[]|]; simpl in *; done.
Qed.

Lemma entry_not_table evs :
  Forall (λ ev, event_kind ev = Entry) evs →
  Forall (λ ev, event_kind ev ≠ Table) evs.
Proof. intros H. eapply Forall_impl; [exact H|]. by intros ev ->. Qed.

Lemma Inv_set_num w L B n :
  Inv w L B → 0 ≤ n ≤ SIZE_MAX →
  Inv (set_hm (with_num_entries n (hm w)) w) L B.
Proof.
  intros [[Hb HE HN HT] Htab Hlist Hnum] Hn. split; try done.
  - by apply (table_ok_transfer w).
  - by apply (list_ok_transfer w).
Qed.

Lemma to_size_t_range z : 0 ≤ to_size_t z ≤ SIZE_MAX.
Proof.
  unfold to_size_t, SIZE_MAX.
  pose proof (Z.mod_pos_bound z (2 ^ 64)). lia.
Qed.

Lemma PUT_spec w L B k v :
  Inv w L B →
  ∃ r w' L' B' evs,
    HASHMAP_PUT k v w = Some (r, w') ∧ put_post w w' L L' B B' k v r evs.
Proof.
  intros HInv. unfold HASHMAP_PUT. mrun (run_get_hm _).
  destruct (double_ge (load_factor (hm w)) _LOAD_FACTOR_LIM) eqn:Hload.
  - destruct (INCREASE_SIZE_spec w L B HInv)
      as (r1 & w1 & L1 & B1 & evs1 & Hrun1 & Hpost1).
    destruct Hpost1 as [Ginv Gtrace Gnum Gnodes Gstatus Gshape Gdone Gclean].
    mrun Hrun1. destruct Gstatus as [-> | ->].
    + (* the table has grown *)
      destruct (insert_spec w1 L1 B1 k v Ginv)
        as (r2 & w2 & L2 & B2 & evs2 & Hrun2 & Hpost2).
      destruct Hpost2 as [Iinv Itrace Ifields Istatus Ievents Ipresent Isync].
      destruct Ifields as (Its & Inum & Itbl & Ihf).
      cbn [Z.eqb]. mrun Hrun2. mrun (run_get_hm _). mrun (run_put_hm _ _).
      destruct Gshape as [(_ & ? & _)|(evs_r & Hevs1 & Hevs_r & Gts & Gtbl & Gnz)];
        [done|].
      destruct (Gdone eq_refl) as [Gkvs Gsync].
      eexists r2, _, L2, B2, (evs1 ++ evs2). split; [reflexivity|].
      split; wsimpl; hsimpl; try done.
      * apply Inv_set_num; [done|apply to_size_t_range].
      * by rewrite Itrace, Gtrace, <- app_assoc.
      * by rewrite Inum, Gnum.
      * intros _. rewrite Hevs1. eexists _, _. split; [reflexivity|]. split_and!.
        -- rewrite !existsb_app. rewrite (not_table_asks evs2 Ievents).
           rewrite (not_table_asks evs_r (entry_not_table _ Hevs_r)). done.
        -- intros Hp. by destruct Gnz.
        -- intros _. by rewrite Its, Gts.
      * intros Hl. congruence.
      * intros Hsync Hk.
        assert (k ∈ key <$> (concat B1).*2) as Hk1.
        { rewrite <- (Sync_keys _ _ Gsync), Gkvs, (Sync_keys _ _ Hsync). done. }
        destruct (Ipresent Hk1) as (_ & Hr2 & HL2 & _ & _ & HB2 & Hv).
        split; [by rewrite HL2, Gnodes|]. split; [|intros Hl; congruence].
        intros _. split; [|done].
        rewrite HB2, <- (Sync_keys _ _ Gsync), Gkvs, (Sync_keys _ _ Hsync). done.
      * intros Hsync Hclean. rewrite no_failure_app in Hclean.
        apply andb_true_iff in Hclean as [Hc1 Hc2].
        destruct (Isync Gsync Hc2) as (Hr2 & Hsync2 & Habs).
        split; [done|]. split; [done|]. by rewrite Habs, Gkvs.
    + (* the growth failed: -1 is returned without an insertion *)
      cbn [Z.eqb]. mrun (run_ret _ _). mrun (run_get_hm _).
      mrun (run_put_hm _ _).
      eexists (-1), _, L1, B1, evs1. split; [reflexivity|].
      split; wsimpl; hsimpl; try done.
      * apply Inv_set_num; [done|apply to_size_t_range].
      * by rewrite Gnum.
      * by right.
      * intros _.
        destruct Gshape as [(-> & _ & _ & _ & Hhm & _)
                           |(evs_r & -> & Hevs_r & Gts & Gtbl & Gnz)].
        -- exists NULL, []. split_and!; try done. intros _. by rewrite Hhm.
        -- eexists _, _. split; [reflexivity|]. split_and!; try done.
           rewrite existsb_app.
           by rewrite (not_table_asks evs_r (entry_not_table _ Hevs_r)).
      * intros Hl. congruence.
      * intros Hsync Hk. split; [done|]. split; [done|]. intros Hl. congruence.
      * intros Hsync Hclean. by specialize (Gclean Hsync Hclean).
  - destruct (insert_spec w L B k v HInv)
      as (r2 & w2 & L2 & B2 & evs2 & Hrun2 & Hpost2).
    destruct Hpost2 as [Iinv Itrace Ifields Istatus Ievents Ipresent Isync].
    destruct Ifields as (Its & Inum & Itbl & Ihf).
    mrun Hrun2. mrun (run_get_hm _). mrun (run_put_hm _ _).
    eexists r2, _, L2, B2, evs2. split; [reflexivity|].
    split; wsimpl; hsimpl; try done.
    + apply Inv_set_num; [done|apply to_size_t_range].
    + by rewrite Inum.
    + intros Hl. congruence.
    + intros _. split; [by apply not_table_asks|]. done.
    + intros Hsync Hk.
      destruct (Ipresent Hk) as (Hevs & Hr2 & HL2 & HL2a & HB2a & HB2 & Hv).
      split; [done|]. split.
      * intros _. by rewrite HB2.
      * intros _. done.
Qed.

(** ** [HASHMAP_GET] *)

Lemma lookup_key_None k l : lookup_key k l = None ↔ k ∉ key <$> l.
Proof.
  induction l as [|kv l IH].
  - split; [intros _; apply not_elem_of_nil|done].
  - rewrite fmap_cons, not_elem_of_cons. cbn [lookup_key].
    destruct (key kv =? k) eqn:Hk.
    + apply Z.eqb_eq in Hk. split; [done|]. intros [Hne _]. by destruct Hne.
    + apply Z.eqb_neq in Hk. rewrite IH. split; [|by intros [_ ?]].
      intros Hl. split; [|done]. congruence.
Qed.

Lemma lookup_key_Some k v l :
  NoDup (key <$> l) →
  lookup_key k l = Some v ↔ {| key := k; value := v |} ∈ l.
Proof.
  induction l as [|kv l IH]; intros Hnd.
  - split; [done|]. intros H. by apply elem_of_nil in H.
  - rewrite fmap_cons in Hnd. apply NoDup_cons in Hnd as [Hkv Hnd].
    rewrite elem_of_cons. cbn [lookup_key]. destruct (key kv =? k) eqn:Hk.
    + apply Z.eqb_eq in Hk. split.
      * intros [= Hv]. left. destruct kv. simpl in *. by subst.
      * intros [<-|Hin]; [done|]. exfalso. apply Hkv. rewrite Hk.
        apply list_elem_of_fmap. by exists {| key := k; value := v |}.
    + apply Z.eqb_neq in Hk. rewrite (IH Hnd). split; [by right|].
      intros [<-|Hin]; [by destruct Hk|done].
Qed.

(** With distinct keys, the lookup does not depend on the order. *)
Lemma lookup_key_perm k l l' :
  NoDup (key <$> l) → l ≡ₚ l' → lookup_key k l = lookup_key k l'.
Proof.
  intros Hnd Hp.
  assert (NoDup (key <$> l')) as Hnd' by (by rewrite <- Hp).
  destruct (lookup_key k l) as [v|] eqn:Hl.
  - symmetry. apply lookup_key_Some; [done|]. rewrite <- Hp.
    by apply lookup_key_Some.
  - symmetry. apply lookup_key_None. rewrite <- Hp. by apply lookup_key_None.
Qed.

(** The lookup in the bucket of a key is the lookup in the whole table. *)
Lemma lookup_key_bucket w B k i b :
  table_ok w B →
  call_hash (hash_func (hm w)) (_table_size (hm w)) k = Some (Z.of_nat i) →
  B !! i = Some b →
  lookup_key k b.*2 = lookup_key k (concat B).*2.
Proof.
  intros [_ _ _ _ _ Hhome Hkeys] Hh Hb.
  pose proof (bucket_keys_NoDup B i b Hb Hkeys) as Hndb.
  destruct (lookup_key k b.*2) as [v|] eqn:Hl.
  - symmetry. apply lookup_key_Some; [done|].
    apply (lookup_key_Some _ _ _ Hndb) in Hl.
    apply list_elem_of_fmap in Hl as (c & Hc & Hin).
    apply list_elem_of_fmap. exists c. split; [done|].
    by eapply bucket_in_concat.
  - symmetry. apply lookup_key_None. intros Hin.
    apply lookup_key_None in Hl. apply Hl.
    apply list_elem_of_fmap in Hin as (kv & -> & Hin).
    apply list_elem_of_fmap in Hin as (c & -> & Hin).
    destruct (in_concat_bucket _ _ Hin) as (j & bj & Hbj & Hcj).
    pose proof (Hhome _ _ _ Hbj Hcj) as Hj. rewrite Hh in Hj.
    assert (i = j) as -> by (injection Hj; lia).
    assert (bj = b) as -> by congruence.
    apply list_elem_of_fmap. exists c.2. split; [done|].
    apply list_elem_of_fmap. by exists c.
Qed.

(** [HASHMAP_GET] returns what the table holds for the key, and changes
    nothing. *)
Lemma GET_table w B k result :
  table_ok w B →
  HASHMAP_GET result k w
  = Some (get_result result (lookup_key k (concat B).*2), w).
Proof.
  intros Htab.
  destruct (table_bucket w B k Htab)
    as (i & cells & c & b & Hh & Hcells & Hch & Hc & Hb & Hcb & Hndb & Hlen).
  unfold HASHMAP_GET. mrun (run_call_hash_func _ _ _ Hh). mrun (run_get_hm _).
  mrun (run_load_cell _ _ _ _ _ Hcells Hc).
  mrun (run_entry_fuel _).
  mrun by (apply get_loop_spec; [exact Hcb|lia]).
  rewrite (lookup_key_bucket w B k i b Htab Hh Hb).
  unfold get_result. by destruct (lookup_key k (concat B).*2).
Qed.

Lemma GET_spec w L B k result :
  Inv w L B → Sync L B →
  HASHMAP_GET result k w = Some (get_result result (lookup_key k L.*2.*2), w).
Proof.
  intros [_ Htab _ _] Hsync. rewrite (GET_table w B k result Htab).
  do 3 f_equal. symmetry. apply lookup_key_perm.
  - by eapply Sync_keys_NoDup.
  - unfold Sync in Hsync. by rewrite Hsync.
Qed.

(** ** [HASHMAP_INIT] *)

Lemma hash_long_long_ok : hash_ok _hash_long_long.
Proof.
  intros ts k Hts Hsz. unfold _hash_long_long.
  assert (ts ≠ 0) as Hne by lia. apply Z.eqb_neq in Hne. rewrite Hne.
  eexists. split; [done|]. apply Z.mod_pos_bound. lia.
Qed.

Lemma hash_double_ok : hash_ok _hash_double.
Proof.
  intros ts k Hts Hsz. unfold _hash_double.
  assert (ts ≠ 0) as Hne by lia. apply Z.eqb_neq in Hne. rewrite Hne.
  eexists. split; [done|]. apply Z.mod_pos_bound. lia.
Qed.

Lemma hash_ptr_ok : hash_ok _hash_ptr.
Proof.
  intros ts k Hts Hsz. unfold _hash_ptr.
  assert (to_size_t (ts * 2) = ts * 2) as ->.
  { unfold to_size_t. apply Z.mod_small. unfold sizeof_ptr, SIZE_MAX in *. lia. }
  assert (ts * 2 ≠ 0) as Hne2 by lia. apply Z.eqb_neq in Hne2. rewrite Hne2.
  assert (ts ≠ 0) as Hne by lia. apply Z.eqb_neq in Hne. rewrite Hne.
  eexists. split; [done|]. apply Z.mod_pos_bound. lia.
Qed.

(** A successful initialisation gives an empty map of 15 buckets. *)
Lemma INIT_spec o kt w :
  HASHMAP_INIT kt (blank o) = Some (0, w) →
  Inv w [] (replicate 15 []) ∧ Sync [] (replicate 15 []) ∧
  trace w = [Calloc Table 1] ∧ _num_entries (hm w) = 0 ∧
  _table_size (hm w) = 15.
Proof.
  unfold HASHMAP_INIT. mrun (run_get_hm _). mrun (run_put_hm _ _).
  destruct (hd true o) eqn:Ho.
  2:{ mrun by (apply run_calloc_table_fail; [vm_compute; congruence|exact Ho]).
      mrun (run_get_hm _). mrun (run_put_hm _ _). done. }
  mrun by (apply run_calloc_table_ok; [vm_compute; congruence|exact Ho]).
  mrun (run_get_hm _). mrun (run_put_hm _ _). wsimpl. cbn [Z.eqb].
  intros [= <-]. unfold blank. split_and!; try done.
  split.
  - split; wsimpl; try done.
    + intros a [x Ha]. by rewrite lookup_empty in Ha.
    + intros a [x Ha]. by rewrite lookup_empty in Ha.
    + intros a [x Ha]. destruct (decide (1 = a)) as [<-|Hne]; [lia|].
      by rewrite lookup_insert_ne in Ha.
  - apply (table_ok_fresh _ 15); wsimpl; hsimpl; try done.
    destruct kt; [apply hash_long_long_ok|apply hash_double_ok|apply hash_ptr_ok].
  - split; wsimpl; hsimpl; try done; constructor.
  - wsimpl. hsimpl. unfold SIZE_MAX. lia.
  - unfold Sync. by rewrite (concat_replicate_nil 15).
Qed.

(** ** Sequences of puts *)

Lemma puts_spec kvs : ∀ w L B,
  Inv w L B →
  ∃ rs w' L' B' evs,
    puts kvs w = Some (rs, w') ∧ Inv w' L' B' ∧
    trace w' = trace w ++ evs ∧
    (Sync L B → no_failure evs = true →
     Forall (λ r, r = 0) rs ∧ Sync L' B' ∧ L'.*2.*2 = abs_puts kvs L.*2.*2).
Proof.
  induction kvs as [|[k v] kvs IH]; intros w L B HInv.
  - exists [], w, L, B, []. split; [done|]. split; [done|].
    split; [by rewrite app_nil_r|]. by intros Hs _.
  - destruct (PUT_spec w L B k v HInv) as (r & w1 & L1 & B1 & evs1 & Hrun & Hpost).
    destruct Hpost as [Pinv Ptrace _ _ _ _ _ Psync].
    destruct (IH w1 L1 B1 Pinv) as (rs & w' & L' & B' & evs & Hruns & HInv' & Htrace & Hs).
    exists (r :: rs), w', L', B', (evs1 ++ evs).
    split.
    { cbn [puts]. mrun Hrun. mrun Hruns. done. }
    split; [done|]. split; [by rewrite Htrace, Ptrace, <- app_assoc|].
    intros Hsync Hclean. rewrite no_failure_app in Hclean.
    apply andb_true_iff in Hclean as [Hc1 Hc2].
    destruct (Psync Hsync Hc1) as (-> & Hsync1 & Habs1).
    destruct (Hs Hsync1 Hc2) as (Hrs & Hsync' & Habs').
    split; [by constructor|]. split; [done|].
    rewrite Habs', Habs1. done.
Qed.

(** The state after a successful initialisation and a sequence of puts,
    whatever the allocator did. *)
Lemma reachable_Inv o kvs w0 rs w :
  HASHMAP_INIT IntegerKey (blank o) = Some (0, w0) →
  puts kvs w0 = Some (rs, w) →
  ∃ L B, Inv w L B ∧
         (no_failure (trace w) = true →
          Forall (λ r, r = 0) rs ∧ Sync L B ∧ L.*2.*2 = abs_puts kvs []).
Proof.
  intros Hinit Hputs.
  destruct (INIT_spec _ _ _ Hinit) as (HInv0 & Hsync0 & Htrace0 & _).
  destruct (puts_spec kvs w0 _ _ HInv0)
    as (rs' & w' & L & B & evs & Hruns & HInv & Htrace & Hs).
  rewrite Hputs in Hruns. injection Hruns as <- <-.
  exists L, B. split; [done|]. intros Hclean.
  rewrite Htrace, no_failure_app in Hclean.
  apply andb_true_iff in Hclean as [_ Hclean]. by apply Hs.
Qed.

(** ** Reading the map back *)

Lemma pair_of_entry_of (l : list (Z * Z)) : pair_of <$> (entry_of <$> l) = l.
Proof.
  induction l as [|[k v] l IH]; [done|]. rewrite !fmap_cons, IH. done.
Qed.

Lemma ll_walk_spec w (L : list (ptr * cell)) : ∀ fuel p,
  nlist (nodes w) p (prod_map id fst <$> L) →
  Forall (holds (entries w)) L.*2 →
  (length L < fuel)%nat →
  ll_walk fuel w p = Some (pair_of <$> L.*2.*2).
Proof.
  induction L as [|[n [a kv]] L IH]; intros fuel p Hnl Hh Hfuel.
  - destruct fuel as [|fuel]; [simpl in Hfuel; lia|].
    simpl in Hnl. subst p. done.
  - destruct fuel as [|fuel]; [simpl in Hfuel; lia|].
    rewrite fmap_cons in Hnl. simpl in Hnl.
    destruct Hnl as (-> & Hnz & nd & Hn & Hna & Hnl).
    rewrite !fmap_cons in Hh. apply Forall_cons in Hh as [(e & He & Hkv) Hh].
    simpl in He, Hkv. cbn [ll_walk]. apply Z.eqb_neq in Hnz. rewrite Hnz.
    rewrite Hn. simpl. rewrite Hna, He. simpl.
    rewrite (IH fuel (_next nd)); [|done|done|simpl in Hfuel; lia].
    simpl. by rewrite Hkv.
Qed.

Lemma ll_traverse_spec w L :
  list_ok w L → ll_traverse w = Some (pair_of <$> L.*2.*2).
Proof.
  intros Hlist. pose proof (list_ok_length _ _ Hlist).
  destruct Hlist as [Hn _ _ Hh _]. unfold ll_traverse.
  apply ll_walk_spec; [done|done|lia].
Qed.

Lemma chain_walk_spec w l : ∀ fuel p,
  chain (entries w) p l → (length l < fuel)%nat →
  chain_walk fuel w p = Some (pair_of <$> l.*2).
Proof.
  induction l as [|[a kv] l IH]; intros fuel p Hc Hfuel.
  - destruct fuel as [|fuel]; [simpl in Hfuel; lia|].
    simpl in Hc. subst p. done.
  - destruct fuel as [|fuel]; [simpl in Hfuel; lia|].
    simpl in Hc. destruct Hc as (-> & Hnz & e & He & Hkv & Hc).
    cbn [chain_walk]. apply Z.eqb_neq in Hnz. rewrite Hnz, He. simpl.
    rewrite (IH fuel (_next_entry e)); [|done|simpl in Hfuel; lia].
    simpl. by rewrite Hkv.
Qed.

Lemma table_traverse_spec w B :
  table_ok w B →
  table_traverse w = Some ((λ b : list cell, pair_of <$> b.*2) <$> B).
Proof.
  intros [_ _ (cells & Hcells & Hch) _ Hnd _ _].
  unfold table_traverse. rewrite Hcells. cbn [mbind option_bind].
  apply mapM_Some. apply Forall2_fmap_r.
  apply Forall2_same_length_lookup. split; [by eapply Forall2_length|].
  intros i c b Hc Hb.
  pose proof (Forall2_lookup_lr _ _ _ _ _ _ Hch Hc Hb) as Hcb.
  apply (chain_walk_spec w b); [done|].
  assert (length b ≤ size (entries w))%nat; [|lia].
  apply chain_length with c; [done|].
  by apply (bucket_NoDup_fmap fst B i).
Qed.

Lemma node_walk_spec w (l : list (ptr * ptr)) : ∀ fuel p,
  nlist (nodes w) p l → (length l < fuel)%nat →
  node_walk fuel w p = Some l.*1.
Proof.
  induction l as [|[n a] l IH]; intros fuel p Hnl Hfuel.
  - destruct fuel as [|fuel]; [simpl in Hfuel; lia|].
    simpl in Hnl. subst p. done.
  - destruct fuel as [|fuel]; [simpl in Hfuel; lia|].
    simpl in Hnl. destruct Hnl as (-> & Hnz & nd & Hn & Hna & Hnl).
    cbn [node_walk]. apply Z.eqb_neq in Hnz. rewrite Hnz, Hn. simpl.
    rewrite (IH fuel (_next nd)); [|done|simpl in Hfuel; lia]. done.
Qed.

Lemma ll_nodes_spec w L : list_ok w L → ll_nodes w = Some L.*1.
Proof.
  intros Hlist. pose proof (list_ok_length _ _ Hlist).
  destruct Hlist as [Hn _ _ _ _]. unfold ll_nodes.
  rewrite (node_walk_spec w (prod_map id fst <$> L)); [|done|].
  - f_equal. rewrite <- list_fmap_compose. by apply list_fmap_ext.
  - rewrite length_fmap. lia.
Qed.

(** ** The map as a list of pairs *)

Lemma lookup_key_app k l1 l2 :
  lookup_key k (l1 ++ l2)
  = match lookup_key k l1 with Some v => Some v | None => lookup_key k l2 end.
Proof.
  induction l1 as [|kv l1 IH]; [done|]. simpl. by destruct (key kv =? k).
Qed.

Lemma lookup_key_abs_put_eq k v al : lookup_key k (abs_put k v al) = Some v.
Proof.
  unfold abs_put. destruct (decide (k ∈ key <$> al)) as [Hin|Hnotin].
  - induction al as [|kv al IH]; [by apply elem_of_nil in Hin|].
    rewrite fmap_cons in Hin. rewrite fmap_cons. cbn [lookup_key].
    unfold set_key_value at 1 2. destruct (decide (key kv = k)) as [Hk|Hk].
    + simpl. by rewrite Z.eqb_refl.
    + apply Z.eqb_neq in Hk as Hk'. rewrite Hk'. apply IH.
      apply elem_of_cons in Hin as [Hin|Hin]; [by destruct Hk|done].
  - rewrite lookup_key_app. apply lookup_key_None in Hnotin. rewrite Hnotin.
    simpl. by rewrite Z.eqb_refl.
Qed.

Lemma lookup_key_abs_put_ne k k' v al :
  k' ≠ k → lookup_key k' (abs_put k v al) = lookup_key k' al.
Proof.
  intros Hne. unfold abs_put. destruct (decide (k ∈ key <$> al)) as [Hin|Hnotin].
  - clear Hin. induction al as [|kv al IH]; [done|].
    rewrite fmap_cons. cbn [lookup_key]. rewrite IH.
    unfold set_key_value. destruct (decide (key kv = k)) as [Hk|Hk]; [|done].
    simpl. assert (k ≠ k') as Hne' by congruence.
    apply Z.eqb_neq in Hne'. rewrite Hne'.
    assert (key kv ≠ k') as Hne'' by congruence.
    apply Z.eqb_neq in Hne''. by rewrite Hne''.
  - rewrite lookup_key_app. simpl.
    assert (k ≠ k') as Hne' by congruence.
    apply Z.eqb_neq in Hne'. rewrite Hne'. by destruct (lookup_key k' al).
Qed.

Lemma lookup_key_abs_puts k kvs : ∀ al,
  lookup_key k (abs_puts kvs al)
  = match last_put k kvs with Some v => Some v | None => lookup_key k al end.
Proof.
  induction kvs as [|[k' v'] kvs IH]; intros al; [done|].
  unfold abs_puts in *. cbn [fold_left last_put]. rewrite IH. simpl.
  destruct (last_put k kvs) as [v|]; [done|].
  destruct (k' =? k) eqn:Hk.
  - apply Z.eqb_eq in Hk as ->. apply lookup_key_abs_put_eq.
  - apply Z.eqb_neq in Hk. apply lookup_key_abs_put_ne. congruence.
Qed.

Lemma last_put_is_Some k kvs : k ∈ kvs.*1 → is_Some (last_put k kvs).
Proof.
  induction kvs as [|[k' v'] kvs IH]; intros Hin.
  - by apply elem_of_nil in Hin.
  - rewrite fmap_cons in Hin. cbn [last_put].
    destruct (last_put k kvs) as [v|] eqn:Hl; [by exists v|].
    apply elem_of_cons in Hin as [->|Hin].
    + simpl. rewrite Z.eqb_refl. by eexists.
    + destruct (IH Hin) as [? ?]. done.
Qed.

Lemma abs_puts_keys k kvs : k ∈ kvs.*1 → k ∈ key <$> abs_puts kvs [].
Proof.
  intros Hin. destruct (last_put_is_Some _ _ Hin) as [v Hv].
  destruct (decide (k ∈ key <$> abs_puts kvs [])) as [|Hnotin]; [done|].
  apply lookup_key_None in Hnotin. rewrite lookup_key_abs_puts, Hv in Hnotin.
  done.
Qed.

(** Puts of distinct new keys extend the list in the order of the puts. *)
Lemma abs_puts_distinct kvs : ∀ al,
  NoDup ((key <$> al) ++ kvs.*1) →
  abs_puts kvs al = al ++ (entry_of <$> kvs).
Proof.
  induction kvs as [|[k v] kvs IH]; intros al Hnd.
  - by rewrite app_nil_r.
  - unfold abs_puts in *. cbn [fold_left]. simpl fst. simpl snd.
    rewrite fmap_cons in Hnd. simpl in Hnd.
    assert (k ∉ key <$> al) as Hk.
    { apply NoDup_app in Hnd as (_ & Hdis & _). intros Hin.
      apply (Hdis k Hin). left. }
    unfold abs_put at 2. rewrite decide_False by done.
    rewrite IH.
    + rewrite fmap_cons. by rewrite <- app_assoc.
    + rewrite fmap_app. simpl. rewrite <- app_assoc. simpl. done.
Qed.

(** * The claims *)

(** ** Get after puts *)

(** X27.  On a map of long long keys, after a successful initialisation and
    any sequence of puts during which no allocation failed, every put has
    returned 0, and a get for a key that was put returns true and stores the
    value of the most recent put of that key in the result.  Success is
    stated on the allocator and not on the returned status, since a put whose
    entry allocation fails returns 0 as well. *)
Theorem get_after_puts o kvs w0 rs w k v result :
  HASHMAP_INIT IntegerKey (blank o) = Some (0, w0) →
  puts kvs w0 = Some (rs, w) →
  no_failure (trace w) = true →
  last_put k kvs = Some v →
  Forall (λ r, r = 0) rs ∧
  HASHMAP_GET result k w = Some ((true, v), w).
Proof.
  intros Hinit Hputs Hclean Hlast.
  destruct (reachable_Inv o kvs w0 rs w Hinit Hputs) as (L & B & HInv & Hs).
  destruct (Hs Hclean) as (Hrs & Hsync & Habs).
  split; [done|].
  rewrite (GET_spec w L B k result HInv Hsync), Habs.
  by rewrite lookup_key_abs_puts, Hlast.
Qed.

(** ** C6: the entry-order list keeps the insertion order *)

(** C6.  After n puts with pairwise distinct keys and no failed allocation,
    the traversal of the entry-order list from head to tail yields exactly
    the n pairs that were put, in the order of the puts, however many times
    the table has grown. *)
Theorem list_keeps_insertion_order o kvs w0 rs w :
  HASHMAP_INIT IntegerKey (blank o) = Some (0, w0) →
  puts kvs w0 = Some (rs, w) →
  no_failure (trace w) = true →
  NoDup kvs.*1 →
  ll_traverse w = Some kvs.
Proof.
  intros Hinit Hputs Hclean Hnd.
  destruct (reachable_Inv o kvs w0 rs w Hinit Hputs) as (L & B & HInv & Hs).
  destruct (Hs Hclean) as (Hrs & Hsync & Habs).
  destruct HInv as [_ _ Hlist _].
  rewrite (ll_traverse_spec w L Hlist), Habs.
  rewrite (abs_puts_distinct kvs []); [|done].
  by rewrite app_nil_l, pair_of_entry_of.
Qed.

(** ** C10: get of an absent key *)

Lemma table_traverse_keys (B : list (list cell)) :
  (concat ((λ b : list cell, pair_of <$> b.*2) <$> B)).*1 = key <$> (concat B).*2.
Proof.
  induction B as [|b B IH]; [done|].
  rewrite fmap_cons. simpl concat. rewrite !fmap_app, IH. f_equal.
  rewrite <- !list_fmap_compose. by apply list_fmap_ext.
Qed.

(** C10.  In every state reached by puts after a successful initialisation
    (whatever allocations failed), a get for a key that no bucket chain holds
    returns false and leaves the result location as it was, and the map as it
    was. *)
Theorem get_absent_key o kvs w0 rs w T k result :
  HASHMAP_INIT IntegerKey (blank o) = Some (0, w0) →
  puts kvs w0 = Some (rs, w) →
  table_traverse w = Some T →
  k ∉ (concat T).*1 →
  HASHMAP_GET result k w = Some ((false, result), w).
Proof.
  intros Hinit Hputs HT Hk.
  destruct (reachable_Inv o kvs w0 rs w Hinit Hputs) as (L & B & HInv & _).
  destruct HInv as [_ Htab _ _].
  rewrite (table_traverse_spec w B Htab) in HT. injection HT as <-.
  rewrite table_traverse_keys in Hk.
  rewrite (GET_table w B k result Htab).
  apply lookup_key_None in Hk. by rewrite Hk.
Qed.

(** ** C8: the counter of entries *)

(** C8.  In every state reached by puts after a successful initialisation,
    whatever the allocator does, a put returns and has incremented
    [_num_entries] by exactly one (as a [size_t], so modulo 2^64 at
    [SIZE_MAX]): on an update in place, on the insertion of a new key and on
    the failure paths alike. *)
Theorem put_counts_every_call o kvs w0 rs w k v :
  HASHMAP_INIT IntegerKey (blank o) = Some (0, w0) →
  puts kvs w0 = Some (rs, w) →
  ∃ r w',
    HASHMAP_PUT k v w = Some (r, w') ∧
    _num_entries (hm w') = to_size_t (_num_entries (hm w) + 1) ∧
    (_num_entries (hm w) < SIZE_MAX →
     _num_entries (hm w') = _num_entries (hm w) + 1).
Proof.
  intros Hinit Hputs.
  destruct (reachable_Inv o kvs w0 rs w Hinit Hputs) as (L & B & HInv & _).
  destruct (PUT_spec w L B k v HInv) as (r & w' & L' & B' & evs & Hrun & Hpost).
  destruct Hpost as [_ _ Pnum _ _ _ _ _].
  exists r, w'. split; [done|]. split; [done|].
  intros Hlt. rewrite Pnum. unfold to_size_t. apply Z.mod_small.
  destruct HInv as [_ _ _ Hnum]. unfold SIZE_MAX in *. lia.
Qed.

(** ** A second put of a key, whatever the allocator does *)

Lemma table_traverse_concat (B : list (list cell)) :
  concat ((λ b : list cell, pair_of <$> b.*2) <$> B) = pair_of <$> (concat B).*2.
Proof.
  induction B as [|b B IH]; [done|].
  rewrite fmap_cons. simpl concat. by rewrite !fmap_app, IH.
Qed.

Lemma pair_in_traverse (B : list (list cell)) k v :
  {| key := k; value := v |} ∈ (concat B).*2 →
  (k, v) ∈ concat ((λ b : list cell, pair_of <$> b.*2) <$> B).
Proof.
  intros Hin. rewrite table_traverse_concat.
  apply list_elem_of_fmap. by exists {| key := k; value := v |}.
Qed.

(** X29.  On a map of long long keys reached by puts without a failed
    allocation, a further put of a key [k] that was already put returns and,
    whatever the allocator does now, failed growth included: the entry-order
    list has the same nodes as before, so no node is made for [k]; no two
    entries of the table have the same key, so [k] has at most one.  When
    the put returns 0, the table holds the same keys as before, [k] now with
    the value [v], which a get returns.  When the table does not grow,
    nothing at all is allocated or freed and the put returns 0. *)
Theorem second_put_keeps_the_nodes o kvs w0 rs w k v result :
  HASHMAP_INIT IntegerKey (blank o) = Some (0, w0) →
  puts kvs w0 = Some (rs, w) →
  no_failure (trace w) = true →
  k ∈ kvs.*1 →
  ∃ r w' evs T T',
    HASHMAP_PUT k v w = Some (r, w') ∧ trace w' = trace w ++ evs ∧
    ll_nodes w' = ll_nodes w ∧
    table_traverse w = Some T ∧ table_traverse w' = Some T' ∧
    NoDup (concat T').*1 ∧
    (r = 0 →
     (concat T').*1 ≡ₚ (concat T).*1 ∧ (k, v) ∈ concat T' ∧
     HASHMAP_GET result k w' = Some ((true, v), w')) ∧
    (double_ge (load_factor (hm w)) _LOAD_FACTOR_LIM = false →
     evs = [] ∧ r = 0).
Proof.
  intros Hinit Hputs Hclean Hk.
  destruct (reachable_Inv o kvs w0 rs w Hinit Hputs) as (L & B & HInv & Hs).
  destruct (Hs Hclean) as (Hrs & Hsync & Habs).
  assert (k ∈ key <$> (concat B).*2) as HkB.
  { rewrite <- (Sync_keys _ _ Hsync), Habs. by apply abs_puts_keys. }
  destruct (PUT_spec w L B k v HInv) as (r & w' & L' & B' & evs & Hrun & Hpost).
  destruct Hpost as [Pinv Ptrace _ _ _ _ Ppresent _].
  destruct (Ppresent Hsync HkB) as (HL1 & Hr0 & Hstable).
  pose proof HInv as [_ Htab Hlist _]. pose proof Pinv as [_ Htab' Hlist' _].
  exists r, w', evs, ((λ b : list cell, pair_of <$> b.*2) <$> B),
    ((λ b : list cell, pair_of <$> b.*2) <$> B').
  split; [done|]. split; [done|].
  split; [by rewrite (ll_nodes_spec _ _ Hlist'), (ll_nodes_spec _ _ Hlist), HL1|].
  split; [by apply table_traverse_spec|].
  split; [by apply table_traverse_spec|].
  rewrite !table_traverse_keys.
  split; [by destruct Htab'|]. split.
  - intros Hr. destruct (Hr0 Hr) as [Hkeys Hv].
    split; [done|]. split; [by apply pair_in_traverse|].
    rewrite (GET_table w' B' k result Htab').
    assert (lookup_key k (concat B').*2 = Some v) as ->; [|done].
    apply lookup_key_Some; [by destruct Htab'|done].
  - intros Hload. by destruct (Hstable Hload) as (? & ? & _).
Qed.

(** ** C2: when the old table is freed *)

(** C2, as the code has it.  In every state reached by puts after a
    successful initialisation, [_HASHMAP_INCREASE_SIZE] returns.  When the new
    table cannot be allocated, it frees nothing and the tables are as before.
    Otherwise its allocator calls are: the allocation of the new table, then
    those of the rehash loop, which allocates and frees entries only, then,
    last, the release of the old table: whether the loop has completed or has
    stopped at a re-insertion that failed. *)
Theorem old_table_freed_after_rehash o kvs w0 rs w :
  HASHMAP_INIT IntegerKey (blank o) = Some (0, w0) →
  puts kvs w0 = Some (rs, w) →
  ∃ r w' evs,
    _HASHMAP_INCREASE_SIZE w = Some (r, w') ∧ trace w' = trace w ++ evs ∧
    (r = 0 ∨ r = -1) ∧
    ((evs = [Calloc Table NULL] ∧ r = -1 ∧ tables w' = tables w)
     ∨
     (∃ evs_r,
        evs = Calloc Table (brk w) :: evs_r ++ [Free Table (_entry_table (hm w))] ∧
        Forall (λ ev, event_kind ev = Entry) evs_r)).
Proof.
  intros Hinit Hputs.
  destruct (reachable_Inv o kvs w0 rs w Hinit Hputs) as (L & B & HInv & _).
  destruct (INCREASE_SIZE_spec w L B HInv)
    as (r & w' & L' & B' & evs & Hrun & Hpost).
  destruct Hpost as [_ Gtrace _ _ Gstatus Gshape _ _].
  exists r, w', evs. split; [done|]. split; [done|]. split; [done|].
  destruct Gshape as [(-> & -> & _ & _ & _ & _ & _ & Ht)
                     |(evs_r & -> & Hevs_r & _)].
  - by left.
  - right. by exists evs_r.
Qed.

(** C2, as stated, fails.  After twelve puts the next growth allocates the
    new table (address 26); the first re-insertion of the rehash loop fails
    to allocate its entry; the growth returns -1, and the old table
    (address 1) has been freed all the same. *)
Lemma old_table_freed_on_rehash_failure :
  ∃ w0 rs w w',
    HASHMAP_INIT IntegerKey (blank (replicate 26 true ++ [false])) = Some (0, w0) ∧
    puts twelve w0 = Some (rs, w) ∧
    _entry_table (hm w) = 1 ∧ is_Some (tables w !! 1) ∧
    _HASHMAP_INCREASE_SIZE w = Some (-1, w') ∧
    trace w' = trace w ++ [Calloc Table 26; Calloc Entry NULL; Free Table 1] ∧
    tables w' !! 1 = None.
Proof.
  eexists _, _, _, _.
  split; [vm_compute; reflexivity|]. split; [vm_compute; reflexivity|].
  split; [vm_compute; reflexivity|]. split; [vm_compute; by eexists|].
  split; [vm_compute; reflexivity|]. split; vm_compute; reflexivity.
Qed.

(** ** C3: the counter, the list and the table *)

(** C3 fails on the code.  After a put of key 1 and a second put of key 1,
    both returning 0 and with no failed allocation, [_num_entries] is 2 while
    the entry-order list has one node and the bucket chains hold one entry. *)
Theorem counter_counts_puts_not_entries :
  ∃ w0 w T,
    HASHMAP_INIT IntegerKey (blank []) = Some (0, w0) ∧
    puts [(1, 1); (1, 2)] w0 = Some ([0; 0], w) ∧
    no_failure (trace w) = true ∧
    _num_entries (hm w) = 2 ∧
    ll_traverse w = Some [(1, 2)] ∧
    table_traverse w = Some T ∧ concat T = [(1, 2)].
Proof.
  eexists _, _, _.
  split; [vm_compute; reflexivity|]. split; [vm_compute; reflexivity|].
  split; [vm_compute; reflexivity|]. split; [vm_compute; reflexivity|].
  split; [vm_compute; reflexivity|]. split; vm_compute; reflexivity.
Qed.

(** ** C7: a failed allocation during the insertion *)

(** C7 fails on the code, in both of its cases.  On an empty map, a put whose
    entry allocation fails returns 0, not -1, and has incremented
    [_num_entries]; a put whose node allocation fails returns -1 but has
    linked the new entry into its bucket chain, without a list node, and has
    incremented [_num_entries]. *)
Theorem failed_allocation_is_not_rolled_back :
  (∃ w0 w T,
     HASHMAP_INIT IntegerKey (blank [true; false]) = Some (0, w0) ∧
     HASHMAP_PUT 1 10 w0 = Some (0, w) ∧
     trace w = trace w0 ++ [Calloc Entry NULL] ∧
     _num_entries (hm w0) = 0 ∧ _num_entries (hm w) = 1 ∧
     table_traverse w = Some T ∧ concat T = [] ∧
     HASHMAP_GET 0 1 w = Some ((false, 0), w))
  ∧
  (∃ w0 w T0 T,
     HASHMAP_INIT IntegerKey (blank [true; true; false]) = Some (0, w0) ∧
     HASHMAP_PUT 1 10 w0 = Some (-1, w) ∧
     trace w = trace w0 ++ [Calloc Entry 2; Calloc Node NULL] ∧
     _num_entries (hm w0) = 0 ∧ _num_entries (hm w) = 1 ∧
     table_traverse w0 = Some T0 ∧ concat T0 = [] ∧
     table_traverse w = Some T ∧ concat T = [(1, 10)] ∧
     ll_traverse w = Some []).
Proof.
  split.
  - eexists _, _, _.
    split; [vm_compute; reflexivity|]. split; [vm_compute; reflexivity|].
    split; [vm_compute; reflexivity|]. split; [vm_compute; reflexivity|].
    split; [vm_compute; reflexivity|]. split; [vm_compute; reflexivity|].
    split; vm_compute; reflexivity.
  - eexists _, _, _, _.
    split; [vm_compute; reflexivity|]. split; [vm_compute; reflexivity|].
    split; [vm_compute; reflexivity|]. split; [vm_compute; reflexivity|].
    split; [vm_compute; reflexivity|]. split; [vm_compute; reflexivity|].
    split; [vm_compute; reflexivity|]. split; [vm_compute; reflexivity|].
    split; vm_compute; reflexivity.
Qed.

(** ** C9: the hash of an integral key *)

(** C9, as the code has it.  The key is converted to [size_t] before the
    remainder is taken, so for every key, negative or not, and every table
    size that is not zero, the index is [(key mod 2^64) mod table_size] and
    lies in [0, table_size). *)
Theorem hash_long_long_in_range table_size k :
  0 < table_size →
  ∃ i, _hash_long_long table_size k = Some i ∧
       i = (k mod 2 ^ 64) mod table_size ∧ 0 ≤ i < table_size.
Proof.
  intros Hts. unfold _hash_long_long, to_size_t.
  assert (table_size ≠ 0) as Hne by lia. apply Z.eqb_neq in Hne. rewrite Hne.
  eexists. split; [done|]. split; [done|]. apply Z.mod_pos_bound. lia.
Qed.

(** C9, as stated, fails: no negative key and no table size give an index
    that is negative or not below the table size.  The key -1 in a table
    of 15 buckets goes to bucket 0. *)
Lemma hash_long_long_never_out_of_range :
  ¬ (∃ k table_size i,
       k < 0 ∧ 0 < table_size ∧ _hash_long_long table_size k = Some i ∧
       (i < 0 ∨ table_size ≤ i))
  ∧ _hash_long_long 15 (-1) = Some 0.
Proof.
  split; [|reflexivity].
  intros (k & ts & i & _ & Hts & Hi & Hout).
  unfold _hash_long_long in Hi.
  assert (ts ≠ 0) as Hne by lia. apply Z.eqb_neq in Hne. rewrite Hne in Hi.
  injection Hi as <-. pose proof (Z.mod_pos_bound (to_size_t k) ts Hts). lia.
Qed.

(** * Further properties of the macros *)

(** ** The map after puts *)

Lemma puts_preserves (P : world → Prop) :
  (∀ w k v r w', P w → HASHMAP_PUT k v w = Some (r, w') → P w') →
  ∀ kvs w rs w', P w → puts kvs w = Some (rs, w') → P w'.
Proof.
  intros Hstep. induction kvs as [|[k v] kvs IH]; intros w rs w' HP Hrun.
  - cbn [puts] in Hrun. injection Hrun as <- <-. done.
  - cbn [puts] in Hrun.
    apply bind_Some in Hrun as (r & w1 & Hput & Hrun).
    apply bind_Some in Hrun as (rs' & w2 & Hputs & Hret).
    injection Hret as <- <-.
    apply (IH w1 rs' w2); [|done]. by apply (Hstep w k v r).
Qed.

Lemma first_put_order_abs kvs : ∀ al,
  key <$> abs_puts kvs al
  = fold_left (λ acc k, if decide (k ∈ acc) then acc else acc ++ [k]) kvs.*1 (key <$> al).
Proof.
  induction kvs as [|[k v] kvs IH]; intros al; [done|].
  unfold abs_puts in *. rewrite fmap_cons. cbn [fold_left]. rewrite IH.
  f_equal. simpl. unfold abs_put.
  destruct (decide (k ∈ key <$> al)) as [Hin|Hnotin].
  - rewrite <- list_fmap_compose. apply list_fmap_ext. intros i kv _. simpl.
    unfold set_key_value. by destruct (decide (key kv = k)).
  - by rewrite fmap_app.
Qed.

Lemma abs_put_keys_NoDup k v al :
  NoDup (key <$> al) → NoDup (key <$> abs_put k v al).
Proof.
  intros Hnd. unfold abs_put. destruct (decide (k ∈ key <$> al)) as [Hin|Hnotin].
  - replace (key <$> (set_key_value k v <$> al)) with (key <$> al); [done|].
    rewrite <- list_fmap_compose. apply list_fmap_ext. intros i kv _. simpl.
    unfold set_key_value. by destruct (decide (key kv = k)).
  - rewrite fmap_app. apply NoDup_app. split; [done|].
    split; [|apply NoDup_singleton].
    intros x Hx Hx'. apply list_elem_of_singleton in Hx'. by subst x.
Qed.

Lemma abs_puts_keys_NoDup kvs : ∀ al,
  NoDup (key <$> al) → NoDup (key <$> abs_puts kvs al).
Proof.
  induction kvs as [|[k v] kvs IH]; intros al Hnd; [done|].
  unfold abs_puts in *. cbn [fold_left]. apply IH. by apply abs_put_keys_NoDup.
Qed.

Lemma elem_of_pair_of k v (l : list entry_t) :
  (k, v) ∈ pair_of <$> l ↔ {| key := k; value := v |} ∈ l.
Proof.
  rewrite list_elem_of_fmap. split.
  - intros ([k' v'] & [= -> ->] & Hin). done.
  - intros Hin. by exists {| key := k; value := v |}.
Qed.

(** X1. On a map of long long keys, after puts during which no allocation
    failed, with keys that may repeat,
    the traversal of the entry-order list yields each key once, in the order
    of the keys' first puts and with the value of the key's last put: a second
    put of a key changes its value in place and does not move it. *)
Theorem list_orders_keys_by_first_put o kvs w0 rs w :
  HASHMAP_INIT IntegerKey (blank o) = Some (0, w0) →
  puts kvs w0 = Some (rs, w) →
  no_failure (trace w) = true →
  ∃ l, ll_traverse w = Some l ∧
       l.*1 = first_put_order kvs.*1 ∧
       Forall (λ kv, last_put kv.1 kvs = Some kv.2) l.
Proof.
  intros Hinit Hputs Hclean.
  destruct (reachable_Inv o kvs w0 rs w Hinit Hputs) as (L & B & HInv & Hs).
  destruct (Hs Hclean) as (Hrs & Hsync & Habs).
  destruct HInv as [_ _ Hlist _].
  exists (pair_of <$> abs_puts kvs []).
  split; [by rewrite (ll_traverse_spec w L Hlist), Habs|]. split.
  - rewrite <- list_fmap_compose.
    change (fst ∘ pair_of) with key. by rewrite first_put_order_abs.
  - apply Forall_forall. intros kv Hkv.
    destruct kv as [k v]. apply elem_of_pair_of in Hkv as Hin. simpl.
    pose proof (abs_puts_keys_NoDup kvs [] (NoDup_nil_2)) as Hnd.
    apply (lookup_key_Some k v _ Hnd) in Hin.
    rewrite lookup_key_abs_puts in Hin.
    by destruct (last_put k kvs).
Qed.

(** X2. After puts during which no allocation failed, the bucket chains of the
    table and the entry-order list hold the same pairs, and each key once. *)
Theorem chains_hold_the_pairs_of_the_list o kvs w0 rs w :
  HASHMAP_INIT IntegerKey (blank o) = Some (0, w0) →
  puts kvs w0 = Some (rs, w) →
  no_failure (trace w) = true →
  ∃ l T, ll_traverse w = Some l ∧ table_traverse w = Some T ∧
         concat T ≡ₚ l ∧ NoDup l.*1.
Proof.
  intros Hinit Hputs Hclean.
  destruct (reachable_Inv o kvs w0 rs w Hinit Hputs) as (L & B & HInv & Hs).
  destruct (Hs Hclean) as (Hrs & Hsync & Habs).
  pose proof HInv as [_ Htab Hlist _].
  eexists _, _. split; [by apply ll_traverse_spec|].
  split; [by apply table_traverse_spec|]. split.
  - rewrite table_traverse_concat. unfold Sync in Hsync. by rewrite Hsync.
  - rewrite <- list_fmap_compose. change (fst ∘ pair_of) with key.
    by eapply Sync_keys_NoDup.
Qed.

(** X3. In every state reached by puts, failed allocations included, the table has
    [_table_size] chains, no key occurs twice in them, and every entry is in
    the chain of the bucket that its key hashes to under the current table
    size. *)
Theorem entries_are_in_their_home_bucket o kvs w0 rs w :
  HASHMAP_INIT IntegerKey (blank o) = Some (0, w0) →
  puts kvs w0 = Some (rs, w) →
  ∃ T, table_traverse w = Some T ∧
       Z.of_nat (length T) = _table_size (hm w) ∧
       NoDup (concat T).*1 ∧
       ∀ i b kv, T !! i = Some b → kv ∈ b →
                 call_hash (hash_func (hm w)) (_table_size (hm w)) kv.1
                 = Some (Z.of_nat i).
Proof.
  intros Hinit Hputs.
  destruct (reachable_Inv o kvs w0 rs w Hinit Hputs) as (L & B & HInv & _).
  pose proof HInv as [_ Htab _ _].
  eexists. split; [by apply table_traverse_spec|].
  destruct Htab as [_ _ _ Hlen _ Hhome Hkeys].
  split; [by rewrite length_fmap|]. split.
  - by rewrite table_traverse_keys.
  - intros i b kv Hb Hkv. rewrite list_lookup_fmap in Hb.
    destruct (B !! i) as [b0|] eqn:Hb0; [|done]. injection Hb as <-.
    apply list_elem_of_fmap in Hkv as (e & -> & He).
    apply list_elem_of_fmap in He as (c & -> & Hc).
    by apply (Hhome i b0 c).
Qed.

(** X4. In every state of a map of long long keys reached by puts, failed
    allocations included, a get returns
    and changes nothing, and it returns true with the value v exactly when a
    chain of the table holds the pair of the key and v. *)
Theorem get_agrees_with_the_chains o kvs w0 rs w k result :
  HASHMAP_INIT IntegerKey (blank o) = Some (0, w0) →
  puts kvs w0 = Some (rs, w) →
  ∃ T, table_traverse w = Some T ∧
       (∃ found, HASHMAP_GET result k w = Some (found, w)) ∧
       ∀ v, HASHMAP_GET result k w = Some ((true, v), w) ↔ (k, v) ∈ concat T.
Proof.
  intros Hinit Hputs.
  destruct (reachable_Inv o kvs w0 rs w Hinit Hputs) as (L & B & HInv & _).
  pose proof HInv as [_ Htab _ _].
  eexists. split; [by apply table_traverse_spec|].
  rewrite (GET_table w B k result Htab). split; [by eexists|].
  intros v. rewrite table_traverse_concat, elem_of_pair_of.
  destruct Htab as [_ _ _ _ _ _ Hkeys].
  rewrite <- (lookup_key_Some k v _ Hkeys). split.
  - destruct (lookup_key k (concat B).*2); simpl; [|done]. by intros [= ->].
  - by intros ->.
Qed.

(** X5. A put of a key, on a map on which no allocation has failed and none fails
    during the put, leaves what a get returns for every other key as it was,
    whether the table grows or not. *)
Theorem put_keeps_the_other_keys o kvs w0 rs w k v r w' k' result :
  HASHMAP_INIT IntegerKey (blank o) = Some (0, w0) →
  puts kvs w0 = Some (rs, w) →
  HASHMAP_PUT k v w = Some (r, w') →
  no_failure (trace w') = true →
  k' ≠ k →
  ∃ found, HASHMAP_GET result k' w = Some (found, w) ∧
           HASHMAP_GET result k' w' = Some (found, w').
Proof.
  intros Hinit Hputs Hput Hclean Hne.
  destruct (reachable_Inv o kvs w0 rs w Hinit Hputs) as (L & B & HInv & Hs).
  destruct (PUT_spec w L B k v HInv) as (r1 & w1 & L' & B' & evs & Hrun & Hpost).
  rewrite Hput in Hrun. injection Hrun as <- <-.
  destruct Hpost as [Pinv Ptrace _ _ _ _ _ Psync].
  rewrite Ptrace, no_failure_app in Hclean.
  apply andb_true_iff in Hclean as [Hc Hc'].
  destruct (Hs Hc) as (_ & Hsync & _).
  destruct (Psync Hsync Hc') as (_ & Hsync' & Habs).
  eexists. split; [by apply (GET_spec w L B)|].
  rewrite (GET_spec w' L' B' k' result Pinv Hsync'), Habs.
  by rewrite lookup_key_abs_put_ne.
Qed.

(** X6. On a map on which no allocation has failed, a growth that returns 0
    doubles [_table_size] and keeps [_num_entries], the nodes of the
    entry-order list, the pairs the list yields and their order, and what a
    get returns for every key. *)
Theorem growth_keeps_the_map o kvs w0 rs w w' :
  HASHMAP_INIT IntegerKey (blank o) = Some (0, w0) →
  puts kvs w0 = Some (rs, w) →
  no_failure (trace w) = true →
  _HASHMAP_INCREASE_SIZE w = Some (0, w') →
  _table_size (hm w') = 2 * _table_size (hm w) ∧
  _num_entries (hm w') = _num_entries (hm w) ∧
  ll_nodes w' = ll_nodes w ∧
  ll_traverse w' = ll_traverse w ∧
  ∀ k result, ∃ found, HASHMAP_GET result k w = Some (found, w) ∧
                       HASHMAP_GET result k w' = Some (found, w').
Proof.
  intros Hinit Hputs Hclean Hgrow.
  destruct (reachable_Inv o kvs w0 rs w Hinit Hputs) as (L & B & HInv & Hs).
  destruct (Hs Hclean) as (_ & Hsync & _).
  destruct (INCREASE_SIZE_spec w L B HInv)
    as (r1 & w1 & L' & B' & evs & Hrun & Hpost).
  rewrite Hgrow in Hrun. injection Hrun as <- <-.
  destruct Hpost as [Ginv _ Gnum Gnodes _ Gshape Gdone _].
  destruct (Gdone eq_refl) as [Hvals Hsync'].
  pose proof HInv as [_ _ Hlist _]. pose proof Ginv as [_ _ Hlist' _].
  split_and!.
  - destruct Gshape as [(_ & ? & _)|(evs_r & _ & _ & Hts & _)]; [done|lia].
  - done.
  - by rewrite (ll_nodes_spec _ _ Hlist'), (ll_nodes_spec _ _ Hlist), Gnodes.
  - by rewrite (ll_traverse_spec _ _ Hlist'), (ll_traverse_spec _ _ Hlist), Hvals.
  - intros k result. eexists. split; [by apply (GET_spec w L B)|].
    by rewrite (GET_spec w' L' B' k result Ginv Hsync'), Hvals.
Qed.

Lemma puts_fields kvs : ∀ w L B rs w',
  Inv w L B → Sync L B →
  puts kvs w = Some (rs, w') →
  no_failure (trace w') = true →
  (_table_size (hm w'), _num_entries (hm w'))
  = Nat.iter (length kvs) count_and_grow (_table_size (hm w), _num_entries (hm w)).
Proof.
  induction kvs as [|[k v] kvs IH]; intros w L B rs w' HInv Hsync Hrun Hclean.
  - cbn [puts] in Hrun. injection Hrun as <- <-. done.
  - cbn [puts] in Hrun.
    apply bind_Some in Hrun as (r & w1 & Hput & Hrun).
    apply bind_Some in Hrun as (rs' & w2 & Hputs & Hret).
    injection Hret as <- <-.
    destruct (PUT_spec w L B k v HInv) as (r1 & w1' & L1 & B1 & evs & Hrun1 & Hpost).
    rewrite Hput in Hrun1. injection Hrun1 as <- <-.
    destruct Hpost as [Pinv Ptrace Pnum _ Pgrow Pstable _ Psync].
    destruct (puts_spec kvs w1 L1 B1 Pinv)
      as (rs2 & w2' & L2 & B2 & evs2 & Hrun2 & _ & Htrace2 & _).
    rewrite Hputs in Hrun2. injection Hrun2 as <- <-.
    rewrite Htrace2, Ptrace, !no_failure_app in Hclean.
    apply andb_true_iff in Hclean as [Hclean Hc2].
    apply andb_true_iff in Hclean as [Hc0 Hc1].
    destruct (Psync Hsync Hc1) as (_ & Hsync1 & _).
    rewrite (IH w1 L1 B1 rs' w2 Pinv Hsync1 Hputs).
    2:{ by rewrite Htrace2, no_failure_app, Hc2, andb_true_r,
          Ptrace, no_failure_app, Hc0, Hc1. }
    cbn [length]. rewrite Nat.iter_succ_r. f_equal.
    unfold count_and_grow. cbn [fst snd]. rewrite Pnum.
    change (load_factor _) with (load_factor (hm w)) at 1.
    destruct (double_ge (load_factor (hm w)) _LOAD_FACTOR_LIM) eqn:Hload.
    + destruct (Pgrow eq_refl) as (p & evs' & -> & _ & _ & Hok).
      cbn [no_failure forallb failed] in Hc1.
      apply andb_true_iff in Hc1 as [Hp _]. apply negb_true_iff, Z.eqb_neq in Hp.
      rewrite (Hok Hp). f_equal.
      destruct HInv as [_ [[Hts Hsz] _ _ _ _ _ _] _ _].
      unfold to_size_t. rewrite Z.mod_small; [lia|].
      unfold sizeof_ptr, SIZE_MAX in *. lia.
    + destruct (Pstable eq_refl) as (_ & -> & _). done.
Qed.

(** X7. After n puts during which no allocation failed, [_table_size] depends on n
    alone and not on the keys: it is what n rounds of the load factor test of
    [HASHMAP_PUT] on the counter of puts give, so that puts of a key that the
    map holds grow the table as puts of new keys do. *)
Theorem capacity_depends_on_the_number_of_puts o kvs w0 rs w :
  HASHMAP_INIT IntegerKey (blank o) = Some (0, w0) →
  puts kvs w0 = Some (rs, w) →
  no_failure (trace w) = true →
  _table_size (hm w) = capacity_after (length kvs).
Proof.
  intros Hinit Hputs Hclean.
  destruct (INIT_spec _ _ _ Hinit) as (HInv0 & Hsync0 & _ & Hnum0 & Hts0).
  pose proof (puts_fields kvs w0 _ _ rs w HInv0 Hsync0 Hputs Hclean) as H.
  rewrite Hnum0, Hts0 in H. unfold capacity_after.
  change (_DEFAULT_TABLE_SIZE, 0) with (15, 0). by rewrite <- H.
Qed.

Lemma puts_table_size kvs : ∀ w L B rs w',
  Inv w L B → puts kvs w = Some (rs, w') →
  ∃ g : nat, (g ≤ length kvs)%nat ∧
             _table_size (hm w') = _table_size (hm w) * 2 ^ Z.of_nat g.
Proof.
  induction kvs as [|[k v] kvs IH]; intros w L B rs w' HInv Hrun.
  - cbn [puts] in Hrun. injection Hrun as <- <-. exists 0%nat. simpl. lia.
  - cbn [puts] in Hrun.
    apply bind_Some in Hrun as (r & w1 & Hput & Hrun).
    apply bind_Some in Hrun as (rs' & w2 & Hputs & Hret).
    injection Hret as <- <-.
    destruct (PUT_spec w L B k v HInv) as (r1 & w1' & L1 & B1 & evs & Hrun1 & Hpost).
    rewrite Hput in Hrun1. injection Hrun1 as <- <-.
    destruct Hpost as [Pinv _ _ _ Pgrow Pstable _ _].
    destruct (IH w1 L1 B1 rs' w2 Pinv Hputs) as (g & Hg & Hts).
    assert (_table_size (hm w1) = _table_size (hm w) ∨
            _table_size (hm w1) = 2 * _table_size (hm w)) as [Hts1|Hts1].
    { destruct (double_ge (load_factor (hm w)) _LOAD_FACTOR_LIM) eqn:Hload.
      - destruct (Pgrow eq_refl) as (p & evs' & _ & _ & Hnull & Hok).
        destruct (decide (p = NULL)) as [Hp|Hp].
        + left. by destruct (Hnull Hp).
        + right. by apply Hok.
      - left. by destruct (Pstable eq_refl) as (_ & -> & _). }
    + exists g. split; [simpl; lia|]. by rewrite Hts, Hts1.
    + exists (S g). split; [simpl; lia|]. rewrite Hts, Hts1.
      rewrite Nat2Z.inj_succ, Z.pow_succ_r by lia. lia.
Qed.

(** X8. In every state reached by n puts, failed allocations included,
    [_table_size] is 15 * 2^g for some g that is at most n. *)
Theorem table_size_is_15_times_a_power_of_two o kvs w0 rs w :
  HASHMAP_INIT IntegerKey (blank o) = Some (0, w0) →
  puts kvs w0 = Some (rs, w) →
  ∃ g : nat, (g ≤ length kvs)%nat ∧ _table_size (hm w) = 15 * 2 ^ Z.of_nat g.
Proof.
  intros Hinit Hputs.
  destruct (INIT_spec _ _ _ Hinit) as (HInv0 & _ & _ & _ & Hts0).
  destruct (puts_table_size kvs w0 _ _ rs w HInv0 Hputs) as (g & Hg & Hts).
  exists g. split; [done|]. by rewrite Hts, Hts0.
Qed.

(** ** Read-only computations *)

Section respects.
Context (R : world → world → Prop) `{!Reflexive R} `{!Transitive R}.

Lemma respects_ret {A} (a : A) : respects R (ret a).
Proof. intros w r w' [= _ <-]. reflexivity. Qed.

Lemma respects_undefined {A} : respects R (@undefined A).
Proof. intros w r w' [=]. Qed.

Lemma respects_bind {A B} (c : M A) (k : A → M B) :
  respects R c → (∀ a, respects R (k a)) → respects R (bind c k).
Proof.
  intros Hc Hk w r w' Hrun.
  apply bind_Some in Hrun as (a & w1 & Hrun1 & Hrun2).
  transitivity w1; [by eapply Hc|by eapply Hk].
Qed.

Lemma respects_get_hm : respects R get_hm.
Proof. intros w r w' [= _ <-]. reflexivity. Qed.

Lemma respects_lift {A} (o : option A) : respects R (lift o).
Proof. intros w r w' H. unfold lift in H. destruct o; [|done]. injection H as _ <-. reflexivity. Qed.

Lemma respects_entry_fuel : respects R entry_fuel.
Proof. intros w r w' [= _ <-]. reflexivity. Qed.

Lemma respects_node_fuel : respects R node_fuel.
Proof. intros w r w' [= _ <-]. reflexivity. Qed.

Lemma respects_load_entry p : respects R (load_entry p).
Proof.
  intros w r w' H. unfold load_entry in H.
  destruct (entries w !! p); [|done]. injection H as _ <-. reflexivity.
Qed.

Lemma respects_load_node p : respects R (load_node p).
Proof.
  intros w r w' H. unfold load_node in H.
  destruct (nodes w !! p); [|done]. injection H as _ <-. reflexivity.
Qed.

Lemma respects_load_cell t i : respects R (load_cell t i).
Proof.
  intros w r w' H. unfold load_cell in H.
  destruct (tables w !! t) as [cells|]; [|done]. simpl in H.
  destruct (bool_decide (0 ≤ i)); [|done].
  destruct (cells !! Z.to_nat i); [|done]. injection H as _ <-. reflexivity.
Qed.

Lemma respects_load_slot s : respects R (load_slot s).
Proof.
  destruct s as [t i|p]; simpl.
  - apply respects_load_cell.
  - apply respects_bind; [apply respects_load_entry|]. intros e. apply respects_ret.
Qed.

Lemma respects_call_hash_func k : respects R (call_hash_func k).
Proof.
  apply respects_bind; [apply respects_get_hm|]. intros m. apply respects_lift.
Qed.

Lemma respects_find_entry_loop k : ∀ fuel cursor,
  respects R (find_entry_loop fuel k cursor).
Proof.
  induction fuel as [|fuel IH]; intros cursor; [apply respects_undefined|].
  cbn [find_entry_loop].
  apply respects_bind; [apply respects_load_slot|]. intros p.
  destruct (p =? NULL); [apply respects_ret|].
  apply respects_bind; [apply respects_load_entry|]. intros e.
  destruct (key (_entry e) =? k); [apply respects_ret|apply IH].
Qed.

Lemma respects_FIND_ENTRY_RECORD k : respects R (_HASHMAP_FIND_ENTRY_RECORD k).
Proof.
  apply respects_bind; [apply respects_call_hash_func|]. intros h.
  apply respects_bind; [apply respects_get_hm|]. intros m.
  apply respects_bind; [apply respects_entry_fuel|]. intros fuel.
  apply respects_find_entry_loop.
Qed.

Lemma respects_last_entry_loop : ∀ fuel cursor,
  respects R (last_entry_loop fuel cursor).
Proof.
  induction fuel as [|fuel IH]; intros cursor; [apply respects_undefined|].
  cbn [last_entry_loop].
  apply respects_bind; [apply respects_load_slot|]. intros p.
  apply respects_bind; [apply respects_load_entry|]. intros e.
  destruct (_next_entry e =? NULL); [apply respects_ret|apply IH].
Qed.

Lemma respects_get_loop k : ∀ fuel p, respects R (get_loop fuel k p).
Proof.
  induction fuel as [|fuel IH]; intros p; [apply respects_undefined|].
  cbn [get_loop]. destruct (p =? NULL); [apply respects_ret|].
  apply respects_bind; [apply respects_load_entry|]. intros e.
  destruct (key (_entry e) =? k); [apply respects_ret|apply IH].
Qed.

Lemma respects_GET result k : respects R (HASHMAP_GET result k).
Proof.
  apply respects_bind; [apply respects_call_hash_func|]. intros h.
  apply respects_bind; [apply respects_get_hm|]. intros m.
  apply respects_bind; [apply respects_load_cell|]. intros c.
  apply respects_bind; [apply respects_entry_fuel|]. intros fuel.
  apply respects_bind; [apply respects_get_loop|]. intros [v|]; apply respects_ret.
Qed.
End respects.

(** X9. [HASHMAP_GET], whenever it returns, leaves the struct and the heap as they
    were and calls neither [calloc] nor [free]; when it returns false, the
    result variable keeps the value it had. *)
Theorem get_changes_nothing result k w found w' :
  HASHMAP_GET result k w = Some (found, w') →
  w' = w ∧ (found.1 = false → found.2 = result).
Proof.
  intros Hrun. split.
  - symmetry. by apply (respects_GET eq result k w found w').
  - unfold HASHMAP_GET in Hrun.
    apply bind_Some in Hrun as (h & w1 & _ & Hrun).
    apply bind_Some in Hrun as (m & w2 & _ & Hrun).
    apply bind_Some in Hrun as (c & w3 & _ & Hrun).
    apply bind_Some in Hrun as (fuel & w4 & _ & Hrun).
    apply bind_Some in Hrun as ([v|] & w5 & _ & Hrun);
      injection Hrun as <- <-; [done|done].
Qed.

(** ** [HASHMAP_FREE] *)

Lemma entry_walk_spec w (l : list (ptr * ptr)) : ∀ fuel p,
  nlist (nodes w) p l → (length l < fuel)%nat →
  entry_walk fuel w p = Some l.*2.
Proof.
  induction l as [|[n a] l IH]; intros fuel p Hnl Hfuel.
  - destruct fuel as [|fuel]; [simpl in Hfuel; lia|].
    simpl in Hnl. subst p. done.
  - destruct fuel as [|fuel]; [simpl in Hfuel; lia|].
    simpl in Hnl. destruct Hnl as (-> & Hnz & nd & Hn & Hna & Hnl).
    cbn [entry_walk]. apply Z.eqb_neq in Hnz. rewrite Hnz, Hn. simpl.
    rewrite (IH fuel (_next nd)); [|done|simpl in Hfuel; lia]. simpl.
    by rewrite Hna.
Qed.

Lemma ll_entries_spec w L : list_ok w L → ll_entries w = Some L.*2.*1.
Proof.
  intros Hlist. pose proof (list_ok_length _ _ Hlist).
  destruct Hlist as [Hn _ _ _ _]. unfold ll_entries.
  rewrite (entry_walk_spec w (prod_map id fst <$> L)); [|done|].
  - f_equal. rewrite <- !list_fmap_compose. by apply list_fmap_ext.
  - rewrite length_fmap. lia.
Qed.

Lemma release_entries_snoc es a w :
  release_entries (es ++ [a]) w
  = log (Free Entry a)
      (set_entries (delete a (entries (release_entries es w))) (release_entries es w)).
Proof. unfold release_entries. by rewrite foldl_app. Qed.

Lemma release_nodes_snoc ns n w :
  release_nodes (ns ++ [n]) w
  = log (Free Node n)
      (set_nodes (delete n (nodes (release_nodes ns w))) (release_nodes ns w)).
Proof. unfold release_nodes. by rewrite foldl_app. Qed.

Lemma release_entries_fields es w :
  hm (release_entries es w) = hm w ∧
  nodes (release_entries es w) = nodes w ∧
  tables (release_entries es w) = tables w ∧
  brk (release_entries es w) = brk w ∧
  oracle (release_entries es w) = oracle w ∧
  trace (release_entries es w) = trace w ++ (Free Entry <$> es) ∧
  ∀ a, entries (release_entries es w) !! a
       = if decide (a ∈ es) then None else entries w !! a.
Proof.
  induction es as [|e es IH] using rev_ind.
  - split_and!; try done; simpl.
    by rewrite app_nil_r.
  - destruct IH as (Hhm & Hn & Ht & Hb & Ho & Htr & He).
    rewrite release_entries_snoc. split_and!; try done; wsimpl.
    + by rewrite Htr, fmap_app, app_assoc.
    + intros a. destruct (decide (e = a)) as [->|Hne].
      * rewrite lookup_delete_eq. rewrite decide_True; [done|].
        apply elem_of_app. right. left.
      * rewrite lookup_delete_ne by done. rewrite He.
        destruct (decide (a ∈ es)) as [Hin|Hnotin].
        -- rewrite decide_True; [done|]. apply elem_of_app. by left.
        -- rewrite decide_False; [done|]. intros Hin.
           apply elem_of_app in Hin as [Hin|Hin]; [done|].
           apply list_elem_of_singleton in Hin. congruence.
Qed.

Lemma release_nodes_fields ns w :
  hm (release_nodes ns w) = hm w ∧
  entries (release_nodes ns w) = entries w ∧
  tables (release_nodes ns w) = tables w ∧
  brk (release_nodes ns w) = brk w ∧
  oracle (release_nodes ns w) = oracle w ∧
  trace (release_nodes ns w) = trace w ++ (Free Node <$> ns) ∧
  ∀ n, nodes (release_nodes ns w) !! n
       = if decide (n ∈ ns) then None else nodes w !! n.
Proof.
  induction ns as [|e ns IH] using rev_ind.
  - split_and!; try done; simpl.
    by rewrite app_nil_r.
  - destruct IH as (Hhm & Hn & Ht & Hb & Ho & Htr & He).
    rewrite release_nodes_snoc. split_and!; try done; wsimpl.
    + by rewrite Htr, fmap_app, app_assoc.
    + intros a. destruct (decide (e = a)) as [->|Hne].
      * rewrite lookup_delete_eq. rewrite decide_True; [done|].
        apply elem_of_app. right. left.
      * rewrite lookup_delete_ne by done. rewrite He.
        destruct (decide (a ∈ ns)) as [Hin|Hnotin].
        -- rewrite decide_True; [done|]. apply elem_of_app. by left.
        -- rewrite decide_False; [done|]. intros Hin.
           apply elem_of_app in Hin as [Hin|Hin]; [done|].
           apply list_elem_of_singleton in Hin. congruence.
Qed.

Lemma release_entries_cons a es w :
  release_entries (a :: es) w
  = release_entries es (log (Free Entry a) (set_entries (delete a (entries w)) w)).
Proof. done. Qed.

Lemma release_nodes_cons n ns w :
  release_nodes (n :: ns) w
  = release_nodes ns (log (Free Node n) (set_nodes (delete n (nodes w)) w)).
Proof. done. Qed.

(** The loop of [_HASHMAP_TABLE_FREE] frees the entry of each node. *)
Lemma table_free_loop_spec : ∀ (l : list (ptr * ptr)) fuel w p,
  nlist (nodes w) p l →
  Forall (λ a, is_Some (entries w !! a) ∧ a ≠ NULL) l.*2 →
  NoDup l.*2 →
  (length l < fuel)%nat →
  table_free_loop fuel p w = Some (tt, release_entries l.*2 w).
Proof.
  induction l as [|[n a] l IH]; intros fuel w p Hnl Hlive Hnd Hfuel.
  - destruct fuel as [|fuel]; [simpl in Hfuel; lia|].
    simpl in Hnl. subst p. done.
  - destruct fuel as [|fuel]; [simpl in Hfuel; lia|].
    simpl in Hnl. destruct Hnl as (-> & Hnz & nd & Hn & Hna & Hnl).
    rewrite fmap_cons in Hlive, Hnd. simpl in Hlive, Hnd.
    apply Forall_cons in Hlive as [[[e He] Haz] Hlive].
    apply NoDup_cons in Hnd as [Ha Hnd].
    cbn [table_free_loop]. apply Z.eqb_neq in Hnz. rewrite Hnz.
    mrun (run_load_node _ _ _ Hn). rewrite Hna.
    mrun (run_free_entry _ _ _ He Haz).
    rewrite fmap_cons, release_entries_cons. cbn [snd].
    apply IH; wsimpl; try done; [|simpl in Hfuel; lia].
    rewrite Forall_forall in Hlive. apply Forall_forall. intros x Hx.
    destruct (Hlive x Hx) as [Hxl Hxz]. split; [|done].
    rewrite lookup_delete_ne; [done|]. by intros ->.
Qed.

Lemma run_free_node w n nd :
  nodes w !! n = Some nd → n ≠ NULL →
  free_node n w
  = Some (tt, log (Free Node n) (set_nodes (delete n (nodes w)) w)).
Proof.
  intros Hn Hnz. unfold free_node. apply Z.eqb_neq in Hnz. by rewrite Hnz, Hn.
Qed.

(** The loop of [_HASHMAP_LL_FREE] frees each node. *)
Lemma ll_free_loop_spec : ∀ (l : list (ptr * ptr)) fuel w p,
  nlist (nodes w) p l →
  NoDup l.*1 →
  (length l < fuel)%nat →
  ll_free_loop fuel p w = Some (tt, release_nodes l.*1 w).
Proof.
  induction l as [|[n a] l IH]; intros fuel w p Hnl Hnd Hfuel.
  - destruct fuel as [|fuel]; [simpl in Hfuel; lia|].
    simpl in Hnl. subst p. done.
  - destruct fuel as [|fuel]; [simpl in Hfuel; lia|].
    simpl in Hnl. destruct Hnl as (-> & Hnz & nd & Hn & Hna & Hnl).
    rewrite fmap_cons in Hnd. simpl in Hnd.
    apply NoDup_cons in Hnd as [Hnotin Hnd].
    cbn [ll_free_loop]. pose proof Hnz as Hnz'. apply Z.eqb_neq in Hnz'. rewrite Hnz'.
    mrun (run_load_node _ _ _ Hn).
    mrun (run_free_node _ _ _ Hn Hnz).
    rewrite fmap_cons, release_nodes_cons. cbn [fst].
    apply IH; wsimpl; try done; [|simpl in Hfuel; lia].
    apply nlist_frame with (nodes w); [|done].
    intros m Hm. rewrite lookup_delete_ne; [done|]. by intros ->.
Qed.

Lemma released_fields es ns w :
  hm (released es ns w) = hm w ∧
  brk (released es ns w) = brk w ∧
  oracle (released es ns w) = oracle w ∧
  trace (released es ns w)
  = trace w ++ (Free Entry <$> es) ++ [Free Table (_entry_table (hm w))]
      ++ (Free Node <$> ns) ∧
  (∀ a, entries (released es ns w) !! a
        = if decide (a ∈ es) then None else entries w !! a) ∧
  (∀ n, nodes (released es ns w) !! n
        = if decide (n ∈ ns) then None else nodes w !! n) ∧
  tables (released es ns w) = delete (_entry_table (hm w)) (tables w).
Proof.
  unfold released.
  destruct (release_entries_fields es w) as (Rhm & Rn & Rt & Rb & Ro & Rtr & Re).
  match goal with
  | |- context [release_nodes ?ns ?w1] =>
      destruct (release_nodes_fields ns w1) as (Nhm & Ne & Nt & Nb & No & Ntr & Nn);
      revert Nhm Ne Nt Nb No Ntr Nn; generalize (release_nodes ns w1)
  end.
  wsimpl. intros w' Nhm Ne Nt Nb No Ntr Nn. split_and!.
  - by rewrite Nhm.
  - by rewrite Nb.
  - by rewrite No.
  - by rewrite Ntr, Rtr, <- !app_assoc.
  - intros a. by rewrite Ne.
  - intros n. by rewrite Nn, Rn.
  - done.
Qed.

(** [HASHMAP_FREE] in a state that satisfies the invariant. *)
Lemma FREE_spec w L B :
  Inv w L B →
  HASHMAP_FREE w = Some (tt, released L.*2.*1 L.*1 w).
Proof.
  intros [Hheap Htab Hlist Hnum].
  pose proof (list_ok_length _ _ Hlist) as Hlen.
  destruct Hlist as [Hn Htl Hnd Hh Hi].
  destruct Htab as [_ _ (cells & Hcells & _) _ _ _ _].
  destruct Hheap as [Hbrk HE HN HT].
  destruct (release_entries_fields L.*2.*1 w) as (Rhm & Rn & Rt & Rb & Ro & Rtr & Re).
  assert ((prod_map id fst <$> L).*2 = L.*2.*1) as Hl2.
  { rewrite <- !list_fmap_compose. by apply list_fmap_ext. }
  assert ((prod_map id fst <$> L).*1 = L.*1) as Hl1.
  { rewrite <- !list_fmap_compose. by apply list_fmap_ext. }
  unfold HASHMAP_FREE, _HASHMAP_TABLE_FREE.
  mrun (run_get_hm _). mrun (run_node_fuel _).
  mrun by (apply (table_free_loop_spec (prod_map id fst <$> L));
           [exact Hn| |by rewrite Hl2|rewrite length_fmap; lia]).
  2:{ rewrite Hl2. apply Forall_forall. intros a Ha.
      apply list_elem_of_fmap in Ha as (c & -> & Hc).
      rewrite Forall_forall in Hh. destruct (Hh c Hc) as (e & He & _).
      split; [by exists e|].
      assert (0 < c.1 < brk w) by (apply HE; by exists e). unfold NULL. lia. }
  rewrite Hl2.
  assert (_entry_table (hm w) ≠ NULL) as Htz.
  { assert (0 < _entry_table (hm w) < brk w) by (apply HT; by exists cells).
    unfold NULL. lia. }
  mrun by (apply (run_free_table _ _ cells); [by rewrite Rt|exact Htz]).
  unfold _HASHMAP_LL_FREE. mrun (run_get_hm _). mrun (run_node_fuel _).
  wsimpl. rewrite Rhm, Rt.
  rewrite <- Hl1.
  apply ll_free_loop_spec; wsimpl; rewrite ?Rn; try done.
  - by rewrite Hl1.
  - rewrite length_fmap. lia.
Qed.

(** X10. In every state reached by puts, [HASHMAP_FREE] returns: it frees the
    entries that the nodes of the entry-order list point to, in the order of
    the list, then the table, then the nodes in the order of the list, and
    nothing else; the fields of the struct stay as they were, pointers
    included. *)
Theorem free_releases_the_list_and_the_table o kvs w0 rs w :
  HASHMAP_INIT IntegerKey (blank o) = Some (0, w0) →
  puts kvs w0 = Some (rs, w) →
  ∃ ns es w',
    ll_nodes w = Some ns ∧ ll_entries w = Some es ∧
    HASHMAP_FREE w = Some (tt, w') ∧
    trace w' = trace w ++ (Free Entry <$> es)
                 ++ [Free Table (_entry_table (hm w))] ++ (Free Node <$> ns) ∧
    hm w' = hm w ∧
    (∀ a, entries w' !! a = if decide (a ∈ es) then None else entries w !! a) ∧
    (∀ n, nodes w' !! n = if decide (n ∈ ns) then None else nodes w !! n) ∧
    tables w' = delete (_entry_table (hm w)) (tables w).
Proof.
  intros Hinit Hputs.
  destruct (reachable_Inv o kvs w0 rs w Hinit Hputs) as (L & B & HInv & _).
  pose proof HInv as [_ _ Hlist _].
  exists L.*1, L.*2.*1. eexists.
  split; [by apply ll_nodes_spec|]. split; [by apply ll_entries_spec|].
  split; [by apply (FREE_spec w L B)|].
  destruct (released_fields L.*2.*1 L.*1 w) as (Rhm & _ & _ & Rtr & Re & Rn & Rt).
  done.
Qed.

(** X11. After [HASHMAP_FREE], a second [HASHMAP_FREE] and every [HASHMAP_GET] are
    undefined: the struct still holds the pointer of the freed table, which
    the one frees again and the other reads. *)
Theorem use_after_free_is_undefined o kvs w0 rs w w' :
  HASHMAP_INIT IntegerKey (blank o) = Some (0, w0) →
  puts kvs w0 = Some (rs, w) →
  HASHMAP_FREE w = Some (tt, w') →
  HASHMAP_FREE w' = None ∧ ∀ result k, HASHMAP_GET result k w' = None.
Proof.
  intros Hinit Hputs Hfree.
  destruct (reachable_Inv o kvs w0 rs w Hinit Hputs) as (L & B & HInv & _).
  rewrite (FREE_spec w L B HInv) in Hfree. injection Hfree as <-.
  destruct (released_fields L.*2.*1 L.*1 w) as (Nhm & _ & _ & _ & _ & Nn & Nt).
  revert Nhm Nn Nt. generalize (released L.*2.*1 L.*1 w). intros w' Nhm Nn Nt.
  pose proof HInv as [Hheap Htab Hlist Hnum].
  assert (_entry_table (hm w) ≠ NULL) as Htz.
  { destruct Htab as [_ _ (cells & Hcells & _) _ _ _ _]. destruct Hheap as [_ _ _ HT].
    assert (0 < _entry_table (hm w) < brk w) by (apply HT; by exists cells).
    unfold NULL. lia. }
  assert (tables w' !! _entry_table (hm w') = None) as Hgone.
  { by rewrite Nt, Nhm, lookup_delete_eq. }
  split.
  - unfold HASHMAP_FREE, _HASHMAP_TABLE_FREE.
    rewrite !bind_assoc. mrun (run_get_hm _). mrun (run_node_fuel _).
    destruct L as [|[n c] L].
    + destruct Hlist as [Hn _ _ _ _]. simpl in Hn.
      cbn [table_free_loop]. rewrite Nhm, Hn. cbn [NULL Z.eqb].
      mrun (run_ret _ _). unfold free_table, bind.
      apply Z.eqb_neq in Htz. rewrite Htz. by rewrite <- Nhm, Hgone.
    + destruct Hlist as [Hn _ _ _ _]. rewrite fmap_cons in Hn. simpl in Hn.
      destruct Hn as (Hhead & Hnz & _).
      cbn [table_free_loop]. rewrite Nhm, Hhead.
      apply Z.eqb_neq in Hnz. rewrite Hnz.
      unfold bind, load_node.
      rewrite Nn. rewrite decide_True; [done|]. rewrite fmap_cons. left.
  - intros result k. unfold HASHMAP_GET.
    destruct (table_bucket w B k Htab) as (i & _ & _ & _ & Hh & _).
    rewrite <- Nhm in Hh.
    mrun (run_call_hash_func _ _ _ Hh). mrun (run_get_hm _).
    unfold bind, load_cell. by rewrite Hgone.
Qed.

(** ** What stays allocated *)

Lemma net_app k evs1 evs2 : net k (evs1 ++ evs2) = net k evs1 + net k evs2.
Proof.
  induction evs1 as [|ev evs1 IH]; [done|].
  simpl. unfold net in *. simpl. rewrite IH. lia.
Qed.

Lemma net_nil k : net k [] = 0.
Proof. done. Qed.

Lemma net_cons k ev evs : net k (ev :: evs) = gain k ev + net k evs.
Proof. done. Qed.

#[local] Instance accounts_refl : Reflexive accounts.
Proof.
  intros w Hheap. split; [done|]. exists []. split; [by rewrite app_nil_r|].
  intros k. rewrite net_nil. lia.
Qed.

#[local] Instance accounts_trans : Transitive accounts.
Proof.
  intros w1 w2 w3 H12 H23 Hheap.
  destruct (H12 Hheap) as (Hheap2 & evs1 & Ht1 & Hl1).
  destruct (H23 Hheap2) as (Hheap3 & evs2 & Ht2 & Hl2).
  split; [done|]. exists (evs1 ++ evs2).
  split; [by rewrite Ht2, Ht1, app_assoc|].
  intros k. rewrite net_app, Hl2, Hl1. lia.
Qed.

#[local] Instance silent_refl : Reflexive silent.
Proof. by intros w. Qed.

#[local] Instance silent_trans : Transitive silent.
Proof. unfold silent. intros w1 w2 w3 H12 H23. congruence. Qed.

(** A run that leaves the heap consistent, the trace and the sizes as they
    were. *)
Lemma accounts_same w w' :
  (heap_ok w → heap_ok w') → trace w' = trace w →
  size (entries w') = size (entries w) →
  size (nodes w') = size (nodes w) →
  size (tables w') = size (tables w) →
  accounts w w'.
Proof.
  intros Hh Ht He Hn Htb Hheap. split; [by apply Hh|].
  exists []. split; [by rewrite app_nil_r|].
  intros [| |]; unfold live; rewrite net_nil; lia.
Qed.

Lemma accounts_put_hm m : respects accounts (put_hm m).
Proof.
  intros w r w' [= _ <-]. apply accounts_same; try done.
  by intros [Hb HE HN HT].
Qed.

Lemma accounts_store_entry p e : respects accounts (store_entry p e).
Proof.
  intros w r w' H. unfold store_entry in H.
  destruct (entries w !! p) as [e0|] eqn:Hp; [|done]. injection H as _ <-.
  apply accounts_same; wsimpl; try done.
  - intros Hheap. by apply heap_ok_entries_insert.
  - by apply map_size_insert_Some.
Qed.

Lemma accounts_store_node p n : respects accounts (store_node p n).
Proof.
  intros w r w' H. unfold store_node in H.
  destruct (nodes w !! p) as [n0|] eqn:Hp; [|done]. injection H as _ <-.
  apply accounts_same; wsimpl; try done.
  - intros [Hb HE HN HT]. split; wsimpl; try done.
    intros a Ha. apply HN. destruct (decide (p = a)) as [<-|Hne]; [done|].
    by rewrite lookup_insert_ne in Ha.
  - by apply map_size_insert_Some.
Qed.

Lemma accounts_store_cell t i p : respects accounts (store_cell t i p).
Proof.
  intros w r w' H. unfold store_cell in H.
  destruct (tables w !! t) as [cells|] eqn:Ht; [|done]. simpl in H.
  destruct (bool_decide _); [|done]. injection H as _ <-.
  apply accounts_same; wsimpl; try done.
  - intros [Hb HE HN HT]. split; wsimpl; try done.
    intros a Ha. apply HT. destruct (decide (t = a)) as [<-|Hne]; [done|].
    by rewrite lookup_insert_ne in Ha.
  - by apply map_size_insert_Some.
Qed.

Lemma accounts_calloc_ok nmemb size : respects accounts (calloc_ok nmemb size).
Proof.
  intros w r w' H. unfold calloc_ok in H.
  destruct (bool_decide _); injection H as _ <-; [reflexivity|].
  apply accounts_same; wsimpl; try done. by intros [Hb HE HN HT].
Qed.

(** An allocation that succeeds takes the address [brk w], which is fresh. *)
Lemma accounts_alloc k w w' :
  trace w' = trace w ++ [Calloc k (brk w)] → brk w' = brk w + 1 →
  (∀ k', live k' w' = live k' w + if bool_decide (k = k') then 1 else 0) →
  (∀ a, is_Some (entries w' !! a) → a = brk w ∨ is_Some (entries w !! a)) →
  (∀ a, is_Some (nodes w' !! a) → a = brk w ∨ is_Some (nodes w !! a)) →
  (∀ a, is_Some (tables w' !! a) → a = brk w ∨ is_Some (tables w !! a)) →
  accounts w w'.
Proof.
  intros Ht Hb Hl HE' HN' HT' [Hbrk HE HN HT]. split.
  - split; rewrite ?Hb; [lia| | |].
    + intros a Ha. destruct (HE' a Ha) as [->|Ha']; [lia|]. apply HE in Ha'. lia.
    + intros a Ha. destruct (HN' a Ha) as [->|Ha']; [lia|]. apply HN in Ha'. lia.
    + intros a Ha. destruct (HT' a Ha) as [->|Ha']; [lia|]. apply HT in Ha'. lia.
  - exists [Calloc k (brk w)]. split; [done|]. intros k'. rewrite Hl.
    rewrite net_cons, net_nil. unfold gain.
    destruct (decide (k = k')) as [->|Hne].
    + rewrite (bool_decide_eq_true_2 (k' = k')) by done.
      rewrite bool_decide_eq_true_2; [lia|]. split; [done|]. unfold NULL. lia.
    + rewrite (bool_decide_eq_false_2 (k = k')) by done.
      rewrite bool_decide_eq_false_2; [lia|]. by intros [? _].
Qed.

Lemma accounts_fail k w w' :
  (heap_ok w → heap_ok w') → trace w' = trace w ++ [Calloc k NULL] →
  size (entries w') = size (entries w) →
  size (nodes w') = size (nodes w) →
  size (tables w') = size (tables w) →
  accounts w w'.
Proof.
  intros Hh Ht He Hn Htb Hheap. split; [by apply Hh|].
  exists [Calloc k NULL]. split; [done|].
  intros k'. rewrite net_cons, net_nil. unfold gain.
  rewrite bool_decide_eq_false_2 by (by intros [_ ?]).
  destruct k'; unfold live; lia.
Qed.

Lemma fresh_lookup {V} (m : gmap Z V) (b : Z) :
  (∀ a, is_Some (m !! a) → 0 < a < b) → m !! b = None.
Proof.
  intros H. destruct (m !! b) eqn:Hb; [|done].
  assert (0 < b < b) by (apply H; by rewrite Hb). lia.
Qed.

Lemma lookup_insert_is_Some_inv {V} (m : gmap Z V) (b a : Z) (x : V) :
  is_Some (<[b := x]> m !! a) → a = b ∨ is_Some (m !! a).
Proof.
  intros Ha. destruct (decide (b = a)) as [->|Hne]; [by left|].
  right. by rewrite lookup_insert_ne in Ha.
Qed.

Lemma accounts_calloc_entry : respects accounts calloc_entry.
Proof.
  intros w r w' H. unfold calloc_entry in H.
  apply bind_Some in H as (ok & w1 & Hok & H).
  unfold calloc_ok in Hok.
  assert (hm w1 = hm w ∧ entries w1 = entries w ∧ nodes w1 = nodes w ∧
          tables w1 = tables w ∧ brk w1 = brk w ∧ trace w1 = trace w)
    as (Hhm & He & Hn & Ht & Hb & Htr).
  { destruct (bool_decide _); by injection Hok as _ <-. }
  destruct ok; injection H as _ <-.
  - intros Hheap. pose proof Hheap as [Hbrk HE HN HT].
    apply (accounts_alloc Entry); wsimpl; rewrite ?He, ?Hn, ?Ht, ?Hb, ?Htr; try done.
    + intros [| |]; unfold live; wsimpl; rewrite ?He, ?Hn, ?Ht; simpl; try lia.
      rewrite map_size_insert_None by (by eapply fresh_lookup). lia.
    + intros a. apply lookup_insert_is_Some_inv.
    + by right.
    + by right.
  - apply (accounts_fail Entry); wsimpl; rewrite ?He, ?Hn, ?Ht, ?Hb, ?Htr; try done.
    intros [Hbrk HE HN HT]. split; wsimpl; rewrite ?He, ?Hn, ?Ht, ?Hb; done.
Qed.

Lemma accounts_calloc_node : respects accounts calloc_node.
Proof.
  intros w r w' H. unfold calloc_node in H.
  apply bind_Some in H as (ok & w1 & Hok & H).
  unfold calloc_ok in Hok.
  assert (hm w1 = hm w ∧ entries w1 = entries w ∧ nodes w1 = nodes w ∧
          tables w1 = tables w ∧ brk w1 = brk w ∧ trace w1 = trace w)
    as (Hhm & He & Hn & Ht & Hb & Htr).
  { destruct (bool_decide _); by injection Hok as _ <-. }
  destruct ok; injection H as _ <-.
  - intros Hheap. pose proof Hheap as [Hbrk HE HN HT].
    apply (accounts_alloc Node); wsimpl; rewrite ?He, ?Hn, ?Ht, ?Hb, ?Htr; try done.
    + intros [| |]; unfold live; wsimpl; rewrite ?He, ?Hn, ?Ht; simpl; try lia.
      rewrite map_size_insert_None by (by eapply fresh_lookup). lia.
    + by right.
    + intros a. apply lookup_insert_is_Some_inv.
    + by right.
  - apply (accounts_fail Node); wsimpl; rewrite ?He, ?Hn, ?Ht, ?Hb, ?Htr; try done.
    intros [Hbrk HE HN HT]. split; wsimpl; rewrite ?He, ?Hn, ?Ht, ?Hb; done.
Qed.

Lemma accounts_calloc_table nmemb : respects accounts (calloc_table nmemb).
Proof.
  intros w r w' H. unfold calloc_table in H.
  apply bind_Some in H as (ok & w1 & Hok & H).
  unfold calloc_ok in Hok.
  assert (hm w1 = hm w ∧ entries w1 = entries w ∧ nodes w1 = nodes w ∧
          tables w1 = tables w ∧ brk w1 = brk w ∧ trace w1 = trace w)
    as (Hhm & He & Hn & Ht & Hb & Htr).
  { destruct (bool_decide _); by injection Hok as _ <-. }
  destruct ok; injection H as _ <-.
  - intros Hheap. pose proof Hheap as [Hbrk HE HN HT].
    apply (accounts_alloc Table); wsimpl; rewrite ?He, ?Hn, ?Ht, ?Hb, ?Htr; try done.
    + intros [| |]; unfold live; wsimpl; rewrite ?He, ?Hn, ?Ht; simpl; try lia.
      rewrite map_size_insert_None by (by eapply fresh_lookup). lia.
    + by right.
    + by right.
    + intros a. apply lookup_insert_is_Some_inv.
  - apply (accounts_fail Table); wsimpl; rewrite ?He, ?Hn, ?Ht, ?Hb, ?Htr; try done.
    intros [Hbrk HE HN HT]. split; wsimpl; rewrite ?He, ?Hn, ?Ht, ?Hb; done.
Qed.

Lemma accounts_free k p w w' :
  trace w' = trace w ++ [Free k p] → brk w' = brk w →
  (∀ k', live k' w' = live k' w + if bool_decide (k = k') then -1 else 0) →
  (∀ a, is_Some (entries w' !! a) → is_Some (entries w !! a)) →
  (∀ a, is_Some (nodes w' !! a) → is_Some (nodes w !! a)) →
  (∀ a, is_Some (tables w' !! a) → is_Some (tables w !! a)) →
  accounts w w'.
Proof.
  intros Ht Hb Hl HE' HN' HT' [Hbrk HE HN HT]. split.
  - split; rewrite ?Hb; [lia| | |].
    + intros a Ha. by apply HE, HE'.
    + intros a Ha. by apply HN, HN'.
    + intros a Ha. by apply HT, HT'.
  - exists [Free k p]. split; [done|]. intros k'. rewrite Hl.
    rewrite net_cons, net_nil. unfold gain.
    destruct (decide (k = k')) as [->|Hne].
    + rewrite !bool_decide_eq_true_2 by done. lia.
    + rewrite !bool_decide_eq_false_2 by done. lia.
Qed.

Lemma lookup_delete_is_Some_inv {V} (m : gmap Z V) (b a : Z) :
  is_Some (delete b m !! a) → is_Some (m !! a).
Proof.
  intros Ha. destruct (decide (b = a)) as [->|Hne].
  - rewrite lookup_delete_eq in Ha. by destruct Ha.
  - by rewrite lookup_delete_ne in Ha.
Qed.

Lemma size_delete_live {V} (m : gmap Z V) (a : Z) (x : V) :
  m !! a = Some x → Z.of_nat (size (delete a m)) = Z.of_nat (size m) + -1.
Proof.
  intros Ha. rewrite map_size_delete_Some by (by exists x).
  assert (size m ≠ 0%nat); [|lia].
  intros H0. apply map_size_empty_inv in H0. subst m. by rewrite lookup_empty in Ha.
Qed.

Lemma accounts_free_entry p : respects accounts (free_entry p).
Proof.
  intros w r w' H. unfold free_entry in H.
  destruct (p =? NULL); [injection H as _ <-; reflexivity|].
  destruct (entries w !! p) as [e|] eqn:Hp; [|done]. injection H as _ <-.
  apply (accounts_free Entry p); wsimpl; try done.
  - intros [| |]; unfold live; wsimpl; simpl; try lia. by eapply size_delete_live.
  - intros a. apply lookup_delete_is_Some_inv.
Qed.

Lemma accounts_free_node p : respects accounts (free_node p).
Proof.
  intros w r w' H. unfold free_node in H.
  destruct (p =? NULL); [injection H as _ <-; reflexivity|].
  destruct (nodes w !! p) as [e|] eqn:Hp; [|done]. injection H as _ <-.
  apply (accounts_free Node p); wsimpl; try done.
  - intros [| |]; unfold live; wsimpl; simpl; try lia. by eapply size_delete_live.
  - intros a. apply lookup_delete_is_Some_inv.
Qed.

Lemma accounts_free_table p : respects accounts (free_table p).
Proof.
  intros w r w' H. unfold free_table in H.
  destruct (p =? NULL); [injection H as _ <-; reflexivity|].
  destruct (tables w !! p) as [e|] eqn:Hp; [|done]. injection H as _ <-.
  apply (accounts_free Table p); wsimpl; try done.
  - intros [| |]; unfold live; wsimpl; simpl; try lia. by eapply size_delete_live.
  - intros a. apply lookup_delete_is_Some_inv.
Qed.

(** Steps through a computation made of binds, branches and the commands
    that [prim] knows. *)
Ltac resp_leaf :=
  first
    [ apply respects_ret | apply respects_undefined | apply respects_get_hm
    | apply respects_lift | apply respects_entry_fuel | apply respects_node_fuel
    | apply respects_load_entry | apply respects_load_node
    | apply respects_load_cell | apply respects_load_slot
    | apply respects_call_hash_func
    | apply respects_find_entry_loop | apply respects_FIND_ENTRY_RECORD
    | apply respects_last_entry_loop | apply respects_get_loop
    | apply respects_GET ]; exact _.

Ltac resp prim :=
  repeat first
    [ resp_leaf
    | prim
    | match goal with
      | |- respects _ (if ?b then _ else _) => destruct b
      | |- respects _ (match ?x with _ => _ end) => destruct x
      end
    | apply respects_bind; [exact _ .. | | intros ?] ].

Ltac accounts_prim :=
  first [ apply accounts_put_hm | apply accounts_store_entry
        | apply accounts_store_node | apply accounts_store_cell
        | apply accounts_calloc_entry | apply accounts_calloc_node
        | apply accounts_calloc_table | apply accounts_free_entry
        | apply accounts_free_node | apply accounts_free_table ].

Lemma accounts_store_slot s q : respects accounts (store_slot s q).
Proof. destruct s; simpl; resp accounts_prim.
Qed.

Lemma accounts_TABLE_PUT k v : respects accounts (_HASHMAP_TABLE_PUT k v).
Proof.
  unfold _HASHMAP_TABLE_PUT. resp ltac:(first [accounts_prim|apply accounts_store_slot]).
Qed.

Lemma accounts_LL_PUT a : respects accounts (_HASHMAP_LL_PUT a).
Proof.
  unfold _HASHMAP_LL_PUT, _HASHMAP_LL_ADD_TAIL, _HASHMAP_LL_ADD_HEAD,
    _HASHMAP_LL_ADD_AFTER, _HASHMAP_LL_ADD_BEFORE.
  resp accounts_prim.
Qed.

Lemma accounts_rehash_loop : ∀ fuel cursor, respects accounts (rehash_loop fuel cursor).
Proof.
  induction fuel as [|fuel IH]; intros cursor; [apply respects_undefined|].
  cbn [rehash_loop].
  resp ltac:(first [accounts_prim|apply accounts_TABLE_PUT|apply IH]).
Qed.

Lemma accounts_INCREASE_SIZE : respects accounts _HASHMAP_INCREASE_SIZE.
Proof.
  unfold _HASHMAP_INCREASE_SIZE, _HASHMAP_REHASH_TABLE.
  resp ltac:(first [accounts_prim|apply accounts_rehash_loop]).
Qed.

Lemma accounts_insert k v : respects accounts (table_then_ll_put k v).
Proof.
  unfold table_then_ll_put.
  resp ltac:(first [accounts_prim|apply accounts_TABLE_PUT|apply accounts_LL_PUT]).
Qed.

Lemma accounts_PUT k v : respects accounts (HASHMAP_PUT k v).
Proof.
  unfold HASHMAP_PUT.
  resp ltac:(first [accounts_prim|apply accounts_INCREASE_SIZE|apply accounts_insert]).
Qed.

Lemma accounts_INIT kt : respects accounts (HASHMAP_INIT kt).
Proof. unfold HASHMAP_INIT. resp accounts_prim. Qed.

Lemma accounts_table_free_loop : ∀ fuel cursor,
  respects accounts (table_free_loop fuel cursor).
Proof.
  induction fuel as [|fuel IH]; intros cursor; [apply respects_undefined|].
  cbn [table_free_loop]. resp ltac:(first [accounts_prim|apply IH]).
Qed.

Lemma accounts_ll_free_loop : ∀ fuel cursor,
  respects accounts (ll_free_loop fuel cursor).
Proof.
  induction fuel as [|fuel IH]; intros cursor; [apply respects_undefined|].
  cbn [ll_free_loop]. resp ltac:(first [accounts_prim|apply IH]).
Qed.

Lemma accounts_FREE : respects accounts HASHMAP_FREE.
Proof.
  unfold HASHMAP_FREE, _HASHMAP_TABLE_FREE, _HASHMAP_LL_FREE.
  resp ltac:(first [accounts_prim|apply accounts_table_free_loop
                   |apply accounts_ll_free_loop]).
Qed.

(** *** What the commands of the insertion write to the trace *)

Lemma silent_put_hm m : respects silent (put_hm m).
Proof. by intros w r w' [= _ <-]. Qed.

Lemma silent_store_entry p e : respects silent (store_entry p e).
Proof.
  intros w r w' H. unfold store_entry in H.
  destruct (entries w !! p); [|done]. by injection H as _ <-.
Qed.

Lemma silent_store_node p n : respects silent (store_node p n).
Proof.
  intros w r w' H. unfold store_node in H.
  destruct (nodes w !! p); [|done]. by injection H as _ <-.
Qed.

Lemma silent_store_cell t i p : respects silent (store_cell t i p).
Proof.
  intros w r w' H. unfold store_cell in H.
  destruct (tables w !! t); [|done]. simpl in H.
  destruct (bool_decide _); [|done]. by injection H as _ <-.
Qed.

Ltac silent_prim :=
  first [ apply silent_put_hm | apply silent_store_entry
        | apply silent_store_node | apply silent_store_cell ].

Lemma silent_store_slot s q : respects silent (store_slot s q).
Proof. destruct s; simpl; resp silent_prim. Qed.

Lemma calloc_entry_event w q w' :
  calloc_entry w = Some (q, w') → trace w' = trace w ++ [Calloc Entry q].
Proof.
  intros H. unfold calloc_entry in H.
  apply bind_Some in H as (ok & w1 & Hok & H). unfold calloc_ok in Hok.
  assert (trace w1 = trace w) as <-.
  { destruct (bool_decide _); by injection Hok as _ <-. }
  destruct ok; by injection H as <- <-.
Qed.

Lemma calloc_node_event w q w' :
  calloc_node w = Some (q, w') → trace w' = trace w ++ [Calloc Node q].
Proof.
  intros H. unfold calloc_node in H.
  apply bind_Some in H as (ok & w1 & Hok & H). unfold calloc_ok in Hok.
  assert (trace w1 = trace w) as <-.
  { destruct (bool_decide _); by injection Hok as _ <-. }
  destruct ok; by injection H as <- <-.
Qed.

Lemma calloc_table_event n w q w' :
  calloc_table n w = Some (q, w') → trace w' = trace w ++ [Calloc Table q].
Proof.
  intros H. unfold calloc_table in H.
  apply bind_Some in H as (ok & w1 & Hok & H). unfold calloc_ok in Hok.
  assert (trace w1 = trace w) as <-.
  { destruct (bool_decide _); by injection Hok as _ <-. }
  destruct ok; by injection H as <- <-.
Qed.

(** [_HASHMAP_TABLE_PUT] calls the allocator at most once, for the entry it
    returns. *)
Lemma TABLE_PUT_events k v w p w' :
  _HASHMAP_TABLE_PUT k v w = Some (p, w') →
  (trace w' = trace w ∧ p = NULL) ∨ trace w' = trace w ++ [Calloc Entry p].
Proof.
  intros H. unfold _HASHMAP_TABLE_PUT in H.
  apply bind_Some in H as (s & w1 & Hfind & H).
  apply (respects_FIND_ENTRY_RECORD silent) in Hfind.
  apply bind_Some in H as (found & w2 & Hload & H).
  apply (respects_load_slot silent) in Hload.
  destruct (negb (found =? NULL)).
  - left. apply bind_Some in H as (x & w3 & Hset & H). injection H as <- <-.
    split; [|done].
    assert (respects silent (set_value found v)) as Hs
      by (unfold set_value; resp silent_prim).
    apply Hs in Hset. unfold silent in *. congruence.
  - right. apply bind_Some in H as (q & w3 & Hcalloc & H).
    apply calloc_entry_event in Hcalloc.
    assert (trace w3 = trace w ++ [Calloc Entry q]) as Ht3.
    { unfold silent in *. congruence. }
    destruct (negb (q =? NULL)) eqn:Hq.
    + apply bind_Some in H as (x1 & w4 & H1 & H).
      apply bind_Some in H as (x2 & w5 & H2 & H).
      apply bind_Some in H as (x3 & w6 & H3 & H).
      apply bind_Some in H as (x4 & w7 & H4 & H).
      apply bind_Some in H as (x5 & w8 & H5 & H).
      apply bind_Some in H as (x6 & w9 & H6 & H).
      apply bind_Some in H as (x7 & w10 & H7 & H).
      injection H as <- <-.
      assert (respects silent (set_key q k)) as S1
        by (unfold set_key; resp silent_prim).
      assert (respects silent (set_value q v)) as S2
        by (unfold set_value; resp silent_prim).
      assert (respects silent (set_next_entry q NULL)) as S3
        by (unfold set_next_entry; resp silent_prim).
      apply S1 in H1. apply S2 in H2. apply S3 in H3.
      apply (respects_call_hash_func silent) in H4.
      apply (respects_get_hm silent) in H5.
      apply (respects_load_slot silent) in H6.
      assert (silent w9 w10) as H7'.
      { revert H7. generalize w9 x7 w10.
        change (respects silent
                  (if x6 =? NULL then store_slot (Cell (_entry_table x5) x4) q
                   else fuel <- entry_fuel;;
                        _table_entry_cursor <- last_entry_loop fuel (Cell (_entry_table x5) x4);;
                        last <- load_slot _table_entry_cursor;;
                        set_next_entry last q)).
        unfold set_next_entry.
        resp ltac:(first [silent_prim|apply silent_store_slot]). }
      unfold silent in *. congruence.
    + injection H as <- <-. apply negb_false_iff, Z.eqb_eq in Hq. by subst q.
Qed.

(** [_HASHMAP_LL_PUT] calls the allocator once, for the node. *)
Lemma LL_PUT_events a w r w' :
  _HASHMAP_LL_PUT a w = Some (r, w') →
  ∃ q, trace w' = trace w ++ [Calloc Node q].
Proof.
  intros H. unfold _HASHMAP_LL_PUT in H.
  apply bind_Some in H as (q & w1 & Hcalloc & H).
  apply calloc_node_event in Hcalloc. exists q. rewrite <- Hcalloc.
  revert H. generalize w1 r w'.
  change (respects silent
            (if q =? NULL then ret (-1)
             else set_table_entry q a;;; set_ll_node a q;;;
                  _HASHMAP_LL_ADD_TAIL q;;; ret 0)).
  unfold set_table_entry, set_ll_node, _HASHMAP_LL_ADD_TAIL, _HASHMAP_LL_ADD_HEAD,
    _HASHMAP_LL_ADD_AFTER, _HASHMAP_LL_ADD_BEFORE.
  resp silent_prim.
Qed.

Lemma gain_le k ev : gain k ev ≤ 1.
Proof. destruct ev; simpl; destruct (bool_decide _); lia. Qed.

(** The insertion allocates at most one entry and one node, and frees
    nothing. *)
Lemma insert_net k v w r w' :
  table_then_ll_put k v w = Some (r, w') →
  ∃ evs, trace w' = trace w ++ evs ∧
         net Entry evs ≤ 1 ∧ net Node evs ≤ 1 ∧ net Table evs ≤ 0.
Proof.
  intros H. unfold table_then_ll_put in H.
  apply bind_Some in H as (p & w1 & Hput & H).
  apply bind_Some in H as (r2 & w2 & Hll & H).
  assert (w' = w2) as -> by (destruct (r2 =? 0); by injection H as _ <-).
  apply TABLE_PUT_events in Hput.
  assert (∃ evs1, trace w1 = trace w ++ evs1 ∧ net Entry evs1 ≤ 1 ∧
                  net Node evs1 ≤ 0 ∧ net Table evs1 ≤ 0) as (evs1 & Ht1 & ? & ? & ?).
  { destruct Hput as [[Ht _]|Ht].
    - exists []. rewrite app_nil_r. by rewrite !net_nil.
    - eexists. split; [exact Ht|]. rewrite !net_cons, !net_nil. simpl.
      destruct (bool_decide _); lia. }
  assert (∃ evs2, trace w2 = trace w1 ++ evs2 ∧ net Entry evs2 ≤ 0 ∧
                  net Node evs2 ≤ 1 ∧ net Table evs2 ≤ 0) as (evs2 & Ht2 & ? & ? & ?).
  { destruct (negb (p =? NULL)).
    - apply LL_PUT_events in Hll as (q & Ht).
      eexists. split; [exact Ht|]. rewrite !net_cons, !net_nil. simpl.
      destruct (bool_decide _); lia.
    - injection Hll as _ <-. exists []. rewrite app_nil_r. by rewrite !net_nil. }
  exists (evs1 ++ evs2). rewrite Ht2, Ht1, app_assoc, !net_app.
  split; [done|]. lia.
Qed.

(** Each round of the rehash loop that is completed allocates one entry and
    frees one; the round that fails allocates none. *)
Lemma rehash_loop_net : ∀ fuel cursor w r w',
  heap_ok w →
  rehash_loop fuel cursor w = Some (r, w') →
  ∃ evs, trace w' = trace w ++ evs ∧
         net Entry evs ≤ 0 ∧ net Node evs ≤ 0 ∧ net Table evs ≤ 0.
Proof.
  induction fuel as [|fuel IH]; intros cursor w r w' Hheap H; [done|].
  cbn [rehash_loop] in H. destruct (cursor =? NULL).
  { injection H as _ <-. exists []. rewrite app_nil_r. by rewrite !net_nil. }
  apply bind_Some in H as (n & w1 & Hn & H).
  apply (respects_load_node eq) in Hn. subst w1.
  apply bind_Some in H as (e & w1 & He & H).
  assert (_table_entry n ≠ NULL) as Hold.
  { unfold load_entry in He.
    destruct (entries w !! _table_entry n) as [e'|] eqn:Hlive; [|done].
    destruct Hheap as [_ HE _ _].
    assert (0 < _table_entry n < brk w) by (apply HE; by rewrite Hlive).
    unfold NULL. lia. }
  apply (respects_load_entry eq) in He. subst w1.
  apply bind_Some in H as (p & w1 & Hput & H).
  pose proof (accounts_TABLE_PUT _ _ _ _ _ Hput Hheap) as [Hheap1 _].
  apply TABLE_PUT_events in Hput.
  destruct (p =? NULL) eqn:Hp.
  { injection H as _ <-. apply Z.eqb_eq in Hp. subst p.
    destruct Hput as [[Ht _]|Ht].
    - exists []. rewrite app_nil_r. by rewrite !net_nil.
    - eexists. split; [exact Ht|]. by rewrite !net_cons, !net_nil. }
  apply bind_Some in H as (x1 & w2 & Hset & H).
  assert (respects silent (set_table_entry cursor p)) as S1
    by (unfold set_table_entry; resp silent_prim).
  assert (respects accounts (set_table_entry cursor p)) as A1
    by (unfold set_table_entry; resp accounts_prim).
  pose proof (A1 _ _ _ Hset Hheap1) as [Hheap2 _]. apply S1 in Hset.
  apply bind_Some in H as (x2 & w3 & Hfree & H).
  pose proof (accounts_free_entry _ _ _ _ Hfree Hheap2) as [Hheap3 _].
  assert (trace w3 = trace w2 ++ [Free Entry (_table_entry n)]) as Ht3.
  { unfold free_entry in Hfree. apply Z.eqb_neq in Hold. rewrite Hold in Hfree.
    destruct (entries w2 !! _table_entry n); [|done]. simpl in Hfree.
    by simplify_eq. }
  apply bind_Some in H as (n' & w4 & Hn' & H).
  apply (respects_load_node eq) in Hn'. subst w4.
  destruct (IH _ _ _ _ Hheap3 H) as (evs & Ht & HnE & HnN & HnT).
  assert (∃ evs1, trace w1 = trace w ++ evs1 ∧ net Entry evs1 ≤ 1 ∧
                  net Node evs1 ≤ 0 ∧ net Table evs1 ≤ 0) as (evs1 & Ht1 & ? & ? & ?).
  { destruct Hput as [[Ht' _]|Ht'].
    - exists []. rewrite app_nil_r. by rewrite !net_nil.
    - eexists. split; [exact Ht'|]. rewrite !net_cons, !net_nil. simpl.
      destruct (bool_decide _); lia. }
  exists (evs1 ++ [Free Entry (_table_entry n)] ++ evs).
  unfold silent in Hset. rewrite Ht, Ht3, Hset, Ht1, <- !app_assoc.
  split; [done|]. rewrite !net_app, !net_cons, !net_nil. simpl. lia.
Qed.

(** The growth allocates one table and frees one, and no more entries than
    it frees. *)
Lemma INCREASE_SIZE_net w L B r w' :
  Inv w L B →
  _HASHMAP_INCREASE_SIZE w = Some (r, w') →
  ∃ evs, trace w' = trace w ++ evs ∧
         net Entry evs ≤ 0 ∧ net Node evs ≤ 0 ∧ net Table evs ≤ 0.
Proof.
  intros [Hheap Htab _ _] H. unfold _HASHMAP_INCREASE_SIZE in H.
  apply bind_Some in H as (m & w0 & Hm & H). injection Hm as <- <-.
  apply bind_Some in H as (p & w1 & Hcalloc & H).
  pose proof (accounts_calloc_table _ _ _ _ Hcalloc Hheap) as [Hheap1 _].
  apply calloc_table_event in Hcalloc.
  destruct (negb (p =? NULL)) eqn:Hp.
  2:{ injection H as _ <-. apply negb_false_iff, Z.eqb_eq in Hp. subst p.
      eexists. split; [exact Hcalloc|]. by rewrite !net_cons, !net_nil. }
  apply bind_Some in H as (x1 & w2 & Hput & H). injection Hput as _ <-.
  apply bind_Some in H as (r1 & w3 & Hrehash & H).
  apply bind_Some in H as (x2 & w4 & Hfree & H). injection H as _ <-.
  unfold _HASHMAP_REHASH_TABLE in Hrehash.
  apply bind_Some in Hrehash as (m & w0 & Hm & Hrehash). injection Hm as <- <-.
  apply bind_Some in Hrehash as (fuel & w0 & Hf & Hrehash). injection Hf as <- <-.
  apply rehash_loop_net in Hrehash as (evs & Ht & HnE & HnN & HnT).
  2:{ destruct Hheap1 as [? ? ? ?]. by split. }
  assert (trace w4 = trace w3 ++ [Free Table (_entry_table (hm w))]) as Ht4.
  { destruct Htab as [_ _ (cells & Hcells & _) _ _ _ _]. destruct Hheap as [_ _ _ HT].
    assert (0 < _entry_table (hm w) < brk w) by (apply HT; by exists cells).
    unfold free_table in Hfree.
    assert ((_entry_table (hm w) =? NULL) = false) as Hz
      by (apply Z.eqb_neq; unfold NULL; lia).
    rewrite Hz in Hfree.
    destruct (tables w3 !! _entry_table (hm w)); [|done]. simpl in Hfree.
    by simplify_eq. }
  exists ([Calloc Table p] ++ evs ++ [Free Table (_entry_table (hm w))]).
  revert Ht. wsimpl. intros Ht. rewrite Ht4, Ht, Hcalloc, <- !app_assoc.
  split; [done|]. rewrite !net_app, !net_cons, !net_nil. simpl.
  destruct (bool_decide _); lia.
Qed.

(** *** Nothing but the map is allocated *)

Lemma Inv_live w L B :
  Inv w L B →
  Z.of_nat (length L) ≤ live Entry w ∧
  Z.of_nat (length L) ≤ live Node w ∧
  1 ≤ live Table w.
Proof.
  intros [Hheap Htab Hlist Hnum]. split_and!.
  - destruct Hlist as [_ _ _ Hh Hi]. unfold live.
    replace (length L) with (length L.*2.*1) by (by rewrite !length_fmap).
    apply inj_le, live_length; [done|].
    intros a Ha. apply list_elem_of_fmap in Ha as (c & -> & Hc).
    rewrite Forall_forall in Hh. destruct (Hh c Hc) as (e & He & _). by exists e.
  - unfold live. apply inj_le. by eapply list_ok_length.
  - destruct Htab as [_ _ (cells & Hcells & _) _ _ _ _]. unfold live.
    assert (length [_entry_table (hm w)] ≤ size (tables w))%nat as Hle.
    { apply live_length; [apply NoDup_singleton|].
      intros a Ha. apply list_elem_of_singleton in Ha as ->. by exists cells. }
    simpl in Hle. lia.
Qed.

Lemma tight_set_hm m w L : tight w L → tight (set_hm m w) L.
Proof. done. Qed.

Lemma abs_put_length k v al :
  length (abs_put k v al)
  = if decide (k ∈ key <$> al) then length al else S (length al).
Proof.
  unfold abs_put. destruct (decide _).
  - by rewrite length_fmap.
  - rewrite length_app. simpl. lia.
Qed.

(** The insertion keeps the heap tight when no allocation fails. *)
Lemma insert_tight w w' L L' B B' k v r evs :
  Inv w L B → Sync L B → tight w L →
  table_then_ll_put k v w = Some (r, w') →
  insert_post w w' L L' B B' k v r evs →
  no_failure evs = true →
  tight w' L'.
Proof.
  intros HInv Hsync (HtE & HtN & HtT) Hrun Hpost Hclean.
  destruct Hpost as [Iinv Itrace _ _ _ Ipresent Isync].
  destruct (Isync Hsync Hclean) as (_ & Hsync' & Habs).
  assert (length L' = length (abs_put k v L.*2.*2)) as Hlen.
  { by rewrite <- Habs, !length_fmap. }
  rewrite abs_put_length, !length_fmap in Hlen.
  pose proof HInv as [Hheap _ _ _].
  destruct (accounts_insert _ _ _ _ _ Hrun Hheap) as (_ & evs0 & Ht0 & Hlive).
  assert (evs0 = evs) as -> by (rewrite Itrace in Ht0; by apply app_inv_head in Ht0).
  destruct (Inv_live _ _ _ Iinv) as (HlE & HlN & HlT).
  destruct (decide (k ∈ key <$> L.*2.*2)) as [Hin|Hnotin].
  - destruct Ipresent as (-> & _).
    { by rewrite <- (Sync_keys _ _ Hsync). }
    unfold tight. rewrite !Hlive, !net_nil, Hlen. lia.
  - destruct (insert_net _ _ _ _ _ Hrun) as (evs1 & Ht1 & HnE & HnN & HnT).
    assert (evs1 = evs) as -> by (rewrite Itrace in Ht1; by apply app_inv_head in Ht1).
    unfold tight. rewrite !Hlive in *. rewrite Hlen in *. lia.
Qed.

(** [HASHMAP_PUT] keeps the heap tight when no allocation fails. *)
Lemma PUT_tight w L B k v :
  Inv w L B → Sync L B → tight w L →
  ∃ r w' L' B' evs,
    HASHMAP_PUT k v w = Some (r, w') ∧ trace w' = trace w ++ evs ∧
    Inv w' L' B' ∧
    (no_failure evs = true →
     Sync L' B' ∧ tight w' L' ∧ L'.*2.*2 = abs_put k v L.*2.*2).
Proof.
  intros HInv Hsync Htight. unfold HASHMAP_PUT. mrun (run_get_hm _).
  destruct (double_ge (load_factor (hm w)) _LOAD_FACTOR_LIM) eqn:Hload.
  - destruct (INCREASE_SIZE_spec w L B HInv)
      as (r1 & w1 & L1 & B1 & evs1 & Hrun1 & Hpost1).
    pose proof Hpost1 as [Ginv Gtrace Gnum Gnodes Gstatus Gshape Gdone Gclean].
    mrun Hrun1.
    assert (no_failure evs1 = true →
            r1 = 0 ∧ Sync L1 B1 ∧ L1.*2.*2 = L.*2.*2 ∧ tight w1 L1) as Hg.
    { intros Hc1. pose proof (Gclean Hsync Hc1) as Hr1.
      destruct (Gdone Hr1) as [Hvals1 Hsync1]. split_and!; try done.
      destruct (INCREASE_SIZE_net _ _ _ _ _ HInv Hrun1) as (evs0 & Ht0 & HnE & HnN & HnT).
      pose proof HInv as [Hheap _ _ _].
      destruct (accounts_INCREASE_SIZE _ _ _ Hrun1 Hheap) as (_ & evs0' & Ht0' & Hlive).
      assert (evs0' = evs0) as ->
        by (rewrite Ht0 in Ht0'; by apply app_inv_head in Ht0').
      destruct (Inv_live _ _ _ Ginv) as (HlE & HlN & HlT).
      assert (length L1 = length L) as Hlen.
      { by rewrite <- (length_fmap fst L1), Gnodes, length_fmap. }
      destruct Htight as (HtE & HtN & HtT).
      unfold tight. rewrite !Hlive in *. rewrite Hlen in *. lia. }
    destruct Gstatus as [-> | ->].
    + destruct (insert_spec w1 L1 B1 k v Ginv)
        as (r2 & w2 & L2 & B2 & evs2 & Hrun2 & Hpost2).
      cbn [Z.eqb]. mrun Hrun2. mrun (run_get_hm _). mrun (run_put_hm _ _).
      pose proof Hpost2 as [Iinv Itrace _ _ _ _ Isync].
      eexists r2, _, L2, B2, (evs1 ++ evs2). split; [reflexivity|].
      split; [wsimpl; by rewrite Itrace, Gtrace, app_assoc|].
      split; [apply Inv_set_num; [done|apply to_size_t_range]|].
      intros Hclean. rewrite no_failure_app in Hclean.
      apply andb_true_iff in Hclean as [Hc1 Hc2].
      destruct (Hg Hc1) as (_ & Hsync1 & Hvals1 & Htight1).
      destruct (Isync Hsync1 Hc2) as (_ & Hsync2 & Habs2).
      split; [done|]. split; [|by rewrite Habs2, Hvals1]. apply tight_set_hm.
      by apply (insert_tight w1 w2 L1 L2 B1 B2 k v r2 evs2).
    + cbn [Z.eqb]. mrun (run_ret _ _). mrun (run_get_hm _). mrun (run_put_hm _ _).
      eexists (-1), _, L1, B1, evs1. split; [reflexivity|].
      split; [done|]. split; [apply Inv_set_num; [done|apply to_size_t_range]|].
      intros Hc1. by destruct (Hg Hc1) as (? & _).
  - destruct (insert_spec w L B k v HInv)
      as (r2 & w2 & L2 & B2 & evs2 & Hrun2 & Hpost2).
    mrun Hrun2. mrun (run_get_hm _). mrun (run_put_hm _ _).
    pose proof Hpost2 as [Iinv Itrace _ _ _ _ Isync].
    eexists r2, _, L2, B2, evs2. split; [reflexivity|].
    split; [done|]. split; [apply Inv_set_num; [done|apply to_size_t_range]|].
    intros Hc2. destruct (Isync Hsync Hc2) as (_ & Hsync2 & Habs2).
    split; [done|]. split; [|done]. apply tight_set_hm.
    by apply (insert_tight w w2 L L2 B B2 k v r2 evs2).
Qed.

Lemma puts_tight kvs : ∀ w L B rs w',
  Inv w L B → Sync L B → tight w L →
  puts kvs w = Some (rs, w') →
  ∃ L' B' evs, trace w' = trace w ++ evs ∧ Inv w' L' B' ∧
               (no_failure evs = true →
                Sync L' B' ∧ tight w' L' ∧ L'.*2.*2 = abs_puts kvs L.*2.*2).
Proof.
  induction kvs as [|[k v] kvs IH]; intros w L B rs w' HInv Hsync Htight Hrun.
  - cbn [puts] in Hrun. injection Hrun as <- <-. exists L, B, [].
    split; [by rewrite app_nil_r|]. done.
  - cbn [puts] in Hrun.
    apply bind_Some in Hrun as (r & w1 & Hput & Hrun).
    apply bind_Some in Hrun as (rs' & w2 & Hputs & Hret).
    injection Hret as <- <-.
    destruct (PUT_tight w L B k v HInv Hsync Htight)
      as (r1 & w1' & L1 & B1 & evs1 & Hrun1 & Ht1 & HInv1 & Hs1).
    rewrite Hput in Hrun1. injection Hrun1 as <- <-.
    destruct (decide (no_failure evs1 = true)) as [Hc1|Hc1].
    + destruct (Hs1 Hc1) as (Hsync1 & Htight1 & Habs1).
      destruct (IH w1 L1 B1 rs' w2 HInv1 Hsync1 Htight1 Hputs)
        as (L2 & B2 & evs2 & Ht2 & HInv2 & Hs2).
      exists L2, B2, (evs1 ++ evs2).
      split; [by rewrite Ht2, Ht1, app_assoc|]. split; [done|].
      intros Hclean. rewrite no_failure_app in Hclean.
      apply andb_true_iff in Hclean as [_ Hc2].
      destruct (Hs2 Hc2) as (? & ? & Habs2). split_and!; try done.
      by rewrite Habs2, Habs1.
    + destruct (puts_spec kvs w1 L1 B1 HInv1)
        as (rs2 & w2' & L2 & B2 & evs2 & Hrun2 & HInv2 & Ht2 & _).
      rewrite Hputs in Hrun2. injection Hrun2 as <- <-.
      exists L2, B2, (evs1 ++ evs2).
      split; [by rewrite Ht2, Ht1, app_assoc|]. split; [done|].
      intros Hclean. rewrite no_failure_app in Hclean.
      apply andb_true_iff in Hclean as [Hc _]. done.
Qed.

(** A run without a failed allocation holds nothing but the map. *)
Lemma reachable_tight o kvs w0 rs w :
  HASHMAP_INIT IntegerKey (blank o) = Some (0, w0) →
  puts kvs w0 = Some (rs, w) →
  no_failure (trace w) = true →
  ∃ L B, Inv w L B ∧ Sync L B ∧ tight w L ∧ L.*2.*2 = abs_puts kvs [].
Proof.
  intros Hinit Hputs Hclean.
  destruct (INIT_spec _ _ _ Hinit) as (HInv0 & Hsync0 & Htrace0 & _).
  assert (tight w0 []) as Htight0.
  { assert (heap_ok (blank o)) as Hheap.
    { split; simpl; try done; intros a [x Ha]; by rewrite lookup_empty in Ha. }
    destruct (accounts_INIT _ _ _ _ Hinit Hheap) as (_ & evs & Ht & Hlive).
    simpl in Ht. rewrite Htrace0 in Ht. subst evs.
    unfold tight. rewrite !Hlive. done. }
  destruct (puts_tight kvs w0 _ _ rs w HInv0 Hsync0 Htight0 Hputs)
    as (L & B & evs & Ht & HInv & Hs).
  exists L, B. split; [done|]. apply Hs.
  rewrite Ht, no_failure_app in Hclean. by apply andb_true_iff in Hclean as [_ ?].
Qed.

(** X12. After puts during which no allocation failed, [HASHMAP_FREE] leaves no
    entry, no list node and no table allocated: the map leaks nothing, through
    any number of growths. *)
Theorem free_leaves_nothing_allocated o kvs w0 rs w :
  HASHMAP_INIT IntegerKey (blank o) = Some (0, w0) →
  puts kvs w0 = Some (rs, w) →
  no_failure (trace w) = true →
  ∃ w', HASHMAP_FREE w = Some (tt, w') ∧
        entries w' = ∅ ∧ nodes w' = ∅ ∧ tables w' = ∅.
Proof.
  intros Hinit Hputs Hclean.
  destruct (reachable_tight o kvs w0 rs w Hinit Hputs Hclean)
    as (L & B & HInv & Hsync & (HtE & HtN & HtT) & _).
  pose proof (FREE_spec w L B HInv) as Hfree.
  eexists. split; [exact Hfree|].
  pose proof HInv as [Hheap _ _ _].
  destruct (accounts_FREE _ _ _ Hfree Hheap) as (_ & evs & Ht & Hlive).
  destruct (released_fields L.*2.*1 L.*1 w) as (_ & _ & _ & Rtr & _).
  rewrite Rtr in Ht. apply app_inv_head in Ht. subst evs.
  assert (∀ k (l : list Z), net k (Free k <$> l) = - Z.of_nat (length l)) as Hsame.
  { intros k l. induction l as [|x l IH]; [done|].
    rewrite fmap_cons, net_cons, IH. simpl.
    rewrite bool_decide_eq_true_2 by done. lia. }
  assert (∀ k k' (l : list Z), k' ≠ k → net k (Free k' <$> l) = 0) as Hother.
  { intros k k' l Hne. induction l as [|x l IH]; [done|].
    rewrite fmap_cons, net_cons, IH. simpl.
    rewrite bool_decide_eq_false_2 by done. lia. }
  pose proof (Hlive Entry) as HE. pose proof (Hlive Node) as HN.
  pose proof (Hlive Table) as HT.
  rewrite !net_app, !net_cons, !net_nil in HE, HN, HT.
  rewrite Hsame in HE. rewrite Hsame in HN.
  rewrite !Hother in HE by done. rewrite !Hother in HN by done.
  rewrite !Hother in HT by done.
  rewrite !length_fmap in HE. rewrite !length_fmap in HN. simpl in HE, HN, HT.
  unfold live in *.
  split_and!; apply map_size_empty_inv; lia.
Qed.

Lemma last_put_None k kvs : k ∉ kvs.*1 → last_put k kvs = None.
Proof.
  induction kvs as [|[k' v'] kvs IH]; intros Hk; [done|].
  rewrite fmap_cons in Hk. apply not_elem_of_cons in Hk as [Hne Hk].
  cbn [last_put]. rewrite (IH Hk). simpl in Hne.
  assert (k' ≠ k) as Hne' by congruence. apply Z.eqb_neq in Hne'. by rewrite Hne'.
Qed.

(** X13. When a put of a new key, with no growth and on a map on which no
    allocation has failed, finds memory for the table entry and none for the
    list node, it returns -1 and leaks the entry: a later [HASHMAP_FREE] does
    not [free] it, and it is the one object left allocated. *)
Theorem failed_node_allocation_leaks_the_entry o kvs w0 rs w k v :
  HASHMAP_INIT IntegerKey (blank o) = Some (0, w0) →
  puts kvs w0 = Some (rs, w) →
  no_failure (trace w) = true →
  k ∉ kvs.*1 →
  double_ge (load_factor (hm w)) _LOAD_FACTOR_LIM = false →
  hd true (oracle w) = true →
  hd true (tl (oracle w)) = false →
  ∃ w' w'' e,
    HASHMAP_PUT k v w = Some (-1, w') ∧
    HASHMAP_FREE w' = Some (tt, w'') ∧
    entries w'' !! brk w = Some e ∧ _entry e = {| key := k; value := v |} ∧
    size (entries w'') = 1%nat ∧ nodes w'' = ∅ ∧ tables w'' = ∅.
Proof.
  intros Hinit Hputs Hclean Hk Hload Ho1 Ho2.
  destruct (reachable_tight o kvs w0 rs w Hinit Hputs Hclean)
    as (L & B & HInv & Hsync & (HtE & HtN & HtT) & Habs).
  assert (k ∉ key <$> (concat B).*2) as HkB.
  { rewrite <- (Sync_keys _ _ Hsync), Habs.
    apply lookup_key_None. by rewrite lookup_key_abs_puts, last_put_None. }
  pose proof HInv as [Hheap Htab Hlist Hnum].
  destruct (table_bucket w B k Htab) as (i & _ & _ & _ & Hh & _).
  destruct (TABLE_PUT_new w B k v i Hheap Htab Hh HkB Ho1)
    as (w1 & Hrun1 & Hhm1 & Hn1 & Hbrk1 & Hor1 & Htr1 & Htb1 & Hkv1 & Hnew1 &
        Hheap1 & Htab1).
  set (B1 := alter (λ b, b ++ [(brk w, {| key := k; value := v |})]) i B) in *.
  assert (brk w ≠ NULL) as Hnz.
  { destruct Hheap as [Hb _ _ _]. unfold NULL. lia. }
  assert (Inv w1 L B1) as HInv1.
  { split; [done|done| |by rewrite Hhm1].
    apply (list_ok_transfer w); rewrite ?Hhm1; try done.
    intros a Ha. apply Hkv1. intros ->.
    destruct Hlist as [_ _ _ Hh' _].
    apply list_elem_of_fmap in Ha as (c & Hc1 & Hc).
    rewrite Forall_forall in Hh'. destruct (Hh' c Hc) as (e & He & _).
    rewrite <- Hc1 in He.
    destruct Hheap as [_ HE _ _].
    assert (0 < brk w < brk w) by (apply HE; by exists e). lia. }
  rewrite <- Hor1 in Ho2.
  pose proof (LL_PUT_fail w1 (brk w) Ho2) as Hrun2.
  set (w2 := log (Calloc Node NULL) (set_oracle (tl (oracle w1)) w1)) in *.
  assert (Inv w2 L B1) as HInv2 by (by apply (Inv_same_heap w1)).
  set (w' := set_hm (with_num_entries (to_size_t (_num_entries (hm w2) + 1)) (hm w2)) w2).
  assert (Inv w' L B1) as HInv'
    by (apply Inv_set_num; [done|apply to_size_t_range]).
  pose proof (FREE_spec w' L B1 HInv') as Hfree.
  exists w', (released L.*2.*1 L.*1 w'), (new_entry k v).
  split.
  { unfold HASHMAP_PUT. mrun (run_get_hm _). rewrite Hload.
    unfold table_then_ll_put. mrun Hrun1.
    pose proof Hnz as Hnz'. apply Z.eqb_neq in Hnz'. rewrite Hnz'. cbn [negb].
    mrun Hrun2. cbn [Z.eqb]. mrun (run_ret _ _). mrun (run_get_hm _).
    mrun (run_put_hm _ _). done. }
  split; [done|].
  destruct (released_fields L.*2.*1 L.*1 w') as (_ & _ & _ & Rtr & Re & _).
  split.
  { rewrite Re. rewrite decide_False; [done|].
    intros Ha. destruct Hlist as [_ _ _ Hh' _].
    apply list_elem_of_fmap in Ha as (c & Hc1 & Hc).
    rewrite Forall_forall in Hh'. destruct (Hh' c Hc) as (e & He & _).
    rewrite <- Hc1 in He. destruct Hheap as [_ HE _ _].
    assert (0 < brk w < brk w) by (apply HE; by exists e). lia. }
  split; [done|].
  pose proof HInv' as [Hheap' _ _ _].
  destruct (accounts_FREE _ _ _ Hfree Hheap') as (_ & evs & Ht & Hlive).
  rewrite Rtr in Ht. apply app_inv_head in Ht. subst evs.
  assert (∀ k (l : list Z), net k (Free k <$> l) = - Z.of_nat (length l)) as Hsame.
  { intros k0 l. induction l as [|x l IH]; [done|].
    rewrite fmap_cons, net_cons, IH. simpl.
    rewrite bool_decide_eq_true_2 by done. lia. }
  assert (∀ k k' (l : list Z), k' ≠ k → net k (Free k' <$> l) = 0) as Hother.
  { intros k0 k' l Hne. induction l as [|x l IH]; [done|].
    rewrite fmap_cons, net_cons, IH. simpl.
    rewrite bool_decide_eq_false_2 by done. lia. }
  pose proof (Hlive Entry) as HE. pose proof (Hlive Node) as HN.
  pose proof (Hlive Table) as HT.
  rewrite !net_app, !net_cons, !net_nil in HE, HN, HT.
  rewrite Hsame in HE. rewrite Hsame in HN.
  rewrite !Hother in HE by done. rewrite !Hother in HN by done.
  rewrite !Hother in HT by done.
  rewrite !length_fmap in HE. rewrite !length_fmap in HN. simpl in HE, HN, HT.
  (* the numbers of live objects before the free *)
  destruct (accounts_TABLE_PUT _ _ _ _ _ Hrun1 Hheap) as (_ & evs1 & Ht1 & Hlive1).
  rewrite Htr1 in Ht1. apply app_inv_head in Ht1. subst evs1.
  pose proof (Hlive1 Entry) as HE1. pose proof (Hlive1 Node) as HN1.
  pose proof (Hlive1 Table) as HT1.
  rewrite !net_cons, !net_nil in HE1, HN1, HT1. simpl in HE1, HN1, HT1.
  rewrite bool_decide_eq_true_2 in HE1 by done.
  unfold live in *.
  split_and!; [lia|apply map_size_empty_inv; lia|apply map_size_empty_inv; lia].
Qed.

(** ** [HASHMAP_INIT] on any struct, and [_hash_ptr] *)

(** X14. [HASHMAP_INIT] returns on every struct: it sets the size to 15, the
    counter to 0 and the list to empty, frees nothing of what the struct held,
    and either returns 0 with a new table of 15 empty buckets, on which every
    get returns false, or returns -1 with a NULL table pointer. *)
Theorem init_resets_the_struct kt w :
  heap_ok w →
  ∃ r w',
    HASHMAP_INIT kt w = Some (r, w') ∧
    _table_size (hm w') = 15 ∧ _num_entries (hm w') = 0 ∧
    _head (hm w') = NULL ∧ _tail (hm w') = NULL ∧
    entries w' = entries w ∧ nodes w' = nodes w ∧
    ((r = 0 ∧ _entry_table (hm w') = brk w ∧ brk w ≠ NULL ∧
      trace w' = trace w ++ [Calloc Table (brk w)] ∧
      tables w' = <[brk w := replicate 15 NULL]> (tables w) ∧
      ll_traverse w' = Some [] ∧
      table_traverse w' = Some (replicate 15 []) ∧
      ∀ k result, HASHMAP_GET result k w' = Some ((false, result), w'))
     ∨
     (r = -1 ∧ _entry_table (hm w') = NULL ∧
      trace w' = trace w ++ [Calloc Table NULL] ∧
      tables w' = tables w)).
Proof.
  intros [Hbrk HE HN HT].
  unfold HASHMAP_INIT. mrun (run_get_hm _). mrun (run_put_hm _ _).
  destruct (hd true (oracle w)) eqn:Ho.
  2:{ mrun by (apply run_calloc_table_fail; [vm_compute; congruence|exact Ho]).
      mrun (run_get_hm _). mrun (run_put_hm _ _). cbn [NULL Z.eqb].
      eexists _, _. split; [reflexivity|]. split_and!; try done. by right. }
  mrun by (apply run_calloc_table_ok; [vm_compute; congruence|exact Ho]).
  mrun (run_get_hm _). mrun (run_put_hm _ _). wsimpl.
  assert (brk w ≠ NULL) as Hnz by (unfold NULL; lia).
  pose proof Hnz as Hnz'. apply Z.eqb_neq in Hnz'. rewrite Hnz'.
  eexists _, _. split; [reflexivity|]. split_and!; try done. left.
  match goal with |- context [HASHMAP_GET _ _ ?w1] => set (w' := w1) end.
  assert (table_ok w' (replicate 15 [])) as Htab.
  { apply (table_ok_fresh _ 15); unfold w'; wsimpl; hsimpl; try done.
    - destruct kt; [apply hash_long_long_ok|apply hash_double_ok|apply hash_ptr_ok].
    - apply lookup_insert_eq. }
  split_and!; try done.
  - by rewrite (table_traverse_spec w' _ Htab), fmap_replicate.
  - intros k result. rewrite (GET_table w' _ k result Htab).
    by rewrite (concat_replicate_nil 15).
Qed.

Lemma divide_mod d a m : m ≠ 0 → (d | a) → (d | m) → (d | a mod m).
Proof.
  intros Hm Ha Hd. rewrite Z.mod_eq by done.
  apply Z.divide_sub_r; [done|]. by apply Z.divide_mul_l.
Qed.

(** X15. For a table size below 2^63, [_hash_ptr] returns an index inside the
    table; the index is even for every pointer when the table size is even,
    and for a pointer below 2^64 / 6 it is a multiple of every common divisor
    of 6 and the table size, so that pointer keys use one bucket in three of
    15 and one in six of 30. *)
Theorem hash_ptr_reaches_a_fraction_of_the_buckets table_size p :
  0 < table_size < 2 ^ 63 →
  ∃ i, _hash_ptr table_size p = Some i ∧ 0 ≤ i < table_size ∧
       ((2 | table_size) → (2 | i)) ∧
       (∀ d, (d | 6) → (d | table_size) → 0 ≤ p → p * 6 < 2 ^ 64 → (d | i)).
Proof.
  intros Hts. unfold _hash_ptr.
  assert (to_size_t (table_size * 2) = table_size * 2) as ->.
  { unfold to_size_t. apply Z.mod_small. lia. }
  assert (table_size * 2 ≠ 0) as Hne2 by lia.
  pose proof Hne2 as Hne2'. apply Z.eqb_neq in Hne2'. rewrite Hne2'.
  assert (table_size ≠ 0) as Hne by lia.
  pose proof Hne as Hne'. apply Z.eqb_neq in Hne'. rewrite Hne'.
  eexists. split; [done|]. split; [apply Z.mod_pos_bound; lia|]. split.
  - intros H2. apply divide_mod; [done| |done].
    apply divide_mod; [done| |by apply Z.divide_mul_r].
    unfold to_size_t. apply divide_mod; [done| |by exists (2 ^ 63)].
    apply Z.divide_mul_r. by exists 3.
  - intros d Hd6 Hdts Hp Hp6. apply divide_mod; [done| |done].
    apply divide_mod; [done| |by apply Z.divide_mul_l].
    unfold to_size_t. rewrite (Z.mod_small p) by lia.
    rewrite Z.mod_small by lia. by apply Z.divide_mul_r.
Qed.

(** ** The list macros on a doubly linked list *)

Lemma default_last_cons {A} (d x : A) l : default d (last (x :: l)) = default x (last l).
Proof.
  revert d x. induction l as [|y l IH]; intros d x; [done|].
  change (last (x :: y :: l)) with (last (y :: l)). by rewrite !IH.
Qed.

Lemma dlseg_app N prev p l1 l2 q :
  dlseg N prev p (l1 ++ l2) q ↔
  ∃ m, dlseg N prev p l1 m ∧ dlseg N (default prev (last l1)) m l2 q.
Proof.
  revert prev p. induction l1 as [|n l1 IH]; intros prev p.
  - simpl. split.
    + intros H. by exists p.
    + by intros (m & -> & H).
  - rewrite <- app_comm_cons. cbn [dlseg]. rewrite default_last_cons. split.
    + intros (-> & Hnz & nd & Hn & Hprev & H).
      apply IH in H as (m & H1 & H2). exists m. split; [|done].
      split; [done|]. split; [done|]. by exists nd.
    + intros (m & (-> & Hnz & nd & Hn & Hprev & H1) & H2).
      split; [done|]. split; [done|]. exists nd. split; [done|]. split; [done|].
      apply IH. by exists m.
Qed.

Lemma dlseg_frame N N' prev p l q :
  (∀ n, n ∈ l → N' !! n = N !! n) → dlseg N prev p l q → dlseg N' prev p l q.
Proof.
  revert prev p. induction l as [|n l IH]; intros prev p Hs; [done|].
  cbn [dlseg]. intros (-> & Hnz & nd & Hn & Hprev & H).
  split; [done|]. split; [done|]. exists nd.
  split; [rewrite Hs; [done|left]|]. split; [done|].
  apply IH; [|done]. intros m Hm. apply Hs. by right.
Qed.

Lemma dlseg_live N prev p l q n : dlseg N prev p l q → n ∈ l → is_Some (N !! n).
Proof.
  revert prev p. induction l as [|m l IH]; intros prev p.
  - intros _ Hn. by apply elem_of_nil in Hn.
  - cbn [dlseg]. intros (-> & Hnz & nd & Hm & Hprev & H) Hn.
    apply elem_of_cons in Hn as [->|Hn]; [by exists nd|]. by eapply IH.
Qed.

Lemma dlseg_nonnull N prev p l q : dlseg N prev p l q → NULL ∉ l.
Proof.
  revert prev p. induction l as [|m l IH]; intros prev p.
  - intros _. apply not_elem_of_nil.
  - cbn [dlseg]. intros (-> & Hnz & nd & Hm & Hprev & H).
    apply not_elem_of_cons. split; [done|]. by eapply IH.
Qed.

Lemma dlseg_head N prev p l q : dlseg N prev p l q → p = default q (head l).
Proof. destruct l as [|n l]; [done|]. cbn [dlseg]. by intros (-> & _). Qed.

(** The node in the middle of a list, with the segments on its sides. *)
Lemma dlseg_middle N prev p l1 n l2 q :
  dlseg N prev p (l1 ++ n :: l2) q ↔
  dlseg N prev p l1 n ∧ n ≠ NULL ∧
  ∃ nd, N !! n = Some nd ∧ _previous nd = default prev (last l1) ∧
        dlseg N n (_next nd) l2 q.
Proof.
  rewrite dlseg_app. cbn [dlseg]. split.
  - intros (m & H1 & -> & H). done.
  - intros (H1 & H). exists n. done.
Qed.

Lemma NoDup_middle {A} (l1 : list A) x l2 :
  NoDup (l1 ++ x :: l2) ↔ NoDup (l1 ++ l2) ∧ (x ∉ l1) ∧ (x ∉ l2).
Proof.
  rewrite <- (Permutation_middle l1 l2 x).
  rewrite NoDup_cons, not_elem_of_app. tauto.
Qed.

Ltac look :=
  repeat first [ rewrite lookup_insert_eq
               | rewrite lookup_insert_ne by congruence
               | rewrite lookup_delete_eq
               | rewrite lookup_delete_ne by congruence ].

Lemma NoDup_insert_after {A} (l1 : list A) y x l2 :
  NoDup (l1 ++ y :: l2) → x ∉ l1 ++ y :: l2 → NoDup (l1 ++ y :: x :: l2).
Proof.
  intros Hnd Hx.
  replace (l1 ++ y :: x :: l2) with ((l1 ++ [y]) ++ x :: l2)
    by (by rewrite <- app_assoc).
  apply NoDup_middle. rewrite <- app_assoc. simpl. split; [done|].
  rewrite not_elem_of_app, not_elem_of_cons in Hx.
  rewrite not_elem_of_app, not_elem_of_cons. split; [|tauto].
  split; [tauto|]. split; [tauto|apply not_elem_of_nil].
Qed.

Lemma dlist_intro w l :
  dlseg (nodes w) NULL (_head (hm w)) l NULL →
  _tail (hm w) = default NULL (last l) →
  NoDup l →
  dlist w l.
Proof. done. Qed.

Lemma list_frame_intro w w' :
  entries w' = entries w → tables w' = tables w →
  brk w' = brk w → oracle w' = oracle w →
  same_table_fields (hm w) (hm w') →
  (∀ n, _table_entry <$> nodes w' !! n = _table_entry <$> nodes w !! n) →
  list_frame w w'.
Proof. done. Qed.

(** [_HASHMAP_LL_ADD_AFTER] links the new node behind [node]. *)
Lemma LL_ADD_AFTER_spec w l1 node l2 new nd :
  dlist w (l1 ++ node :: l2) →
  nodes w !! new = Some nd → new ∉ l1 ++ node :: l2 → new ≠ NULL →
  ∃ w', _HASHMAP_LL_ADD_AFTER node new w = Some (tt, w') ∧
        dlist w' (l1 ++ node :: new :: l2) ∧
        list_frame w w' ∧ trace w' = trace w.
Proof.
  intros (Hseg & Htail & Hnd) Hnew Hnotin Hnz.
  pose proof (NoDup_insert_after _ _ _ _ Hnd Hnotin) as Hnd'.
  apply dlseg_middle in Hseg as (H1 & Hnodez & n & Hn & Hprev & H2).
  apply NoDup_middle in Hnd as (Hnd & Hn1 & Hn2).
  apply not_elem_of_app in Hnotin as [Hnew1 Hnew2].
  apply not_elem_of_cons in Hnew2 as [Hne Hnew2].
  unfold _HASHMAP_LL_ADD_AFTER.
  mrun (run_set_previous _ _ _ node Hnew).
  mrun by (apply run_load_node; wsimpl; look; exact Hn).
  destruct l2 as [|y l2].
  - cbn [dlseg] in H2. rewrite H2. cbn [NULL Z.eqb].
    mrun by (apply run_set_next; wsimpl; look; reflexivity).
    mrun (run_set_tail _ _).
    eexists. split; [apply run_set_next; wsimpl; look; exact Hn|].
    wsimpl. split; [|split].
    + apply dlist_intro; wsimpl; hsimpl.
      * apply dlseg_middle. split; [|split; [done|]].
        { apply dlseg_frame with (nodes w); [|done].
          intros x Hx. assert (x ≠ new) by (by intros ->).
          assert (x ≠ node) by (by intros ->). by look. }
        eexists. look. split; [reflexivity|]. split; [done|]. cbn [dlseg _next with_next].
        split; [done|]. split; [done|]. eexists. look. done.
      * by rewrite last_app.
      * done.
    + apply list_frame_intro; wsimpl; try done.
      intros x. destruct (decide (x = node)) as [->|?]; look; [by rewrite Hn|].
      destruct (decide (x = new)) as [->|?]; look; [by rewrite Hnew|done].
    + done.
  - cbn [dlseg] in H2. destruct H2 as (Hy & Hyz & ny & Hny & Hyprev & H2).
    apply not_elem_of_cons in Hn2 as [Hney Hn2].
    apply not_elem_of_cons in Hnew2 as [Hnewy Hnew2].
    rewrite Hy. pose proof Hyz as Hyz'. apply Z.eqb_neq in Hyz'. rewrite Hyz'.
    mrun by (apply run_set_next; wsimpl; look; reflexivity).
    mrun by (apply run_set_previous; wsimpl; look; exact Hny).
    eexists. split; [apply run_set_next; wsimpl; look; exact Hn|]. wsimpl.
    assert (NoDup (y :: l2)) as Hndy by (by apply NoDup_app in Hnd as (_ & _ & ?)).
    apply NoDup_cons in Hndy as [Hyl2 Hndl2].
    split; [|split].
    + apply dlist_intro; wsimpl; hsimpl.
      * apply dlseg_middle. split; [|split; [done|]].
        { apply dlseg_frame with (nodes w); [|done].
          intros x Hx. assert (x ≠ new) by (by intros ->).
          assert (x ≠ node) by (by intros ->).
          assert (x ≠ y).
          { intros ->. apply NoDup_app in Hnd as (_ & Hdis & _).
            apply (Hdis y Hx). left. }
          by look. }
        eexists. look. split; [reflexivity|]. split; [done|].
        cbn [dlseg _next with_next].
        split; [done|]. split; [done|]. eexists. look. split; [reflexivity|].
        split; [done|]. cbn [_next with_next with_previous].
        split; [done|]. split; [done|]. eexists. look. split; [reflexivity|].
        split; [done|]. cbn [_next with_previous].
        apply dlseg_frame with (nodes w); [|done].
        intros x Hx. assert (x ≠ new) by (by intros ->).
        assert (x ≠ node) by (by intros ->).
        assert (x ≠ y) by (by intros ->). by look.
      * rewrite Htail. rewrite !last_app. done.
      * done.
    + apply list_frame_intro; wsimpl; try done.
      intros x. destruct (decide (x = node)) as [->|?]; look; [by rewrite Hn|].
      destruct (decide (x = y)) as [->|?]; look; [by rewrite Hny|].
      destruct (decide (x = new)) as [->|?]; look; [by rewrite Hnew|done].
    + done.
Qed.

Lemma last_app_cons {A} (l1 : list A) x l2 : last (l1 ++ x :: l2) = last (x :: l2).
Proof.
  rewrite last_app. destruct (last (x :: l2)) eqn:H; [done|].
  by apply last_None in H.
Qed.

Lemma dlseg_snoc N prev p l x q :
  dlseg N prev p (l ++ [x]) q ↔
  dlseg N prev p l x ∧ x ≠ NULL ∧
  ∃ nd, N !! x = Some nd ∧ _previous nd = default prev (last l) ∧ _next nd = q.
Proof. rewrite dlseg_middle. cbn [dlseg]. reflexivity. Qed.

(** [_HASHMAP_LL_ADD_BEFORE] links the new node in front of [node]. *)
Lemma LL_ADD_BEFORE_spec w l1 node l2 new nd :
  dlist w (l1 ++ node :: l2) →
  nodes w !! new = Some nd → new ∉ l1 ++ node :: l2 → new ≠ NULL →
  ∃ w', _HASHMAP_LL_ADD_BEFORE node new w = Some (tt, w') ∧
        dlist w' (l1 ++ new :: node :: l2) ∧
        list_frame w w' ∧ trace w' = trace w.
Proof.
  intros (Hseg & Htail & Hnd) Hnew Hnotin Hnz.
  assert (NoDup (l1 ++ new :: node :: l2)) as Hnd'.
  { apply NoDup_middle. split; [done|]. by apply not_elem_of_app. }
  apply dlseg_middle in Hseg as (H1 & Hnodez & n & Hn & Hprev & H2).
  apply NoDup_middle in Hnd as (Hnd & Hn1 & Hn2).
  apply not_elem_of_app in Hnotin as [Hnew1 Hnew2].
  apply not_elem_of_cons in Hnew2 as [Hne Hnew2].
  unfold _HASHMAP_LL_ADD_BEFORE.
  mrun (run_set_next _ _ _ node Hnew).
  mrun by (apply run_load_node; wsimpl; look; exact Hn).
  destruct l1 as [|x l1 _] using rev_ind.
  - cbn [dlseg] in H1. simpl in Hprev. rewrite Hprev. cbn [NULL Z.eqb].
    mrun by (apply run_set_previous; wsimpl; look; reflexivity).
    mrun (run_set_head _ _).
    eexists. split; [apply run_set_previous; wsimpl; look; exact Hn|].
    wsimpl. split; [|split].
    + apply dlist_intro; wsimpl; hsimpl.
      * simpl. split; [done|]. split; [done|]. eexists. look.
        split; [reflexivity|]. split; [done|]. cbn [_next with_next with_previous].
        split; [done|]. split; [done|]. eexists. look.
        split; [reflexivity|]. split; [done|]. cbn [_next with_previous].
        apply dlseg_frame with (nodes w); [|done].
        intros y Hy. assert (y ≠ new) by (by intros ->).
        assert (y ≠ node) by (by intros ->). by look.
      * done.
      * done.
    + apply list_frame_intro; wsimpl; try done.
      intros y. destruct (decide (y = node)) as [->|?]; look; [by rewrite Hn|].
      destruct (decide (y = new)) as [->|?]; look; [by rewrite Hnew|done].
    + done.
  - rewrite last_snoc in Hprev. simpl in Hprev.
    apply dlseg_snoc in H1 as (H1 & Hxz & nx & Hx & Hxprev & Hxnext).
    rewrite Hprev. pose proof Hxz as Hxz'. apply Z.eqb_neq in Hxz'. rewrite Hxz'.
    apply not_elem_of_app in Hn1 as [Hn1 Hnx].
    apply not_elem_of_cons in Hnx as [Hnx _].
    apply not_elem_of_app in Hnew1 as [Hnew1 Hnewx].
    apply not_elem_of_cons in Hnewx as [Hnewx _].
    assert ((x ∉ l1) ∧ (x ∉ l2)) as [Hx1 Hx2].
    { rewrite <- app_assoc in Hnd. apply NoDup_middle in Hnd. tauto. }
    mrun by (apply run_set_previous; wsimpl; look; reflexivity).
    mrun by (apply run_set_next; wsimpl; look; exact Hx).
    eexists. split; [apply run_set_previous; wsimpl; look; exact Hn|]. wsimpl.
    split; [|split].
    + apply dlist_intro; wsimpl; hsimpl.
      * rewrite <- app_assoc. apply dlseg_middle. split; [|split; [done|]].
        { apply dlseg_frame with (nodes w); [|done].
          intros y Hy. assert (y ≠ new) by (by intros ->).
          assert (y ≠ node) by (by intros ->).
          assert (y ≠ x) by (by intros ->). by look. }
        eexists. look. split; [reflexivity|]. split; [done|].
        cbn [app dlseg _next with_next].
        split; [done|]. split; [done|]. eexists. look. split; [reflexivity|].
        split; [done|]. cbn [_next with_next with_previous].
        split; [done|]. split; [done|]. eexists. look. split; [reflexivity|].
        split; [done|]. cbn [_next with_previous].
        apply dlseg_frame with (nodes w); [|done].
        intros y Hy. assert (y ≠ new) by (by intros ->).
        assert (y ≠ node) by (by intros ->).
        assert (y ≠ x) by (by intros ->). by look.
      * rewrite Htail. by rewrite !last_app_cons.
      * done.
    + apply list_frame_intro; wsimpl; try done.
      intros y. destruct (decide (y = node)) as [->|?]; look; [by rewrite Hn|].
      destruct (decide (y = x)) as [->|?]; look; [by rewrite Hx|].
      destruct (decide (y = new)) as [->|?]; look; [by rewrite Hnew|done].
    + done.
Qed.

(** [_HASHMAP_LL_ADD_HEAD] makes the new node the first one. *)
Lemma LL_ADD_HEAD_spec w l new nd :
  dlist w l →
  nodes w !! new = Some nd → new ∉ l → new ≠ NULL →
  ∃ w', _HASHMAP_LL_ADD_HEAD new w = Some (tt, w') ∧
        dlist w' (new :: l) ∧ list_frame w w' ∧ trace w' = trace w.
Proof.
  intros Hd Hnew Hnotin Hnz. unfold _HASHMAP_LL_ADD_HEAD. mrun (run_get_hm _).
  destruct l as [|h l].
  - destruct Hd as (Hseg & Htail & Hnd). cbn [dlseg] in Hseg. rewrite Hseg.
    cbn [NULL Z.eqb].
    mrun (run_set_head _ _). mrun (run_set_tail _ _).
    mrun by (apply run_set_previous; wsimpl; exact Hnew).
    eexists. split; [apply run_set_next; wsimpl; look; reflexivity|]. wsimpl.
    split; [|split].
    + apply dlist_intro; wsimpl; hsimpl.
      * simpl. split; [done|]. split; [done|]. eexists. look. done.
      * done.
      * apply NoDup_singleton.
    + apply list_frame_intro; wsimpl; try done.
      intros y. destruct (decide (y = new)) as [->|?]; look; [by rewrite Hnew|done].
    + done.
  - pose proof Hd as (Hseg & _). cbn [dlseg] in Hseg.
    destruct Hseg as (Hhead & Hhz & _). rewrite Hhead.
    apply Z.eqb_neq in Hhz. rewrite Hhz.
    apply (LL_ADD_BEFORE_spec w [] h l new nd); done.
Qed.

(** [_HASHMAP_LL_ADD_TAIL] makes the new node the last one. *)
Lemma LL_ADD_TAIL_spec w l new nd :
  dlist w l →
  nodes w !! new = Some nd → new ∉ l → new ≠ NULL →
  ∃ w', _HASHMAP_LL_ADD_TAIL new w = Some (tt, w') ∧
        dlist w' (l ++ [new]) ∧ list_frame w w' ∧ trace w' = trace w.
Proof.
  intros Hd Hnew Hnotin Hnz. unfold _HASHMAP_LL_ADD_TAIL. mrun (run_get_hm _).
  destruct l as [|t l _] using rev_ind.
  - pose proof Hd as (_ & Htail & _). simpl in Htail. rewrite Htail.
    cbn [NULL Z.eqb]. by apply (LL_ADD_HEAD_spec w [] new nd).
  - pose proof Hd as (Hseg & Htail & _). rewrite last_snoc in Htail. simpl in Htail.
    apply dlseg_snoc in Hseg as (_ & Htz & _).
    rewrite Htail. apply Z.eqb_neq in Htz. rewrite Htz.
    destruct (LL_ADD_AFTER_spec w l t [] new nd Hd Hnew Hnotin Hnz)
      as (w' & Hrun & Hd' & Hf & Ht).
    exists w'. split; [done|]. split; [|done]. by rewrite <- app_assoc.
Qed.

(** [_HASHMAP_LL_REMOVE] unlinks the node and frees it. *)
Lemma LL_REMOVE_spec w l1 target l2 :
  dlist w (l1 ++ target :: l2) →
  ∃ w', _HASHMAP_LL_REMOVE target w = Some (tt, w') ∧
        dlist w' (l1 ++ l2) ∧
        nodes w' !! target = None ∧
        trace w' = trace w ++ [Free Node target] ∧
        entries w' = entries w ∧ tables w' = tables w ∧
        same_table_fields (hm w) (hm w') ∧
        ∀ n, n ≠ target →
             _table_entry <$> nodes w' !! n = _table_entry <$> nodes w !! n.
Proof.
  intros (Hseg & Htail & Hnd).
  apply dlseg_middle in Hseg as (H1 & Htz & t & Ht & Hprev & H2).
  apply NoDup_middle in Hnd as (Hnd & Ht1 & Ht2).
  unfold _HASHMAP_LL_REMOVE.
  mrun (run_load_node _ _ _ Ht).
  (* the node before the target, or the head *)
  assert (∃ w1,
    (if _previous t =? NULL then set_head (_next t)
     else set_next (_previous t) (_next t)) w = Some (tt, w1) ∧
    dlseg (nodes w1) NULL (_head (hm w1)) l1 (_next t) ∧
    nodes w1 !! target = Some t ∧
    (∀ y, y ∉ l1 → nodes w1 !! y = nodes w !! y) ∧
    (∀ y, _table_entry <$> nodes w1 !! y = _table_entry <$> nodes w !! y) ∧
    _tail (hm w1) = _tail (hm w) ∧ same_table_fields (hm w) (hm w1) ∧
    entries w1 = entries w ∧ tables w1 = tables w ∧ trace w1 = trace w)
    as (w1 & Hrun1 & H1' & Ht' & Hrest1 & Hte1 & Htail1 & Hf1 & He1 & Htb1 & Htr1).
  { destruct l1 as [|x l1 _] using rev_ind.
    - cbn [dlseg] in H1. simpl in Hprev. rewrite Hprev. cbn [NULL Z.eqb].
      eexists. split; [apply run_set_head|]. wsimpl. hsimpl. done.
    - rewrite last_snoc in Hprev. simpl in Hprev.
      apply dlseg_snoc in H1 as (H1 & Hxz & nx & Hx & Hxprev & Hxnext).
      rewrite Hprev. pose proof Hxz as Hxz'. apply Z.eqb_neq in Hxz'. rewrite Hxz'.
      apply not_elem_of_app in Ht1 as [Ht1 Htx].
      apply not_elem_of_cons in Htx as [Htx _].
      assert (x ∉ l1) as Hx1.
      { rewrite <- app_assoc in Hnd. apply NoDup_middle in Hnd. tauto. }
      eexists. split; [apply run_set_next; exact Hx|]. wsimpl.
      split_and!; try done.
      + apply dlseg_snoc. split; [|split; [done|]].
        * apply dlseg_frame with (nodes w); [|done].
          intros y Hy. assert (y ≠ x) by (by intros ->). by look.
        * eexists. look. done.
      + by look.
      + intros y Hy. apply not_elem_of_app in Hy as [_ Hy].
        apply not_elem_of_cons in Hy as [Hy _]. by look.
      + intros y. destruct (decide (y = x)) as [->|?]; look; [by rewrite Hx|done]. }
  mrun Hrun1. mrun (run_load_node _ _ _ Ht').
  (* the node after the target, or the tail *)
  assert (∃ w2,
    (if _next t =? NULL then set_tail (_previous t)
     else set_previous (_next t) (_previous t)) w1 = Some (tt, w2) ∧
    dlseg (nodes w2) NULL (_head (hm w2)) (l1 ++ l2) NULL ∧
    _tail (hm w2) = default NULL (last (l1 ++ l2)) ∧
    nodes w2 !! target = Some t ∧
    (∀ y, _table_entry <$> nodes w2 !! y = _table_entry <$> nodes w !! y) ∧
    same_table_fields (hm w) (hm w2) ∧
    entries w2 = entries w ∧ tables w2 = tables w ∧ trace w2 = trace w)
    as (w2 & Hrun2 & Hseg2 & Htail2 & Ht'' & Hte2 & Hf2 & He2 & Htb2 & Htr2).
  { destruct l2 as [|y l2].
    - cbn [dlseg] in H2. rewrite H2 in *. cbn [NULL Z.eqb].
      eexists. split; [apply run_set_tail|]. wsimpl. hsimpl.
      rewrite app_nil_r. split_and!; try done.
    - cbn [dlseg] in H2. destruct H2 as (Hy & Hyz & ny & Hny & Hyprev & H2).
      rewrite Hy in *. pose proof Hyz as Hyz'. apply Z.eqb_neq in Hyz'. rewrite Hyz'.
      apply not_elem_of_cons in Ht2 as [Hty Ht2].
      assert ((y ∉ l1) ∧ (y ∉ l2)) as [Hy1 Hy2] by (apply NoDup_middle in Hnd; tauto).
      assert (nodes w1 !! y = Some ny) as Hny1 by (by rewrite Hrest1).
      eexists. split; [apply run_set_previous; exact Hny1|]. wsimpl.
      split_and!; try done.
      + apply dlseg_middle. split; [|split; [done|]].
        * apply dlseg_frame with (nodes w1); [|done].
          intros z Hz. assert (z ≠ y) by (by intros ->). by look.
        * eexists. look. split; [reflexivity|]. split; [done|].
          cbn [_next with_previous].
          apply dlseg_frame with (nodes w); [|done].
          intros z Hz. assert (z ≠ y) by (by intros ->). look.
          apply Hrest1. intros Hz1. apply NoDup_middle in Hnd as (Hnd & _).
          apply NoDup_app in Hnd as (_ & Hdis & _). by apply (Hdis z).
      + rewrite Htail1, Htail. by rewrite !last_app_cons.
      + by look.
      + intros z. destruct (decide (z = y)) as [->|?]; look; [|done].
        by rewrite <- Hte1, Hny1. }
  assert (target ∉ l1 ++ l2) as Htl by (by apply not_elem_of_app).
  eexists. split.
  { rewrite (run_bind _ _ _ _ _ Hrun2). by apply (run_free_node _ _ t). }
  wsimpl. split_and!; try done.
  - apply dlist_intro; wsimpl; try done.
    apply dlseg_frame with (nodes w2); [|done].
    intros y Hy. assert (y ≠ target) by (by intros ->). by look.
  - by look.
  - by rewrite Htr2.
  - intros y Hy. by look.
Qed.

(** ** The list of the map is doubly linked *)

#[local] Instance keeps_list_refl : Reflexive keeps_list.
Proof. intros w. split; [done|]. split; [done|]. intros n nd Hn. by exists nd. Qed.

#[local] Instance keeps_list_trans : Transitive keeps_list.
Proof.
  intros w1 w2 w3 (Hh1 & Ht1 & Hn1) (Hh2 & Ht2 & Hn2).
  split; [congruence|]. split; [congruence|].
  intros n nd Hn. destruct (Hn1 n nd Hn) as (nd' & Hn' & Hp' & Hx').
  destruct (Hn2 n nd' Hn') as (nd'' & Hn'' & Hp'' & Hx'').
  exists nd''. split; [done|]. split; congruence.
Qed.

Lemma keeps_list_same w w' :
  _head (hm w') = _head (hm w) → _tail (hm w') = _tail (hm w) →
  nodes w' = nodes w → keeps_list w w'.
Proof.
  intros Hh Ht Hn. split; [done|]. split; [done|].
  intros n nd Hnd. exists nd. by rewrite Hn.
Qed.

Lemma dlseg_links N N' prev p l q :
  (∀ n nd, n ∈ l → N !! n = Some nd →
           ∃ nd', N' !! n = Some nd' ∧
                  _previous nd' = _previous nd ∧ _next nd' = _next nd) →
  dlseg N prev p l q → dlseg N' prev p l q.
Proof.
  revert prev p. induction l as [|n l IH]; intros prev p Hs; [done|].
  cbn [dlseg]. intros (-> & Hnz & nd & Hn & Hprev & H).
  destruct (Hs n nd) as (nd' & Hn' & Hp' & Hx'); [left|done|].
  split; [done|]. split; [done|]. exists nd'.
  split; [done|]. split; [congruence|]. rewrite Hx'.
  apply IH; [|done]. intros m md Hm. apply Hs. by right.
Qed.

Lemma dlist_keeps w w' l : keeps_list w w' → dlist w l → dlist w' l.
Proof.
  intros (Hh & Ht & Hn) (Hseg & Htail & Hnd). apply dlist_intro; [|congruence|done].
  rewrite Hh. apply dlseg_links with (nodes w); [|done].
  intros n nd _. apply Hn.
Qed.

Lemma keeps_store_entry p e : respects keeps_list (store_entry p e).
Proof.
  intros w r w' H. unfold store_entry in H.
  destruct (entries w !! p); [|done]. injection H as _ <-. by apply keeps_list_same.
Qed.

Lemma keeps_store_cell t i p : respects keeps_list (store_cell t i p).
Proof.
  intros w r w' H. unfold store_cell in H.
  destruct (tables w !! t); [|done]. simpl in H.
  destruct (bool_decide _); [|done]. injection H as _ <-. by apply keeps_list_same.
Qed.

Lemma keeps_store_slot s q : respects keeps_list (store_slot s q).
Proof.
  destruct s; simpl;
    resp ltac:(first [apply keeps_store_entry|apply keeps_store_cell]).
Qed.

Lemma keeps_calloc_entry : respects keeps_list calloc_entry.
Proof.
  intros w r w' H. unfold calloc_entry in H.
  apply bind_Some in H as (ok & w1 & Hok & H). unfold calloc_ok in Hok.
  assert (hm w1 = hm w ∧ nodes w1 = nodes w) as [Hhm Hn].
  { destruct (bool_decide _); by injection Hok as _ <-. }
  destruct ok; injection H as _ <-; apply keeps_list_same; wsimpl; congruence.
Qed.

Lemma keeps_calloc_table n : respects keeps_list (calloc_table n).
Proof.
  intros w r w' H. unfold calloc_table in H.
  apply bind_Some in H as (ok & w1 & Hok & H). unfold calloc_ok in Hok.
  assert (hm w1 = hm w ∧ nodes w1 = nodes w) as [Hhm Hn].
  { destruct (bool_decide _); by injection Hok as _ <-. }
  destruct ok; injection H as _ <-; apply keeps_list_same; wsimpl; congruence.
Qed.

Lemma calloc_table_hm n w p w' : calloc_table n w = Some (p, w') → hm w' = hm w.
Proof.
  intros H. unfold calloc_table in H.
  apply bind_Some in H as (ok & w1 & Hok & H). unfold calloc_ok in Hok.
  assert (hm w1 = hm w) as Hhm.
  { destruct (bool_decide _); by injection Hok as _ <-. }
  destruct ok; by injection H as _ <-.
Qed.

Lemma keeps_free_entry p : respects keeps_list (free_entry p).
Proof.
  intros w r w' H. unfold free_entry in H.
  destruct (p =? NULL); [injection H as _ <-; reflexivity|].
  destruct (entries w !! p); [|done]. injection H as _ <-. by apply keeps_list_same.
Qed.

Lemma keeps_free_table p : respects keeps_list (free_table p).
Proof.
  intros w r w' H. unfold free_table in H.
  destruct (p =? NULL); [injection H as _ <-; reflexivity|].
  destruct (tables w !! p); [|done]. injection H as _ <-. by apply keeps_list_same.
Qed.

Lemma keeps_set_table_entry p q : respects keeps_list (set_table_entry p q).
Proof.
  intros w r w' H. unfold set_table_entry in H.
  apply bind_Some in H as (n & w1 & Hn & H). unfold load_node in Hn.
  destruct (nodes w !! p) as [n0|] eqn:Hp; [|done]. injection Hn as <- <-.
  unfold store_node in H. rewrite Hp in H. injection H as _ <-.
  split; [done|]. split; [done|]. wsimpl. intros x nd Hx.
  destruct (decide (x = p)) as [->|Hne].
  - rewrite lookup_insert_eq. eexists. split; [done|].
    assert (nd = n0) as -> by congruence. done.
  - rewrite lookup_insert_ne by done. by exists nd.
Qed.

Ltac keeps_prim :=
  first [ apply keeps_store_entry | apply keeps_store_cell
        | apply keeps_store_slot | apply keeps_calloc_entry
        | apply keeps_calloc_table | apply keeps_free_entry
        | apply keeps_free_table | apply keeps_set_table_entry ].

Lemma keeps_TABLE_PUT k v : respects keeps_list (_HASHMAP_TABLE_PUT k v).
Proof. unfold _HASHMAP_TABLE_PUT. resp keeps_prim. Qed.

Lemma keeps_rehash_loop : ∀ fuel cursor, respects keeps_list (rehash_loop fuel cursor).
Proof.
  induction fuel as [|fuel IH]; intros cursor; [apply respects_undefined|].
  cbn [rehash_loop].
  resp ltac:(first [keeps_prim|apply keeps_TABLE_PUT|apply IH]).
Qed.

Lemma keeps_INCREASE_SIZE : respects keeps_list _HASHMAP_INCREASE_SIZE.
Proof.
  intros w r w' H. unfold _HASHMAP_INCREASE_SIZE in H.
  apply bind_Some in H as (m & w0 & Hm & H). injection Hm as <- <-.
  apply bind_Some in H as (p & w1 & Hcalloc & H).
  pose proof (calloc_table_hm _ _ _ _ Hcalloc) as Hhm.
  apply keeps_calloc_table in Hcalloc.
  destruct (negb (p =? NULL)); [|injection H as _ <-; done].
  apply bind_Some in H as (x & w2 & Hput & H). injection Hput as _ <-.
  transitivity w1; [done|].
  transitivity (set_hm (with_entry_table p
                          (with_table_size (to_size_t (_table_size (hm w) * 2)) (hm w))) w1).
  { apply keeps_list_same; wsimpl; hsimpl; by rewrite ?Hhm. }
  revert H. generalize (set_hm (with_entry_table p
                          (with_table_size (to_size_t (_table_size (hm w) * 2)) (hm w))) w1).
  intros w2. revert w2 r w'.
  change (respects keeps_list
            (_return_val <- _HASHMAP_REHASH_TABLE;;
             free_table (_entry_table (hm w));;; ret _return_val)).
  unfold _HASHMAP_REHASH_TABLE.
  resp ltac:(first [keeps_prim|apply keeps_rehash_loop]).
Qed.

(** [_HASHMAP_LL_PUT] keeps the list doubly linked: the list is as it was,
    or has the new node at its end. *)
Lemma LL_PUT_dlist a w r w' l :
  heap_ok w → dlist w l →
  _HASHMAP_LL_PUT a w = Some (r, w') →
  dlist w' l ∨ dlist w' (l ++ [brk w]).
Proof.
  intros Hheap Hd H. unfold _HASHMAP_LL_PUT in H.
  apply bind_Some in H as (q & w1 & Hcalloc & H).
  unfold calloc_node in Hcalloc.
  apply bind_Some in Hcalloc as (ok & w0 & Hok & Hcalloc). unfold calloc_ok in Hok.
  assert (hm w0 = hm w ∧ nodes w0 = nodes w ∧ brk w0 = brk w) as (Hhm0 & Hn0 & Hb0).
  { destruct (bool_decide _); by injection Hok as _ <-. }
  destruct ok; injection Hcalloc as <- <-.
  2:{ cbn [NULL Z.eqb] in H. injection H as _ <-. left.
      apply (dlist_keeps w); [|done]. apply keeps_list_same; wsimpl; congruence. }
  right. rewrite Hb0 in *.
  pose proof Hheap as [Hbrk _ HN _].
  assert (brk w ≠ NULL) as Hnz by (unfold NULL; lia).
  pose proof Hnz as Hnz'. apply Z.eqb_neq in Hnz'. rewrite Hnz' in H.
  assert (nodes w !! brk w = None) as Hfresh by (by eapply fresh_lookup).
  assert (brk w ∉ l) as Hnotin.
  { intros Hin. destruct Hd as (Hseg & _).
    destruct (dlseg_live _ _ _ _ _ _ Hseg Hin) as [x Hx]. congruence. }
  set (w1 := log (Calloc Node (brk w))
               (bump (set_nodes (<[brk w := zero_node]> (nodes w0)) w0))) in *.
  assert (dlist w1 l) as Hd1.
  { destruct Hd as (Hseg & Htail & Hnd). apply dlist_intro; unfold w1; wsimpl.
    - rewrite Hhm0, Hn0. apply dlseg_frame with (nodes w); [|done].
      intros x Hx. rewrite lookup_insert_ne; [done|]. by intros <-.
    - by rewrite Hhm0.
    - done. }
  assert (is_Some (nodes w1 !! brk w)) as [nd1 Hlive1].
  { unfold w1. wsimpl. rewrite lookup_insert_eq. by eexists. }
  apply bind_Some in H as (x1 & w2 & Hset & H).
  apply keeps_set_table_entry in Hset.
  apply bind_Some in H as (x2 & w3 & Hset' & H).
  assert (respects keeps_list (set_ll_node a (brk w))) as Hk
    by (unfold set_ll_node; resp keeps_prim).
  apply Hk in Hset'.
  assert (keeps_list w1 w3) as Hk13 by (by transitivity w2).
  pose proof (dlist_keeps _ _ _ Hk13 Hd1) as Hd3.
  destruct Hk13 as (_ & _ & Hn13).
  destruct (Hn13 _ _ Hlive1) as (nd3 & Hlive3 & _).
  destruct (LL_ADD_TAIL_spec w3 l (brk w) nd3 Hd3 Hlive3 Hnotin Hnz)
    as (w4 & Hrun4 & Hd4 & _).
  apply bind_Some in H as (x3 & w4' & Hadd & H). injection H as _ <-.
  rewrite Hrun4 in Hadd. by simplify_eq.
Qed.

(** [HASHMAP_PUT] keeps the list doubly linked. *)
Lemma PUT_dlist k v w r w' l :
  heap_ok w → dlist w l →
  HASHMAP_PUT k v w = Some (r, w') →
  ∃ l', dlist w' l'.
Proof.
  intros Hheap Hd H. unfold HASHMAP_PUT in H.
  apply bind_Some in H as (m & w0 & Hm & H). injection Hm as <- <-.
  apply bind_Some in H as (r1 & w1 & Hmid & H).
  apply bind_Some in H as (m1 & w1' & Hm1 & H). injection Hm1 as <- <-.
  apply bind_Some in H as (x & w2 & Hput & H). injection Hput as _ <-.
  injection H as _ <-.
  assert (∃ l', dlist w1 l') as (l' & Hd1).
  { assert (∀ w0 r0 w1, heap_ok w0 → dlist w0 l →
              table_then_ll_put k v w0 = Some (r0, w1) → ∃ l', dlist w1 l') as Hins.
    { clear. intros w0 r0 w1 Hheap Hd H. unfold table_then_ll_put in H.
      apply bind_Some in H as (p & w2 & Hput & H).
      pose proof (accounts_TABLE_PUT _ _ _ _ _ Hput Hheap) as [Hheap2 _].
      apply keeps_TABLE_PUT in Hput. pose proof (dlist_keeps _ _ _ Hput Hd) as Hd2.
      apply bind_Some in H as (r2 & w3 & Hll & H).
      assert (w1 = w3) as -> by (destruct (r2 =? 0); by injection H as _ <-).
      destruct (negb (p =? NULL)).
      - destruct (LL_PUT_dlist _ _ _ _ _ Hheap2 Hd2 Hll); eauto.
      - injection Hll as _ <-. eauto. }
    destruct (double_ge (load_factor (hm w)) _LOAD_FACTOR_LIM).
    - apply bind_Some in Hmid as (r0 & w0 & Hgrow & Hmid).
      pose proof (accounts_INCREASE_SIZE _ _ _ Hgrow Hheap) as [Hheap0 _].
      apply keeps_INCREASE_SIZE in Hgrow.
      pose proof (dlist_keeps _ _ _ Hgrow Hd) as Hd0.
      destruct (r0 =? 0); [by eapply Hins|]. injection Hmid as _ <-. eauto.
    - by eapply Hins. }
  exists l'. apply (dlist_keeps w1); [|done]. by apply keeps_list_same.
Qed.

Lemma reachable_dlist o kvs w0 rs w :
  HASHMAP_INIT IntegerKey (blank o) = Some (0, w0) →
  puts kvs w0 = Some (rs, w) →
  ∃ l, dlist w l.
Proof.
  intros Hinit Hputs.
  destruct (INIT_spec _ _ _ Hinit) as (HInv0 & _).
  assert (heap_ok w0 ∧ ∃ l, dlist w0 l) as HP0.
  { destruct HInv0 as [Hheap _ [Hn Ht _ _ _] _]. split; [done|]. exists [].
    apply dlist_intro; [exact Hn|exact Ht|constructor]. }
  assert (heap_ok w ∧ ∃ l, dlist w l) as [_ H]; [|done].
  apply (puts_preserves (λ w, heap_ok w ∧ ∃ l, dlist w l)) with kvs w0 rs;
    [|done|done].
  intros w1 k v r w2 [Hheap (l & Hd)] Hput. split.
  - by destruct (accounts_PUT _ _ _ _ _ Hput Hheap).
  - by eapply PUT_dlist.
Qed.

Lemma node_walk_dlseg w l : ∀ fuel prev p,
  dlseg (nodes w) prev p l NULL → (length l < fuel)%nat →
  node_walk fuel w p = Some l.
Proof.
  induction l as [|n l IH]; intros fuel prev p Hseg Hfuel.
  - destruct fuel as [|fuel]; [simpl in Hfuel; lia|].
    cbn [dlseg] in Hseg. subst p. done.
  - destruct fuel as [|fuel]; [simpl in Hfuel; lia|].
    cbn [dlseg] in Hseg. destruct Hseg as (-> & Hnz & nd & Hn & Hprev & Hseg).
    cbn [node_walk]. apply Z.eqb_neq in Hnz. rewrite Hnz, Hn. simpl.
    rewrite (IH fuel n (_next nd)); [done|done|simpl in Hfuel; lia].
Qed.

Lemma node_walk_back_dlseg w : ∀ l fuel p q,
  dlseg (nodes w) NULL p l q → (length l < fuel)%nat →
  node_walk_back fuel w (default NULL (last l)) = Some (reverse l).
Proof.
  induction l as [|x l IH] using rev_ind; intros fuel p q Hseg Hfuel.
  - destruct fuel as [|fuel]; [simpl in Hfuel; lia|]. done.
  - destruct fuel as [|fuel]; [simpl in Hfuel; lia|].
    apply dlseg_snoc in Hseg as (Hseg & Hxz & nd & Hx & Hprev & Hnext).
    rewrite last_snoc. cbn [default node_walk_back from_option id].
    apply Z.eqb_neq in Hxz. rewrite Hxz, Hx. simpl. rewrite Hprev.
    rewrite (IH fuel p x); [|done|rewrite length_app in Hfuel; simpl in Hfuel; lia].
    simpl. by rewrite reverse_snoc.
Qed.

Lemma dlist_length w l : dlist w l → (length l ≤ size (nodes w))%nat.
Proof.
  intros (Hseg & _ & Hnd). apply live_length; [done|].
  intros n Hn. by eapply dlseg_live.
Qed.

(** X16. In every state reached by puts, failed allocations included, the
    entry-order list is doubly linked: the walk from [_tail] along [_previous]
    visits the nodes of the walk from [_head] along [_next], in the reverse
    order. *)
Theorem list_is_doubly_linked o kvs w0 rs w :
  HASHMAP_INIT IntegerKey (blank o) = Some (0, w0) →
  puts kvs w0 = Some (rs, w) →
  ∃ l, ll_nodes w = Some l ∧ ll_nodes_back w = Some (reverse l).
Proof.
  intros Hinit Hputs.
  destruct (reachable_dlist o kvs w0 rs w Hinit Hputs) as (l & Hd).
  pose proof (dlist_length _ _ Hd) as Hlen.
  destruct Hd as (Hseg & Htail & Hnd). exists l. split.
  - unfold ll_nodes. apply (node_walk_dlseg w l _ NULL); [done|lia].
  - unfold ll_nodes_back. rewrite Htail.
    apply (node_walk_back_dlseg w l _ (_head (hm w)) NULL); [done|lia].
Qed.

(** ** Allocations that fail *)

Lemma heap_ok_blank o : heap_ok (blank o).
Proof.
  split; [done|..]; intros a [x Hx]; simpl in Hx; by rewrite lookup_empty in Hx.
Qed.

(** X17. After a [HASHMAP_INIT] that returned -1, every [HASHMAP_PUT] and every
    [HASHMAP_GET] are undefined, since they read a cell of the NULL table, and
    [HASHMAP_FREE] returns and changes nothing. *)
Theorem failed_init_leaves_the_map_unusable kt w w' :
  heap_ok w →
  HASHMAP_INIT kt w = Some (-1, w') →
  (∀ k v, HASHMAP_PUT k v w' = None) ∧
  (∀ result k, HASHMAP_GET result k w' = None) ∧
  HASHMAP_FREE w' = Some (tt, w').
Proof.
  intros [Hbrk HE HN HT] Hinit.
  assert (tables w !! NULL = None) as Hnull.
  { destruct (tables w !! NULL) eqn:H0; [|done].
    assert (0 < NULL < brk w) by (apply HT; by rewrite H0). unfold NULL in *; lia. }
  revert Hinit. unfold HASHMAP_INIT. mrun (run_get_hm _). mrun (run_put_hm _ _).
  destruct (hd true (oracle w)) eqn:Ho.
  { mrun by (apply run_calloc_table_ok; [vm_compute; congruence|exact Ho]).
    mrun (run_get_hm _). mrun (run_put_hm _ _). wsimpl.
    assert (brk w ≠ NULL) as Hnz by (unfold NULL; lia).
    apply Z.eqb_neq in Hnz. rewrite Hnz. done. }
  mrun by (apply run_calloc_table_fail; [vm_compute; congruence|exact Ho]).
  mrun (run_get_hm _). mrun (run_put_hm _ _). cbn [NULL Z.eqb]. intros [= <-].
  match goal with |- context [HASHMAP_FREE ?w1] => set (w' := w1) end.
  assert (∀ k, ∃ i, call_hash_func k w' = Some (i, w')) as Hhash.
  { intros k.
    assert (hash_ok (call_hash (hash_func (hm w')))) as Hok.
    { unfold w'. wsimpl. hsimpl.
      destruct kt; [apply hash_long_long_ok|apply hash_double_ok|apply hash_ptr_ok]. }
    destruct (Hok 15 k) as (i & Hi & _); [lia|vm_compute; congruence|].
    exists i. by apply run_call_hash_func. }
  assert (∀ i, load_cell (_entry_table (hm w')) i w' = None) as Hcell.
  { intros i. unfold load_cell, w'. wsimpl. hsimpl. by rewrite Hnull. }
  split_and!.
  - intros k v. destruct (Hhash k) as (i & Hi).
    unfold HASHMAP_PUT. mrun (run_get_hm _).
    assert (double_ge (load_factor (hm w')) _LOAD_FACTOR_LIM = false) as ->
      by (by vm_compute).
    unfold table_then_ll_put, _HASHMAP_TABLE_PUT, _HASHMAP_FIND_ENTRY_RECORD.
    mrun Hi. mrun (run_get_hm _). mrun (run_entry_fuel _).
    cbn [find_entry_loop load_slot]. unfold bind. by rewrite Hcell.
  - intros result k. destruct (Hhash k) as (i & Hi).
    unfold HASHMAP_GET. mrun Hi. mrun (run_get_hm _). unfold bind. by rewrite Hcell.
  - unfold HASHMAP_FREE, _HASHMAP_TABLE_FREE, _HASHMAP_LL_FREE.
    mrun (run_get_hm _). mrun (run_node_fuel _). done.
Qed.

(** X18. When the load factor test of a put asks for a growth and the new table
    cannot be allocated, the put returns -1 and changes nothing but
    [_num_entries], which it still counts up: the table, the list and what
    every get returns stay as they were. *)
Theorem growth_without_a_new_table_changes_nothing o kvs w0 rs w k v :
  HASHMAP_INIT IntegerKey (blank o) = Some (0, w0) →
  puts kvs w0 = Some (rs, w) →
  double_ge (load_factor (hm w)) _LOAD_FACTOR_LIM = true →
  hd true (oracle w) = false →
  ∃ w', HASHMAP_PUT k v w = Some (-1, w') ∧
        trace w' = trace w ++ [Calloc Table NULL] ∧
        hm w' = with_num_entries (to_size_t (_num_entries (hm w) + 1)) (hm w) ∧
        entries w' = entries w ∧ nodes w' = nodes w ∧ tables w' = tables w ∧
        ll_traverse w' = ll_traverse w ∧
        table_traverse w' = table_traverse w ∧
        ∀ k' result, ∃ found, HASHMAP_GET result k' w = Some (found, w) ∧
                              HASHMAP_GET result k' w' = Some (found, w').
Proof.
  intros Hinit Hputs Hload Ho.
  destruct (reachable_Inv o kvs w0 rs w Hinit Hputs) as (L & B & HInv & _).
  assert (∃ w1, calloc_table (to_size_t (_table_size (hm w) * 2)) w
                = Some (NULL, w1) ∧
                hm w1 = hm w ∧ entries w1 = entries w ∧ nodes w1 = nodes w ∧
                tables w1 = tables w ∧ brk w1 = brk w ∧
                trace w1 = trace w ++ [Calloc Table NULL])
    as (w1 & Hcalloc & Hhm & He & Hn & Ht & Hb & Htr).
  { destruct (decide (SIZE_MAX < to_size_t (_table_size (hm w) * 2) * sizeof_ptr)).
    - eexists. split; [by apply run_calloc_table_big|]. done.
    - eexists. split; [apply run_calloc_table_fail; [lia|done]|]. done. }
  assert (Inv w1 L B) as HInv1 by (by apply (Inv_same_heap w)).
  eexists. split.
  { unfold HASHMAP_PUT. mrun (run_get_hm _). rewrite Hload.
    unfold _HASHMAP_INCREASE_SIZE. mrun (run_get_hm _). mrun Hcalloc.
    cbn [NULL Z.eqb negb]. mrun (run_ret _ _). cbn [Z.eqb]. mrun (run_ret _ _).
    mrun (run_get_hm _). mrun (run_put_hm _ _). reflexivity. }
  wsimpl. rewrite Hhm.
  assert (Inv (set_hm (with_num_entries (to_size_t (_num_entries (hm w) + 1)) (hm w)) w1)
            L B) as HInv'.
  { rewrite <- Hhm. apply Inv_set_num; [done|apply to_size_t_range]. }
  pose proof HInv as [_ Htab Hlist _]. pose proof HInv' as [_ Htab' Hlist' _].
  split_and!; try done.
  - by rewrite (ll_traverse_spec _ _ Hlist'), (ll_traverse_spec _ _ Hlist).
  - by rewrite (table_traverse_spec _ _ Htab'), (table_traverse_spec _ _ Htab).
  - intros k' result. eexists. split; [by apply (GET_table w B)|].
    by rewrite (GET_table _ B k' result Htab').
Qed.

(** X19. On a map that holds a key and on which no allocation has failed, when the
    table grows and the first re-insertion of the rehash cannot allocate its
    entry, the put returns -1 and every key is lost to [HASHMAP_GET]: the
    struct holds the new table of twice the size, which is empty, the old
    table is freed, and the entry-order list still yields every pair. *)
Theorem failed_rehash_loses_the_keys o kvs w0 rs w k v :
  HASHMAP_INIT IntegerKey (blank o) = Some (0, w0) →
  puts kvs w0 = Some (rs, w) →
  kvs ≠ [] →
  no_failure (trace w) = true →
  double_ge (load_factor (hm w)) _LOAD_FACTOR_LIM = true →
  2 * _table_size (hm w) * sizeof_ptr ≤ SIZE_MAX →
  hd true (oracle w) = true →
  hd true (tl (oracle w)) = false →
  ∃ w', HASHMAP_PUT k v w = Some (-1, w') ∧
        trace w' = trace w ++ [Calloc Table (brk w); Calloc Entry NULL;
                               Free Table (_entry_table (hm w))] ∧
        _table_size (hm w') = 2 * _table_size (hm w) ∧
        ll_traverse w' = ll_traverse w ∧
        ll_traverse w ≠ Some [] ∧
        table_traverse w' = Some (replicate (Z.to_nat (2 * _table_size (hm w))) []) ∧
        ∀ k' result, HASHMAP_GET result k' w' = Some ((false, result), w').
Proof.
  intros Hinit Hputs Hkvs Hclean Hload Hfit Ho1 Ho2.
  destruct (reachable_Inv o kvs w0 rs w Hinit Hputs) as (L & B & HInv & Hs).
  destruct (Hs Hclean) as (_ & Hsync & Habs).
  pose proof HInv as [Hheap Htab Hlist Hnum].
  pose proof Htab as [[Hts Hsz] Hhash (cells & Hcells & Hch) HlenB _ _ _].
  pose proof Hheap as [Hbrk HE HN HT].
  pose proof (list_ok_length _ _ Hlist) as HlenL.
  (* the list is not empty *)
  destruct L as [|[n0 [a0 kv0]] L].
  { exfalso. simpl in Habs. destruct kvs as [|[k0 v0] kvs]; [done|].
    assert (k0 ∈ key <$> abs_puts ((k0, v0) :: kvs) []) as Hin
      by (apply abs_puts_keys; left).
    rewrite <- Habs in Hin. by apply elem_of_nil in Hin. }
  pose proof Hlist as [Hnl Htl Hndl Hhl Hil].
  rewrite fmap_cons in Hnl. simpl in Hnl.
  destruct Hnl as (Hhead & Hn0z & nd0 & Hnd0 & Hte0 & _).
  rewrite !fmap_cons in Hhl. apply Forall_cons in Hhl as [(e0 & He0 & Hkv0) _].
  simpl in He0, Hkv0.
  assert (to_size_t (_table_size (hm w) * 2) = 2 * _table_size (hm w)) as Hnts.
  { unfold to_size_t. rewrite Z.mod_small; [lia|].
    unfold sizeof_ptr, SIZE_MAX in *. lia. }
  set (nts := 2 * _table_size (hm w)) in *.
  assert (_entry_table (hm w) ≠ brk w) as Hold.
  { assert (0 < _entry_table (hm w) < brk w) by (apply HT; by exists cells). lia. }
  assert (_entry_table (hm w) ≠ NULL) as Holdz.
  { assert (0 < _entry_table (hm w) < brk w) by (apply HT; by exists cells).
    unfold NULL. lia. }
  assert (brk w ≠ NULL) as Hnz by (unfold NULL; lia).
  (* the run *)
  set (w1 := log (Calloc Table (brk w))
               (bump (set_tables (<[brk w := replicate (Z.to_nat nts) NULL]> (tables w))
                        (set_oracle (tl (oracle w)) w)))).
  set (w2 := set_hm (with_entry_table (brk w) (with_table_size nts (hm w))) w1).
  assert (table_ok w2 (replicate (Z.to_nat nts) [])) as Htab2.
  { apply (table_ok_fresh _ nts); unfold w2, w1, nts; wsimpl; hsimpl; try done.
    - lia.
    - apply lookup_insert_eq. }
  set (w3 := log (Calloc Entry NULL) (set_oracle (tl (oracle w2)) w2)).
  set (w4 := log (Free Table (_entry_table (hm w)))
               (set_tables (delete (_entry_table (hm w)) (tables w3)) w3)).
  set (w' := set_hm (with_num_entries (to_size_t (_num_entries (hm w4) + 1)) (hm w4)) w4).
  assert (HASHMAP_PUT k v w = Some (-1, w')) as Hrun.
  { unfold HASHMAP_PUT. mrun (run_get_hm _). rewrite Hload.
    unfold _HASHMAP_INCREASE_SIZE. mrun (run_get_hm _). rewrite Hnts.
    mrun by (apply run_calloc_table_ok; [exact Hfit|exact Ho1]). fold w1.
    pose proof Hnz as Hnz'. apply Z.eqb_neq in Hnz'. rewrite Hnz'. cbn [negb].
    mrun (run_put_hm _ _). fold w2.
    unfold _HASHMAP_REHASH_TABLE. mrun (run_get_hm _). mrun (run_node_fuel _).
    cbn [rehash_loop]. replace (_head (hm w2)) with n0 by done.
    pose proof Hn0z as Hn0z'. apply Z.eqb_neq in Hn0z'. rewrite Hn0z'.
    mrun by (apply run_load_node; exact Hnd0). rewrite Hte0.
    mrun by (apply run_load_entry; exact He0).
    mrun by (apply (TABLE_PUT_fail w2 _ _ _ Htab2);
             [rewrite concat_replicate_nil; apply not_elem_of_nil|exact Ho2]).
    fold w3. cbn [NULL Z.eqb]. mrun (run_ret _ _).
    mrun by (apply (run_free_table _ _ cells); [|exact Holdz]).
    2:{ unfold w3, w2, w1. wsimpl. by rewrite lookup_insert_ne. }
    fold w4. mrun (run_ret _ _). cbn [Z.eqb]. mrun (run_ret _ _).
    mrun (run_get_hm _). mrun (run_put_hm _ _). done. }
  exists w'. split; [done|].
  assert (table_ok w' (replicate (Z.to_nat nts) [])) as Htab'.
  { apply (table_ok_fresh _ nts); unfold w', w4, w3, w2, w1, nts; wsimpl; hsimpl;
      try done.
    - lia.
    - rewrite lookup_delete_ne by done. apply lookup_insert_eq. }
  assert (list_ok w' ((n0, (a0, kv0)) :: L)) as Hlist'
    by (by apply (list_ok_transfer w)).
  split_and!.
  - unfold w', w4, w3, w2, w1. wsimpl. by rewrite <- !app_assoc.
  - done.
  - by rewrite (ll_traverse_spec _ _ Hlist'), (ll_traverse_spec _ _ Hlist).
  - by rewrite (ll_traverse_spec _ _ Hlist).
  - rewrite (table_traverse_spec _ _ Htab'). by rewrite fmap_replicate.
  - intros k' result. rewrite (GET_table _ _ k' result Htab').
    by rewrite concat_replicate_nil.
Qed.

(** The search for a key that the table holds ends on the slot that leads
    to the key's entry. *)
Lemma FIND_ENTRY_RECORD_present w B k a kv :
  table_ok w B → (a, kv) ∈ concat B → key kv = k →
  ∃ s, _HASHMAP_FIND_ENTRY_RECORD k w = Some (s, w) ∧
       load_slot s w = Some (a, w) ∧
       ∃ e, entries w !! a = Some e ∧ _entry e = kv.
Proof.
  intros Htab Hin Hk.
  destruct (table_bucket w B k Htab)
    as (i & cells & c & b & Hh & Hcells & Hch & Hc & Hb & Hcb & Hndb & Hlen).
  pose proof Htab as [Hsz Hhok _ HlenB Hnd Hhome Hkeys].
  assert ((a, kv) ∈ b) as Hinb.
  { destruct (in_concat_bucket _ _ Hin) as (j & bj & Hbj & Hx).
    pose proof (Hhome _ _ _ Hbj Hx) as Hj. simpl in Hj. rewrite Hk, Hh in Hj.
    assert (i = j) as -> by (injection Hj; lia). congruence. }
  pose proof (chain_holds _ _ _ Hcb) as Hholds.
  rewrite Forall_forall in Hholds. pose proof (Hholds _ Hinb) as He.
  apply list_elem_of_split in Hinb as (l1 & l2 & ->).
  assert (∀ x, x ∈ l1 → key x.2 ≠ k) as Hl1.
  { intros x Hx Hkx.
    pose proof (bucket_keys_NoDup B _ _ Hb Hkeys) as Hndk.
    rewrite !fmap_app in Hndk. apply NoDup_app in Hndk as (_ & Hdis & _).
    apply (Hdis k).
    - apply list_elem_of_fmap. exists x.2. split; [done|].
      apply list_elem_of_fmap. by exists x.
    - simpl. rewrite Hk. left. }
  destruct (FIND_ENTRY_RECORD_spec w k i cells c l1 ((a, kv) :: l2))
    as [Hfind Hload]; try done.
  { intros x l [= <- <-]. done. }
  eexists. split; [exact Hfind|]. split; [exact Hload|]. exact He.
Qed.

(** X20. On a map of long long keys, after puts during which no allocation
    failed,
    [_HASHMAP_FIND_ENTRY_RECORD] changes nothing and returns a slot that holds
    the address of the entry of the key, whose value is that of the key's last
    put, or NULL when the key was never put. *)
Theorem find_entry_record_leads_to_the_entry o kvs w0 rs w k :
  HASHMAP_INIT IntegerKey (blank o) = Some (0, w0) →
  puts kvs w0 = Some (rs, w) →
  no_failure (trace w) = true →
  ∃ s p, _HASHMAP_FIND_ENTRY_RECORD k w = Some (s, w) ∧
         load_slot s w = Some (p, w) ∧
         match last_put k kvs with
         | Some v => ∃ e, entries w !! p = Some e ∧
                          _entry e = {| key := k; value := v |}
         | None => p = NULL
         end.
Proof.
  intros Hinit Hputs Hclean.
  destruct (reachable_Inv o kvs w0 rs w Hinit Hputs) as (L & B & HInv & Hs).
  destruct (Hs Hclean) as (_ & Hsync & Habs).
  pose proof HInv as [_ Htab _ _].
  pose proof (lookup_key_abs_puts k kvs []) as Hlk. rewrite <- Habs in Hlk.
  rewrite (lookup_key_perm k _ (concat B).*2) in Hlk;
    [|by eapply Sync_keys_NoDup|unfold Sync in Hsync; by rewrite Hsync].
  destruct (last_put k kvs) as [v|].
  - apply lookup_key_Some in Hlk; [|by destruct Htab].
    apply list_elem_of_fmap in Hlk as ([a kv] & Hkv & Hin). simpl in Hkv. subst kv.
    destruct (FIND_ENTRY_RECORD_present w B k a _ Htab Hin eq_refl)
      as (s & Hfind & Hload & He).
    by exists s, a.
  - simpl in Hlk. apply lookup_key_None in Hlk.
    destruct (FIND_ENTRY_RECORD_absent w B k Htab Hlk) as (s & Hfind & Hload).
    by exists s, NULL.
Qed.

(** ** The list macros and the two walks *)

Lemma node_walk_nil fuel w p : node_walk fuel w p = Some [] → p = NULL.
Proof.
  destruct fuel as [|fuel]; [done|]. cbn [node_walk].
  destruct (p =? NULL) eqn:Hp; [by apply Z.eqb_eq in Hp|].
  destruct (nodes w !! p) as [nd|]; [|done]. simpl.
  by destruct (node_walk fuel w (_next nd)).
Qed.

Lemma node_walk_cons fuel w p n l :
  node_walk fuel w p = Some (n :: l) →
  p = n ∧ n ≠ NULL ∧
  ∃ nd, nodes w !! n = Some nd ∧ node_walk (pred fuel) w (_next nd) = Some l.
Proof.
  destruct fuel as [|fuel]; [done|]. cbn [node_walk].
  destruct (p =? NULL) eqn:Hp; [done|]. apply Z.eqb_neq in Hp.
  destruct (nodes w !! p) as [nd|] eqn:Hnd; [|done]. simpl.
  destruct (node_walk fuel w (_next nd)) eqn:Hw; [|done]. simpl.
  intros [= <- <-]. split; [done|]. split; [done|]. by exists nd.
Qed.

Lemma node_walk_back_nil fuel w p : node_walk_back fuel w p = Some [] → p = NULL.
Proof.
  destruct fuel as [|fuel]; [done|]. cbn [node_walk_back].
  destruct (p =? NULL) eqn:Hp; [by apply Z.eqb_eq in Hp|].
  destruct (nodes w !! p) as [nd|]; [|done]. simpl.
  by destruct (node_walk_back fuel w (_previous nd)).
Qed.

Lemma node_walk_back_cons fuel w p n l :
  node_walk_back fuel w p = Some (n :: l) →
  p = n ∧ n ≠ NULL ∧
  ∃ nd, nodes w !! n = Some nd ∧
        node_walk_back (pred fuel) w (_previous nd) = Some l.
Proof.
  destruct fuel as [|fuel]; [done|]. cbn [node_walk_back].
  destruct (p =? NULL) eqn:Hp; [done|]. apply Z.eqb_neq in Hp.
  destruct (nodes w !! p) as [nd|] eqn:Hnd; [|done]. simpl.
  destruct (node_walk_back fuel w (_previous nd)) eqn:Hw; [|done]. simpl.
  intros [= <- <-]. split; [done|]. split; [done|]. by exists nd.
Qed.

(** The result of a walk that ends does not depend on its fuel. *)
Lemma node_walk_fuel w : ∀ fuel fuel' p l l',
  node_walk fuel w p = Some l → node_walk fuel' w p = Some l' → l = l'.
Proof.
  induction fuel as [|fuel IH]; intros fuel' p l l'; [done|].
  destruct fuel' as [|fuel']; [done|]. cbn [node_walk].
  destruct (p =? NULL); [congruence|].
  destruct (nodes w !! p) as [nd|]; [|done]. simpl.
  destruct (node_walk fuel w (_next nd)) as [r|] eqn:H1; [|done].
  destruct (node_walk fuel' w (_next nd)) as [r'|] eqn:H2; [|done]. simpl.
  intros [= <-] [= <-]. f_equal. by eapply IH.
Qed.

Lemma node_walk_from w : ∀ l1 fuel p x l2,
  node_walk fuel w p = Some (l1 ++ x :: l2) →
  ∃ fuel', node_walk fuel' w x = Some (x :: l2).
Proof.
  induction l1 as [|n l1 IH]; intros fuel p x l2 Hw.
  - simpl in Hw. pose proof (node_walk_cons _ _ _ _ _ Hw) as (-> & _). by exists fuel.
  - simpl in Hw. apply node_walk_cons in Hw as (_ & _ & nd & _ & Hw).
    by eapply IH.
Qed.

Lemma node_walk_back_from w : ∀ l1 fuel p x l2,
  node_walk_back fuel w p = Some (l1 ++ x :: l2) →
  ∃ fuel', node_walk_back fuel' w x = Some (x :: l2).
Proof.
  induction l1 as [|n l1 IH]; intros fuel p x l2 Hw.
  - simpl in Hw. pose proof (node_walk_back_cons _ _ _ _ _ Hw) as (-> & _).
    by exists fuel.
  - simpl in Hw. apply node_walk_back_cons in Hw as (_ & _ & nd & _ & Hw).
    by eapply IH.
Qed.

(** A walk that ends visits no node twice. *)
Lemma node_walk_NoDup w : ∀ l fuel p, node_walk fuel w p = Some l → NoDup l.
Proof.
  induction l as [|n l IH]; intros fuel p Hw; [constructor|].
  pose proof Hw as Hw0.
  apply node_walk_cons in Hw as (-> & _ & nd & Hnd & Hw).
  constructor; [|by eapply IH].
  intros Hin. apply list_elem_of_split in Hin as (l1 & l2 & ->).
  destruct (node_walk_from w (n :: l1) _ _ _ _ Hw0) as (fuel' & Hw').
  pose proof (node_walk_fuel _ _ _ _ _ _ Hw0 Hw') as Heq.
  apply (f_equal length) in Heq. simpl in Heq. rewrite length_app in Heq.
  simpl in Heq. lia.
Qed.

(** The segment of a forward walk whose nodes have the [_previous] fields
    of a doubly linked list. *)
Lemma node_walk_dlseg_inv w : ∀ l fuel prev p,
  node_walk fuel w p = Some l →
  (∀ l1 a l2 nd, l = l1 ++ a :: l2 → nodes w !! a = Some nd →
                 _previous nd = default prev (last l1)) →
  dlseg (nodes w) prev p l NULL.
Proof.
  induction l as [|n l IH]; intros fuel prev p Hw Hprev.
  - cbn [dlseg]. by eapply node_walk_nil.
  - apply node_walk_cons in Hw as (-> & Hnz & nd & Hnd & Hw).
    cbn [dlseg]. split; [done|]. split; [done|]. exists nd. split; [done|].
    split; [by apply (Hprev [] n l nd)|].
    apply (IH _ _ _ Hw). intros l1 a l2 nda -> Ha.
    rewrite (Hprev (n :: l1) a l2 nda eq_refl Ha). by rewrite default_last_cons.
Qed.

Lemma walks_dlist w l : walks w l → dlist w l.
Proof.
  intros [Hf Hb]. unfold ll_nodes in Hf. unfold ll_nodes_back in Hb.
  split; [|split].
  - apply (node_walk_dlseg_inv w l _ _ _ Hf).
    intros l1 a l2 nd -> Ha.
    rewrite reverse_app, reverse_cons, <- app_assoc in Hb.
    destruct (node_walk_back_from w _ _ _ _ _ Hb) as (fuel' & Hb').
    simpl in Hb'.
    apply node_walk_back_cons in Hb' as (_ & _ & nd' & Ha' & Hb').
    rewrite Ha in Ha'. injection Ha' as <-.
    destruct l1 as [|x l1 _] using rev_ind.
    + rewrite reverse_nil in Hb'. by apply node_walk_back_nil in Hb'.
    + rewrite last_snoc. simpl. rewrite reverse_snoc in Hb'.
      by apply node_walk_back_cons in Hb' as (-> & _).
  - destruct l as [|x l _] using rev_ind.
    + rewrite reverse_nil in Hb. by apply node_walk_back_nil in Hb.
    + rewrite last_snoc. simpl. rewrite reverse_snoc in Hb.
      by apply node_walk_back_cons in Hb as (-> & _).
  - by eapply node_walk_NoDup.
Qed.

Lemma dlist_walks w l : dlist w l → walks w l.
Proof.
  intros Hd. pose proof (dlist_length _ _ Hd) as Hlen.
  destruct Hd as (Hseg & Htail & Hnd). split.
  - unfold ll_nodes. apply (node_walk_dlseg w l _ NULL); [done|lia].
  - unfold ll_nodes_back. rewrite Htail.
    apply (node_walk_back_dlseg w l _ (_head (hm w)) NULL); [done|lia].
Qed.

(** *** The macros *)

(** X21. On a doubly linked list, [_HASHMAP_LL_ADD_AFTER] links an allocated node
    that the list does not hold right behind the given node: the two walks of
    the list agree on the new sequence, and the entries, the tables, the
    allocator and the entry pointers of the nodes stay as they were. *)
Theorem ll_add_after_links_the_node_behind w l1 node l2 new nd :
  walks w (l1 ++ node :: l2) →
  nodes w !! new = Some nd → new ∉ l1 ++ node :: l2 → new ≠ NULL →
  ∃ w', _HASHMAP_LL_ADD_AFTER node new w = Some (tt, w') ∧
        walks w' (l1 ++ node :: new :: l2) ∧
        list_frame w w' ∧ trace w' = trace w.
Proof.
  intros Hw Hnew Hnotin Hnz. apply walks_dlist in Hw.
  destruct (LL_ADD_AFTER_spec w l1 node l2 new nd Hw Hnew Hnotin Hnz)
    as (w' & Hrun & Hd & Hf & Ht).
  exists w'. split; [done|]. split; [by apply dlist_walks|]. done.
Qed.

(** X22. On a doubly linked list, [_HASHMAP_LL_ADD_BEFORE] links an allocated node
    that the list does not hold right before the given node: the two walks of
    the list agree on the new sequence, and the entries, the tables, the
    allocator and the entry pointers of the nodes stay as they were. *)
Theorem ll_add_before_links_the_node_in_front w l1 node l2 new nd :
  walks w (l1 ++ node :: l2) →
  nodes w !! new = Some nd → new ∉ l1 ++ node :: l2 → new ≠ NULL →
  ∃ w', _HASHMAP_LL_ADD_BEFORE node new w = Some (tt, w') ∧
        walks w' (l1 ++ new :: node :: l2) ∧
        list_frame w w' ∧ trace w' = trace w.
Proof.
  intros Hw Hnew Hnotin Hnz. apply walks_dlist in Hw.
  destruct (LL_ADD_BEFORE_spec w l1 node l2 new nd Hw Hnew Hnotin Hnz)
    as (w' & Hrun & Hd & Hf & Ht).
  exists w'. split; [done|]. split; [by apply dlist_walks|]. done.
Qed.

(** X23. On a doubly linked list, empty or not, [_HASHMAP_LL_ADD_HEAD] makes an
    allocated node that the list does not hold its first node, and its last
    node as well when the list was empty. *)
Theorem ll_add_head_links_the_node_first w l new nd :
  walks w l →
  nodes w !! new = Some nd → new ∉ l → new ≠ NULL →
  ∃ w', _HASHMAP_LL_ADD_HEAD new w = Some (tt, w') ∧
        walks w' (new :: l) ∧ _head (hm w') = new ∧
        (l = [] → _tail (hm w') = new) ∧
        list_frame w w' ∧ trace w' = trace w.
Proof.
  intros Hw Hnew Hnotin Hnz. apply walks_dlist in Hw.
  destruct (LL_ADD_HEAD_spec w l new nd Hw Hnew Hnotin Hnz)
    as (w' & Hrun & Hd & Hf & Ht).
  exists w'. split; [done|]. split; [by apply dlist_walks|].
  destruct Hd as (Hseg & Htail & _). cbn [dlseg] in Hseg.
  destruct Hseg as (Hhead & _). split; [done|]. split; [|done].
  intros ->. done.
Qed.

(** X24. On a doubly linked list, empty or not, [_HASHMAP_LL_ADD_TAIL] makes an
    allocated node that the list does not hold its last node, and its first
    node as well when the list was empty. *)
Theorem ll_add_tail_links_the_node_last w l new nd :
  walks w l →
  nodes w !! new = Some nd → new ∉ l → new ≠ NULL →
  ∃ w', _HASHMAP_LL_ADD_TAIL new w = Some (tt, w') ∧
        walks w' (l ++ [new]) ∧ _tail (hm w') = new ∧
        (l = [] → _head (hm w') = new) ∧
        list_frame w w' ∧ trace w' = trace w.
Proof.
  intros Hw Hnew Hnotin Hnz. apply walks_dlist in Hw.
  destruct (LL_ADD_TAIL_spec w l new nd Hw Hnew Hnotin Hnz)
    as (w' & Hrun & Hd & Hf & Ht).
  exists w'. split; [done|]. split; [by apply dlist_walks|].
  destruct Hd as (Hseg & Htail & _). rewrite last_snoc in Htail.
  split; [done|]. split; [|done].
  intros ->. cbn [app dlseg] in Hseg. by destruct Hseg as (-> & _).
Qed.

(** X25. On a doubly linked list, [_HASHMAP_LL_REMOVE] unlinks the given node of
    the list and frees it: the other nodes keep their order in both walks, and
    the table entry of the removed node is neither freed nor unlinked from its
    chain. *)
Theorem ll_remove_unlinks_and_frees_the_node w l1 target l2 :
  walks w (l1 ++ target :: l2) →
  ∃ w', _HASHMAP_LL_REMOVE target w = Some (tt, w') ∧
        walks w' (l1 ++ l2) ∧
        nodes w' !! target = None ∧
        trace w' = trace w ++ [Free Node target] ∧
        entries w' = entries w ∧ tables w' = tables w ∧
        same_table_fields (hm w) (hm w') ∧
        ∀ n, n ≠ target →
             _table_entry <$> nodes w' !! n = _table_entry <$> nodes w !! n.
Proof.
  intros Hw. apply walks_dlist in Hw.
  destruct (LL_REMOVE_spec w l1 target l2 Hw) as (w' & Hrun & Hd & Hrest).
  exists w'. split; [done|]. split; [by apply dlist_walks|]. done.
Qed.

(** X26. A node linked last with [_HASHMAP_LL_ADD_TAIL] and then removed with
    [_HASHMAP_LL_REMOVE] leaves the list, its head and its tail as they were,
    and the node freed. *)
Theorem ll_add_tail_then_remove_restores_the_list w l new nd :
  walks w l →
  nodes w !! new = Some nd → new ∉ l → new ≠ NULL →
  ∃ w', (_HASHMAP_LL_ADD_TAIL new ;;; _HASHMAP_LL_REMOVE new) w = Some (tt, w') ∧
        walks w' l ∧ _head (hm w') = _head (hm w) ∧ _tail (hm w') = _tail (hm w) ∧
        nodes w' !! new = None ∧ trace w' = trace w ++ [Free Node new].
Proof.
  intros Hw Hnew Hnotin Hnz. apply walks_dlist in Hw.
  destruct (LL_ADD_TAIL_spec w l new nd Hw Hnew Hnotin Hnz)
    as (w1 & Hrun1 & Hd1 & Hf1 & Ht1).
  destruct (LL_REMOVE_spec w1 l new [] Hd1)
    as (w' & Hrun2 & Hd' & Hgone & Ht2 & _).
  rewrite app_nil_r in Hd'.
  exists w'. split; [by mrun Hrun1|]. split; [by apply dlist_walks|].
  destruct Hw as (Hseg & Htail & _). destruct Hd' as (Hseg' & Htail' & _).
  split_and!.
  - destruct l as [|h l]; cbn [dlseg] in Hseg, Hseg'.
    + congruence.
    + destruct Hseg as (-> & _). by destruct Hseg' as (-> & _).
  - congruence.
  - done.
  - by rewrite Ht2, Ht1.
Qed.

(** * Growth and the put of a key that the map holds *)

(** ** The load factor test in integer arithmetic *)

Lemma digits2_pos_bounds p :
  2 ^ (Z.pos (digits2_pos p) - 1) ≤ Z.pos p < 2 ^ Z.pos (digits2_pos p).
Proof.
  induction p as [p IH|p IH|]; cbn [digits2_pos].
  - rewrite Pos2Z.inj_succ.
    replace (Z.succ (Z.pos (digits2_pos p)) - 1) with (Z.pos (digits2_pos p)) by lia.
    rewrite Z.pow_succ_r by lia.
    assert (2 ^ (Z.pos (digits2_pos p)) = 2 * 2 ^ (Z.pos (digits2_pos p) - 1)) as Hp.
    { rewrite <- Z.pow_succ_r by lia. f_equal. lia. }
    lia.
  - rewrite Pos2Z.inj_succ.
    replace (Z.succ (Z.pos (digits2_pos p)) - 1) with (Z.pos (digits2_pos p)) by lia.
    rewrite Z.pow_succ_r by lia.
    assert (2 ^ (Z.pos (digits2_pos p)) = 2 * 2 ^ (Z.pos (digits2_pos p) - 1)) as Hp.
    { rewrite <- Z.pow_succ_r by lia. f_equal. lia. }
    lia.
  - simpl. lia.
Qed.

Lemma digits2_pos_unique p d :
  2 ^ (d - 1) ≤ Z.pos p < 2 ^ d → Z.pos (digits2_pos p) = d.
Proof.
  intros [Hlo Hhi]. pose proof (digits2_pos_bounds p) as [Hlo' Hhi'].
  assert (0 < d) as Hd.
  { destruct (decide (0 < d)); [done|].
    assert (2 ^ d ≤ 2 ^ 0) by (apply Z.pow_le_mono_r; lia) || idtac.
    destruct (decide (d = 0)) as [->|]; [simpl in Hhi; lia|].
    rewrite Z.pow_neg_r in Hhi by lia. lia. }
  destruct (Z.lt_trichotomy (Z.pos (digits2_pos p)) d) as [Hlt|[Heq|Hgt]]; [|done|].
  - assert (2 ^ Z.pos (digits2_pos p) ≤ 2 ^ (d - 1)) by (apply Z.pow_le_mono_r; lia).
    lia.
  - assert (2 ^ d ≤ 2 ^ (Z.pos (digits2_pos p) - 1)) by (apply Z.pow_le_mono_r; lia).
    lia.
Qed.

Lemma iter_xO_pow m d : Z.pos (Pos.iter xO m d) = Z.pos m * 2 ^ Z.pos d.
Proof.
  induction d as [|d IH] using Pos.peano_ind.
  - simpl. lia.
  - rewrite Pos.iter_succ, Pos2Z.inj_xO, IH, Pos2Z.inj_succ, Z.pow_succ_r by lia. lia.
Qed.

Lemma fexp_normal e : -1021 ≤ e → fexp 53 1024 e = e - 53.
Proof. intros He. unfold fexp, emin. lia. Qed.

(** A mantissa of 53 digits is not shifted. *)
Lemma shr_fexp_53 m e l :
  Z.pos (digits2_pos m) = 53 → -1074 ≤ e →
  shr_fexp 53 1024 (Z.pos m) e l = (shr_record_of_loc (Z.pos m) l, e).
Proof.
  intros Hd He. unfold shr_fexp. cbn [Zdigits2]. rewrite Hd, fexp_normal by lia.
  replace (53 + e - 53 - e) with 0 by lia. done.
Qed.

(** A mantissa of 54 digits is shifted by one digit. *)
Lemma shr_fexp_54 m e l :
  Z.pos (digits2_pos m) = 54 → -1075 ≤ e →
  shr_fexp 53 1024 (Z.pos m) e l = (shr_1 (shr_record_of_loc (Z.pos m) l), e + 1).
Proof.
  intros Hd He. unfold shr_fexp. cbn [Zdigits2]. rewrite Hd, fexp_normal by lia.
  replace (54 + e - 53 - e) with 1 by lia. done.
Qed.

Lemma loc_of_shr_record_of_loc m l :
  loc_of_shr_record (shr_record_of_loc m l) = l.
Proof. by destruct l as [|[]]. Qed.

Lemma shr_m_record_of_loc m l : shr_m (shr_record_of_loc m l) = m.
Proof. by destruct l as [|[]]. Qed.

Lemma binary_round_aux_exact s m e :
  Z.pos (digits2_pos m) = 53 → -1074 ≤ e ≤ 971 →
  binary_round_aux 53 1024 s (Z.pos m) e loc_Exact = S754_finite s m e.
Proof.
  intros Hd He. unfold binary_round_aux.
  rewrite shr_fexp_53 by (done || lia). cbn [shr_record_of_loc shr_m loc_of_shr_record round_nearest_even].
  rewrite shr_fexp_53 by (done || lia). cbn [shr_record_of_loc shr_m].
  assert ((e <=? 1024 - 53) = true) as -> by (apply Z.leb_le; lia). done.
Qed.

(** The conversion of an integer below 2^53 is exact: the mantissa has 53
    digits, and the value is the integer. *)
Lemma double_of_size_t_exact n :
  0 < n < 2 ^ 53 →
  ∃ m e, double_of_size_t n = S754_finite false m e ∧
         Z.pos (digits2_pos m) = 53 ∧ -52 ≤ e ≤ 0 ∧
         Z.pos m = n * 2 ^ (- e) ∧ 2 ^ (52 + e) ≤ n < 2 ^ (53 + e).
Proof.
  intros [Hpos Hlt]. destruct n as [|p|p]; [lia| |lia].
  pose proof (digits2_pos_bounds p) as [Hlo Hhi].
  set (d := Z.pos (digits2_pos p)) in *.
  assert (1 ≤ d ≤ 53) as Hd.
  { split; [unfold d; lia|].
    destruct (decide (d ≤ 53)); [done|].
    assert (2 ^ 53 ≤ 2 ^ (d - 1)) by (apply Z.pow_le_mono_r; lia). lia. }
  unfold double_of_size_t, binary_normalize, binary_round, shl_align.
  fold d. rewrite fexp_normal by lia.
  replace (d + 0 - 53 - 0) with (d - 53) by lia.
  destruct (d - 53) as [|q|q] eqn:Hq; [|lia|].
  - exists p, 0. rewrite binary_round_aux_exact by (fold d; lia).
    assert (d = 53) as Hd53 by lia. rewrite Hd53 in *.
    split; [done|]. split; [done|]. split; [lia|]. split; [simpl; lia|]. simpl in *. lia.
  - exists (Pos.iter xO p q), (d + 0 - 53).
    assert (Z.pos (Pos.iter xO p q) = Z.pos p * 2 ^ Z.pos q) as Hm by apply iter_xO_pow.
    assert (Z.pos q = 53 - d) as Hq' by lia.
    assert (Z.pos (digits2_pos (Pos.iter xO p q)) = 53) as Hd53.
    { apply digits2_pos_unique. rewrite Hm, Hq'.
      assert (2 ^ (53 - 1) = 2 ^ (d - 1) * 2 ^ (53 - d)) as ->
        by (rewrite <- Z.pow_add_r by lia; f_equal; lia).
      assert (2 ^ 53 = 2 ^ d * 2 ^ (53 - d)) as ->
        by (rewrite <- Z.pow_add_r by lia; f_equal; lia).
      assert (0 < 2 ^ (53 - d)) by (apply Z.pow_pos_nonneg; lia). nia. }
    rewrite binary_round_aux_exact by (done || lia).
    split; [done|]. split; [done|]. split; [lia|].
    replace (- (d + 0 - 53)) with (53 - d) by lia. split; [by rewrite Hm, Hq'|].
    replace (52 + (d + 0 - 53)) with (d - 1) by lia.
    replace (53 + (d + 0 - 53)) with d by lia. done.
Qed.

Lemma SFdiv_core_53 m1 e1 m2 e2 :
  Z.pos (digits2_pos m1) = 53 → Z.pos (digits2_pos m2) = 53 →
  -1021 ≤ e1 - e2 →
  SFdiv_core_binary 53 1024 (Z.pos m1) e1 (Z.pos m2) e2
  = ((Z.pos m1 * 2 ^ 53) / Z.pos m2, e1 - e2 - 53,
     new_location (Z.pos m2) ((Z.pos m1 * 2 ^ 53) mod Z.pos m2)).
Proof.
  intros Hd1 Hd2 He. unfold SFdiv_core_binary. cbn [Zdigits2].
  rewrite Hd1, Hd2.
  replace (53 + e1 - (53 + e2)) with (e1 - e2) by lia.
  rewrite fexp_normal by lia.
  rewrite Z.min_l by lia.
  replace (e1 - e2 - (e1 - e2 - 53)) with 53 by lia.
  rewrite Z.shiftl_mul_pow2 by lia.
  unfold Z.div, Z.modulo.
  by destruct (Z.div_eucl (Z.pos m1 * 2 ^ 53) (Z.pos m2)) as [q r].
Qed.

(** Where the remainder [r] of a division by [D] stands against [D / 2]. *)
Lemma new_location_spec D r :
  0 < D → 0 ≤ r < D →
  match new_location D r with
  | loc_Exact => r = 0
  | loc_Inexact Lt => 0 < r ∧ 2 * r < D
  | loc_Inexact Eq => 0 < r ∧ 2 * r = D
  | loc_Inexact Gt => D < 2 * r
  end.
Proof.
  intros HD Hr. unfold new_location, new_location_even, new_location_odd.
  destruct (Z.even D) eqn:Hev.
  - destruct (r =? 0) eqn:Hr0; [by apply Z.eqb_eq in Hr0|].
    apply Z.eqb_neq in Hr0.
    destruct (Z.compare_spec (2 * r) D); lia.
  - destruct (r =? 0) eqn:Hr0; [by apply Z.eqb_eq in Hr0|].
    apply Z.eqb_neq in Hr0.
    assert (Z.odd D = true) as Hodd by (by rewrite <- Z.negb_even, Hev).
    apply Z.odd_spec in Hodd as [c Hc].
    destruct (Z.compare_spec (2 * r + 1) D); lia.
Qed.

(** Rounding to nearest moves a mantissa by at most one, and not at all
    when the rest is below one half. *)
Lemma round_nearest_even_bounds m l :
  m ≤ round_nearest_even m l ≤ m + 1.
Proof. destruct l as [|[]]; simpl; [lia| |lia|lia]. destruct (Z.even m); lia. Qed.

Lemma round_nearest_even_down m l :
  l = loc_Exact ∨ l = loc_Inexact Lt → round_nearest_even m l = m.
Proof. by intros [-> | ->]. Qed.

Lemma shr_1_pos q r s :
  shr_1 {| shr_m := Z.pos q; shr_r := r; shr_s := s |}
  = {| shr_m := Z.pos q / 2; shr_r := Z.odd (Z.pos q); shr_s := r || s |}.
Proof.
  destruct q as [q|q|]; cbn [shr_1].
  - f_equal. rewrite Pos2Z.inj_xI. apply Z.div_unique with 1; lia.
  - f_equal. rewrite Pos2Z.inj_xO. apply Z.div_unique with 0; lia.
  - done.
Qed.

(** [x >= 0.75] for a positive finite double [x]. *)
Lemma double_ge_LIM m e :
  double_ge (S754_finite false m e) _LOAD_FACTOR_LIM
  = (-53 <? e) || ((e =? -53) && (6755399441055744 <=? Z.pos m)).
Proof.
  unfold double_ge, SFleb, _LOAD_FACTOR_LIM, SFcompare.
  destruct (Z.compare_spec (-53) e) as [<-|Hlt|Hgt].
  - rewrite Z.ltb_irrefl, Z.eqb_refl. cbn [orb andb].
    change (Pos.compare_cont Eq 6755399441055744 m)
      with (Z.pos 6755399441055744 ?= Z.pos m).
    destruct (Z.compare_spec (Z.pos 6755399441055744) (Z.pos m)) as [H|H|H].
    + symmetry. apply Z.leb_le. lia.
    + symmetry. apply Z.leb_le. lia.
    + symmetry. apply Z.leb_gt. lia.
  - assert ((-53 <? e) = true) as -> by (apply Z.ltb_lt; lia). done.
  - assert ((-53 <? e) = false) as -> by (apply Z.ltb_ge; lia).
    assert ((e =? -53) = false) as -> by (apply Z.eqb_neq; lia). done.
Qed.

(** The second half of [binary_round_aux], on a mantissa of 53 digits with
    its rounding bits, compared with 0.75. *)
Lemma round_fit_ge mrs h e :
  shr_m mrs = Z.pos h → Z.pos (digits2_pos h) = 53 → -1074 ≤ e ≤ 900 →
  double_ge
    (let '(mrs'', e'') :=
       shr_fexp 53 1024
         (round_nearest_even (shr_m mrs) (loc_of_shr_record mrs)) e loc_Exact in
     match shr_m mrs'' with
     | 0 => S754_zero false
     | Z.pos m =>
         if e'' <=? 1024 - 53 then S754_finite false m e'' else S754_infinity false
     | Z.neg _ => S754_nan
     end) _LOAD_FACTOR_LIM
  = let q' := round_nearest_even (Z.pos h) (loc_of_shr_record mrs) in
    if q' <? 2 ^ 53
    then (-53 <? e) || ((e =? -53) && (6755399441055744 <=? q'))
    else (-54 <? e).
Proof.
  intros Hm Hd He. rewrite Hm. cbv zeta.
  pose proof (round_nearest_even_bounds (Z.pos h) (loc_of_shr_record mrs)) as Hq.
  pose proof (digits2_pos_bounds h) as Hh. rewrite Hd in Hh.
  destruct (round_nearest_even (Z.pos h) (loc_of_shr_record mrs)) as [|q'|q'] eqn:Hq';
    [lia| |lia].
  destruct (Z.ltb_spec (Z.pos q') (2 ^ 53)) as [Hlt|Hge].
  - assert (Z.pos (digits2_pos q') = 53) as Hd' by (apply digits2_pos_unique; lia).
    rewrite shr_fexp_53 by (done || lia). cbn [shr_record_of_loc shr_m].
    assert ((e <=? 1024 - 53) = true) as -> by (apply Z.leb_le; lia).
    apply double_ge_LIM.
  - assert (Z.pos q' = 2 ^ 53) as Heq by lia.
    assert (q' = 9007199254740992%positive) as -> by lia.
    rewrite shr_fexp_54 by (done || lia).
    cbn [shr_record_of_loc shr_1 shr_m orb].
    assert ((e + 1 <=? 1024 - 53) = true) as -> by (apply Z.leb_le; lia).
    rewrite double_ge_LIM.
    destruct (Z.ltb_spec (-54) e) as [H1|H1].
    + assert ((-53 <? e + 1) = true) as -> by (apply Z.ltb_lt; lia). done.
    + assert ((-53 <? e + 1) = false) as -> by (apply Z.ltb_ge; lia).
      cbn [orb]. apply andb_false_r.
Qed.

(** The quotient of two doubles with mantissas of 53 digits, compared with
    0.75: the comparison in terms of the integer quotient [q] of the
    mantissas, its remainder, and the difference of the exponents. *)
Lemma double_div_ge_LIM m1 e1 m2 e2 :
  Z.pos (digits2_pos m1) = 53 → Z.pos (digits2_pos m2) = 53 →
  -52 ≤ e1 ≤ 0 → -52 ≤ e2 ≤ 0 →
  let N := Z.pos m1 * 2 ^ 53 in
  let D := Z.pos m2 in
  let l := new_location D (N mod D) in
  double_ge (double_div (S754_finite false m1 e1) (S754_finite false m2 e2))
    _LOAD_FACTOR_LIM
  = if N / D <? 2 ^ 53 then
      let q' := round_nearest_even (N / D) l in
      if q' <? 2 ^ 53
      then (0 <? e1 - e2) || ((e1 - e2 =? 0) && (6755399441055744 <=? q'))
      else (-1 <? e1 - e2)
    else
      let l' := loc_of_shr_record
                  {| shr_m := N / D / 2; shr_r := Z.odd (N / D);
                     shr_s := negb (N mod D =? 0) |} in
      let q' := round_nearest_even (N / D / 2) l' in
      if q' <? 2 ^ 53
      then (-1 <? e1 - e2) || ((e1 - e2 =? -1) && (6755399441055744 <=? q'))
      else (-2 <? e1 - e2).
Proof.
  intros Hd1 Hd2 He1 He2 N D l.
  pose proof (digits2_pos_bounds m1) as Hm1. rewrite Hd1 in Hm1.
  pose proof (digits2_pos_bounds m2) as Hm2. rewrite Hd2 in Hm2.
  assert (0 < D) as HD by (unfold D; lia).
  pose proof (Z.div_mod N D ltac:(lia)) as Hdm.
  pose proof (Z.mod_pos_bound N D HD) as Hr.
  assert (2 ^ 52 ≤ N / D < 2 ^ 54) as Hq.
  { split.
    - apply Z.div_le_lower_bound; [lia|]. unfold N, D. nia.
    - apply Z.div_lt_upper_bound; [lia|]. unfold N, D. nia. }
  unfold double_div, SFdiv. rewrite SFdiv_core_53 by (done || lia).
  fold N D l. cbn [xorb].
  destruct (N / D) as [|q|q] eqn:Hqe; [lia| |lia].
  unfold binary_round_aux.
  destruct (Z.ltb_spec (Z.pos q) (2 ^ 53)) as [Hlt|Hge].
  - assert (Z.pos (digits2_pos q) = 53) as Hdq by (apply digits2_pos_unique; lia).
    rewrite shr_fexp_53 by (done || lia).
    rewrite round_fit_ge with (h := q); [|apply shr_m_record_of_loc|done|lia].
    rewrite loc_of_shr_record_of_loc. cbv zeta.
    destruct (round_nearest_even (Z.pos q) l <? 2 ^ 53).
    + f_equal; [|f_equal]; apply eq_iff_eq_true.
      * rewrite !Z.ltb_lt. lia.
      * rewrite !Z.eqb_eq. lia.
    + apply eq_iff_eq_true. rewrite !Z.ltb_lt. lia.
  - assert (Z.pos (digits2_pos q) = 54) as Hdq by (apply digits2_pos_unique; lia).
    rewrite shr_fexp_54 by (done || lia).
    assert (shr_1 (shr_record_of_loc (Z.pos q) l)
            = {| shr_m := Z.pos q / 2; shr_r := Z.odd (Z.pos q);
                 shr_s := negb (N mod D =? 0) |}) as ->.
    { pose proof (new_location_spec D (N mod D) HD Hr) as Hl. fold l in Hl.
      destruct l as [|[]]; cbn [shr_record_of_loc]; rewrite shr_1_pos; f_equal;
        cbn [orb]; [by rewrite Hl|symmetry; apply negb_true_iff, Z.eqb_neq; lia..]. }
    assert (2 ^ 52 ≤ Z.pos q / 2 < 2 ^ 53) as Hh.
    { split; [apply Z.div_le_lower_bound; lia|apply Z.div_lt_upper_bound; lia]. }
    destruct (Z.pos q / 2) as [|h|h] eqn:Hhe; [lia| |lia].
    assert (Z.pos (digits2_pos h) = 53) as Hdh by (apply digits2_pos_unique; lia).
    rewrite round_fit_ge with (h := h); [|done|done|lia].
    cbv zeta.
    match goal with |- (if ?c then _ else _) = _ => destruct c end.
    + f_equal; [|f_equal]; apply eq_iff_eq_true.
      * rewrite !Z.ltb_lt. lia.
      * rewrite !Z.eqb_eq. lia.
    + apply eq_iff_eq_true. rewrite !Z.ltb_lt. lia.
Qed.

Lemma pow2_exponents e1 e2 :
  e1 ≤ 0 → e2 ≤ 0 →
  0 < 2 ^ (- e1) ∧ 0 < 2 ^ (- e2) ∧
  (1 ≤ e1 - e2 → 2 * 2 ^ (- e1) ≤ 2 ^ (- e2)) ∧
  (e1 - e2 = 0 → 2 ^ (- e1) = 2 ^ (- e2)) ∧
  (e1 - e2 = -1 → 2 ^ (- e1) = 2 * 2 ^ (- e2)) ∧
  (e1 - e2 ≤ -1 → 2 * 2 ^ (- e2) ≤ 2 ^ (- e1)) ∧
  (e1 - e2 ≤ -2 → 4 * 2 ^ (- e2) ≤ 2 ^ (- e1)).
Proof.
  intros He1 He2.
  assert (∀ x y, 0 ≤ x → 0 ≤ y → 2 ^ (x + y) = 2 ^ x * 2 ^ y) as Hadd
    by (intros; by apply Z.pow_add_r).
  assert (∀ x y, 0 ≤ x ≤ y → 2 ^ x ≤ 2 ^ y) as Hmono
    by (intros; apply Z.pow_le_mono_r; lia).
  split; [apply Z.pow_pos_nonneg; lia|]. split; [apply Z.pow_pos_nonneg; lia|].
  split_and!.
  - intros H. replace (- e2) with (1 + (- e1 + (e1 - e2 - 1))) by lia.
    rewrite Hadd, Hadd by lia.
    assert (0 < 2 ^ (- e1)) by (apply Z.pow_pos_nonneg; lia).
    assert (1 ≤ 2 ^ (e1 - e2 - 1)) by (apply (Hmono 0); lia).
    change (2 ^ 1) with 2. nia.
  - intros H. f_equal. lia.
  - intros H. replace (- e1) with (1 + - e2) by lia. by rewrite Hadd by lia.
  - intros H. replace (- e1) with (1 + (- e2 + (e2 - e1 - 1))) by lia.
    rewrite Hadd, Hadd by lia.
    assert (0 < 2 ^ (- e2)) by (apply Z.pow_pos_nonneg; lia).
    assert (1 ≤ 2 ^ (e2 - e1 - 1)) by (apply (Hmono 0); lia).
    change (2 ^ 1) with 2. nia.
  - intros H. replace (- e1) with (2 + (- e2 + (e2 - e1 - 2))) by lia.
    rewrite Hadd, Hadd by lia.
    assert (0 < 2 ^ (- e2)) by (apply Z.pow_pos_nonneg; lia).
    assert (1 ≤ 2 ^ (e2 - e1 - 2)) by (apply (Hmono 0); lia).
    change (2 ^ 2) with 4. nia.
Qed.

(** The test of [HASHMAP_PUT] on the load factor, in integer arithmetic:
    for a counter below 2^53 and a table size below 2^52 the division and
    the comparison of doubles decide [4 * n >= 3 * ts] exactly. *)
Lemma load_test_exact n ts :
  0 ≤ n < 2 ^ 53 → 0 < ts < 2 ^ 52 →
  double_ge (double_div (double_of_size_t n) (double_of_size_t ts))
    _LOAD_FACTOR_LIM
  = (3 * ts <=? 4 * n).
Proof.
  intros Hn Hts.
  destruct (double_of_size_t_exact ts ltac:(lia))
    as (m2 & e2 & -> & Hd2 & He2 & Hb & Hts').
  destruct (decide (n = 0)) as [->|Hn0].
  { assert ((3 * ts <=? 4 * 0) = false) as -> by (apply Z.leb_gt; lia). done. }
  destruct (double_of_size_t_exact n ltac:(lia))
    as (m1 & e1 & -> & Hd1 & He1 & Ha & Hn').
  rewrite double_div_ge_LIM by (done || lia). cbv zeta.
  pose proof (digits2_pos_bounds m1) as Hm1. rewrite Hd1 in Hm1.
  pose proof (digits2_pos_bounds m2) as Hm2. rewrite Hd2 in Hm2.
  set (a := Z.pos m1) in *. set (b := Z.pos m2) in *.
  set (N := a * 2 ^ 53). 
  assert (0 < b) as HD by lia.
  pose proof (Z.div_mod N b ltac:(lia)) as Hdm.
  pose proof (Z.mod_pos_bound N b HD) as Hr.
  pose proof (new_location_spec b (N mod b) HD Hr) as Hl.
  set (q := N / b) in *. set (r := N mod b) in *.
  destruct (pow2_exponents e1 e2 ltac:(lia) ltac:(lia))
    as (HK1 & HK2 & Hd_pos & Hd_zero & Hd_one & Hd_neg & Hd_neg2).
  set (K1 := 2 ^ (- e1)) in *. set (K2 := 2 ^ (- e2)) in *.
  set (d := e1 - e2) in *.
  assert (b < 4503599627370496 * K2) as Hgap.
  { rewrite Hb. apply Z.mul_lt_mono_pos_r; lia. }
  assert (N = a * 9007199254740992) as HN by (unfold N; lia).
  assert (q * b ≤ N < (q + 1) * b) as Hqb by lia.
  clearbody K1 K2 d q r N a b. clear Hn' Hts' Hd1 Hd2 m1 m2.
  destruct (Z.ltb_spec q (2 ^ 53)) as [Hq53|Hq54].
  - (* the quotient of the mantissas is below 1 *)
    assert (a < b) as Hab by (clear - Hq53 Hqb HN HD Hn Hts; nia).
    pose proof (round_nearest_even_bounds q (new_location b r)) as Hrb.
    destruct (Z.ltb_spec (round_nearest_even q (new_location b r)) (2 ^ 53))
      as [Hq'|Hq'].
    + destruct (Z.ltb_spec 0 d) as [Hd1'|Hd1'].
      { cbn [orb]. symmetry. apply Z.leb_le. specialize (Hd_pos ltac:(lia)).
        clear - Hd_pos Ha Hb Hm1 Hm2 HK1 HK2 Hts Hn. nia. }
      cbn [orb]. destruct (Z.eqb_spec d 0) as [Hd0|Hd0]; cbn [andb].
      * specialize (Hd_zero Hd0). subst K1.
        apply eq_iff_eq_true. rewrite !Z.leb_le. split.
        -- intros Hge. destruct (decide (3 * ts ≤ 4 * n)) as [|Hno]; [done|].
           exfalso.
           assert (4 * a + K2 ≤ 3 * b) as H1 by (clear - Ha Hb Hno HK2 Hn Hts; nia).
           assert (b < 2 * (6755399441055744 * b - N)) as H2 by lia.
           assert (q < 6755399441055744) as H3
             by (apply (Z.mul_lt_mono_pos_r b); lia).
           assert (q = 6755399441055743) as H4 by lia.
           assert (2 * r < b) as H5 by (rewrite H4 in Hdm; lia).
           destruct (new_location b r) as [|[]]; simpl in Hge; [lia|lia|lia|lia].
        -- intros HT.
           assert (3 * b ≤ 4 * a) as H1 by (clear - Ha Hb HT HK2 Hn Hts; nia).
           assert (6755399441055744 < q + 1) as H2
             by (apply (Z.mul_lt_mono_pos_r b); lia).
           lia.
      * symmetry. apply Z.leb_gt. specialize (Hd_neg ltac:(lia)).
        clear - Hd_neg Ha Hb Hab HK1 HK2 Hts Hn. nia.
    + destruct (Z.ltb_spec (-1) d) as [Hd1'|Hd1'].
      * symmetry. apply Z.leb_le.
        destruct (decide (d = 0)) as [Hd0|Hd0].
        -- specialize (Hd_zero Hd0). subst K1.
           assert (q = 9007199254740991) as H1 by lia.
           assert (3 * b ≤ 4 * a) as H2 by (rewrite H1 in Hqb; lia).
           clear - H2 Ha Hb HK2 Hn Hts. nia.
        -- specialize (Hd_pos ltac:(lia)).
           clear - Hd_pos Ha Hb Hm1 Hm2 HK1 HK2 Hts Hn. nia.
      * symmetry. apply Z.leb_gt. specialize (Hd_neg ltac:(lia)).
        clear - Hd_neg Ha Hb Hab HK1 HK2 Hts Hn. nia.
  - (* the quotient of the mantissas is at least 1 *)
    assert (q < 2 ^ 54) as Hq54'.
    { apply (Z.mul_lt_mono_pos_r b); [lia|].
      assert (a * 9007199254740992 < 18014398509481984 * b)
        by (clear - Hm1 Hm2 Hn Hts; lia). lia. }
    pose proof (Z.div_mod q 2 ltac:(lia)) as Hq2.
    pose proof (Z.mod_pos_bound q 2 ltac:(lia)) as Hq2'.
    set (l' := loc_of_shr_record
                 {| shr_m := q `div` 2; shr_r := Z.odd q; shr_s := negb (r =? 0) |}).
    pose proof (round_nearest_even_bounds (q `div` 2) l') as Hrb.
    assert (2 * a < 4 * b) as Hab2 by (clear - Hm1 Hm2 Hn Hts; lia).
    assert (b ≤ a) as Hab.
    { apply (Z.mul_le_mono_pos_r _ _ 9007199254740992); [lia|].
      assert (9007199254740992 * b ≤ q * b)
        by (apply Z.mul_le_mono_nonneg_r; lia). lia. }
    destruct (Z.ltb_spec (round_nearest_even (q `div` 2) l') (2 ^ 53)) as [Hq'|Hq'].
    + destruct (Z.ltb_spec (-1) d) as [Hd1'|Hd1'].
      { cbn [orb]. symmetry. apply Z.leb_le.
        destruct (decide (d = 0)) as [Hd0|Hd0].
        - specialize (Hd_zero Hd0). subst K1. clear - Hab Ha Hb HK2 Hn Hts. nia.
        - specialize (Hd_pos ltac:(lia)).
          clear - Hd_pos Ha Hb Hm1 Hm2 HK1 HK2 Hts Hn. nia. }
      cbn [orb]. destruct (Z.eqb_spec d (-1)) as [Hd0|Hd0]; cbn [andb].
      * specialize (Hd_one Hd0). subst K1.
        apply eq_iff_eq_true. rewrite !Z.leb_le. split.
        -- intros Hge. destruct (decide (3 * ts ≤ 4 * n)) as [|Hno]; [done|].
           exfalso.
           assert (2 * a + K2 ≤ 3 * b) as H1 by (clear - Ha Hb Hno HK2 Hn Hts; nia).
           assert (b < 13510798882111488 * b - N) as H2 by lia.
           assert (q < 13510798882111487) as H3
             by (apply (Z.mul_lt_mono_pos_r b); lia).
           assert (q `div` 2 = 6755399441055743) as H4 by lia.
           assert (q = 13510798882111486) as H5 by lia.
           assert (Z.odd q = false) as H6 by (by rewrite H5).
           unfold l' in Hge. rewrite H6 in Hge.
           destruct (negb (r =? 0)); simpl in Hge; lia.
        -- intros HT.
           assert (3 * b ≤ 2 * a) as H1 by (clear - Ha Hb HT HK2 Hn Hts; nia).
           assert (13510798882111488 < q + 1) as H2
             by (apply (Z.mul_lt_mono_pos_r b); lia).
           lia.
      * symmetry. apply Z.leb_gt. specialize (Hd_neg2 ltac:(lia)).
        clear - Hd_neg2 Ha Hb Hab2 HK1 HK2 Hts Hn. nia.
    + destruct (Z.ltb_spec (-2) d) as [Hd1'|Hd1'].
      * symmetry. apply Z.leb_le.
        destruct (decide (d = -1)) as [Hd0|Hd0].
        -- specialize (Hd_one Hd0). subst K1.
           assert (18014398509481982 ≤ q) as H1 by lia.
           assert (18014398509481982 * b ≤ q * b) as H1'
             by (apply Z.mul_le_mono_nonneg_r; lia).
           assert (3 * b ≤ 2 * a) as H2 by lia.
           clear - H2 Ha Hb HK2 Hn Hts. nia.
        -- destruct (decide (d = 0)) as [Hd0'|Hd0'].
           ++ specialize (Hd_zero Hd0'). subst K1. clear - Hab Ha Hb HK2 Hn Hts. nia.
           ++ specialize (Hd_pos ltac:(lia)).
              clear - Hd_pos Ha Hb Hm1 Hm2 HK1 HK2 Hts Hn. nia.
      * symmetry. apply Z.leb_gt. specialize (Hd_neg2 ltac:(lia)).
        clear - Hd_neg2 Ha Hb Hab2 HK1 HK2 Hts Hn. nia.
Qed.

(** ** Runs whose requests are granted *)

(** ** Puts that find their memory *)

#[local] Instance grants_refl : Reflexive grants.
Proof. intros w. exists []. by rewrite app_nil_r. Qed.

#[local] Instance grants_trans : Transitive grants.
Proof.
  intros w1 w2 w3 (evs1 & Ht1 & Hb1 & Hg1) (evs2 & Ht2 & Hb2 & Hg2).
  exists (evs1 ++ evs2). split; [by rewrite Ht2, Ht1, app_assoc|].
  split; [by auto|]. intros Hb Hg.
  destruct (Hg1 Hb Hg) as [Hg' Hf1]. destruct (Hg2 (Hb1 Hb) Hg') as [Hg'' Hf2].
  split; [done|]. by apply Forall_app.
Qed.

Lemma grants_same w w' :
  trace w' = trace w → brk w' = brk w → oracle w' = oracle w → grants w w'.
Proof.
  intros Ht Hb Ho. exists []. split; [by rewrite app_nil_r|].
  split; [by rewrite Hb|]. intros _ Hg. split; [|done].
  unfold granted. by rewrite Ho.
Qed.

Lemma grants_put_hm m : respects grants (put_hm m).
Proof. intros w r w' [= _ <-]. by apply grants_same. Qed.

Lemma grants_store_entry p e : respects grants (store_entry p e).
Proof.
  intros w r w' H. unfold store_entry in H.
  destruct (entries w !! p); [|done]. injection H as _ <-. by apply grants_same.
Qed.

Lemma grants_store_node p n : respects grants (store_node p n).
Proof.
  intros w r w' H. unfold store_node in H.
  destruct (nodes w !! p); [|done]. injection H as _ <-. by apply grants_same.
Qed.

Lemma grants_store_cell t i p : respects grants (store_cell t i p).
Proof.
  intros w r w' H. unfold store_cell in H.
  destruct (tables w !! t); [|done]. simpl in H.
  destruct (bool_decide _); [|done]. injection H as _ <-. by apply grants_same.
Qed.

Lemma granted_tl w : granted w → Forall (λ b, b = true) (tl (oracle w)).
Proof. unfold granted. destruct (oracle w); [done|]. by inversion 1. Qed.

Lemma granted_hd w : granted w → hd true (oracle w) = true.
Proof. unfold granted. destruct (oracle w); [done|]. by inversion 1. Qed.

(** An allocation of [nmemb] objects of kind [k]. *)
Lemma grants_calloc k nmemb size w ok w1 p w' :
  calloc_ok nmemb size w = Some (ok, w1) →
  trace w' = trace w1 ++ [Calloc k p] →
  oracle w' = oracle w1 →
  (if ok then p = brk w ∧ brk w' = brk w + 1 else p = NULL ∧ brk w' = brk w) →
  (SIZE_MAX < nmemb * size → k = Table) →
  grants w w'.
Proof.
  intros Hok Ht Ho Hp Hbig. unfold calloc_ok in Hok.
  exists [Calloc k p].
  destruct (bool_decide (SIZE_MAX < nmemb * size)) eqn:Hsz.
  - apply bool_decide_eq_true in Hsz. injection Hok as <- <-.
    destruct Hp as [-> Hb]. split; [done|]. split; [by rewrite Hb|].
    intros _ Hg. split; [unfold granted; by rewrite Ho|].
    apply Forall_singleton. intros _. by apply Hbig.
  - injection Hok as <- <-. split; [done|].
    destruct (hd true (oracle w)) eqn:Hhd.
    + destruct Hp as [-> Hb]. split; [rewrite Hb; lia|].
      intros Hbrk Hg. split; [unfold granted; rewrite Ho; by apply granted_tl|].
      apply Forall_singleton. simpl. intros Hz. apply Z.eqb_eq in Hz.
      unfold NULL in Hz. lia.
    + destruct Hp as [-> Hb]. split; [by rewrite Hb|].
      intros _ Hg. apply granted_hd in Hg. congruence.
Qed.

Lemma grants_calloc_entry : respects grants calloc_entry.
Proof.
  intros w r w' H. unfold calloc_entry in H.
  apply bind_Some in H as (ok & w1 & Hok & H).
  assert (brk w1 = brk w) as Hb.
  { unfold calloc_ok in Hok. destruct (bool_decide _); by injection Hok as _ <-. }
  destruct ok; injection H as <- <-.
  - apply (grants_calloc Entry 1 sizeof_entry w true w1 (brk w1)); wsimpl;
      rewrite ?Hb; try done.
  - apply (grants_calloc Entry 1 sizeof_entry w false w1 NULL); wsimpl;
      rewrite ?Hb; try done.
Qed.

Lemma grants_calloc_node : respects grants calloc_node.
Proof.
  intros w r w' H. unfold calloc_node in H.
  apply bind_Some in H as (ok & w1 & Hok & H).
  assert (brk w1 = brk w) as Hb.
  { unfold calloc_ok in Hok. destruct (bool_decide _); by injection Hok as _ <-. }
  destruct ok; injection H as <- <-.
  - apply (grants_calloc Node 1 sizeof_node w true w1 (brk w1)); wsimpl;
      rewrite ?Hb; try done.
  - apply (grants_calloc Node 1 sizeof_node w false w1 NULL); wsimpl;
      rewrite ?Hb; try done.
Qed.

Lemma grants_calloc_table nmemb : respects grants (calloc_table nmemb).
Proof.
  intros w r w' H. unfold calloc_table in H.
  apply bind_Some in H as (ok & w1 & Hok & H).
  assert (brk w1 = brk w) as Hb.
  { unfold calloc_ok in Hok. destruct (bool_decide _); by injection Hok as _ <-. }
  destruct ok; injection H as <- <-.
  - apply (grants_calloc Table nmemb sizeof_ptr w true w1 (brk w1)); wsimpl;
      rewrite ?Hb; try done.
  - apply (grants_calloc Table nmemb sizeof_ptr w false w1 NULL); wsimpl;
      rewrite ?Hb; try done.
Qed.

Lemma grants_free k p w w' :
  trace w' = trace w ++ [Free k p] → brk w' = brk w → oracle w' = oracle w →
  grants w w'.
Proof.
  intros Ht Hb Ho. exists [Free k p]. split; [done|]. split; [by rewrite Hb|].
  intros _ Hg. split; [unfold granted; by rewrite Ho|].
  by apply Forall_singleton.
Qed.

Lemma grants_free_entry p : respects grants (free_entry p).
Proof.
  intros w r w' H. unfold free_entry in H.
  destruct (p =? NULL); [injection H as _ <-; reflexivity|].
  destruct (entries w !! p); [|done]. simpl in H. injection H as _ <-.
  by apply (grants_free Entry p).
Qed.

Lemma grants_free_node p : respects grants (free_node p).
Proof.
  intros w r w' H. unfold free_node in H.
  destruct (p =? NULL); [injection H as _ <-; reflexivity|].
  destruct (nodes w !! p); [|done]. simpl in H. injection H as _ <-.
  by apply (grants_free Node p).
Qed.

Lemma grants_free_table p : respects grants (free_table p).
Proof.
  intros w r w' H. unfold free_table in H.
  destruct (p =? NULL); [injection H as _ <-; reflexivity|].
  destruct (tables w !! p); [|done]. simpl in H. injection H as _ <-.
  by apply (grants_free Table p).
Qed.

Ltac grants_prim :=
  first [ apply grants_put_hm | apply grants_store_entry
        | apply grants_store_node | apply grants_store_cell
        | apply grants_calloc_entry | apply grants_calloc_node
        | apply grants_calloc_table | apply grants_free_entry
        | apply grants_free_node | apply grants_free_table ].

Lemma grants_store_slot s q : respects grants (store_slot s q).
Proof. destruct s; simpl; resp grants_prim. Qed.

Lemma grants_TABLE_PUT k v : respects grants (_HASHMAP_TABLE_PUT k v).
Proof.
  unfold _HASHMAP_TABLE_PUT. resp ltac:(first [grants_prim|apply grants_store_slot]).
Qed.

Lemma grants_LL_PUT a : respects grants (_HASHMAP_LL_PUT a).
Proof.
  unfold _HASHMAP_LL_PUT, _HASHMAP_LL_ADD_TAIL, _HASHMAP_LL_ADD_HEAD,
    _HASHMAP_LL_ADD_AFTER, _HASHMAP_LL_ADD_BEFORE.
  resp grants_prim.
Qed.

Lemma grants_rehash_loop : ∀ fuel cursor, respects grants (rehash_loop fuel cursor).
Proof.
  induction fuel as [|fuel IH]; intros cursor; [apply respects_undefined|].
  cbn [rehash_loop].
  resp ltac:(first [grants_prim|apply grants_TABLE_PUT|apply IH]).
Qed.

Lemma grants_INCREASE_SIZE : respects grants _HASHMAP_INCREASE_SIZE.
Proof.
  unfold _HASHMAP_INCREASE_SIZE, _HASHMAP_REHASH_TABLE.
  resp ltac:(first [grants_prim|apply grants_rehash_loop]).
Qed.

Lemma grants_insert k v : respects grants (table_then_ll_put k v).
Proof.
  unfold table_then_ll_put.
  resp ltac:(first [grants_prim|apply grants_TABLE_PUT|apply grants_LL_PUT]).
Qed.

Lemma grants_PUT k v : respects grants (HASHMAP_PUT k v).
Proof.
  unfold HASHMAP_PUT.
  resp ltac:(first [grants_prim|apply grants_INCREASE_SIZE|apply grants_insert]).
Qed.

Lemma grants_REHASH : respects grants _HASHMAP_REHASH_TABLE.
Proof.
  unfold _HASHMAP_REHASH_TABLE. resp ltac:(first [grants_prim|apply grants_rehash_loop]).
Qed.

Ltac grants_of H :=
  match type of H with
  | ?c ?w = Some _ =>
      let HR := fresh "HR" in
      assert (respects grants c) as HR
        by (resp ltac:(first [ grants_prim | apply grants_INCREASE_SIZE
                             | apply grants_insert | apply grants_REHASH ]));
      apply HR in H; clear HR
  end.

(** When the table can be allocated, the first allocator call of the growth
    is the successful allocation of the new table. *)
Lemma INCREASE_SIZE_first w r w' :
  to_size_t (_table_size (hm w) * 2) * sizeof_ptr ≤ SIZE_MAX →
  hd true (oracle w) = true →
  _HASHMAP_INCREASE_SIZE w = Some (r, w') →
  ∃ evs, trace w' = trace w ++ Calloc Table (brk w) :: evs.
Proof.
  intros Hfit Ho Hrun. unfold _HASHMAP_INCREASE_SIZE in Hrun.
  apply bind_Some in Hrun as (m & w1 & [= <- <-] & Hrun). cbv zeta in Hrun.
  apply bind_Some in Hrun as (t & w2 & Hc & Hrun).
  rewrite run_calloc_table_ok in Hc by done. injection Hc as <- <-.
  grants_of Hrun. destruct Hrun as (evs & Ht & _).
  exists evs. rewrite Ht. wsimpl. by rewrite <- app_assoc.
Qed.

Lemma PUT_first w k v r w' :
  double_ge (load_factor (hm w)) _LOAD_FACTOR_LIM = true →
  to_size_t (_table_size (hm w) * 2) * sizeof_ptr ≤ SIZE_MAX →
  hd true (oracle w) = true →
  HASHMAP_PUT k v w = Some (r, w') →
  ∃ evs, trace w' = trace w ++ Calloc Table (brk w) :: evs.
Proof.
  intros Hload Hfit Ho Hrun. unfold HASHMAP_PUT in Hrun.
  apply bind_Some in Hrun as (m & w1 & [= <- <-] & Hrun). cbv zeta in Hrun.
  rewrite Hload in Hrun.
  apply bind_Some in Hrun as (rv & w2 & Hbr & Hrun).
  apply bind_Some in Hbr as (r1 & w3 & Hinc & Hins).
  destruct (INCREASE_SIZE_first w r1 w3 Hfit Ho Hinc) as (evs1 & Ht1).
  grants_of Hins. destruct Hins as (evs2 & Ht2 & _).
  grants_of Hrun. destruct Hrun as (evs3 & Ht3 & _).
  exists (evs1 ++ evs2 ++ evs3).
  rewrite Ht3, Ht2, Ht1, <- !app_assoc. done.
Qed.

Lemma no_table_no_failure evs :
  Forall (λ ev, failed ev = true → event_kind ev = Table) evs →
  existsb asks_table evs = false →
  no_failure evs = true.
Proof.
  intros Hf Hno. unfold no_failure. apply forallb_forall. intros ev Hin.
  apply list_elem_of_In in Hin. rewrite Forall_forall in Hf.
  specialize (Hf ev Hin). destruct (failed ev) eqn:Hfail; [|done].
  exfalso. specialize (Hf eq_refl).
  assert (existsb asks_table evs = true); [|congruence].
  apply existsb_exists. exists ev. split; [by apply list_elem_of_In|].
  destruct ev as [k p|k p]; [|done]. simpl in Hf. by subst k.
Qed.

(** A put on a map on which no allocation has failed, when every request is
    granted and the doubled table fits in [size_t]: it returns 0, and no
    allocation fails. *)
Lemma PUT_granted w L B k v :
  Inv w L B → Sync L B → granted w →
  to_size_t (_table_size (hm w) * 2) * sizeof_ptr ≤ SIZE_MAX →
  ∃ w' L' B' evs,
    HASHMAP_PUT k v w = Some (0, w') ∧ put_post w w' L L' B B' k v 0 evs ∧
    no_failure evs = true ∧ granted w' ∧
    Sync L' B' ∧ L'.*2.*2 = abs_put k v L.*2.*2.
Proof.
  intros HInv Hsync Hg Hfit.
  destruct (PUT_spec w L B k v HInv) as (r & w' & L' & B' & evs & Hrun & Hpost).
  pose proof HInv as [[Hbrk _ _ _] _ _ _].
  pose proof (grants_PUT k v w r w' Hrun) as (evs0 & Ht0 & _ & Hgr).
  destruct (Hgr Hbrk Hg) as [Hg' Hf].
  pose proof Hpost as [_ Ptrace _ _ Pgrow Pstable _ Psync].
  assert (evs0 = evs) as -> by (rewrite Ptrace in Ht0; by apply app_inv_head in Ht0).
  assert (no_failure evs = true) as Hclean.
  { destruct (double_ge (load_factor (hm w)) _LOAD_FACTOR_LIM) eqn:Hload.
    - destruct (Pgrow eq_refl) as (p & evs' & -> & Hno & _).
      destruct (PUT_first w k v r w' Hload Hfit (granted_hd _ Hg) Hrun)
        as (evs1 & Ht1).
      rewrite Ptrace in Ht1. apply app_inv_head in Ht1. injection Ht1 as -> _.
      apply Forall_cons in Hf as [_ Hf].
      unfold no_failure. cbn [forallb failed].
      assert ((brk w =? NULL) = false) as -> by (apply Z.eqb_neq; unfold NULL; lia).
      cbn [negb andb]. by apply no_table_no_failure.
    - destruct (Pstable eq_refl) as (Hno & _). by apply no_table_no_failure. }
  destruct (Psync Hsync Hclean) as (-> & Hsync' & Habs).
  by exists w', L', B', evs.
Qed.

(** ** The put of a key that the map holds *)

(** ** A second put of a key *)

(** A growth that succeeds re-makes every entry: the nodes of the list point
    to entries that were allocated during the growth. *)
Lemma INCREASE_SIZE_fresh w L B w' :
  Inv w L B →
  _HASHMAP_INCREASE_SIZE w = Some (0, w') →
  ∃ es, ll_entries w' = Some es ∧ Forall (λ a, brk w < a) es.
Proof.
  intros HInv Hrun. pose proof HInv as [Hheap Htab Hlist Hnum].
  pose proof Htab as [[Hts Hsz] Hhash (cells & Hcells & Hch) HlenB _ _ _].
  pose proof Hheap as [Hbrk HE HN HT].
  revert Hrun. unfold _HASHMAP_INCREASE_SIZE. mrun (run_get_hm _).
  assert (to_size_t (_table_size (hm w) * 2) = 2 * _table_size (hm w)) as ->.
  { unfold to_size_t. rewrite Z.mod_small; [lia|].
    unfold sizeof_ptr, SIZE_MAX in *. lia. }
  set (nts := 2 * _table_size (hm w)).
  destruct (decide (SIZE_MAX < nts * sizeof_ptr)) as [Hbig|Hfit].
  { mrun (run_calloc_table_big _ _ Hbig). cbn [NULL Z.eqb negb]. done. }
  destruct (hd true (oracle w)) eqn:Ho.
  2:{ mrun by (apply run_calloc_table_fail; [lia|done]). cbn [NULL Z.eqb negb].
      done. }
  mrun by (apply run_calloc_table_ok; [lia|done]).
  set (nt := brk w).
  assert (nt ≠ NULL) as Hntz by (unfold nt, NULL; lia).
  pose proof Hntz as Hntz'. apply Z.eqb_neq in Hntz'. rewrite Hntz'. cbn [negb].
  mrun (run_put_hm _ _).
  set (w1 := set_hm (with_entry_table nt (with_table_size nts (hm w)))
               (log (Calloc Table nt)
                  (bump (set_tables
                           (<[nt := replicate (Z.to_nat nts) NULL]> (tables w))
                           (set_oracle (tl (oracle w)) w))))).
  assert (tables w !! nt = None) as Hfresh.
  { destruct (tables w !! nt) eqn:Hp; [|done].
    assert (0 < nt < brk w) by (apply HT; by rewrite Hp). unfold nt in *. lia. }
  assert (_entry_table (hm w) ≠ nt) as Hold_nt by (intros Heq; congruence).
  assert (heap_ok w1) as Hheap1.
  { split; unfold w1; wsimpl; try lia.
    - intros a Ha. apply HE in Ha. lia.
    - intros a Ha. apply HN in Ha. lia.
    - intros a [x Ha]. destruct (decide (nt = a)) as [<-|Hne]; [unfold nt; lia|].
      rewrite lookup_insert_ne in Ha by done.
      assert (0 < a < brk w) by (apply HT; by rewrite Ha). lia. }
  assert (table_ok w1 (replicate (Z.to_nat nts) [])) as Htab1.
  { apply table_ok_fresh; unfold w1; wsimpl; try done.
    - unfold nts. lia.
    - lia.
    - simpl. apply lookup_insert_eq. }
  pose proof Hlist as [Hn Htl Hnd Hh Hi].
  unfold _HASHMAP_REHASH_TABLE. mrun (run_get_hm _).
  unfold node_fuel at 1. rewrite bind_assoc. unfold bind at 1.
  destruct (rehash_loop_spec L (S (size (nodes w1))) w1
              (replicate (Z.to_nat nts) []) (_head (hm w)))
    as (r & w2 & B' & L' & evs & Hloop & Hnl' & Hpost); try done.
  { pose proof (list_ok_length _ _ Hlist). unfold w1. wsimpl. lia. }
  { intros a _. rewrite concat_replicate_nil. apply not_elem_of_nil. }
  destruct Hpost as [Ohm Otables Obrk [no Ooracle] Otrace Oevents Oheap Otable
                     Onodes Oframe Oholds Oinj Oaddr Okeep Onew Ostatus Odone
                     Oclean].
  change (_head (hm w1)) with (_head (hm w)). mrun Hloop.
  assert (_entry_table (hm w) ≠ NULL) as Holdz.
  { assert (0 < _entry_table (hm w) < brk w) by (apply HT; by rewrite Hcells).
    unfold NULL. lia. }
  assert (tables w2 !! _entry_table (hm w) = Some cells) as Hold'.
  { rewrite Otables by done. unfold w1. wsimpl. by rewrite lookup_insert_ne. }
  mrun (run_free_table _ _ _ Hold' Holdz).
  intros [= -> <-].
  destruct (Odone eq_refl) as [Hkvs Hperm].
  rewrite concat_replicate_nil, app_nil_l in Hperm.
  exists L'.*2.*1. split.
  - unfold ll_entries. wsimpl. rewrite Ohm.
    change (_head (hm w1)) with (_head (hm w)).
    rewrite (entry_walk_spec _ (prod_map id fst <$> L')).
    + f_equal. rewrite <- !list_fmap_compose. by apply list_fmap_ext.
    + done.
    + rewrite length_fmap.
      assert (length L' ≤ size (nodes w2))%nat; [|lia].
      replace (length L') with (length L'.*1) by (by rewrite length_fmap).
      apply live_length.
      * by rewrite Onodes.
      * intros a Ha. apply (nlist_live _ _ _ a Hnl').
        rewrite <- list_fmap_compose.
        by replace (fst ∘ prod_map id fst) with (@fst ptr cell).
  - apply Forall_forall. intros a Ha.
    assert (a ∈ (concat B').*1) as Ha' by (by rewrite Hperm).
    destruct (Onew a Ha') as [Hin|Hge].
    + rewrite concat_replicate_nil in Hin. by apply elem_of_nil in Hin.
    + unfold w1 in Hge. revert Hge. wsimpl. lia.
Qed.

(** The live objects of a map are those of a list without repetition that
    has as many elements. *)
Lemma live_exact {V} (E : gmap Z V) (l : list Z) :
  NoDup l → (∀ a, a ∈ l → is_Some (E !! a)) → size E = length l →
  ∀ a, is_Some (E !! a) → a ∈ l.
Proof.
  intros Hnd Hlive Hsize a Ha.
  assert (list_to_set l ≡@{gset Z} dom E) as Heq.
  { apply set_subseteq_size_equiv.
    - intros x Hx. apply elem_of_list_to_set in Hx. by apply elem_of_dom, Hlive.
    - rewrite size_dom, size_list_to_set by done. lia. }
  apply elem_of_dom in Ha. rewrite <- Heq in Ha. by apply elem_of_list_to_set in Ha.
Qed.

Lemma abs_put_present_pairs k v al :
  k ∈ key <$> al →
  pair_of <$> abs_put k v al = set_pair k v <$> (pair_of <$> al).
Proof.
  intros Hk. unfold abs_put. rewrite decide_True by done.
  rewrite <- !list_fmap_compose. apply list_fmap_ext. intros i [k' v'] _.
  unfold set_key_value, set_pair, pair_of. simpl.
  by destruct (decide (k' = k)).
Qed.

(** A put of a key that the map holds, on a map on which no allocation has
    failed. *)
Lemma PUT_present w L B k v :
  Inv w L B → Sync L B → tight w L → k ∈ key <$> L.*2.*2 →
  (double_ge (load_factor (hm w)) _LOAD_FACTOR_LIM = true →
   granted w ∧ 2 * _table_size (hm w) * sizeof_ptr ≤ SIZE_MAX) →
  ∃ w' L' B' evs,
    HASHMAP_PUT k v w = Some (0, w') ∧ trace w' = trace w ++ evs ∧
    Inv w' L' B' ∧ Sync L' B' ∧ tight w' L' ∧
    L'.*1 = L.*1 ∧ L'.*2.*2 = abs_put k v L.*2.*2 ∧
    (double_ge (load_factor (hm w)) _LOAD_FACTOR_LIM = false →
     evs = [] ∧ L'.*2.*1 = L.*2.*1 ∧
     same_table_fields (hm w)
       (with_num_entries (_num_entries (hm w)) (hm w')) ∧
     ∃ a e, a ∈ L.*2.*1 ∧ entries w !! a = Some e ∧ key (_entry e) = k ∧
            entries w' = <[a := with_value v e]> (entries w) ∧
            nodes w' = nodes w ∧ tables w' = tables w) ∧
    (double_ge (load_factor (hm w)) _LOAD_FACTOR_LIM = true →
     _table_size (hm w') = 2 * _table_size (hm w) ∧
     (∃ evs_r,
        evs = Calloc Table (brk w) :: evs_r
                ++ [Free Table (_entry_table (hm w))] ∧
        Forall (λ ev, event_kind ev = Entry) evs_r ∧
        no_failure evs_r = true) ∧
     Forall (λ a, brk w < a) L'.*2.*1).
Proof.
  intros HInv Hsync Htight Hk Hmem.
  pose proof HInv as [Hheap Htab Hlist Hnum].
  pose proof Hheap as [Hbrk HE HN HT].
  unfold HASHMAP_PUT. mrun (run_get_hm _).
  destruct (double_ge (load_factor (hm w)) _LOAD_FACTOR_LIM) eqn:Hload.
  - destruct (Hmem eq_refl) as [Hg Hfit].
    assert (to_size_t (_table_size (hm w) * 2) * sizeof_ptr ≤ SIZE_MAX) as Hfit'.
    { destruct Htab as [[Hts _] _ _ _ _ _ _]. unfold to_size_t.
      rewrite Z.mod_small; unfold sizeof_ptr, SIZE_MAX in *; lia. }
    destruct (INCREASE_SIZE_spec w L B HInv)
      as (r1 & w1 & L1 & B1 & evs1 & Hrun1 & Hpost1).
    pose proof Hpost1 as [Ginv Gtrace Gnum Gnodes Gstatus Gshape Gdone Gclean].
    mrun Hrun1.
    destruct (INCREASE_SIZE_first w r1 w1 Hfit' (granted_hd _ Hg) Hrun1)
      as (evs0 & Ht0).
    rewrite Gtrace in Ht0. apply app_inv_head in Ht0.
    destruct Gshape as [(Hevs1 & _)|(evs_r & Hevs1 & Hentry & Hts1 & Htp1 & _)].
    { rewrite Hevs1 in Ht0. injection Ht0 as Hz _. unfold NULL in Hz. lia. }
    pose proof (grants_INCREASE_SIZE w r1 w1 Hrun1) as (evs0' & Ht0' & _ & Hgr).
    rewrite Gtrace in Ht0'. apply app_inv_head in Ht0'. subst evs0'.
    destruct (Hgr Hbrk Hg) as [Hg1 Hfail1].
    assert (no_failure evs_r = true) as Hclean_r.
    { unfold no_failure. apply forallb_forall. intros ev Hin.
      apply list_elem_of_In in Hin.
      rewrite Hevs1 in Hfail1. apply Forall_cons in Hfail1 as [_ Hfail1].
      apply Forall_app in Hfail1 as [Hfail1 _].
      rewrite Forall_forall in Hfail1, Hentry.
      specialize (Hfail1 ev Hin). specialize (Hentry ev Hin).
      destruct (failed ev); [|done]. specialize (Hfail1 eq_refl). congruence. }
    assert (no_failure evs1 = true) as Hclean1.
    { rewrite Hevs1. unfold no_failure. cbn [forallb failed].
      assert ((brk w =? NULL) = false) as -> by (apply Z.eqb_neq; unfold NULL; lia).
      cbn [negb andb]. rewrite forallb_app. fold (no_failure evs_r).
      by rewrite Hclean_r. }
    pose proof (Gclean Hsync Hclean1) as ->.
    destruct (Gdone eq_refl) as [Hvals1 Hsync1].
    assert (tight w1 L1) as Htight1.
    { destruct (accounts_INCREASE_SIZE _ _ _ Hrun1 Hheap) as (_ & evsa & Hta & Hlive).
      destruct (INCREASE_SIZE_net _ _ _ _ _ HInv Hrun1)
        as (evsn & Htn & HnE & HnN & HnT).
      assert (evsn = evsa) as ->
        by (rewrite Hta in Htn; by apply app_inv_head in Htn).
      destruct (Inv_live _ _ _ Ginv) as (HlE & HlN & HlT).
      assert (length L1 = length L) as Hlen.
      { by rewrite <- (length_fmap fst L1), Gnodes, length_fmap. }
      destruct Htight as (HtE & HtN & HtT).
      unfold tight. rewrite !Hlive in *. rewrite Hlen in *. lia. }
    destruct (INCREASE_SIZE_fresh w L B w1 HInv Hrun1) as (es1 & Hes1 & Hfresh).
    pose proof Ginv as [_ _ Glist _].
    rewrite (ll_entries_spec w1 L1 Glist) in Hes1. injection Hes1 as <-.
    assert (k ∈ key <$> (concat B1).*2) as Hk1.
    { rewrite <- (Sync_keys _ _ Hsync1), Hvals1. done. }
    destruct (insert_spec w1 L1 B1 k v Ginv)
      as (r2 & w2 & L2 & B2 & evs2 & Hrun2 & Hpost2).
    pose proof Hpost2 as [Iinv Itrace Ifields _ _ Ipresent Isync].
    destruct (Ipresent Hk1) as (-> & -> & HL2n & HL2a & _).
    destruct (Isync Hsync1 eq_refl) as (_ & Hsync2 & Habs2).
    cbn [Z.eqb]. mrun Hrun2. mrun (run_get_hm _). mrun (run_put_hm _ _).
    eexists _, L2, B2, evs1. split; [reflexivity|]. wsimpl.
    split; [by rewrite Itrace, app_nil_r|].
    split; [apply Inv_set_num; [done|apply to_size_t_range]|].
    split; [done|].
    split; [apply tight_set_hm;
            by apply (insert_tight w1 w2 L1 L2 B1 B2 k v 0 [])|].
    split; [by rewrite HL2n|]. split; [by rewrite Habs2, Hvals1|].
    split; [done|]. intros _. hsimpl.
    destruct Ifields as (Hts2 & _).
    split; [by rewrite Hts2, Hts1|].
    split; [by exists evs_r|]. by rewrite HL2a.
  - destruct (insert_spec w L B k v HInv)
      as (r2 & w2 & L2 & B2 & evs2 & Hrun2 & Hpost2).
    pose proof Hpost2 as [Iinv Itrace Ifields _ _ Ipresent Isync].
    assert (k ∈ key <$> (concat B).*2) as HkB
      by (by rewrite <- (Sync_keys _ _ Hsync)).
    destruct (Ipresent HkB) as (-> & -> & HL2n & HL2a & _).
    destruct (Isync Hsync eq_refl) as (_ & Hsync2 & Habs2).
    (* the entry of the key, and the run of the table insertion *)
    apply list_elem_of_fmap in HkB as (kv & Hkv & Hin).
    apply list_elem_of_fmap in Hin as ([a kv'] & Hkv' & Hin).
    simpl in Hkv'. subst kv'.
    destruct (table_holds w B (a, kv) Htab Hin) as (e & He & Hekv).
    simpl in He, Hekv.
    destruct (TABLE_PUT_update w B k v a kv e Hheap Htab Hin (eq_sym Hkv) He)
      as (Hput & _).
    assert (w2 = set_entries (<[a := with_value v e]> (entries w)) w) as Hw2.
    { revert Hrun2. unfold table_then_ll_put. mrun Hput.
      cbn [NULL Z.eqb negb]. mrun (run_ret _ _). cbn [Z.eqb].
      by intros [= <-]. }
    mrun Hrun2. mrun (run_get_hm _). mrun (run_put_hm _ _).
    eexists _, L2, B2, []. split; [reflexivity|]. wsimpl.
    split; [by rewrite Itrace|].
    split; [apply Inv_set_num; [done|apply to_size_t_range]|].
    split; [done|].
    split; [apply tight_set_hm;
            by apply (insert_tight w w2 L L2 B B2 k v 0 [])|].
    split; [done|]. split; [done|].
    split; [|done]. intros _. split; [done|]. split; [done|].
    split.
    { destruct Ifields as (? & ? & ? & ?). by split_and!. }
    exists a, e. rewrite Hw2. wsimpl. split_and!; try done.
    + assert ((a, kv) ∈ L.*2) as HinL by (unfold Sync in Hsync; by rewrite Hsync).
      apply list_elem_of_fmap. by exists (a, kv).
    + by rewrite Hekv.
Qed.

(** A put at or above the limit whose table allocation is refused. *)
Lemma PUT_refused w k v :
  double_ge (load_factor (hm w)) _LOAD_FACTOR_LIM = true →
  to_size_t (_table_size (hm w) * 2) * sizeof_ptr ≤ SIZE_MAX →
  hd true (oracle w) = false →
  HASHMAP_PUT k v w
  = Some (-1, set_hm (with_num_entries (to_size_t (_num_entries (hm w) + 1)) (hm w))
                (log (Calloc Table NULL) (set_oracle (tl (oracle w)) w))).
Proof.
  intros Hload Hfit Ho. unfold HASHMAP_PUT. mrun (run_get_hm _).
  rewrite Hload. unfold _HASHMAP_INCREASE_SIZE. mrun (run_get_hm _).
  mrun by (apply run_calloc_table_fail; [exact Hfit|exact Ho]).
  cbn [NULL Z.eqb negb]. mrun (run_ret _ _). cbn [Z.eqb].
  mrun (run_ret _ _). mrun (run_get_hm _). mrun (run_put_hm _ _). done.
Qed.

(** ** C5: when the table grows *)

(** C5.  Take a state reached by puts after a successful initialisation, with
    [_num_entries] below 2^53 and [_table_size] below 2^52, where the
    conversions to [double] are exact.  A put returns, and it asks the
    allocator for a new bucket table exactly when
    [3 * _table_size <= 4 * _num_entries] holds for the fields as they are
    at the start of the put, which is when the double division
    [(double) _num_entries / _table_size] compares [>=] to 0.75.  Below the
    limit the size and the table are unchanged.  At or above it the request
    is the first allocator call of the put and the only one for a table:
    when it is granted, the size after the put is exactly twice the size
    before, whatever the rehash and the insertion do then; when it is
    refused, the put returns -1 and the size, the table and the heap are
    unchanged.  In every case the table of the map after the put has as many
    cells as [_table_size] tells. *)
Theorem growth_trigger_and_doubling o kvs w0 rs w k v :
  HASHMAP_INIT IntegerKey (blank o) = Some (0, w0) →
  puts kvs w0 = Some (rs, w) →
  _num_entries (hm w) < 2 ^ 53 →
  _table_size (hm w) < 2 ^ 52 →
  ∃ r w' evs cells,
    HASHMAP_PUT k v w = Some (r, w') ∧ trace w' = trace w ++ evs ∧
    tables w' !! _entry_table (hm w') = Some cells ∧
    Z.of_nat (length cells) = _table_size (hm w') ∧
    double_ge (load_factor (hm w)) _LOAD_FACTOR_LIM
    = (3 * _table_size (hm w) <=? 4 * _num_entries (hm w)) ∧
    existsb asks_table evs
    = (3 * _table_size (hm w) <=? 4 * _num_entries (hm w)) ∧
    (4 * _num_entries (hm w) < 3 * _table_size (hm w) →
     _table_size (hm w') = _table_size (hm w) ∧
     _entry_table (hm w') = _entry_table (hm w)) ∧
    (3 * _table_size (hm w) ≤ 4 * _num_entries (hm w) →
     hd true (oracle w) = true →
     ∃ evs', evs = Calloc Table (brk w) :: evs' ∧
             existsb asks_table evs' = false ∧
             _table_size (hm w') = 2 * _table_size (hm w)) ∧
    (3 * _table_size (hm w) ≤ 4 * _num_entries (hm w) →
     hd true (oracle w) = false →
     evs = [Calloc Table NULL] ∧ r = -1 ∧
     _table_size (hm w') = _table_size (hm w) ∧
     _entry_table (hm w') = _entry_table (hm w) ∧
     entries w' = entries w ∧ nodes w' = nodes w ∧ tables w' = tables w).
Proof.
  intros Hinit Hputs Hn Hts.
  destruct (reachable_Inv o kvs w0 rs w Hinit Hputs) as (L & B & HInv & _).
  destruct (PUT_spec w L B k v HInv) as (r & w' & L' & B' & evs & Hrun & Hpost).
  destruct Hpost as [Pinv Ptrace _ _ Pgrow Pstable _ _].
  pose proof HInv as [Hheap [[Hts0 _] _ _ _ _ _ _] _ Hnum].
  pose proof Pinv as [_ [_ _ (cells & Hcells & Hch) HlenB' _ _ _] _ _].
  assert (double_ge (load_factor (hm w)) _LOAD_FACTOR_LIM
          = (3 * _table_size (hm w) <=? 4 * _num_entries (hm w))) as Hload.
  { unfold load_factor. apply load_test_exact; lia. }
  assert (to_size_t (_table_size (hm w) * 2) * sizeof_ptr ≤ SIZE_MAX) as Hfit.
  { unfold to_size_t. rewrite Z.mod_small; unfold sizeof_ptr, SIZE_MAX; lia. }
  exists r, w', evs, cells. split; [done|]. split; [done|]. split; [done|].
  split; [by rewrite (Forall2_length _ _ _ Hch)|]. split; [done|].
  rewrite Hload in Pgrow, Pstable.
  destruct (3 * _table_size (hm w) <=? 4 * _num_entries (hm w)) eqn:Hle.
  - apply Z.leb_le in Hle.
    destruct (Pgrow eq_refl) as (p & evs' & Hevs & Hevs' & Hnull & Hok).
    split; [by rewrite Hevs|]. split; [intros; lia|]. split.
    + intros _ Ho.
      destruct (PUT_first w k v r w' Hload Hfit Ho Hrun) as (evs1 & Ht1).
      rewrite Ptrace in Ht1. apply app_inv_head in Ht1.
      rewrite Hevs in Ht1. injection Ht1 as -> ->.
      exists evs1. rewrite Hevs. split; [done|]. split; [done|].
      apply Hok. destruct Hheap as [Hbrk _ _ _]. unfold NULL. lia.
    + intros _ Ho.
      rewrite (PUT_refused w k v Hload Hfit Ho) in Hrun. injection Hrun as <- <-.
      revert Ptrace. wsimpl. intros Ptrace. apply app_inv_head in Ptrace.
      by split_and!.
  - apply Z.leb_gt in Hle.
    destruct (Pstable eq_refl) as (Hevs & Hsize & Htp).
    split; [done|]. split; [done|]. split; intros; lia.
Qed.

(** X30.  The load factor test of [HASHMAP_PUT] is exact: for a counter
    below 2^53 and a table size below 2^52, the double division
    [(double) _num_entries / _table_size] compares [>=] to the double 0.75
    exactly when [3 * _table_size <= 4 * _num_entries] holds of the
    integers; the rounding of the division never moves a quotient across
    0.75. *)
Theorem load_factor_test_is_exact (m : hashmap) :
  0 ≤ _num_entries m < 2 ^ 53 →
  0 < _table_size m < 2 ^ 52 →
  double_ge (load_factor m) _LOAD_FACTOR_LIM
  = (3 * _table_size m <=? 4 * _num_entries m).
Proof.
  intros Hn Hts. unfold load_factor. by apply load_test_exact.
Qed.

(** ** C4: a second put of a key *)

(** C4, as the code has it.  Take a map of long long keys reached by puts
    without a failed allocation, and a key [k] that was put.  When the load
    factor is at or above the limit, let the allocator grant what it is asked
    from now on and let the doubled table fit in a [size_t].  Then a further
    put of [k] returns 0.  It allocates no list node: the entry-order list
    has the same nodes and the same keys in the same order, [k] now with the
    value [v] and every other key with its value; no key occurs twice.  The
    table holds the same pairs, a get of [k] gives [v], and as many entries,
    nodes and tables are live as before.  The counter [_num_entries] is
    incremented all the same.
    Below the limit nothing is allocated or freed and the one change to the
    heap is the value of the entry of [k], replaced where it stands.
    At or above the limit the value is not replaced in place: the put
    allocates a table of twice the size, the rehash allocates a new entry for
    every key of the list, that of [k] included, and frees every entry that
    was live, and the old table is freed last; the value [v] is then written
    into the new entry of [k]. *)
Theorem second_put_same_key o kvs w0 rs w k v result :
  HASHMAP_INIT IntegerKey (blank o) = Some (0, w0) →
  puts kvs w0 = Some (rs, w) →
  no_failure (trace w) = true →
  k ∈ kvs.*1 →
  (double_ge (load_factor (hm w)) _LOAD_FACTOR_LIM = true →
   granted w ∧ 2 * _table_size (hm w) * sizeof_ptr ≤ SIZE_MAX) →
  ∃ w' evs l es es' T',
    HASHMAP_PUT k v w = Some (0, w') ∧ trace w' = trace w ++ evs ∧
    Forall (λ ev, event_kind ev ≠ Node) evs ∧
    ll_nodes w' = ll_nodes w ∧
    ll_traverse w = Some l ∧ NoDup l.*1 ∧ k ∈ l.*1 ∧
    ll_traverse w' = Some (set_pair k v <$> l) ∧
    table_traverse w' = Some T' ∧ concat T' ≡ₚ set_pair k v <$> l ∧
    HASHMAP_GET result k w' = Some ((true, v), w') ∧
    live Entry w' = live Entry w ∧ live Node w' = live Node w ∧
    live Table w' = live Table w ∧
    _num_entries (hm w') = to_size_t (_num_entries (hm w) + 1) ∧
    ll_entries w = Some es ∧ ll_entries w' = Some es' ∧
    (double_ge (load_factor (hm w)) _LOAD_FACTOR_LIM = false →
     evs = [] ∧ es' = es ∧
     _table_size (hm w') = _table_size (hm w) ∧
     _entry_table (hm w') = _entry_table (hm w) ∧
     ∃ a e, a ∈ es ∧ entries w !! a = Some e ∧ key (_entry e) = k ∧
            entries w' = <[a := with_value v e]> (entries w) ∧
            nodes w' = nodes w ∧ tables w' = tables w) ∧
    (double_ge (load_factor (hm w)) _LOAD_FACTOR_LIM = true →
     _table_size (hm w') = 2 * _table_size (hm w) ∧
     (∃ evs_r,
        evs = Calloc Table (brk w) :: evs_r
                ++ [Free Table (_entry_table (hm w))] ∧
        Forall (λ ev, event_kind ev = Entry) evs_r ∧
        no_failure evs_r = true) ∧
     length es' = length es ∧
     Forall (λ a, brk w < a) es' ∧
     (∀ a, is_Some (entries w !! a) → entries w' !! a = None)).
Proof.
  intros Hinit Hputs Hclean Hk Hmem.
  destruct (reachable_tight o kvs w0 rs w Hinit Hputs Hclean)
    as (L & B & HInv & Hsync & Htight & Habs).
  assert (k ∈ key <$> L.*2.*2) as HkL by (rewrite Habs; by apply abs_puts_keys).
  destruct (PUT_present w L B k v HInv Hsync Htight HkL Hmem)
    as (w' & L' & B' & evs & Hrun & Htrace & HInv' & Hsync' & Htight'
        & Hnodes & Hvals & Hstable & Hgrow).
  pose proof HInv as [Hheap Htab Hlist Hnum].
  pose proof HInv' as [Hheap' Htab' Hlist' Hnum'].
  assert (∀ X : list entry_t, (pair_of <$> X).*1 = key <$> X) as Hfst.
  { intros X. rewrite <- list_fmap_compose. by apply list_fmap_ext. }
  assert (length L' = length L) as Hlen.
  { by rewrite <- (length_fmap fst L'), Hnodes, length_fmap. }
  exists w', evs, (pair_of <$> L.*2.*2), L.*2.*1, L'.*2.*1,
    ((λ b : list cell, pair_of <$> b.*2) <$> B').
  split; [done|]. split; [done|].
  split.
  { destruct (double_ge (load_factor (hm w)) _LOAD_FACTOR_LIM) eqn:Hload.
    - destruct (Hgrow eq_refl) as (_ & (evs_r & -> & Hentry & _) & _).
      apply Forall_cons. split; [done|]. apply Forall_app. split.
      + eapply Forall_impl; [exact Hentry|]. intros ev Hev. by rewrite Hev.
      + by apply Forall_singleton.
    - by destruct (Hstable eq_refl) as (-> & _). }
  split; [by rewrite (ll_nodes_spec _ _ Hlist'), (ll_nodes_spec _ _ Hlist), Hnodes|].
  split; [by apply ll_traverse_spec|].
  split.
  { rewrite Hfst, (Sync_keys _ _ Hsync). by destruct Htab. }
  split; [by rewrite Hfst|].
  split.
  { rewrite (ll_traverse_spec _ _ Hlist'), Hvals.
    by rewrite abs_put_present_pairs. }
  split; [by apply table_traverse_spec|].
  split.
  { rewrite table_traverse_concat, <- abs_put_present_pairs, <- Hvals by done.
    unfold Sync in Hsync'. by rewrite <- Hsync'. }
  split.
  { rewrite (GET_spec w' L' B' k result HInv' Hsync'), Hvals.
    by rewrite lookup_key_abs_put_eq. }
  destruct Htight as (HtE & HtN & HtT). destruct Htight' as (HtE' & HtN' & HtT').
  split; [by rewrite HtE', HtE, Hlen|]. split; [by rewrite HtN', HtN, Hlen|].
  split; [by rewrite HtT', HtT|].
  split.
  { destruct (PUT_spec w L B k v HInv) as (r0 & w0' & L0 & B0 & evs0 & Hrun0 & Hp).
    rewrite Hrun in Hrun0. injection Hrun0 as <- <-. by destruct Hp. }
  split; [by apply ll_entries_spec|]. split; [by apply ll_entries_spec|].
  split.
  - intros Hload.
    destruct (Hstable Hload) as (-> & Hes & (Hts & _ & Htp & _) & Hin).
    split; [done|]. split; [done|]. by split_and!.
  - intros Hload.
    destruct (Hgrow Hload) as (Hts & Hevs & Hfresh).
    split; [done|]. split; [done|].
    split; [by rewrite !length_fmap|]. split; [done|].
    intros a Ha. destruct (entries w' !! a) eqn:Ha'; [|done]. exfalso.
    assert (a ∈ L'.*2.*1) as Hin.
    { apply (live_exact (entries w') L'.*2.*1).
      - by destruct Hlist'.
      - intros x Hx. apply list_elem_of_fmap in Hx as (c & -> & Hc).
        destruct Hlist' as [_ _ _ Hh _]. rewrite Forall_forall in Hh.
        by apply holds_live, Hh.
      - unfold live in HtE'. rewrite !length_fmap. lia.
      - by rewrite Ha'. }
    rewrite Forall_forall in Hfresh. specialize (Hfresh a Hin).
    destruct Hheap as [_ HE _ _]. specialize (HE a Ha). lia.
Qed.

(** Against C4 as the specification has it: no allocation fails, key 3 is in
    the map, in the entry at address 8, and the thirteenth put is a second
    put of key 3.  It returns 0; it has allocated a second entry for key 3,
    at address 30, and freed the entry at 8: the value 33 is in the new
    entry, not in the old one. *)
Lemma second_put_same_key_counterexample :
  ∃ w0 rs w w',
    HASHMAP_INIT IntegerKey (blank []) = Some (0, w0) ∧
    puts twelve w0 = Some (rs, w) ∧
    no_failure (trace w) = true ∧
    ll_traverse w = Some twelve ∧
    entries w !! 8
    = Some {| _entry := {| key := 3; value := 3 |};
              _next_entry := NULL; _ll_node := 9 |} ∧
    HASHMAP_PUT 3 33 w = Some (0, w') ∧
    trace w' = trace w ++
      [Calloc Table 26;
       Calloc Entry 27; Free Entry 2; Calloc Entry 28; Free Entry 4;
       Calloc Entry 29; Free Entry 6; Calloc Entry 30; Free Entry 8;
       Calloc Entry 31; Free Entry 10; Calloc Entry 32; Free Entry 12;
       Calloc Entry 33; Free Entry 14; Calloc Entry 34; Free Entry 16;
       Calloc Entry 35; Free Entry 18; Calloc Entry 36; Free Entry 20;
       Calloc Entry 37; Free Entry 22; Calloc Entry 38; Free Entry 24;
       Free Table 1] ∧
    entries w' !! 8 = None ∧
    _entry <$> entries w' !! 30 = Some {| key := 3; value := 33 |} ∧
    ll_entries w' = Some [27; 28; 29; 30; 31; 32; 33; 34; 35; 36; 37; 38].
Proof.
  eexists _, _, _, _. split; [vm_compute; reflexivity|].
  split; [vm_compute; reflexivity|]. split; [vm_compute; reflexivity|].
  split; [vm_compute; reflexivity|]. split; [vm_compute; reflexivity|].
  split; [vm_compute; reflexivity|]. by vm_compute.
Qed.


(** ** C1: get after puts that returned 0 *)

(** C1.  [HASHMAP_PUT] returns 0 for a put whose entry could not be
    allocated, against its comment, which promises -1 when the allocation of
    the key-value entry fails.  So a sequence of puts can succeed one by one,
    as far as the caller can tell, without a growth, and yet a get of a key
    that was put finds nothing.  After a successful initialisation, let the
    allocator grant the entry and the node of the first put and refuse the
    entry of the second: both puts return 0, no table was asked for, the get
    of the first key gives its value, and the get of the second key returns
    false and leaves the result as it was. *)
Theorem get_after_put_that_returned_0 :
  ∃ w0 w,
    HASHMAP_INIT IntegerKey (blank [true; true; true; false]) = Some (0, w0) ∧
    puts [(1, 10); (2, 20)] w0 = Some ([0; 0], w) ∧
    trace w = [Calloc Table 1; Calloc Entry 2; Calloc Node 3; Calloc Entry NULL] ∧
    HASHMAP_GET 0 1 w = Some ((true, 10), w) ∧
    HASHMAP_GET 0 2 w = Some ((false, 0), w).
Proof.
  eexists _, _. split; [vm_compute; reflexivity|].
  split; [vm_compute; reflexivity|]. by vm_compute.
Qed.

(** * The theorems at concrete inputs *)

(** Fourteen puts, with one growth of the table; key 3 is put twice. *)
Lemma get_after_puts_witness :
  ∃ w0 rs w,
    HASHMAP_INIT IntegerKey (blank []) = Some (0, w0) ∧
    puts (twelve ++ [(3, 33); (12, 12)]) w0 = Some (rs, w) ∧
    no_failure (trace w) = true ∧
    last_put 3 (twelve ++ [(3, 33); (12, 12)]) = Some 33 ∧
    _table_size (hm w) = 30 ∧
    Forall (λ r, r = 0) rs ∧
    HASHMAP_GET 0 3 w = Some ((true, 33), w).
Proof.
  eexists _, _, _.
  split; [vm_compute; reflexivity|]. split; [vm_compute; reflexivity|].
  split; [vm_compute; reflexivity|]. split; [vm_compute; reflexivity|].
  split; [vm_compute; reflexivity|].
  eapply (get_after_puts [] (twelve ++ [(3, 33); (12, 12)]));
    [vm_compute; reflexivity..].
Defined.

(** Thirty puts of distinct keys, with two growths of the table. *)
Lemma list_keeps_insertion_order_witness :
  ∃ w0 rs w,
    HASHMAP_INIT IntegerKey (blank []) = Some (0, w0) ∧
    puts (first_keys 30) w0 = Some (rs, w) ∧
    no_failure (trace w) = true ∧
    NoDup (first_keys 30).*1 ∧
    _table_size (hm w) = 60 ∧
    ll_traverse w = Some (first_keys 30).
Proof.
  assert (NoDup (first_keys 30).*1) as Hnd.
  { apply (bool_decide_unpack _). vm_compute. exact I. }
  eexists _, _, _.
  split; [vm_compute; reflexivity|]. split; [vm_compute; reflexivity|].
  split; [vm_compute; reflexivity|]. split; [exact Hnd|].
  split; [vm_compute; reflexivity|].
  eapply (list_keeps_insertion_order [] (first_keys 30));
    [vm_compute; reflexivity..|exact Hnd].
Defined.

(** A get of key 99 after the puts of keys 1 and 16, which share a bucket. *)
Lemma get_absent_key_witness :
  ∃ w0 rs w T,
    HASHMAP_INIT IntegerKey (blank []) = Some (0, w0) ∧
    puts [(1, 10); (16, 160)] w0 = Some (rs, w) ∧
    table_traverse w = Some T ∧
    (99 ∉ (concat T).*1) ∧
    HASHMAP_GET 7 99 w = Some ((false, 7), w).
Proof.
  eexists _, _, _, _.
  split; [vm_compute; reflexivity|]. split; [vm_compute; reflexivity|].
  split; [vm_compute; reflexivity|].
  assert (99 ∉ [1; 16]) as Hk.
  { apply (bool_decide_unpack _). vm_compute. exact I. }
  split; [exact Hk|].
  eapply (get_absent_key [] [(1, 10); (16, 160)]);
    [vm_compute; reflexivity..|exact Hk].
Defined.

(** A put that updates key 1 in place: the counter goes from 1 to 2. *)
Lemma put_counts_every_call_witness :
  ∃ w0 rs w,
    HASHMAP_INIT IntegerKey (blank []) = Some (0, w0) ∧
    puts [(1, 10)] w0 = Some (rs, w) ∧
    _num_entries (hm w) = 1 ∧
    ∃ r w',
      HASHMAP_PUT 1 11 w = Some (r, w') ∧
      _num_entries (hm w') = to_size_t (_num_entries (hm w) + 1) ∧
      (_num_entries (hm w) < SIZE_MAX →
       _num_entries (hm w') = _num_entries (hm w) + 1).
Proof.
  eexists _, _, _.
  split; [vm_compute; reflexivity|]. split; [vm_compute; reflexivity|].
  split; [vm_compute; reflexivity|].
  eapply (put_counts_every_call [] [(1, 10)]); [vm_compute; reflexivity..].
Defined.

(** The growth after twelve puts, with a rehash that fails at once. *)
Lemma old_table_freed_after_rehash_witness :
  ∃ w0 rs w,
    HASHMAP_INIT IntegerKey (blank (replicate 26 true ++ [false])) = Some (0, w0) ∧
    puts twelve w0 = Some (rs, w) ∧
    ∃ r w' evs,
      _HASHMAP_INCREASE_SIZE w = Some (r, w') ∧ trace w' = trace w ++ evs ∧
      (r = 0 ∨ r = -1) ∧
      ((evs = [Calloc Table NULL] ∧ r = -1 ∧ tables w' = tables w)
       ∨
       (∃ evs_r,
          evs = Calloc Table (brk w) :: evs_r ++ [Free Table (_entry_table (hm w))] ∧
          Forall (λ ev, event_kind ev = Entry) evs_r)).
Proof.
  eexists _, _, _.
  split; [vm_compute; reflexivity|]. split; [vm_compute; reflexivity|].
  eapply (old_table_freed_after_rehash (replicate 26 true ++ [false]) twelve);
    [vm_compute; reflexivity..].
Defined.

(** The key -1 in a table of 15 buckets. *)
Lemma hash_long_long_in_range_witness :
  0 < 15 ∧
  ∃ i, _hash_long_long 15 (-1) = Some i ∧
       i = (-1 mod 2 ^ 64) mod 15 ∧ 0 ≤ i < 15.
Proof.
  split; [lia|]. apply (hash_long_long_in_range 15 (-1)). lia.
Defined.

(** Key 1 is put twice, before and after key 2. *)
Lemma list_orders_keys_by_first_put_witness :
  ∃ w0 rs w,
    HASHMAP_INIT IntegerKey (blank []) = Some (0, w0) ∧
    puts [(1, 10); (2, 20); (1, 11); (3, 30)] w0 = Some (rs, w) ∧
    no_failure (trace w) = true ∧
    first_put_order [(1, 10); (2, 20); (1, 11); (3, 30)].*1 = [1; 2; 3] ∧
    ∃ l, ll_traverse w = Some l ∧
         l.*1 = first_put_order [(1, 10); (2, 20); (1, 11); (3, 30)].*1 ∧
         Forall (λ kv, last_put kv.1 [(1, 10); (2, 20); (1, 11); (3, 30)]
                       = Some kv.2) l.
Proof.
  eexists _, _, _.
  split; [vm_compute; reflexivity|]. split; [vm_compute; reflexivity|].
  split; [vm_compute; reflexivity|]. split; [vm_compute; reflexivity|].
  eapply (list_orders_keys_by_first_put [] [(1, 10); (2, 20); (1, 11); (3, 30)]);
    [vm_compute; reflexivity..].
Defined.

(** Keys 1 and 16 share bucket 1. *)
Lemma chains_hold_the_pairs_of_the_list_witness :
  ∃ w0 rs w,
    HASHMAP_INIT IntegerKey (blank []) = Some (0, w0) ∧
    puts [(1, 10); (16, 160); (2, 20)] w0 = Some (rs, w) ∧
    no_failure (trace w) = true ∧
    ∃ l T, ll_traverse w = Some l ∧ table_traverse w = Some T ∧
           concat T ≡ₚ l ∧ NoDup l.*1.
Proof.
  eexists _, _, _.
  split; [vm_compute; reflexivity|]. split; [vm_compute; reflexivity|].
  split; [vm_compute; reflexivity|].
  eapply (chains_hold_the_pairs_of_the_list [] [(1, 10); (16, 160); (2, 20)]);
    [vm_compute; reflexivity..].
Defined.

(** Thirteen puts: the entries were rehashed into a table of 30 buckets. *)
Lemma entries_are_in_their_home_bucket_witness :
  ∃ w0 rs w,
    HASHMAP_INIT IntegerKey (blank []) = Some (0, w0) ∧
    puts (twelve ++ [(16, 160)]) w0 = Some (rs, w) ∧
    _table_size (hm w) = 30 ∧
    ∃ T, table_traverse w = Some T ∧
         Z.of_nat (length T) = _table_size (hm w) ∧
         NoDup (concat T).*1 ∧
         ∀ i b kv, T !! i = Some b → kv ∈ b →
                   call_hash (hash_func (hm w)) (_table_size (hm w)) kv.1
                   = Some (Z.of_nat i).
Proof.
  eexists _, _, _.
  split; [vm_compute; reflexivity|]. split; [vm_compute; reflexivity|].
  split; [vm_compute; reflexivity|].
  eapply (entries_are_in_their_home_bucket [] (twelve ++ [(16, 160)]));
    [vm_compute; reflexivity..].
Defined.

(** A get of key 16, the second entry of its chain. *)
Lemma get_agrees_with_the_chains_witness :
  ∃ w0 rs w,
    HASHMAP_INIT IntegerKey (blank []) = Some (0, w0) ∧
    puts [(1, 10); (16, 160)] w0 = Some (rs, w) ∧
    ∃ T, table_traverse w = Some T ∧
         (∃ found, HASHMAP_GET 0 16 w = Some (found, w)) ∧
         ∀ v, HASHMAP_GET 0 16 w = Some ((true, v), w) ↔ (16, v) ∈ concat T.
Proof.
  eexists _, _, _.
  split; [vm_compute; reflexivity|]. split; [vm_compute; reflexivity|].
  eapply (get_agrees_with_the_chains [] [(1, 10); (16, 160)]);
    [vm_compute; reflexivity..].
Defined.

(** The put of key 31 goes to the chain of keys 1 and 16. *)
Lemma put_keeps_the_other_keys_witness :
  ∃ w0 rs w r w',
    HASHMAP_INIT IntegerKey (blank []) = Some (0, w0) ∧
    puts [(1, 10); (16, 160)] w0 = Some (rs, w) ∧
    HASHMAP_PUT 31 310 w = Some (r, w') ∧
    no_failure (trace w') = true ∧
    16 ≠ 31 ∧
    ∃ found, HASHMAP_GET 0 16 w = Some (found, w) ∧
             HASHMAP_GET 0 16 w' = Some (found, w').
Proof.
  eexists _, _, _, _, _.
  split; [vm_compute; reflexivity|]. split; [vm_compute; reflexivity|].
  split; [vm_compute; reflexivity|]. split; [vm_compute; reflexivity|].
  split; [lia|].
  eapply (put_keeps_the_other_keys [] [(1, 10); (16, 160)] _ _ _ 31 310);
    [vm_compute; reflexivity..|lia].
Defined.

(** A growth from 15 to 30 buckets, where keys 1 and 16 part. *)
Lemma growth_keeps_the_map_witness :
  ∃ w0 rs w w',
    HASHMAP_INIT IntegerKey (blank []) = Some (0, w0) ∧
    puts [(1, 10); (16, 160)] w0 = Some (rs, w) ∧
    no_failure (trace w) = true ∧
    _HASHMAP_INCREASE_SIZE w = Some (0, w') ∧
    _table_size (hm w') = 2 * _table_size (hm w) ∧
    _num_entries (hm w') = _num_entries (hm w) ∧
    ll_nodes w' = ll_nodes w ∧
    ll_traverse w' = ll_traverse w ∧
    ∀ k result, ∃ found, HASHMAP_GET result k w = Some (found, w) ∧
                         HASHMAP_GET result k w' = Some (found, w').
Proof.
  eexists _, _, _, _.
  split; [vm_compute; reflexivity|]. split; [vm_compute; reflexivity|].
  split; [vm_compute; reflexivity|]. split; [vm_compute; reflexivity|].
  eapply (growth_keeps_the_map [] [(1, 10); (16, 160)]);
    [vm_compute; reflexivity..].
Defined.

(** Thirteen puts of the keys 0 to 11, key 3 twice: one key less than
    puts, and the table has grown as for thirteen keys. *)
Lemma capacity_depends_on_the_number_of_puts_witness :
  ∃ w0 rs w,
    HASHMAP_INIT IntegerKey (blank []) = Some (0, w0) ∧
    puts (twelve ++ [(3, 33)]) w0 = Some (rs, w) ∧
    no_failure (trace w) = true ∧
    capacity_after (length (twelve ++ [(3, 33)])) = 30 ∧
    _table_size (hm w) = capacity_after (length (twelve ++ [(3, 33)])).
Proof.
  eexists _, _, _.
  split; [vm_compute; reflexivity|]. split; [vm_compute; reflexivity|].
  split; [vm_compute; reflexivity|]. split; [vm_compute; reflexivity|].
  eapply (capacity_depends_on_the_number_of_puts [] (twelve ++ [(3, 33)]));
    [vm_compute; reflexivity..].
Defined.

(** Thirteen puts, one growth. *)
Lemma table_size_is_15_times_a_power_of_two_witness :
  ∃ w0 rs w,
    HASHMAP_INIT IntegerKey (blank []) = Some (0, w0) ∧
    puts (twelve ++ [(12, 12)]) w0 = Some (rs, w) ∧
    ∃ g : nat, (g ≤ length (twelve ++ [(12%Z, 12%Z)]))%nat ∧
               _table_size (hm w) = 15 * 2 ^ Z.of_nat g.
Proof.
  eexists _, _, _.
  split; [vm_compute; reflexivity|]. split; [vm_compute; reflexivity|].
  eapply (table_size_is_15_times_a_power_of_two [] (twelve ++ [(12, 12)]));
    [vm_compute; reflexivity..].
Defined.

(** A get of key 99, which the map does not hold. *)
Lemma get_changes_nothing_witness :
  ∃ w0 rs w found w',
    HASHMAP_INIT IntegerKey (blank []) = Some (0, w0) ∧
    puts [(1, 10)] w0 = Some (rs, w) ∧
    HASHMAP_GET 7 99 w = Some (found, w') ∧
    w' = w ∧ (found.1 = false → found.2 = 7).
Proof.
  eexists _, _, _, _, _.
  split; [vm_compute; reflexivity|]. split; [vm_compute; reflexivity|].
  split; [vm_compute; reflexivity|].
  eapply (get_changes_nothing 7 99); vm_compute; reflexivity.
Defined.

(** The free of a map of two entries. *)
Lemma free_releases_the_list_and_the_table_witness :
  ∃ w0 rs w,
    HASHMAP_INIT IntegerKey (blank []) = Some (0, w0) ∧
    puts [(1, 10); (2, 20)] w0 = Some (rs, w) ∧
    ∃ ns es w',
      ll_nodes w = Some ns ∧ ll_entries w = Some es ∧
      HASHMAP_FREE w = Some (tt, w') ∧
      trace w' = trace w ++ (Free Entry <$> es)
                   ++ [Free Table (_entry_table (hm w))] ++ (Free Node <$> ns) ∧
      hm w' = hm w ∧
      (∀ a, entries w' !! a = if decide (a ∈ es) then None else entries w !! a) ∧
      (∀ n, nodes w' !! n = if decide (n ∈ ns) then None else nodes w !! n) ∧
      tables w' = delete (_entry_table (hm w)) (tables w).
Proof.
  eexists _, _, _.
  split; [vm_compute; reflexivity|]. split; [vm_compute; reflexivity|].
  eapply (free_releases_the_list_and_the_table [] [(1, 10); (2, 20)]);
    [vm_compute; reflexivity..].
Defined.

(** A second free, and a get, after the free of a map of one entry. *)
Lemma use_after_free_is_undefined_witness :
  ∃ w0 rs w w',
    HASHMAP_INIT IntegerKey (blank []) = Some (0, w0) ∧
    puts [(1, 10)] w0 = Some (rs, w) ∧
    HASHMAP_FREE w = Some (tt, w') ∧
    HASHMAP_FREE w' = None ∧ ∀ result k, HASHMAP_GET result k w' = None.
Proof.
  eexists _, _, _, _.
  split; [vm_compute; reflexivity|]. split; [vm_compute; reflexivity|].
  split; [vm_compute; reflexivity|].
  eapply (use_after_free_is_undefined [] [(1, 10)]); [vm_compute; reflexivity..].
Defined.

(** The free of a map of thirteen entries, after one growth. *)
Lemma free_leaves_nothing_allocated_witness :
  ∃ w0 rs w,
    HASHMAP_INIT IntegerKey (blank []) = Some (0, w0) ∧
    puts (twelve ++ [(12, 12)]) w0 = Some (rs, w) ∧
    no_failure (trace w) = true ∧
    ∃ w', HASHMAP_FREE w = Some (tt, w') ∧
          entries w' = ∅ ∧ nodes w' = ∅ ∧ tables w' = ∅.
Proof.
  eexists _, _, _.
  split; [vm_compute; reflexivity|]. split; [vm_compute; reflexivity|].
  split; [vm_compute; reflexivity|].
  eapply (free_leaves_nothing_allocated [] (twelve ++ [(12, 12)]));
    [vm_compute; reflexivity..].
Defined.

(** The put of key 2 finds memory for its entry and none for its node. *)
Lemma failed_node_allocation_leaks_the_entry_witness :
  ∃ w0 rs w,
    HASHMAP_INIT IntegerKey (blank [true; true; true; true; false]) = Some (0, w0) ∧
    puts [(1, 10)] w0 = Some (rs, w) ∧
    no_failure (trace w) = true ∧
    (2 ∉ [(1, 10)].*1) ∧
    double_ge (load_factor (hm w)) _LOAD_FACTOR_LIM = false ∧
    hd true (oracle w) = true ∧
    hd true (tl (oracle w)) = false ∧
    ∃ w' w'' e,
      HASHMAP_PUT 2 20 w = Some (-1, w') ∧
      HASHMAP_FREE w' = Some (tt, w'') ∧
      entries w'' !! brk w = Some e ∧ _entry e = {| key := 2; value := 20 |} ∧
      size (entries w'') = 1%nat ∧ nodes w'' = ∅ ∧ tables w'' = ∅.
Proof.
  assert (2 ∉ [(1, 10)].*1) as Hk.
  { apply (bool_decide_unpack _). vm_compute. exact I. }
  eexists _, _, _.
  split; [vm_compute; reflexivity|]. split; [vm_compute; reflexivity|].
  split; [vm_compute; reflexivity|]. split; [exact Hk|].
  split; [vm_compute; reflexivity|]. split; [vm_compute; reflexivity|].
  split; [vm_compute; reflexivity|].
  eapply (failed_node_allocation_leaks_the_entry
            [true; true; true; true; false] [(1, 10)]);
    [vm_compute; reflexivity|vm_compute; reflexivity|vm_compute; reflexivity
    |exact Hk|vm_compute; reflexivity..].
Defined.

(** The initialisation of a struct of an unknown state. *)
Lemma init_resets_the_struct_witness :
  heap_ok (blank [true]) ∧
  ∃ r w',
    HASHMAP_INIT FloatingPointKey (blank [true]) = Some (r, w') ∧
    _table_size (hm w') = 15 ∧ _num_entries (hm w') = 0 ∧
    _head (hm w') = NULL ∧ _tail (hm w') = NULL ∧
    entries w' = entries (blank [true]) ∧ nodes w' = nodes (blank [true]) ∧
    ((r = 0 ∧ _entry_table (hm w') = brk (blank [true]) ∧
      brk (blank [true]) ≠ NULL ∧
      trace w' = trace (blank [true]) ++ [Calloc Table (brk (blank [true]))] ∧
      tables w' = <[brk (blank [true]) := replicate 15 NULL]> (tables (blank [true])) ∧
      ll_traverse w' = Some [] ∧
      table_traverse w' = Some (replicate 15 []) ∧
      ∀ k result, HASHMAP_GET result k w' = Some ((false, result), w'))
     ∨
     (r = -1 ∧ _entry_table (hm w') = NULL ∧
      trace w' = trace (blank [true]) ++ [Calloc Table NULL] ∧
      tables w' = tables (blank [true]))).
Proof.
  split; [apply heap_ok_blank|].
  apply (init_resets_the_struct FloatingPointKey (blank [true])).
  apply heap_ok_blank.
Defined.

(** A table of 30 buckets and the pointer 4096. *)
Lemma hash_ptr_reaches_a_fraction_of_the_buckets_witness :
  0 < 30 < 2 ^ 63 ∧
  ∃ i, _hash_ptr 30 4096 = Some i ∧ 0 ≤ i < 30 ∧
       ((2 | 30) → (2 | i)) ∧
       (∀ d, (d | 6) → (d | 30) → 0 ≤ 4096 → 4096 * 6 < 2 ^ 64 → (d | i)).
Proof.
  split; [lia|]. apply (hash_ptr_reaches_a_fraction_of_the_buckets 30 4096). lia.
Defined.

(** The list after three puts. *)
Lemma list_is_doubly_linked_witness :
  ∃ w0 rs w,
    HASHMAP_INIT IntegerKey (blank []) = Some (0, w0) ∧
    puts (first_keys 3) w0 = Some (rs, w) ∧
    ∃ l, ll_nodes w = Some l ∧ ll_nodes_back w = Some (reverse l).
Proof.
  eexists _, _, _.
  split; [vm_compute; reflexivity|]. split; [vm_compute; reflexivity|].
  eapply (list_is_doubly_linked [] (first_keys 3)); [vm_compute; reflexivity..].
Defined.

(** An initialisation that finds no memory for the table. *)
Lemma failed_init_leaves_the_map_unusable_witness :
  ∃ w',
    heap_ok (blank [false]) ∧
    HASHMAP_INIT IntegerKey (blank [false]) = Some (-1, w') ∧
    (∀ k v, HASHMAP_PUT k v w' = None) ∧
    (∀ result k, HASHMAP_GET result k w' = None) ∧
    HASHMAP_FREE w' = Some (tt, w').
Proof.
  eexists. split; [apply heap_ok_blank|]. split; [vm_compute; reflexivity|].
  eapply (failed_init_leaves_the_map_unusable IntegerKey (blank [false]));
    [apply heap_ok_blank|vm_compute; reflexivity].
Defined.

(** The thirteenth put finds no memory for the table of 30 buckets. *)
Lemma growth_without_a_new_table_changes_nothing_witness :
  ∃ w0 rs w,
    HASHMAP_INIT IntegerKey (blank (replicate 25 true ++ [false])) = Some (0, w0) ∧
    puts twelve w0 = Some (rs, w) ∧
    double_ge (load_factor (hm w)) _LOAD_FACTOR_LIM = true ∧
    hd true (oracle w) = false ∧
    ∃ w', HASHMAP_PUT 12 12 w = Some (-1, w') ∧
          trace w' = trace w ++ [Calloc Table NULL] ∧
          hm w' = with_num_entries (to_size_t (_num_entries (hm w) + 1)) (hm w) ∧
          entries w' = entries w ∧ nodes w' = nodes w ∧ tables w' = tables w ∧
          ll_traverse w' = ll_traverse w ∧
          table_traverse w' = table_traverse w ∧
          ∀ k' result, ∃ found, HASHMAP_GET result k' w = Some (found, w) ∧
                                HASHMAP_GET result k' w' = Some (found, w').
Proof.
  eexists _, _, _.
  split; [vm_compute; reflexivity|]. split; [vm_compute; reflexivity|].
  split; [vm_compute; reflexivity|]. split; [vm_compute; reflexivity|].
  eapply (growth_without_a_new_table_changes_nothing
            (replicate 25 true ++ [false]) twelve);
    [vm_compute; reflexivity..].
Defined.

(** The thirteenth put finds the table of 30 buckets and no memory for the
    first entry of the rehash. *)
Lemma failed_rehash_loses_the_keys_witness :
  ∃ w0 rs w,
    HASHMAP_INIT IntegerKey (blank (replicate 25 true ++ [true; false])) = Some (0, w0) ∧
    puts twelve w0 = Some (rs, w) ∧
    twelve ≠ [] ∧
    no_failure (trace w) = true ∧
    double_ge (load_factor (hm w)) _LOAD_FACTOR_LIM = true ∧
    2 * _table_size (hm w) * sizeof_ptr ≤ SIZE_MAX ∧
    hd true (oracle w) = true ∧
    hd true (tl (oracle w)) = false ∧
    ∃ w', HASHMAP_PUT 12 12 w = Some (-1, w') ∧
          trace w' = trace w ++ [Calloc Table (brk w); Calloc Entry NULL;
                                 Free Table (_entry_table (hm w))] ∧
          _table_size (hm w') = 2 * _table_size (hm w) ∧
          ll_traverse w' = ll_traverse w ∧
          ll_traverse w ≠ Some [] ∧
          table_traverse w' = Some (replicate (Z.to_nat (2 * _table_size (hm w))) []) ∧
          ∀ k' result, HASHMAP_GET result k' w' = Some ((false, result), w').
Proof.
  eexists _, _, _.
  split; [vm_compute; reflexivity|]. split; [vm_compute; reflexivity|].
  split; [discriminate|].
  split; [vm_compute; reflexivity|]. split; [vm_compute; reflexivity|].
  split; [vm_compute; discriminate|].
  split; [vm_compute; reflexivity|]. split; [vm_compute; reflexivity|].
  eapply (failed_rehash_loses_the_keys
            (replicate 25 true ++ [true; false]) twelve);
    [vm_compute; reflexivity|vm_compute; reflexivity|discriminate
    |vm_compute; reflexivity|vm_compute; reflexivity|vm_compute; discriminate
    |vm_compute; reflexivity..].
Defined.

(** The search for key 16, put after key 1 in the same chain. *)
Lemma find_entry_record_leads_to_the_entry_witness :
  ∃ w0 rs w,
    HASHMAP_INIT IntegerKey (blank []) = Some (0, w0) ∧
    puts [(1, 10); (16, 160); (1, 11)] w0 = Some (rs, w) ∧
    no_failure (trace w) = true ∧
    last_put 16 [(1, 10); (16, 160); (1, 11)] = Some 160 ∧
    ∃ s p, _HASHMAP_FIND_ENTRY_RECORD 16 w = Some (s, w) ∧
           load_slot s w = Some (p, w) ∧
           match last_put 16 [(1, 10); (16, 160); (1, 11)] with
           | Some v => ∃ e, entries w !! p = Some e ∧
                            _entry e = {| key := 16; value := v |}
           | None => p = NULL
           end.
Proof.
  eexists _, _, _.
  split; [vm_compute; reflexivity|]. split; [vm_compute; reflexivity|].
  split; [vm_compute; reflexivity|]. split; [vm_compute; reflexivity|].
  eapply (find_entry_record_leads_to_the_entry [] [(1, 10); (16, 160); (1, 11)]);
    [vm_compute; reflexivity..].
Defined.

(** Node 6, newly allocated, is linked between the nodes 3 and 5. *)
Lemma ll_add_after_links_the_node_behind_witness :
  ∃ w0 rs w w1,
    HASHMAP_INIT IntegerKey (blank []) = Some (0, w0) ∧
    puts [(1, 10); (2, 20)] w0 = Some (rs, w) ∧
    calloc_node w = Some (6, w1) ∧
    walks w1 ([] ++ 3 :: [5]) ∧
    nodes w1 !! 6 = Some zero_node ∧ (6 ∉ [] ++ 3 :: [5]) ∧ 6 ≠ NULL ∧
    ∃ w', _HASHMAP_LL_ADD_AFTER 3 6 w1 = Some (tt, w') ∧
          walks w' ([] ++ 3 :: 6 :: [5]) ∧
          list_frame w1 w' ∧ trace w' = trace w1.
Proof.
  assert (6 ∉ [] ++ 3 :: [5]) as Hk.
  { apply (bool_decide_unpack _). vm_compute. exact I. }
  eexists _, _, _, _.
  split; [vm_compute; reflexivity|]. split; [vm_compute; reflexivity|].
  split; [vm_compute; reflexivity|].
  split; [split; vm_compute; reflexivity|].
  split; [vm_compute; reflexivity|]. split; [exact Hk|]. split; [done|].
  eapply (ll_add_after_links_the_node_behind _ [] 3 [5] 6 zero_node);
    [split; vm_compute; reflexivity|vm_compute; reflexivity|exact Hk|done].
Defined.

(** Node 6, newly allocated, is linked between the nodes 3 and 5. *)
Lemma ll_add_before_links_the_node_in_front_witness :
  ∃ w0 rs w w1,
    HASHMAP_INIT IntegerKey (blank []) = Some (0, w0) ∧
    puts [(1, 10); (2, 20)] w0 = Some (rs, w) ∧
    calloc_node w = Some (6, w1) ∧
    walks w1 ([3] ++ 5 :: []) ∧
    nodes w1 !! 6 = Some zero_node ∧ (6 ∉ [3] ++ 5 :: []) ∧ 6 ≠ NULL ∧
    ∃ w', _HASHMAP_LL_ADD_BEFORE 5 6 w1 = Some (tt, w') ∧
          walks w' ([3] ++ 6 :: 5 :: []) ∧
          list_frame w1 w' ∧ trace w' = trace w1.
Proof.
  assert (6 ∉ [3] ++ 5 :: []) as Hk.
  { apply (bool_decide_unpack _). vm_compute. exact I. }
  eexists _, _, _, _.
  split; [vm_compute; reflexivity|]. split; [vm_compute; reflexivity|].
  split; [vm_compute; reflexivity|].
  split; [split; vm_compute; reflexivity|].
  split; [vm_compute; reflexivity|]. split; [exact Hk|]. split; [done|].
  eapply (ll_add_before_links_the_node_in_front _ [3] 5 [] 6 zero_node);
    [split; vm_compute; reflexivity|vm_compute; reflexivity|exact Hk|done].
Defined.

(** Node 6, newly allocated, is linked before the nodes 3 and 5. *)
Lemma ll_add_head_links_the_node_first_witness :
  ∃ w0 rs w w1,
    HASHMAP_INIT IntegerKey (blank []) = Some (0, w0) ∧
    puts [(1, 10); (2, 20)] w0 = Some (rs, w) ∧
    calloc_node w = Some (6, w1) ∧
    walks w1 [3; 5] ∧
    nodes w1 !! 6 = Some zero_node ∧ (6 ∉ [3; 5]) ∧ 6 ≠ NULL ∧
    ∃ w', _HASHMAP_LL_ADD_HEAD 6 w1 = Some (tt, w') ∧
          walks w' (6 :: [3; 5]) ∧ _head (hm w') = 6 ∧
          ([3; 5] = [] → _tail (hm w') = 6) ∧
          list_frame w1 w' ∧ trace w' = trace w1.
Proof.
  assert (6 ∉ [3; 5]) as Hk.
  { apply (bool_decide_unpack _). vm_compute. exact I. }
  eexists _, _, _, _.
  split; [vm_compute; reflexivity|]. split; [vm_compute; reflexivity|].
  split; [vm_compute; reflexivity|].
  split; [split; vm_compute; reflexivity|].
  split; [vm_compute; reflexivity|]. split; [exact Hk|]. split; [done|].
  eapply (ll_add_head_links_the_node_first _ [3; 5] 6 zero_node);
    [split; vm_compute; reflexivity|vm_compute; reflexivity|exact Hk|done].
Defined.

(** Node 6, newly allocated, is linked behind the nodes 3 and 5. *)
Lemma ll_add_tail_links_the_node_last_witness :
  ∃ w0 rs w w1,
    HASHMAP_INIT IntegerKey (blank []) = Some (0, w0) ∧
    puts [(1, 10); (2, 20)] w0 = Some (rs, w) ∧
    calloc_node w = Some (6, w1) ∧
    walks w1 [3; 5] ∧
    nodes w1 !! 6 = Some zero_node ∧ (6 ∉ [3; 5]) ∧ 6 ≠ NULL ∧
    ∃ w', _HASHMAP_LL_ADD_TAIL 6 w1 = Some (tt, w') ∧
          walks w' ([3; 5] ++ [6]) ∧ _tail (hm w') = 6 ∧
          ([3; 5] = [] → _head (hm w') = 6) ∧
          list_frame w1 w' ∧ trace w' = trace w1.
Proof.
  assert (6 ∉ [3; 5]) as Hk.
  { apply (bool_decide_unpack _). vm_compute. exact I. }
  eexists _, _, _, _.
  split; [vm_compute; reflexivity|]. split; [vm_compute; reflexivity|].
  split; [vm_compute; reflexivity|].
  split; [split; vm_compute; reflexivity|].
  split; [vm_compute; reflexivity|]. split; [exact Hk|]. split; [done|].
  eapply (ll_add_tail_links_the_node_last _ [3; 5] 6 zero_node);
    [split; vm_compute; reflexivity|vm_compute; reflexivity|exact Hk|done].
Defined.

(** The middle node of the list of the nodes 3, 5 and 7 is removed. *)
Lemma ll_remove_unlinks_and_frees_the_node_witness :
  ∃ w0 rs w,
    HASHMAP_INIT IntegerKey (blank []) = Some (0, w0) ∧
    puts [(1, 10); (2, 20); (3, 30)] w0 = Some (rs, w) ∧
    walks w ([3] ++ 5 :: [7]) ∧
    ∃ w', _HASHMAP_LL_REMOVE 5 w = Some (tt, w') ∧
          walks w' ([3] ++ [7]) ∧
          nodes w' !! 5 = None ∧
          trace w' = trace w ++ [Free Node 5] ∧
          entries w' = entries w ∧ tables w' = tables w ∧
          same_table_fields (hm w) (hm w') ∧
          ∀ n, n ≠ 5 →
               _table_entry <$> nodes w' !! n = _table_entry <$> nodes w !! n.
Proof.
  eexists _, _, _.
  split; [vm_compute; reflexivity|]. split; [vm_compute; reflexivity|].
  split; [split; vm_compute; reflexivity|].
  eapply (ll_remove_unlinks_and_frees_the_node _ [3] 5 [7]).
  split; vm_compute; reflexivity.
Defined.

(** Node 6 is linked behind the nodes 3 and 5, and removed. *)
Lemma ll_add_tail_then_remove_restores_the_list_witness :
  ∃ w0 rs w w1,
    HASHMAP_INIT IntegerKey (blank []) = Some (0, w0) ∧
    puts [(1, 10); (2, 20)] w0 = Some (rs, w) ∧
    calloc_node w = Some (6, w1) ∧
    walks w1 [3; 5] ∧
    nodes w1 !! 6 = Some zero_node ∧ (6 ∉ [3; 5]) ∧ 6 ≠ NULL ∧
    ∃ w', (_HASHMAP_LL_ADD_TAIL 6 ;;; _HASHMAP_LL_REMOVE 6) w1 = Some (tt, w') ∧
          walks w' [3; 5] ∧ _head (hm w') = _head (hm w1) ∧
          _tail (hm w') = _tail (hm w1) ∧
          nodes w' !! 6 = None ∧ trace w' = trace w1 ++ [Free Node 6].
Proof.
  assert (6 ∉ [3; 5]) as Hk.
  { apply (bool_decide_unpack _). vm_compute. exact I. }
  eexists _, _, _, _.
  split; [vm_compute; reflexivity|]. split; [vm_compute; reflexivity|].
  split; [vm_compute; reflexivity|].
  split; [split; vm_compute; reflexivity|].
  split; [vm_compute; reflexivity|]. split; [exact Hk|]. split; [done|].
  eapply (ll_add_tail_then_remove_restores_the_list _ [3; 5] 6 zero_node);
    [split; vm_compute; reflexivity|vm_compute; reflexivity|exact Hk|done].
Defined.

(** A second put of key 3 after the twelve puts: it makes the table grow. *)
Lemma second_put_keeps_the_nodes_witness :
  ∃ w0 rs w,
    HASHMAP_INIT IntegerKey (blank []) = Some (0, w0) ∧
    puts twelve w0 = Some (rs, w) ∧
    no_failure (trace w) = true ∧
    3 ∈ twelve.*1 ∧
    ∃ r w' evs T T',
      HASHMAP_PUT 3 33 w = Some (r, w') ∧ trace w' = trace w ++ evs ∧
      ll_nodes w' = ll_nodes w ∧
      table_traverse w = Some T ∧ table_traverse w' = Some T' ∧
      NoDup (concat T').*1 ∧
      (r = 0 →
       (concat T').*1 ≡ₚ (concat T).*1 ∧ (3, 33) ∈ concat T' ∧
       HASHMAP_GET 0 3 w' = Some ((true, 33), w')) ∧
      (double_ge (load_factor (hm w)) _LOAD_FACTOR_LIM = false →
       evs = [] ∧ r = 0).
Proof.
  assert (3 ∈ twelve.*1) as Hk.
  { apply (bool_decide_unpack _). vm_compute. exact I. }
  eexists _, _, _.
  split; [vm_compute; reflexivity|]. split; [vm_compute; reflexivity|].
  split; [vm_compute; reflexivity|]. split; [exact Hk|].
  eapply (second_put_keeps_the_nodes [] twelve);
    [vm_compute; reflexivity..|exact Hk].
Defined.

(** A second put of key 3 after the twelve puts, with memory granted: the
    load factor is 12/15, so the table grows. *)
Lemma second_put_same_key_witness :
  ∃ w0 rs w,
    HASHMAP_INIT IntegerKey (blank []) = Some (0, w0) ∧
    puts twelve w0 = Some (rs, w) ∧
    no_failure (trace w) = true ∧
    3 ∈ twelve.*1 ∧
    double_ge (load_factor (hm w)) _LOAD_FACTOR_LIM = true ∧
    granted w ∧ 2 * _table_size (hm w) * sizeof_ptr ≤ SIZE_MAX ∧
    ∃ w' evs l es es' T',
      HASHMAP_PUT 3 33 w = Some (0, w') ∧ trace w' = trace w ++ evs ∧
      Forall (λ ev, event_kind ev ≠ Node) evs ∧
      ll_nodes w' = ll_nodes w ∧
      ll_traverse w = Some l ∧ NoDup l.*1 ∧ 3 ∈ l.*1 ∧
      ll_traverse w' = Some (set_pair 3 33 <$> l) ∧
      table_traverse w' = Some T' ∧ concat T' ≡ₚ set_pair 3 33 <$> l ∧
      HASHMAP_GET 0 3 w' = Some ((true, 33), w') ∧
      live Entry w' = live Entry w ∧ live Node w' = live Node w ∧
      live Table w' = live Table w ∧
      _num_entries (hm w') = to_size_t (_num_entries (hm w) + 1) ∧
      ll_entries w = Some es ∧ ll_entries w' = Some es' ∧
      (double_ge (load_factor (hm w)) _LOAD_FACTOR_LIM = false →
       evs = [] ∧ es' = es ∧
       _table_size (hm w') = _table_size (hm w) ∧
       _entry_table (hm w') = _entry_table (hm w) ∧
       ∃ a e, a ∈ es ∧ entries w !! a = Some e ∧ key (_entry e) = 3 ∧
              entries w' = <[a := with_value 33 e]> (entries w) ∧
              nodes w' = nodes w ∧ tables w' = tables w) ∧
      (double_ge (load_factor (hm w)) _LOAD_FACTOR_LIM = true →
       _table_size (hm w') = 2 * _table_size (hm w) ∧
       (∃ evs_r,
          evs = Calloc Table (brk w) :: evs_r
                  ++ [Free Table (_entry_table (hm w))] ∧
          Forall (λ ev, event_kind ev = Entry) evs_r ∧
          no_failure evs_r = true) ∧
       length es' = length es ∧
       Forall (λ a, brk w < a) es' ∧
       (∀ a, is_Some (entries w !! a) → entries w' !! a = None)).
Proof.
  assert (3 ∈ twelve.*1) as Hk.
  { apply (bool_decide_unpack _). vm_compute. exact I. }
  eexists _, _, _.
  split; [vm_compute; reflexivity|]. split; [vm_compute; reflexivity|].
  split; [vm_compute; reflexivity|]. split; [exact Hk|].
  split; [vm_compute; reflexivity|].
  split; [vm_compute; constructor|].
  split; [vm_compute; discriminate|].
  eapply (second_put_same_key [] twelve);
    [vm_compute; reflexivity| vm_compute; reflexivity| vm_compute; reflexivity
    |exact Hk
    |intros _; split; [vm_compute; constructor|vm_compute; discriminate]].
Defined.

(** The thirteenth put after the twelve puts, with memory granted: 3 * 15 is
    at most 4 * 12, and the table goes from 15 cells to 30. *)
Lemma growth_trigger_and_doubling_witness :
  ∃ w0 rs w,
    HASHMAP_INIT IntegerKey (blank []) = Some (0, w0) ∧
    puts twelve w0 = Some (rs, w) ∧
    _num_entries (hm w) = 12 ∧ _table_size (hm w) = 15 ∧
    _num_entries (hm w) < 2 ^ 53 ∧ _table_size (hm w) < 2 ^ 52 ∧
    hd true (oracle w) = true ∧
    ∃ r w' evs cells,
      _table_size (hm w') = 30 ∧ length cells = 30%nat ∧
      HASHMAP_PUT 12 12 w = Some (r, w') ∧ trace w' = trace w ++ evs ∧
      tables w' !! _entry_table (hm w') = Some cells ∧
      Z.of_nat (length cells) = _table_size (hm w') ∧
      double_ge (load_factor (hm w)) _LOAD_FACTOR_LIM
      = (3 * _table_size (hm w) <=? 4 * _num_entries (hm w)) ∧
      existsb asks_table evs
      = (3 * _table_size (hm w) <=? 4 * _num_entries (hm w)) ∧
      (4 * _num_entries (hm w) < 3 * _table_size (hm w) →
       _table_size (hm w') = _table_size (hm w) ∧
       _entry_table (hm w') = _entry_table (hm w)) ∧
      (3 * _table_size (hm w) ≤ 4 * _num_entries (hm w) →
       hd true (oracle w) = true →
       ∃ evs', evs = Calloc Table (brk w) :: evs' ∧
               existsb asks_table evs' = false ∧
               _table_size (hm w') = 2 * _table_size (hm w)) ∧
      (3 * _table_size (hm w) ≤ 4 * _num_entries (hm w) →
       hd true (oracle w) = false →
       evs = [Calloc Table NULL] ∧ r = -1 ∧
       _table_size (hm w') = _table_size (hm w) ∧
       _entry_table (hm w') = _entry_table (hm w) ∧
       entries w' = entries w ∧ nodes w' = nodes w ∧ tables w' = tables w).
Proof.
  eexists _, _, _.
  split; [vm_compute; reflexivity|]. split; [vm_compute; reflexivity|].
  split; [vm_compute; reflexivity|]. split; [vm_compute; reflexivity|].
  split; [vm_compute; reflexivity|]. split; [vm_compute; reflexivity|].
  split; [vm_compute; reflexivity|].
  match goal with
  | |- ∃ r w' evs cells, _ ∧ _ ∧ HASHMAP_PUT _ _ ?w = _ ∧ _ =>
      destruct (growth_trigger_and_doubling [] twelve
                  (default w (snd <$> HASHMAP_INIT IntegerKey (blank [])))
                  (replicate 12 0) w 12 12)
        as (r & w' & evs & cells & Hrun & Htrace & Hcells & Hlen & Hload
            & Hasks & Hstable & Hgrow & Hrefused);
        [vm_compute; reflexivity..|]
  end.
  destruct (Hgrow ltac:(vm_compute; discriminate) ltac:(vm_compute; reflexivity))
    as (evs' & Hevs & Hevs' & Hsize).
  exists r, w', evs, cells.
  split; [rewrite Hsize; vm_compute; reflexivity|].
  split; [apply Nat2Z.inj; rewrite Hlen, Hsize; vm_compute; reflexivity|].
  split; [done|]. split; [done|]. split; [done|]. split; [done|].
  split; [done|]. split; [done|]. split; [done|]. split; done.
Defined.

(** 45 entries in 60 buckets: the quotient is 0.75 and the test holds. *)
Lemma load_factor_test_is_exact_witness :
  (0 ≤ _num_entries three_quarters < 2 ^ 53) ∧
  (0 < _table_size three_quarters < 2 ^ 52) ∧
  double_ge (load_factor three_quarters) _LOAD_FACTOR_LIM = true ∧
  double_ge (load_factor three_quarters) _LOAD_FACTOR_LIM
  = (3 * _table_size three_quarters <=? 4 * _num_entries three_quarters).
Proof.
  split; [by vm_compute|]. split; [by vm_compute|].
  split; [vm_compute; reflexivity|].
  apply (load_factor_test_is_exact three_quarters); by vm_compute.
Defined.
